(** * Nest: ordering, hierarchy and record-store client of the reminders list

    A shallow embedding of the TypeScript sources of the repository
    (the record-store client [lib/supabase/rest.ts] and the variants of
    [components/todo-app.tsx]) together with the properties of the
    specification that can be stated over it.

    Conventions.
    - A JavaScript [number] used as an index or rank is a [Z]; list lengths
      and loop counters that the code never lets go negative are [nat].
    - [string | null] is [option string]; JavaScript truthiness of such a
      value is written out ([truthy]): [null] and the empty string are falsy.
    - Arrays are lists; [Array.prototype.splice] is modelled with its
      clamping of the start index.
    - A JavaScript string is kept as its UTF-8 bytes ([string]); equality
      is equality of the bytes, and the white space of [trim] is recognised
      on them.
    - [new Map(items.map(t => [t.id, t]))] keeps the LAST entry of a
      duplicated key; [byId_get] looks the list up from the right.
    - A network call is a request handed to an oracle [Net] that answers
      with a [Response]; a handler returns the requests it issued and the
      state it leaves behind once all its awaits have settled.
    - A loop or a recursion that the source does not bound takes a [fuel]
      argument and has no result when the fuel runs out; that enough fuel
      gives a result is proved where it holds.

    The first part of the properties follows the specification; the second
    part ("Further properties of the code") covers what the sources do
    besides: the remaining calls of the client, the handlers of the flat
    list, the keyboard drag, the block moves, the depth maps, the visible
    list with collapsing, the selection keys, and nesting and unnesting in
    both outline variants. *)

From Stdlib Require Import String Ascii.
From Stdlib Require Import List ZArith Lia Bool Arith Permutation.
Import ListNotations.
Local Open Scope string_scope.
Local Open Scope list_scope.

Set Implicit Arguments.

(* ================================================================== *)
(** ** Data model *)
(* ================================================================== *)

(** [interface TodoRecord] of [lib/supabase/rest.ts]. *)
Record TodoRecord : Type := mkTodo {
  id : string;
  title : string;
  is_completed : bool;
  position : Z;
  parent_id : option string;
  created_at : string;
  updated_at : string
}.

(** [{ ...todo, position: p }] *)
Definition with_position (todo : TodoRecord) (p : Z) : TodoRecord :=
  mkTodo (id todo) (title todo) (is_completed todo) p (parent_id todo)
         (created_at todo) (updated_at todo).

(** [{ ...todo, parent_id: p }] *)
Definition with_parent (todo : TodoRecord) (p : option string) : TodoRecord :=
  mkTodo (id todo) (title todo) (is_completed todo) (position todo) p
         (created_at todo) (updated_at todo).

(** JavaScript truthiness of a [string | null]. *)
Definition truthy (v : option string) : bool :=
  match v with
  | None => false
  | Some s => negb (s =? "")
  end.

(** [a === b] on [string | null]. *)
Definition opt_eqb (a b : option string) : bool :=
  match a, b with
  | None, None => true
  | Some x, Some y => x =? y
  | _, _ => false
  end.

(* ================================================================== *)
(** ** Array primitives *)
(* ================================================================== *)

Module JsArray.

Section Generic.
Variable A : Type.

(** [items.findIndex(p)], [-1] when no element satisfies [p]. *)
Fixpoint findIndexFrom (p : A -> bool) (k : nat) (l : list A) : Z :=
  match l with
  | [] => (-1)%Z
  | x :: r => if p x then Z.of_nat k else findIndexFrom p (S k) r
  end.

Definition findIndex (p : A -> bool) (l : list A) : Z := findIndexFrom p 0 l.

(** The start index of [splice] after clamping: a negative start counts
    from the end, and the result is kept within [0 .. length]. *)
Definition spliceStart (len : nat) (start : Z) : nat :=
  if (start <? 0)%Z
  then Z.to_nat (Z.max (Z.of_nat len + start) 0)
  else Nat.min (Z.to_nat start) len.

(** [const [moved] = next.splice(start, 1)]: the removed element, if any,
    and the array that is left. *)
Definition spliceOut (l : list A) (start : Z) : option A * list A :=
  let s := spliceStart (length l) start in
  (nth_error l s, firstn s l ++ skipn (S s) l).

(** [next.splice(start, 0, ...xs)] *)
Definition spliceIn (l : list A) (start : Z) (xs : list A) : list A :=
  let s := spliceStart (length l) start in
  firstn s l ++ xs ++ skipn s l.

(** [arrayMove]: the elements are objects, so [!moved] holds exactly when
    nothing was removed. *)
Definition arrayMove (items : list A) (fromIndex toIndex : Z) : list A :=
  let '(moved, next) := spliceOut items fromIndex in
  match moved with
  | None => items
  | Some m => spliceIn next toIndex [m]
  end.

(** [items.map((x, index) => f x index)] *)
Fixpoint mapiFrom (B : Type) (f : A -> nat -> B) (k : nat) (l : list A) : list B :=
  match l with
  | [] => []
  | x :: r => f x k :: mapiFrom f (S k) r
  end.

Definition mapi (B : Type) (f : A -> nat -> B) (l : list A) : list B :=
  mapiFrom f 0 l.

End Generic.

End JsArray.

Import JsArray.

(** [normalizePositions] (identical in every variant of the component). *)
Definition normalizePositions (items : list TodoRecord) : list TodoRecord :=
  mapi (fun todo index => with_position todo (Z.of_nat index)) items.

(** [new Map(items.map(t => [t.id, t])).get(k)]: the last record with id [k]. *)
Definition byId_get (items : list TodoRecord) (k : string) : option TodoRecord :=
  find (fun t => id t =? k) (rev items).

(** [new Map(...).has(k)] *)
Definition byId_has (items : list TodoRecord) (k : string) : bool :=
  existsb (fun t => id t =? k) items.

(** [ids.includes(k)] and [new Set(ids).has(k)] *)
Definition includes (ids : list string) (k : string) : bool :=
  existsb (fun x => x =? k) ids.

Definition ids_of (items : list TodoRecord) : list string := map id items.


(* ================================================================== *)
(** ** Strings *)
(* ================================================================== *)

Module JsString.

(** [c.toLowerCase()] on an ASCII letter. *)
Definition lowerAscii (c : ascii) : ascii :=
  let n := nat_of_ascii c in
  if ((65 <=? n) && (n <=? 90))%nat then ascii_of_nat (n + 32) else c.

(** [s.toLowerCase()] *)
Fixpoint toLowerCase (s : string) : string :=
  match s with
  | EmptyString => EmptyString
  | String c r => String (lowerAscii c) (toLowerCase r)
  end.

(** [s.includes(sub)] *)
Fixpoint includes (s sub : string) : bool :=
  if prefix sub s then true
  else match s with
       | EmptyString => false
       | String _ r => includes r sub
       end.

(** The white space that [trim] removes is ECMAScript's WhiteSpace and
    LineTerminator.  On one byte: tab, line feed, vertical tab, form feed,
    carriage return and space. *)
Definition isSpace (c : ascii) : bool :=
  let n := nat_of_ascii c in
  ((n =? 32) || ((9 <=? n) && (n <=? 13)))%nat.

(** On two bytes: U+00A0. *)
Definition isSpace2 (c d : ascii) : bool :=
  ((nat_of_ascii c =? 194) && (nat_of_ascii d =? 160))%nat.

(** On three bytes: U+1680, U+2000 to U+200A, U+2028, U+2029, U+202F,
    U+205F, U+3000 and U+FEFF. *)
Definition isSpace3 (c d e : ascii) : bool :=
  let c := nat_of_ascii c in
  let d := nat_of_ascii d in
  let e := nat_of_ascii e in
  (((c =? 225) && (d =? 154) && (e =? 128))
   || ((c =? 226) && (d =? 128) &&
       (((128 <=? e) && (e <=? 138)) || (e =? 168) || (e =? 169) || (e =? 175)))
   || ((c =? 226) && (d =? 129) && (e =? 159))
   || ((c =? 227) && (d =? 128) && (e =? 128))
   || ((c =? 239) && (d =? 187) && (e =? 191)))%nat.

Fixpoint trimStart (s : string) : string :=
  match s with
  | EmptyString => EmptyString
  | String c r =>
      if isSpace c then trimStart r
      else
        match r with
        | String d r2 =>
            if isSpace2 c d then trimStart r2
            else
              match r2 with
              | String e r3 => if isSpace3 c d e then trimStart r3 else s
              | EmptyString => s
              end
        | EmptyString => s
        end
  end.

(** All of [s] is white space. *)
Definition allSpace (s : string) : bool := trimStart s =? "".

Fixpoint trimEnd (s : string) : string :=
  match s with
  | EmptyString => EmptyString
  | String c r => if allSpace s then EmptyString else String c (trimEnd r)
  end.

(** [s.trim()] *)
Definition trim (s : string) : string := trimEnd (trimStart s).

End JsString.

(* ================================================================== *)
(** ** Record store client ([lib/supabase/rest.ts], positioned variant) *)
(* ================================================================== *)

Module Rest.

(** The four [select] lists of the client. *)
Inductive Columns : Type :=
  | baseColumns
  | parentColumns
  | positionedColumns
  | positionedNoParentColumns.

Definition selectsPosition (c : Columns) : bool :=
  match c with
  | positionedColumns | positionedNoParentColumns => true
  | _ => false
  end.

(** A row of a [GET]: the base columns are always selected, [position] and
    [parent_id] may be absent or null. *)
Record ListRow : Type := mkListRow {
  l_id : string;
  l_title : string;
  l_is_completed : bool;
  l_created_at : string;
  l_updated_at : string;
  l_position : option Z;
  l_parent_id : option string
}.

(** [Partial<TodoRecord>], a row returned by [POST] and [PATCH]. *)
Record PartialRow : Type := mkPartialRow {
  p_id : option string;
  p_title : option string;
  p_is_completed : option bool;
  p_position : option Z;
  p_parent_id : option string;
  p_created_at : option string;
  p_updated_at : option string
}.

(** The fields of a [PATCH] body. *)
Record Updates : Type := mkUpdates {
  u_title : option string;
  u_is_completed : option bool;
  u_position : option Z;
  u_parent_id : option (option string)
}.

(** The JSON body of an error response. *)
Record Payload : Type := mkPayload {
  message : option string;
  details : option string;
  hint : option string
}.

(** A response: [ok] with a body that reads as an [R]; not ok, with the
    line [`${status} ${statusText}`] and the JSON body when it parses; or
    [ok] with a body that does not read as an [R] ([response.json()]
    rejects, or what it gives is [null] where rows are expected), [reason]
    being the message of the error thrown where the body is read.  A call
    that never reads the body takes such a response as any other that is
    [ok]. *)
Inductive Response (R : Type) : Type :=
  | Ok (body : R)
  | NotOk (statusLine : string) (json : option Payload)
  | OkUnreadable (reason : string).

Arguments Ok {R} body.
Arguments NotOk {R} statusLine json.
Arguments OkUnreadable {R} reason.

(** [response.ok] *)
Definition ok (R : Type) (response : Response R) : bool :=
  match response with
  | NotOk _ _ => false
  | _ => true
  end.

(** The requests the client sends. *)
Inductive Request : Type :=
  | GetTodos (select : Columns) (order : list string)
  | PostTodo (title : string) (position : option Z) (select : Columns)
  | PatchTodo (target : string) (updates : Updates) (select : Columns)
  | PatchPosition (target : string) (index : Z)
  | DeleteTodo (target : string).

(** The backing store as seen through [fetch]. *)
Record Net : Type := mkNet {
  getTodos : Columns -> list string -> Response (list ListRow);
  postTodo : string -> option Z -> Columns -> Response (list PartialRow);
  patchTodo : string -> Updates -> Columns -> Response (list PartialRow);
  patchPosition : string -> Z -> Response unit;
  deleteRow : string -> Response unit
}.

(** The settled value of a promise: the rejection carries [Error.message]. *)
Inductive Settled (R : Type) : Type :=
  | Resolved (value : R)
  | Rejected (reason : string).

Arguments Resolved {R} value.
Arguments Rejected {R} reason.

(** The module-level capability flags. *)
Record ClientState : Type := mkClient {
  supportsPositionColumn : option bool;
  supportsParentColumn : option bool
}.

Definition initialClient : ClientState := mkClient None None.

Definition missingEnvMessage : string :=
  "Missing NEXT_PUBLIC_SUPABASE_URL or NEXT_PUBLIC_SUPABASE_ANON_KEY.".

(** The message [throwOnError] builds for a response that is not ok. *)
Definition errorMessage (statusLine : string) (json : option Payload) : string :=
  match json with
  | None => statusLine
  | Some payload =>
      let m1 := match message payload with
                | Some m => if truthy (Some m) then m else statusLine
                | None => statusLine
                end in
      let m2 := match details payload with
                | Some d => if truthy (Some d) then m1 ++ " (" ++ d ++ ")" else m1
                | None => m1
                end in
      match hint payload with
      | Some h => if truthy (Some h) then m2 ++ " Hint: " ++ h else m2
      | None => m2
      end
  end%string.

(** [throwOnError]: [None] when the response is ok, else the message of the
    error thrown. *)
Definition throwOnError (R : Type) (response : Response R) : option string :=
  match response with
  | Ok _ | OkUnreadable _ => None
  | NotOk statusLine json => Some (errorMessage statusLine json)
  end.

(** [await Promise.all(promises)]: [results] are the settled values of the
    promises ([None] fulfilled, [Some m] rejected with message [m]) and
    [arrival] the order in which they settle.  The aggregate rejects with
    the first rejection to arrive. *)
Definition promiseAll (results : list (option string)) (arrival : list nat)
    : option string :=
  let rejected := fun k => match nth_error results k with
                           | Some (Some m) => true
                           | _ => false
                           end in
  match find rejected arrival with
  | Some k => nth k results None
  | None => match find (fun r => match r with Some _ => true | None => false end) results with
            | Some r => r
            | None => None
            end
  end.

(** The fall-back messages of [listTodos]. *)
Definition isMissingColumn (column reason : string) : bool :=
  let lower := JsString.toLowerCase reason in
  JsString.includes lower column &&
  (JsString.includes lower "column" || JsString.includes lower "does not exist").

Definition listOrder : list string := ["position.asc.nullslast"; "created_at.asc"].

(** [{ ...row, position: row.position ?? index }] and its two siblings. *)
Definition rowPositioned (row : ListRow) (index : nat) : TodoRecord :=
  mkTodo (l_id row) (l_title row) (l_is_completed row)
         (match l_position row with Some p => p | None => Z.of_nat index end)
         (l_parent_id row) (l_created_at row) (l_updated_at row).

Definition rowNoParent (row : ListRow) (index : nat) : TodoRecord :=
  mkTodo (l_id row) (l_title row) (l_is_completed row)
         (match l_position row with Some p => p | None => Z.of_nat index end)
         None (l_created_at row) (l_updated_at row).

Definition rowFallback (row : ListRow) (index : nat) : TodoRecord :=
  mkTodo (l_id row) (l_title row) (l_is_completed row)
         (Z.of_nat index) None (l_created_at row) (l_updated_at row).

(** [listTodos]: the new flags, the requests sent and the settled result.
    The flags are assigned as soon as a response is [ok], before its body
    is read: a body that cannot be read rejects the call with the flags
    already written. *)
Definition listTodos (hasSupabaseEnv : bool) (net : Net) (cs : ClientState)
    : ClientState * list Request * Settled (list TodoRecord) :=
  if negb hasSupabaseEnv then (cs, [], Rejected missingEnvMessage)
  else
    let req1 := GetTodos positionedColumns listOrder in
    match getTodos net positionedColumns listOrder with
    | Ok rows => (mkClient (Some true) (Some true), [req1],
                  Resolved (mapi rowPositioned rows))
    | OkUnreadable reason =>
        (mkClient (Some true) (Some true), [req1], Rejected reason)
    | NotOk _ json =>
        let fallbackReason :=
          match json with
          | Some payload =>
              match message payload with
              | Some m => m
              | None => "Failed to load todos from Supabase."
              end
          | None => "Failed to load todos from Supabase."
          end in
        if isMissingColumn "parent_id" fallbackReason then
          let req2 := GetTodos positionedNoParentColumns listOrder in
          match getTodos net positionedNoParentColumns listOrder with
          | NotOk s j => (cs, [req1; req2], Rejected (errorMessage s j))
          | Ok rows => (mkClient (Some true) (Some false), [req1; req2],
                        Resolved (mapi rowNoParent rows))
          | OkUnreadable reason =>
              (mkClient (Some true) (Some false), [req1; req2], Rejected reason)
          end
        else if negb (isMissingColumn "position" fallbackReason) then
          (cs, [req1], Rejected fallbackReason)
        else
          let req3 := GetTodos baseColumns ["created_at.asc"] in
          match getTodos net baseColumns ["created_at.asc"] with
          | NotOk s j => (cs, [req1; req3], Rejected (errorMessage s j))
          | Ok rows => (mkClient (Some false) (Some false), [req1; req3],
                        Resolved (mapi rowFallback rows))
          | OkUnreadable reason =>
              (mkClient (Some false) (Some false), [req1; req3], Rejected reason)
          end
    end.

(** [currentSelectColumns] *)
Definition currentSelectColumns (cs : ClientState) : Columns :=
  match supportsPositionColumn cs with
  | Some false =>
      match supportsParentColumn cs with
      | Some false => baseColumns
      | _ => parentColumns
      end
  | _ =>
      match supportsParentColumn cs with
      | Some false => positionedNoParentColumns
      | _ => positionedColumns
      end
  end.

(** [normalizeTodoFromApi]; [now] stands for [new Date().toISOString()]. *)
Definition normalizeTodoFromApi (now : string) (row : PartialRow)
    (fallbackPosition : Z) : TodoRecord :=
  mkTodo (match p_id row with Some i => i | None => "" end)
         (match p_title row with Some t => t | None => "" end)
         (match p_is_completed row with Some b => b | None => false end)
         (match p_position row with
          | Some p => p
          | None => Z.max 0 fallbackPosition
          end)
         (p_parent_id row)
         (match p_created_at row with Some c => c | None => now end)
         (match p_updated_at row with Some u => u | None => now end).

(** [isPositioningEnabled] *)
Definition isPositioningEnabled (cs : ClientState) : bool :=
  match supportsPositionColumn cs with
  | Some false => false
  | _ => true
  end.

(** [createTodo] *)
Definition createTodo (hasSupabaseEnv : bool) (now : string) (net : Net)
    (cs : ClientState) (newTitle : string) (pos : Z)
    : list Request * Settled TodoRecord :=
  if negb hasSupabaseEnv then ([], Rejected missingEnvMessage)
  else
    let body := match supportsPositionColumn cs with
                | Some false => None
                | _ => Some pos
                end in
    let cols := currentSelectColumns cs in
    let reqs := [PostTodo newTitle body cols] in
    match postTodo net newTitle body cols with
    | NotOk s j => (reqs, Rejected (errorMessage s j))
    | OkUnreadable reason => (reqs, Rejected reason)
    | Ok (first :: _) => (reqs, Resolved (normalizeTodoFromApi now first pos))
    | Ok [] => (reqs, Rejected "Supabase did not return the new todo row.")
    end.

(** [updateTodo] *)
Definition updateTodo (hasSupabaseEnv : bool) (now : string) (net : Net)
    (cs : ClientState) (target : string) (updates : Updates)
    : list Request * Settled TodoRecord :=
  if negb hasSupabaseEnv then ([], Rejected missingEnvMessage)
  else
    let cols := currentSelectColumns cs in
    let reqs := [PatchTodo target updates cols] in
    match patchTodo net target updates cols with
    | NotOk s j => (reqs, Rejected (errorMessage s j))
    | OkUnreadable reason => (reqs, Rejected reason)
    | Ok (first :: _) =>
        (reqs, Resolved (normalizeTodoFromApi now first
                           (match u_position updates with Some p => p | None => 0%Z end)))
    | Ok [] => (reqs, Rejected "Todo not found.")
    end.

(** [updateTodoPositions]: one [PATCH] per identifier, all awaited together. *)
Definition updateTodoPositions (hasSupabaseEnv : bool) (net : Net)
    (arrival : list nat) (cs : ClientState) (orderedIds : list string)
    : list Request * Settled unit :=
  match supportsPositionColumn cs with
  | Some false => ([], Resolved tt)
  | _ =>
      if negb hasSupabaseEnv then ([], Rejected missingEnvMessage)
      else
        let reqs := mapi (fun target index => PatchPosition target (Z.of_nat index))
                         orderedIds in
        let results := mapi (fun target index =>
                               throwOnError (patchPosition net target (Z.of_nat index)))
                            orderedIds in
        (reqs, match promiseAll results arrival with
               | Some m => Rejected m
               | None => Resolved tt
               end)
  end.

(** [deleteTodo] *)
Definition deleteTodo (hasSupabaseEnv : bool) (net : Net) (target : string)
    : list Request * Settled unit :=
  if negb hasSupabaseEnv then ([], Rejected missingEnvMessage)
  else ([DeleteTodo target],
        match throwOnError (deleteRow net target) with
        | Some m => Rejected m
        | None => Resolved tt
        end).

(** One call of the client, as the session makes them one after another. *)
Inductive ClientCall : Type :=
  | CallList (net : Net)
  | CallCreate (net : Net) (now newTitle : string) (pos : Z)
  | CallUpdate (net : Net) (now target : string) (updates : Updates)
  | CallPositions (net : Net) (arrival : list nat) (orderedIds : list string)
  | CallDelete (net : Net) (target : string).

Definition netOf (c : ClientCall) : Net :=
  match c with
  | CallList n | CallCreate n _ _ _ | CallUpdate n _ _ _
  | CallPositions n _ _ | CallDelete n _ => n
  end.

(** The flags after a call; only [listTodos] writes them. *)
Definition afterCall (hasSupabaseEnv : bool) (cs : ClientState) (c : ClientCall)
    : ClientState :=
  match c with
  | CallList net => fst (fst (listTodos hasSupabaseEnv net cs))
  | _ => cs
  end.

Definition afterCalls (hasSupabaseEnv : bool) (cs : ClientState)
    (calls : list ClientCall) : ClientState :=
  fold_left (afterCall hasSupabaseEnv) calls cs.

End Rest.

(* ================================================================== *)
(** ** Component state *)
(* ================================================================== *)

Inductive TodoFilter : Type := FilterAll | FilterOpen | FilterDone.

(** The [useState] cells of [TodoApp] that the handlers below read or
    write.  [latestTodosRef.current] is kept equal to [todos] (by the
    effect that follows every render, and by the handlers that assign it
    together with [setTodos]), so it has no cell of its own. *)
Record AppState : Type := mkApp {
  todos : list TodoRecord;
  busyId : option string;
  error : option string;
  editingId : option string;
  editingTitle : string;
  selectedTodoIds : list string;
  selectionAnchorId : option string;
  activeTodoId : option string;
  positioningAvailable : bool;
  isSavingOrder : bool;
  filter_ : TodoFilter;
  showCompleted : bool
}.

Definition setTodos (v : list TodoRecord) (st : AppState) : AppState :=
  mkApp v (busyId st) (error st) (editingId st) (editingTitle st)
        (selectedTodoIds st) (selectionAnchorId st) (activeTodoId st)
        (positioningAvailable st) (isSavingOrder st) (filter_ st) (showCompleted st).

Definition setBusyId (v : option string) (st : AppState) : AppState :=
  mkApp (todos st) v (error st) (editingId st) (editingTitle st)
        (selectedTodoIds st) (selectionAnchorId st) (activeTodoId st)
        (positioningAvailable st) (isSavingOrder st) (filter_ st) (showCompleted st).

Definition setError (v : option string) (st : AppState) : AppState :=
  mkApp (todos st) (busyId st) v (editingId st) (editingTitle st)
        (selectedTodoIds st) (selectionAnchorId st) (activeTodoId st)
        (positioningAvailable st) (isSavingOrder st) (filter_ st) (showCompleted st).

Definition setEditingId (v : option string) (st : AppState) : AppState :=
  mkApp (todos st) (busyId st) (error st) v (editingTitle st)
        (selectedTodoIds st) (selectionAnchorId st) (activeTodoId st)
        (positioningAvailable st) (isSavingOrder st) (filter_ st) (showCompleted st).

Definition setEditingTitle (v : string) (st : AppState) : AppState :=
  mkApp (todos st) (busyId st) (error st) (editingId st) v
        (selectedTodoIds st) (selectionAnchorId st) (activeTodoId st)
        (positioningAvailable st) (isSavingOrder st) (filter_ st) (showCompleted st).

Definition setSelectedTodoIds (v : list string) (st : AppState) : AppState :=
  mkApp (todos st) (busyId st) (error st) (editingId st) (editingTitle st)
        v (selectionAnchorId st) (activeTodoId st)
        (positioningAvailable st) (isSavingOrder st) (filter_ st) (showCompleted st).

Definition setSelectionAnchorId (v : option string) (st : AppState) : AppState :=
  mkApp (todos st) (busyId st) (error st) (editingId st) (editingTitle st)
        (selectedTodoIds st) v (activeTodoId st)
        (positioningAvailable st) (isSavingOrder st) (filter_ st) (showCompleted st).

Definition setActiveTodoId (v : option string) (st : AppState) : AppState :=
  mkApp (todos st) (busyId st) (error st) (editingId st) (editingTitle st)
        (selectedTodoIds st) (selectionAnchorId st) v
        (positioningAvailable st) (isSavingOrder st) (filter_ st) (showCompleted st).

Definition setIsSavingOrder (v : bool) (st : AppState) : AppState :=
  mkApp (todos st) (busyId st) (error st) (editingId st) (editingTitle st)
        (selectedTodoIds st) (selectionAnchorId st) (activeTodoId st)
        (positioningAvailable st) v (filter_ st) (showCompleted st).

(** [cancelEdit] *)
Definition cancelEdit (st : AppState) : AppState :=
  setEditingTitle "" (setEditingId None st).

(** What a handler runs against: the environment flag, the store, the order
    in which concurrent responses arrive, the clock and the client flags. *)
Record Env : Type := mkEnv {
  hasSupabaseEnv : bool;
  net : Rest.Net;
  arrival : list nat;
  now : string;
  client : Rest.ClientState
}.

(** [previous.map((item) => (item.id === updated.id ? updated : item))] *)
Definition replaceById (updated : TodoRecord) (previous : list TodoRecord)
    : list TodoRecord :=
  map (fun item => if id item =? id updated then updated else item) previous.

(** [await Promise.all(targetIds.map(async (id) => deleteTodo(id)))] *)
Definition deleteAll (env : Env) (targetIds : list string)
    : list Rest.Request * option string :=
  let calls := map (Rest.deleteTodo (hasSupabaseEnv env) (net env)) targetIds in
  (concat (map fst calls),
   Rest.promiseAll
     (map (fun c => match snd c with
                    | Rest.Rejected m => Some m
                    | Rest.Resolved _ => None
                    end) calls)
     (arrival env)).

(** [persistCurrentOrder] (keyboard and outline variants): it catches the
    failure of [updateTodoPositions] itself and never rejects. *)
Definition persistCurrentOrder (env : Env) (st : AppState)
    : AppState * list Rest.Request :=
  if negb (positioningAvailable st) then (st, [])
  else
    let '(reqs, outcome) :=
      Rest.updateTodoPositions (hasSupabaseEnv env) (net env) (arrival env)
                               (client env) (ids_of (todos st)) in
    match outcome with
    | Rest.Resolved _ => (setIsSavingOrder false st, reqs)
    | Rest.Rejected m => (setIsSavingOrder false (setError (Some m) st), reqs)
    end.

(* ================================================================== *)
(** ** Flat variants (drag and keyboard reordering, no hierarchy) *)
(* ================================================================== *)

Module Flat.

(** The state update of [handleDelete] ([components/todo-app.tsx]) once
    [deleteTodo] has resolved; the empty-title branch of [saveEdit] in the
    delete-on-empty variant makes the same update. *)
Definition removeTodo (previous : list TodoRecord) (target : string) : list TodoRecord :=
  normalizePositions (filter (fun item => negb (id item =? target)) previous).

(** The updater passed to [setTodos] in [moveTodoByOffset] (the variant
    with a keyboard drag handle); the boolean is the local [moved] flag. *)
Definition moveTodoByOffset (previous : list TodoRecord) (activeId : string)
    (offset : Z) : list TodoRecord * bool :=
  let fromIndex := findIndex (fun todo => id todo =? activeId) previous in
  if (fromIndex =? -1)%Z then (previous, false)
  else
    let toIndex := (fromIndex + offset)%Z in
    if ((toIndex <? 0) || (toIndex >=? Z.of_nat (length previous)))%Z
    then (previous, false)
    else (normalizePositions (arrayMove previous fromIndex toIndex), true).

(** The updater passed to [setTodos] by [handlePointerMove] while dragging
    [activeId] over [overId]. *)
Definition dragOver (previous : list TodoRecord) (activeId overId : string)
    : list TodoRecord * bool :=
  let fromIndex := findIndex (fun todo => id todo =? activeId) previous in
  let toIndex := findIndex (fun todo => id todo =? overId) previous in
  if ((fromIndex =? -1) || (toIndex =? -1) || (fromIndex =? toIndex))%Z
  then (previous, false)
  else (normalizePositions (arrayMove previous fromIndex toIndex), true).

(** [canReorder] *)
Definition canReorder (env : Env) (st : AppState) : bool :=
  hasSupabaseEnv env &&
  match filter_ st with FilterAll => true | _ => false end &&
  negb (truthy (editingId st)) &&
  negb (truthy (busyId st)) &&
  positioningAvailable st.

(** [handlePointerUp] of [startDrag] for the dragging pointer; [moved] is
    the flag of the closure. *)
Definition handlePointerUp (env : Env) (moved : bool) (st : AppState)
    : AppState * list Rest.Request :=
  if negb moved then (st, [])
  else if negb (positioningAvailable st) then (st, [])
  else
    let '(reqs, outcome) :=
      Rest.updateTodoPositions (hasSupabaseEnv env) (net env) (arrival env)
                               (client env) (ids_of (todos st)) in
    match outcome with
    | Rest.Resolved _ => (setIsSavingOrder false st, reqs)
    | Rest.Rejected m => (setIsSavingOrder false (setError (Some m) st), reqs)
    end.

(** A whole drag: [startDrag] on [activeId], one [pointermove] over each
    of [overIds] in turn, then [pointerup]. *)
Definition dragGesture (env : Env) (activeId : string) (overIds : list string)
    (st : AppState) : AppState * list Rest.Request :=
  if negb (canReorder env st) then (st, [])
  else
    let '(dragged, moved) :=
      fold_left (fun acc overId =>
                   if negb (truthy (Some overId)) || (overId =? activeId) then acc
                   else let '(next, m) := dragOver (fst acc) activeId overId in
                        (next, snd acc || m))
                overIds (todos st, false) in
    handlePointerUp env moved (setTodos dragged (setError None st)).

(** [handleDelete] *)
Definition handleDelete (env : Env) (target : string) (st : AppState)
    : AppState * list Rest.Request :=
  if negb (hasSupabaseEnv env) || truthy (busyId st) then (st, [])
  else
    let '(reqs, outcome) := Rest.deleteTodo (hasSupabaseEnv env) (net env) target in
    match outcome with
    | Rest.Resolved _ =>
        let st1 := setTodos (removeTodo (todos st) target) (setError None st) in
        let st2 := if opt_eqb (editingId st) (Some target) then cancelEdit st1 else st1 in
        (setBusyId None st2, reqs)
    | Rest.Rejected m => (setBusyId None (setError (Some m) st), reqs)
    end.

(** [saveEdit], the variant that refuses an empty title. *)
Definition saveEdit (env : Env) (st : AppState) : AppState * list Rest.Request :=
  if negb (hasSupabaseEnv env) || negb (truthy (editingId st)) || truthy (busyId st)
  then (st, [])
  else
    let newTitle := JsString.trim (editingTitle st) in
    if newTitle =? "" then (setError (Some "Todo title cannot be empty.") st, [])
    else
      match editingId st with
      | None => (st, [])
      | Some target =>
          let '(reqs, outcome) :=
            Rest.updateTodo (hasSupabaseEnv env) (now env) (net env) (client env)
                            target (Rest.mkUpdates (Some newTitle) None None None) in
          match outcome with
          | Rest.Resolved updated =>
              (setBusyId None
                 (cancelEdit (setTodos (replaceById updated (todos st))
                                       (setError None st))), reqs)
          | Rest.Rejected m => (setBusyId None (setError (Some m) st), reqs)
          end
      end.

End Flat.

(* ================================================================== *)
(** ** Outline variant (selection blocks, nesting by drag and keyboard) *)
(* ================================================================== *)

Module Outline.

(** [l.some((todo, index) => todo.id !== items[index]?.id)] *)
Fixpoint idsDiffer (l items : list TodoRecord) : bool :=
  match l, items with
  | [], _ => false
  | _ :: _, [] => true
  | x :: l', y :: items' => negb (id x =? id y) || idsDiffer l' items'
  end.

(** The block of a selection: the selected records in list order, or the
    active record when none of the selection is in the list. *)
Definition blockOf (items : list TodoRecord) (selectedIds : list string)
    (activeId : string) : list TodoRecord :=
  let orderedSelected := filter (fun todo => includes selectedIds (id todo)) items in
  match orderedSelected with
  | [] => filter (fun todo => id todo =? activeId) items
  | _ => orderedSelected
  end.

(** [compactSelectionAtAnchor] *)
Definition compactSelectionAtAnchor (items : list TodoRecord)
    (selectedIds : list string) (activeId : string)
    : option (list TodoRecord * list TodoRecord * Z) :=
  let block := blockOf items selectedIds activeId in
  match block with
  | [] => None
  | first :: _ =>
      let anchorIndex := findIndex (fun todo => id todo =? id first) items in
      if (anchorIndex =? -1)%Z then None
      else
        let blockSet := ids_of block in
        let stationary := filter (fun todo => negb (includes blockSet (id todo))) items in
        Some (spliceIn stationary anchorIndex block, block, anchorIndex)
  end.

(** [compactAndMoveSelection] *)
Definition compactAndMoveSelection (items : list TodoRecord)
    (selectedIds : list string) (activeId : string) (offset : Z)
    : list TodoRecord * bool :=
  let block := blockOf items selectedIds activeId in
  match block with
  | [] => (items, false)
  | first :: _ =>
      let anchorIndex := findIndex (fun todo => id todo =? id first) items in
      if (anchorIndex =? -1)%Z then (items, false)
      else
        let blockSet := ids_of block in
        let stationary := filter (fun todo => negb (includes blockSet (id todo))) items in
        let compacted := spliceIn stationary anchorIndex block in
        let canMoveUp := ((offset <? 0) && (anchorIndex >? 0))%Z in
        let canMoveDown :=
          ((offset >? 0) &&
           (anchorIndex + Z.of_nat (length block) <? Z.of_nat (length compacted)))%Z in
        if negb canMoveUp && negb canMoveDown then
          let changed := idsDiffer compacted items in
          (if changed then normalizePositions compacted else items, changed)
        else
          let withoutBlock :=
            filter (fun todo => negb (includes blockSet (id todo))) compacted in
          let nextStart := (anchorIndex + offset)%Z in
          let moved := spliceIn withoutBlock nextStart block in
          let changed := idsDiffer moved items in
          (if changed then normalizePositions moved else items, changed)
  end.

(** [indexById.get(k)]: the index of the last record with identifier [k]. *)
Fixpoint lastIndexFrom (k : string) (n : nat) (items : list TodoRecord) : option nat :=
  match items with
  | [] => None
  | t :: r =>
      match lastIndexFrom k (S n) r with
      | Some i => Some i
      | None => if id t =? k then Some n else None
      end
  end.

Definition indexById_get (items : list TodoRecord) (k : string) : option nat :=
  lastIndexFrom k 0 items.

(** Assignment [todo.parent_id = p] to the object held at index [i]. *)
Fixpoint assignParent (items : list TodoRecord) (i : nat) (p : option string)
    : list TodoRecord :=
  match items, i with
  | [], _ => []
  | t :: r, O => with_parent t p :: r
  | t :: r, S i' => t :: assignParent r i' p
  end.

(** The [while (todo.parent_id)] loop of [normalizeMovedParentsAfterReorder]
    for the object at index [i]; [next] is the array of copies that the
    loop mutates through [byId].  The result is the array when the loop
    ends and its [changed] flag, or [None] when [fuel] iterations did not
    end it. *)
Fixpoint repairParent (fuel : nat) (next : list TodoRecord) (i : nat) (changed : bool)
    : option (list TodoRecord * bool) :=
  match fuel with
  | O => None
  | S fuel' =>
      match nth_error next i with
      | None => Some (next, changed)
      | Some todo =>
          match parent_id todo with
          | None => Some (next, changed)
          | Some pid =>
              if negb (truthy (Some pid)) then Some (next, changed)
              else
                match byId_get next pid with
                | None => Some (assignParent next i None, true)
                | Some parent =>
                    let parentIndex :=
                      match indexById_get next (id parent) with
                      | Some k => Z.of_nat k
                      | None => (-1)%Z
                      end in
                    let todoIndex :=
                      match indexById_get next (id todo) with
                      | Some k => Z.of_nat k
                      | None => (-1)%Z
                      end in
                    if (negb (parentIndex =? -1) && (parentIndex <? todoIndex))%Z
                    then Some (next, changed)
                    else repairParent fuel' (assignParent next i (parent_id parent)) i true
                end
          end
      end
  end.

(** [normalizeMovedParentsAfterReorder]; [byId.get(movedId)] is the object
    at the last index that carries the identifier. *)
Fixpoint normalizeMovedLoop (fuel : nat) (next : list TodoRecord)
    (movedIds : list string) (parentUpdates : list (string * option string))
    : option (list TodoRecord * list (string * option string)) :=
  match movedIds with
  | [] => Some (next, parentUpdates)
  | movedId :: rest =>
      match indexById_get next movedId with
      | None => normalizeMovedLoop fuel next rest parentUpdates
      | Some i =>
          match repairParent fuel next i false with
          | None => None
          | Some (next', changed) =>
              let parentUpdates' :=
                if changed
                then parentUpdates ++
                     [(movedId, match nth_error next' i with
                                | Some todo => parent_id todo
                                | None => None
                                end)]
                else parentUpdates in
              normalizeMovedLoop fuel next' rest parentUpdates'
          end
      end
  end.

Definition normalizeMovedParentsAfterReorder (fuel : nat) (items : list TodoRecord)
    (movedIds : list string)
    : option (list TodoRecord * list (string * option string)) :=
  normalizeMovedLoop fuel items movedIds [].

(** [canReorder] *)
Definition canReorder (env : Env) (st : AppState) : bool :=
  hasSupabaseEnv env && showCompleted st &&
  negb (truthy (editingId st)) && negb (truthy (busyId st)) &&
  positioningAvailable st.

(** The selection an action applies to. *)
Definition selectedForAction (selected : list string) (activeId : string)
    : list string :=
  if negb (length selected =? 0)%nat && includes selected activeId
  then selected else [].

(** [movedIds] of [moveFocusedSelectionByOffset] *)
Definition movedIdsOf (selected : list string) (activeId : string) : list string :=
  match selectedForAction selected activeId with
  | [] => [activeId]
  | _ :: _ => selectedForAction selected activeId
  end.

(** The optimistic part of [moveFocusedSelectionByOffset]: the list given
    to [setTodos] and the parent updates to persist; [Some None] when the
    handler returns without a change. *)
Definition moveFocusedSelectionPlan (fuel : nat) (snapshot : list TodoRecord)
    (selected : list string) (activeId : string) (offset : Z)
    : option (option (list TodoRecord * list (string * option string))) :=
  let sel := selectedForAction selected activeId in
  let movedIds := movedIdsOf selected activeId in
  let moved := compactAndMoveSelection snapshot sel activeId offset in
  if negb (snd moved) then Some None
  else
    match normalizeMovedParentsAfterReorder fuel (fst moved) movedIds with
    | None => None
    | Some normalized => Some (Some normalized)
    end.

(** [next.some(...)] of [nestFocusedSelectionIntoPrevious] *)
Fixpoint differsFrom (next snapshot : list TodoRecord) : bool :=
  match next, snapshot with
  | [], _ => false
  | _ :: _, [] => true
  | x :: next', y :: snapshot' =>
      negb (id x =? id y) || negb (opt_eqb (parent_id x) (parent_id y))
      || differsFrom next' snapshot'
  end.

(** The optimistic part of [nestFocusedSelectionIntoPrevious]: the list
    given to [setTodos] and the identifiers of the block, or [None] when
    the handler returns without a change. *)
Definition nestPlan (snapshot : list TodoRecord) (selected : list string)
    (activeId : string) : option (list TodoRecord * list string) :=
  match compactSelectionAtAnchor snapshot (selectedForAction selected activeId) activeId with
  | None => None
  | Some (compacted, block, anchorIndex) =>
      if (anchorIndex =? 0)%Z then None
      else
        match nth_error compacted (Z.to_nat (anchorIndex - 1)) with
        | None => None
        | Some parent =>
            let blockIds := ids_of block in
            let parentLevelId := parent_id parent in
            let shouldNestIntoParent :=
              truthy parentLevelId &&
              forallb (fun todo => opt_eqb (parent_id todo) parentLevelId) block in
            let nextParentIdForBlock :=
              if truthy parentLevelId
              then if shouldNestIntoParent then Some (id parent) else parentLevelId
              else Some (id parent) in
            let next :=
              normalizePositions
                (map (fun todo =>
                        if negb (includes blockIds (id todo)) then todo
                        else with_parent todo nextParentIdForBlock)
                     compacted) in
            if negb (differsFrom next snapshot) then None
            else Some (next, blockIds)
        end
  end.

(** The list on screen once [nestFocusedSelectionIntoPrevious] has run and
    its store calls have succeeded. *)
Definition afterNest (snapshot : list TodoRecord) (selected : list string)
    (activeId : string) : list TodoRecord :=
  match nestPlan snapshot selected activeId with
  | Some (next, _) => next
  | None => snapshot
  end.

(** The [updates] of [unnestFocusedSelectionOneLevel]. *)
Definition unnestUpdates (snapshot : list TodoRecord) (selected : list string)
    (activeId : string) : list (string * option string) :=
  let targetIds :=
    if negb (length selected =? 0)%nat && includes selected activeId
    then selected else [activeId] in
  flat_map (fun todoId =>
              match byId_get snapshot todoId with
              | None => []
              | Some todo =>
                  if negb (truthy (parent_id todo)) then []
                  else
                    let nextParentId :=
                      match parent_id todo with
                      | Some pid =>
                          match byId_get snapshot pid with
                          | Some parent => parent_id parent
                          | None => None
                          end
                      | None => None
                      end in
                    if opt_eqb nextParentId (parent_id todo) then []
                    else [(todoId, nextParentId)]
              end)
           targetIds.

(** [new Map(updates.map(...)).get(k)] and [.has(k)] *)
Definition updateMap_get (updates : list (string * option string)) (k : string)
    : option (option string) :=
  match find (fun u => fst u =? k) (rev updates) with
  | Some u => Some (snd u)
  | None => None
  end.

(** The list on screen once [unnestFocusedSelectionOneLevel] has run and
    its store calls have succeeded. *)
Definition afterUnnest (snapshot : list TodoRecord) (selected : list string)
    (activeId : string) : list TodoRecord :=
  match unnestUpdates snapshot selected activeId with
  | [] => snapshot
  | updates =>
      map (fun todo =>
             match updateMap_get updates (id todo) with
             | Some p => with_parent todo p
             | None => todo
             end)
          snapshot
  end.

(** [Array.from(new Set(ids))]: first occurrences, in order. *)
Fixpoint dedupe (seen ids : list string) : list string :=
  match ids with
  | [] => []
  | x :: r => if includes seen x then dedupe seen r else x :: dedupe (x :: seen) r
  end.

(** [deleteFocusedSelection] *)
Definition deleteFocusedSelection (env : Env) (activeId : string) (st : AppState)
    : AppState * list Rest.Request :=
  if negb (hasSupabaseEnv env) || truthy (busyId st) || truthy (editingId st)
  then (st, [])
  else
    let snapshot := todos st in
    let targetIds :=
      dedupe [] (if negb (length (selectedTodoIds st) =? 0)%nat
                    && includes (selectedTodoIds st) activeId
                 then selectedTodoIds st else [activeId]) in
    match targetIds with
    | [] => (st, [])
    | _ =>
        let nextTodos :=
          normalizePositions
            (filter (fun todo => negb (includes targetIds (id todo))) snapshot) in
        let st1 := setSelectionAnchorId None
                     (setSelectedTodoIds [] (setTodos nextTodos st)) in
        let '(reqs, failure) := deleteAll env targetIds in
        match failure with
        | None =>
            let '(st2, reqs') := persistCurrentOrder env (setError None st1) in
            (setBusyId None st2, reqs ++ reqs')
        | Some m =>
            (setBusyId None (setError (Some m) (setTodos snapshot st1)), reqs)
        end
    end.

(** [saveEdit], the variant that deletes on an empty title. *)
Definition saveEdit (env : Env) (st : AppState) : AppState * list Rest.Request :=
  if negb (hasSupabaseEnv env) || negb (truthy (editingId st)) || truthy (busyId st)
  then (st, [])
  else
    match editingId st with
    | None => (st, [])
    | Some targetId =>
        let newTitle := JsString.trim (editingTitle st) in
        if newTitle =? "" then
          let '(reqs, outcome) := Rest.deleteTodo (hasSupabaseEnv env) (net env) targetId in
          match outcome with
          | Rest.Resolved _ =>
              (setBusyId None
                 (cancelEdit (setTodos (Flat.removeTodo (todos st) targetId)
                                       (setError None st))), reqs)
          | Rest.Rejected m => (setBusyId None (setError (Some m) st), reqs)
          end
        else
          let '(reqs, outcome) :=
            Rest.updateTodo (hasSupabaseEnv env) (now env) (net env) (client env)
                            targetId (Rest.mkUpdates (Some newTitle) None None None) in
          match outcome with
          | Rest.Resolved updated =>
              (setBusyId None
                 (cancelEdit (setTodos (replaceById updated (todos st))
                                       (setError None st))), reqs)
          | Rest.Rejected m => (setBusyId None (setError (Some m) st), reqs)
          end
    end.

(** One parent step of [depthFor]'s [while] loop; [None] when [fuel]
    iterations did not end it.  The result is the depth reached. *)
Fixpoint walkUp (fuel : nat) (all : list TodoRecord) (current : option TodoRecord)
    (seen : list string) (depth : nat) : option nat :=
  match fuel with
  | O => None
  | S fuel' =>
      match current with
      | None => Some depth
      | Some c =>
          match parent_id c with
          | None => Some depth
          | Some pid =>
              if truthy (Some pid) && byId_has all pid then
                if includes seen pid then Some depth
                else walkUp fuel' all (byId_get all pid) (pid :: seen) (S depth)
              else Some depth
          end
      end
  end.

(** [depthFor] of [depthByTodoId], with its [memo]; every pass through the
    loop adds one to the depth, so the depth before the cut at 8 is also
    the number of parent links followed. *)
Definition depthFor (all : list TodoRecord) (memo : list (string * nat))
    (todoId : string) : option (nat * nat * list (string * nat)) :=
  match find (fun e => fst e =? todoId) memo with
  | Some e => Some (snd e, 0, memo)
  | None =>
      match walkUp (S (length all)) all (byId_get all todoId) [] 0 with
      | None => None
      | Some walked =>
          let depth :=
            if (walked =? 0)%nat &&
               truthy (match byId_get all todoId with
                       | Some t => parent_id t
                       | None => None
                       end)
            then 1 else walked in
          let boundedDepth := Nat.min depth 8 in
          Some (boundedDepth, walked, (todoId, boundedDepth) :: memo)
      end
  end.

(** [depthByTodoId]: the entries assigned to [result], in order (a later
    entry for the same key overwrites an earlier one), each with the number
    of parent links followed to compute it. *)
Fixpoint depthEntries (all rest : list TodoRecord) (memo : list (string * nat))
    : option (list (string * nat * nat)) :=
  match rest with
  | [] => Some []
  | todo :: rest' =>
      match depthFor all memo (id todo) with
      | None => None
      | Some (d, walked, memo') =>
          match depthEntries all rest' memo' with
          | None => None
          | Some entries => Some ((id todo, d, walked) :: entries)
          end
      end
  end.

Definition depthByTodoId (all : list TodoRecord) : option (list (string * nat * nat)) :=
  depthEntries all all [].

End Outline.

(** [record[k]] for a record filled by successive assignments. *)
Definition entry_get (entries : list (string * nat * nat)) (k : string) : option nat :=
  match find (fun e => fst (fst e) =? k) (rev entries) with
  | Some e => Some (snd (fst e))
  | None => None
  end.

(* ================================================================== *)
(** ** Hierarchy variant (keyboard outline with collapsing) *)
(* ================================================================== *)

Module Hierarchy.

Definition NEW_TASK_ACTIVE_ID : string := "__new_task__".
Definition MULTI_BUSY_ID : string := "__multi__".

(** [cache.get(k)] on the [Map] filled by [cache.set]. *)
Definition cache_get (cache : list (string * nat)) (k : string) : option nat :=
  match find (fun e => fst e =? k) cache with
  | Some e => Some (snd e)
  | None => None
  end.

(** [getDepth] of [buildDepthMap].  The result is the depth, the cache
    after the call and the number of parent links followed (the nested
    calls made); [None] when the recursion is deeper than [fuel]. *)
Fixpoint getDepth (fuel : nat) (items : list TodoRecord) (k : string)
    (seen : list string) (cache : list (string * nat))
    : option (nat * list (string * nat) * nat) :=
  match fuel with
  | O => None
  | S fuel' =>
      match cache_get cache k with
      | Some d => Some (d, cache, 0)
      | None =>
          match byId_get items k with
          | None => Some (0, (k, 0) :: cache, 0)
          | Some item =>
              match parent_id item with
              | None => Some (0, (k, 0) :: cache, 0)
              | Some pid =>
                  if negb (truthy (Some pid)) then Some (0, (k, 0) :: cache, 0)
                  else if includes seen k || negb (byId_has items pid)
                  then Some (0, (k, 0) :: cache, 0)
                  else
                    match getDepth fuel' items pid (k :: seen) cache with
                    | None => None
                    | Some (d, cache', links) =>
                        Some (S d, (k, S d) :: cache', S links)
                    end
              end
          end
      end
  end.

(** The [forEach] of [buildDepthMap]: the entries assigned to [depths], in
    order, each with the number of parent links followed for it. *)
Fixpoint depthLoop (items rest : list TodoRecord) (cache : list (string * nat))
    : option (list (string * nat * nat)) :=
  match rest with
  | [] => Some []
  | item :: rest' =>
      match getDepth (S (length items)) items (id item) [] cache with
      | None => None
      | Some (d, cache', links) =>
          match depthLoop items rest' cache' with
          | None => None
          | Some entries => Some ((id item, d, links) :: entries)
          end
      end
  end.

Definition buildDepthMap (items : list TodoRecord) : option (list (string * nat * nat)) :=
  depthLoop items items [].

(** [parentKey] of [reorderBySiblingMove] *)
Definition parentKey (items : list TodoRecord) (item : TodoRecord) : option string :=
  match parent_id item with
  | Some pid => if truthy (Some pid) && byId_has items pid then Some pid else None
  | None => None
  end.

(** [childrenByParent.get(key) ?? []] after the [pushChild] pass. *)
Definition childrenOf (items : list TodoRecord) (key : option string)
    : list TodoRecord :=
  filter (fun item => opt_eqb (parentKey items item) key) items.

(** [visit] of [reorderBySiblingMove] over the sibling lists [children];
    [None] when the recursion is deeper than [fuel]. *)
Fixpoint visit (fuel : nat) (children : option string -> list TodoRecord)
    (key : option string) (ordered : list TodoRecord) : option (list TodoRecord) :=
  match fuel with
  | O => None
  | S fuel' =>
      fold_left
        (fun acc child =>
           match acc with
           | None => None
           | Some ord =>
               if existsb (fun item => id item =? id child) ord then Some ord
               else visit fuel' children (Some (id child)) (ord ++ [child])
           end)
        (children key) (Some ordered)
  end.

(** [reorderBySiblingMove]; the outer [None] is a recursion deeper than the
    number of records allows, the inner one the [null] of the source. *)
Definition reorderBySiblingMove (items : list TodoRecord) (activeId : string)
    (direction : Z) : option (option (list TodoRecord)) :=
  match byId_get items activeId with
  | None => Some None
  | Some active =>
      let activeParentKey := parentKey items active in
      let siblings := childrenOf items activeParentKey in
      let currentIndex := findIndex (fun item => id item =? activeId) siblings in
      if (currentIndex =? -1)%Z then Some None
      else
        let nextIndex := (currentIndex + direction)%Z in
        if ((nextIndex <? 0) || (nextIndex >=? Z.of_nat (length siblings)))%Z
        then Some None
        else
          let reorderedSiblings :=
            match spliceOut siblings currentIndex with
            | (Some moved, rest) => spliceIn rest nextIndex [moved]
            | (None, rest) => rest
            end in
          let children := fun key =>
            if opt_eqb key activeParentKey then reorderedSiblings
            else childrenOf items key in
          match visit (S (length items)) children None [] with
          | None => None
          | Some ordered =>
              let ordered' :=
                if negb (length ordered =? length items)%nat
                then ordered ++
                     filter (fun item => negb (includes (ids_of ordered) (id item))) items
                else ordered in
              Some (Some (normalizePositions ordered'))
          end
  end.

(** The identifiers a bulk action applies to. *)
Definition targetIdsOf (st : AppState) : list string :=
  match selectedTodoIds st with
  | [] =>
      match activeTodoId st with
      | Some a => if truthy (Some a) && negb (a =? NEW_TASK_ACTIVE_ID) then [a] else []
      | None => []
      end
  | sel => sel
  end.

(** [handleDeleteSelection] *)
Definition handleDeleteSelection (env : Env) (st : AppState)
    : AppState * list Rest.Request :=
  let targetIds := targetIdsOf st in
  if negb (hasSupabaseEnv env) || (length targetIds =? 0)%nat || truthy (busyId st)
  then (st, [])
  else
    let previousTodos := todos st in
    let nextTodos :=
      normalizePositions
        (filter (fun item => negb (includes targetIds (id item))) previousTodos) in
    let st1 := setTodos nextTodos (setError None st) in
    let failed := fun m reqs =>
      (setBusyId None (setError (Some m) (setTodos previousTodos st1)), reqs) in
    let '(reqs, failure) := deleteAll env targetIds in
    match failure with
    | Some m => failed m reqs
    | None =>
        let '(reqs', outcome) :=
          Rest.updateTodoPositions (hasSupabaseEnv env) (net env) (arrival env)
                                   (client env) (ids_of nextTodos) in
        match outcome with
        | Rest.Rejected m => failed m (reqs ++ reqs')
        | Rest.Resolved _ =>
            let st2 :=
              match editingId st with
              | Some e => if truthy (Some e) && includes targetIds e
                          then cancelEdit st1 else st1
              | None => st1
              end in
            (setBusyId None
               (setSelectionAnchorId None
                  (setSelectedTodoIds [] (setActiveTodoId None st2))),
             reqs ++ reqs')
        end
    end.

(** [handleMoveActiveTodo]; [None] only when [reorderBySiblingMove] has no
    result. *)
Definition handleMoveActiveTodo (env : Env) (direction : Z) (st : AppState)
    : option (AppState * list Rest.Request) :=
  match activeTodoId st with
  | None => Some (st, [])
  | Some active =>
      if negb (hasSupabaseEnv env) || negb (truthy (Some active))
         || (active =? NEW_TASK_ACTIVE_ID) || truthy (busyId st)
         || truthy (editingId st)
      then Some (st, [])
      else
        let previousTodos := todos st in
        match reorderBySiblingMove previousTodos active direction with
        | None => None
        | Some None => Some (st, [])
        | Some (Some reordered) =>
            let '(reqs, outcome) :=
              Rest.updateTodoPositions (hasSupabaseEnv env) (net env) (arrival env)
                                       (client env) (ids_of reordered) in
            match outcome with
            | Rest.Resolved _ =>
                Some (setBusyId None (setTodos reordered (setError None st)), reqs)
            | Rest.Rejected m =>
                Some (setBusyId None (setError (Some m) (setTodos previousTodos st)), reqs)
            end
        end
  end.

(** [saveEdit], the variant that ignores an empty title. *)
Definition saveEdit (env : Env) (st : AppState) : AppState * list Rest.Request :=
  if negb (hasSupabaseEnv env) || negb (truthy (editingId st)) || truthy (busyId st)
  then (st, [])
  else
    let newTitle := JsString.trim (editingTitle st) in
    if newTitle =? "" then (st, [])
    else
      match editingId st with
      | None => (st, [])
      | Some target =>
          let '(reqs, outcome) :=
            Rest.updateTodo (hasSupabaseEnv env) (now env) (net env) (client env)
                            target (Rest.mkUpdates (Some newTitle) None None None) in
          match outcome with
          | Rest.Resolved updated =>
              (setBusyId None
                 (cancelEdit (setTodos (replaceById updated (todos st))
                                       (setError None st))), reqs)
          | Rest.Rejected m => (setBusyId None (setError (Some m) st), reqs)
          end
      end.

End Hierarchy.

(* ================================================================== *)
(** ** Loading, adding, toggling and the views ([components/todo-app.tsx]) *)
(* ================================================================== *)

Definition setPositioningAvailable (v : bool) (st : AppState) : AppState :=
  mkApp (todos st) (busyId st) (error st) (editingId st) (editingTitle st)
        (selectedTodoIds st) (selectionAnchorId st) (activeTodoId st)
        v (isSavingOrder st) (filter_ st) (showCompleted st).

Module TodoApp.

(** The cells of the add form and of the first load, next to the cells of
    [AppState]. *)
Record FormState : Type := mkForm {
  app : AppState;
  isLoading : bool;
  isAdding : bool;
  newTitle : string
}.

(** [loadTodos]: the state it leaves, the flags of the client after its
    call and the requests sent. *)
Definition loadTodos (env : Env) (st : FormState)
    : FormState * Rest.ClientState * list Rest.Request :=
  if negb (hasSupabaseEnv env)
  then (mkForm (app st) false (isAdding st) (newTitle st), client env, [])
  else
    let '(cs, reqs, outcome) :=
      Rest.listTodos (hasSupabaseEnv env) (net env) (client env) in
    match outcome with
    | Rest.Resolved rows =>
        (mkForm (setPositioningAvailable (Rest.isPositioningEnabled cs)
                   (setTodos (normalizePositions rows) (setError None (app st))))
                false (isAdding st) (newTitle st), cs, reqs)
    | Rest.Rejected m =>
        (mkForm (setError (Some m) (app st)) false (isAdding st) (newTitle st),
         cs, reqs)
    end.

(** [openCount] and [doneCount] *)
Definition openCount (l : list TodoRecord) : nat :=
  length (filter (fun todo => negb (is_completed todo)) l).

Definition doneCount (l : list TodoRecord) : Z :=
  (Z.of_nat (length l) - Z.of_nat (openCount l))%Z.

(** [filteredTodos] *)
Definition filteredTodos (f : TodoFilter) (l : list TodoRecord) : list TodoRecord :=
  match f with
  | FilterOpen => filter (fun todo => negb (is_completed todo)) l
  | FilterDone => filter (fun todo => is_completed todo) l
  | FilterAll => l
  end.

(** [handleAdd]; [latestTodosRef.current] is the list on screen. *)
Definition handleAdd (env : Env) (st : FormState) : FormState * list Rest.Request :=
  if negb (hasSupabaseEnv env) || isAdding st then (st, [])
  else
    let title := JsString.trim (newTitle st) in
    if title =? "" then (st, [])
    else
      let position := Z.of_nat (length (todos (app st))) in
      let '(reqs, outcome) :=
        Rest.createTodo (hasSupabaseEnv env) (now env) (net env) (client env)
                        title position in
      match outcome with
      | Rest.Resolved created =>
          (mkForm (setTodos (normalizePositions (todos (app st) ++ [created]))
                            (setError None (app st)))
                  (isLoading st) false "", reqs)
      | Rest.Rejected m =>
          (mkForm (setError (Some m) (app st)) (isLoading st) false (newTitle st),
           reqs)
      end.

(** [handleToggle] *)
Definition handleToggle (env : Env) (todo : TodoRecord) (st : AppState)
    : AppState * list Rest.Request :=
  if negb (hasSupabaseEnv env) || truthy (busyId st) then (st, [])
  else
    let '(reqs, outcome) :=
      Rest.updateTodo (hasSupabaseEnv env) (now env) (net env) (client env)
                      (id todo)
                      (Rest.mkUpdates None (Some (negb (is_completed todo))) None None) in
    match outcome with
    | Rest.Resolved updated =>
        (setBusyId None (setTodos (replaceById updated (todos st))
                                  (setError None st)), reqs)
    | Rest.Rejected m => (setBusyId None (setError (Some m) st), reqs)
    end.

End TodoApp.

(* ================================================================== *)
(** ** Reordering from the keyboard (the variant with a drag handle) *)
(* ================================================================== *)

Module KeyboardDrag.

(** [event.key] as the handler tells the keys apart. *)
Inductive Key : Type :=
  | Enter | Space | ArrowUp | ArrowDown | ArrowLeft | ArrowRight | Tab | Escape
  | OtherKey.

(** The cells and the ref of the keyboard drag, next to the cells of
    [AppState]. *)
Record DragState : Type := mkDrag {
  app : AppState;
  draggingId : option string;
  keyboardDragId : option string;
  keyboardMovedRef : bool
}.

(** [deactivateKeyboardDrag]; [persistCurrentOrder] is started and not
    awaited, the state given is the one it leaves when it has settled. *)
Definition deactivateKeyboardDrag (env : Env) (shouldPersistOrder : bool)
    (st : DragState) : DragState * list Rest.Request :=
  let movedDuringSession := keyboardMovedRef st in
  if shouldPersistOrder && movedDuringSession then
    let '(saved, reqs) := persistCurrentOrder env (app st) in
    (mkDrag saved None None false, reqs)
  else (mkDrag (app st) None None false, []).

(** [moveTodoByOffset] called from the handler, with the assignment to
    [keyboardMovedRef] that follows it.  [setTodos] is handed an updater:
    React either runs it during the call or queues it for the next render
    ([ranAtCall] says which).  The local [moved] is read right after the
    call, so it is false for an updater that was queued, although the list
    has moved by the time the next key is handled. *)
Definition moveFromKeyboard (ranAtCall : bool) (todoId : string) (offset : Z)
    (st : DragState) : DragState :=
  let '(next, moved) := Flat.moveTodoByOffset (todos (app st)) todoId offset in
  mkDrag (setTodos next (app st)) (draggingId st) (keyboardDragId st)
         (if ranAtCall && moved then true else keyboardMovedRef st).

(** [handleDragHandleKeyDown]; the arrow keys outside a keyboard drag only
    move the focus.  [ranAtCall] is read by the two arrow keys of a drag. *)
Definition handleDragHandleKeyDown (env : Env) (ranAtCall : bool) (key : Key)
    (todoId : string) (st : DragState) : DragState * list Rest.Request :=
  let isActiveKeyboardDrag := opt_eqb (keyboardDragId st) (Some todoId) in
  match key with
  | Enter | Space =>
      if negb (Flat.canReorder env (app st)) then (st, [])
      else if isActiveKeyboardDrag then deactivateKeyboardDrag env true st
      else (mkDrag (setError None (app st)) (Some todoId) (Some todoId) false, [])
  | _ =>
      if negb isActiveKeyboardDrag then (st, [])
      else
        match key with
        | ArrowUp => (moveFromKeyboard ranAtCall todoId (-1) st, [])
        | ArrowDown => (moveFromKeyboard ranAtCall todoId 1 st, [])
        | Tab => deactivateKeyboardDrag env true st
        | Escape => deactivateKeyboardDrag env false st
        | _ => (st, [])
        end
  end.

(** The keys [keys] pressed one after the other on the handle of [todoId],
    each with what React does with the updater of that press. *)
Fixpoint pressAll (env : Env) (keys : list (Key * bool)) (todoId : string)
    (st : DragState) : DragState * list Rest.Request :=
  match keys with
  | [] => (st, [])
  | (key, ranAtCall) :: rest =>
      let '(st1, reqs) := handleDragHandleKeyDown env ranAtCall key todoId st in
      let '(st2, reqs') := pressAll env rest todoId st1 in
      (st2, reqs ++ reqs')
  end.

(** The step an arrow key asks for. *)
Definition offsetOf (key : Key) : Z :=
  match key with
  | ArrowUp => (-1)%Z
  | _ => 1%Z
  end.

End KeyboardDrag.

(* ================================================================== *)
(** ** The visible list, collapsing and the selection keys of the
       hierarchy variant *)
(* ================================================================== *)

Module JsIndex.

(** [ids.indexOf(k)] *)
Definition indexOf (ids : list string) (k : string) : Z :=
  findIndex (fun x => x =? k) ids.

(** [l[i]], [undefined] outside the array. *)
Definition at_ (A : Type) (l : list A) (i : Z) : option A :=
  if (i <? 0)%Z then None else nth_error l (Z.to_nat i).

(** [l.slice(start, end)], with the clamping of both indices. *)
Definition slice (A : Type) (l : list A) (start end_ : Z) : list A :=
  let len := Z.of_nat (length l) in
  let k := if (start <? 0)%Z then Z.max (len + start) 0 else Z.min start len in
  let fin := if (end_ <? 0)%Z then Z.max (len + end_) 0 else Z.min end_ len in
  firstn (Z.to_nat (fin - k)) (skipn (Z.to_nat k) l).

End JsIndex.

Module HierarchyView.

(** [filteredTodos] *)
Definition filteredTodos (showCompleted : bool) (l : list TodoRecord)
    : list TodoRecord :=
  if showCompleted then l else filter (fun todo => negb (is_completed todo)) l.

(** [hasChildrenTodoIdSet], as the list of the identifiers added. *)
Definition hasChildrenTodoIdSet (l : list TodoRecord) : list string :=
  flat_map (fun todo => match parent_id todo with
                        | Some p => if truthy (Some p) then [p] else []
                        | None => []
                        end) l.

(** The [while (parentId)] loop of [visibleTodos] for one record:
    [Some false] when a collapsed ancestor is met, [Some true] when the
    loop ends without one, [None] when [fuel] passes did not end it. *)
Fixpoint shownUnder (fuel : nat) (filtered : list TodoRecord)
    (collapsed : list string) (parentId : option string) : option bool :=
  match fuel with
  | O => None
  | S fuel' =>
      match parentId with
      | None => Some true
      | Some p =>
          if negb (truthy (Some p)) then Some true
          else if includes collapsed p then Some false
          else match byId_get filtered p with
               | None => Some true
               | Some parent => shownUnder fuel' filtered collapsed (parent_id parent)
               end
      end
  end.

(** [filteredTodos.filter(...)] of [visibleTodos] over the records [rest]. *)
Fixpoint filterShown (fuel : nat) (filtered : list TodoRecord)
    (collapsed : list string) (rest : list TodoRecord) : option (list TodoRecord) :=
  match rest with
  | [] => Some []
  | todo :: rest' =>
      match shownUnder fuel filtered collapsed (parent_id todo) with
      | None => None
      | Some keep =>
          match filterShown fuel filtered collapsed rest' with
          | None => None
          | Some tail => Some (if keep then todo :: tail else tail)
          end
      end
  end.

(** [visibleTodos] *)
Definition visibleTodos (fuel : nat) (filtered : list TodoRecord)
    (collapsed : list string) : option (list TodoRecord) :=
  filterShown fuel filtered collapsed filtered.

(** The effect that follows a change of the visible list: the selection
    and its anchor are cut down to the visible records, and an active
    record that is not visible is dropped. *)
Definition pruneSelection (visible : list TodoRecord) (st : AppState) : AppState :=
  let visibleIds := ids_of visible in
  let st1 := setSelectedTodoIds (filter (fun k => includes visibleIds k)
                                        (selectedTodoIds st)) st in
  let st2 := setSelectionAnchorId
               (match selectionAnchorId st with
                | Some a => if truthy (Some a) && includes visibleIds a
                            then Some a else None
                | None => None
                end) st1 in
  match activeTodoId st with
  | Some a =>
      if truthy (Some a) && negb (a =? Hierarchy.NEW_TASK_ACTIVE_ID)
         && negb (includes visibleIds a)
      then setActiveTodoId None st2 else st2
  | None => st2
  end.

(** The effect that follows a change of [hasChildrenTodoIdSet]. *)
Definition pruneCollapsed (l : list TodoRecord) (collapsed : list string)
    : list string :=
  filter (fun k => includes (hasChildrenTodoIdSet l) k) collapsed.

(** [toggleCollapsedTodo] *)
Definition toggleCollapsedTodo (todoId : string) (previous : list string)
    : list string :=
  if includes previous todoId
  then filter (fun k => negb (k =? todoId)) previous
  else previous ++ [todoId].

(** The branch of the key handler for Shift with ArrowUp ([direction] -1)
    or ArrowDown ([direction] 1): the new active identifier, the anchor and
    the selected range; [None] when nothing is visible and the handler
    returns. *)
Definition extendSelection (visibleIds : list string)
    (active anchor : option string) (direction : Z)
    : option (option string * option string * list string) :=
  if (length visibleIds =? 0)%nat then None
  else
    let len := Z.of_nat (length visibleIds) in
    let initialIndex :=
      JsIndex.indexOf visibleIds (match active with Some a => a | None => "" end) in
    let currentIndex :=
      if (initialIndex =? -1)%Z
      then (if (direction <? 0)%Z then len - 1 else 0)%Z
      else initialIndex in
    let nextIndex := Z.max 0 (Z.min (len - 1) (currentIndex + direction)) in
    let nextId := JsIndex.at_ visibleIds nextIndex in
    let anchorId :=
      match anchor with
      | Some a => if truthy (Some a) && includes visibleIds a
                  then Some a else JsIndex.at_ visibleIds currentIndex
      | None => JsIndex.at_ visibleIds currentIndex
      end in
    let anchorIndex :=
      match anchorId with
      | Some a => JsIndex.indexOf visibleIds a
      | None => (-1)%Z
      end in
    let start := Z.min anchorIndex nextIndex in
    let end_ := Z.max anchorIndex nextIndex in
    Some (nextId, anchorId, JsIndex.slice visibleIds start (end_ + 1)).

(** The branch of the key handler for a plain ArrowUp ([up] true) or
    ArrowDown: the selection is dropped and the active identifier moves. *)
Definition moveActive (visible : list TodoRecord) (up : bool) (st : AppState)
    : AppState :=
  let isMultiSelecting :=
    (1 <? length (selectedTodoIds st))%nat && truthy (selectionAnchorId st)
    && negb (opt_eqb (selectionAnchorId st) (Some Hierarchy.NEW_TASK_ACTIVE_ID)) in
  let navigationBaseId :=
    if isMultiSelecting then selectionAnchorId st else activeTodoId st in
  let st1 := setSelectionAnchorId None (setSelectedTodoIds [] st) in
  let idAt := fun i : Z => option_map id (JsIndex.at_ visible i) in
  let len := Z.of_nat (length visible) in
  if (length visible =? 0)%nat
  then setActiveTodoId (Some Hierarchy.NEW_TASK_ACTIVE_ID) st1
  else
    let currentIndex :=
      findIndex (fun todo => opt_eqb (Some (id todo)) navigationBaseId) visible in
    if up then
      if (currentIndex =? -1)%Z then
        if negb (truthy navigationBaseId)
        then setActiveTodoId (Some Hierarchy.NEW_TASK_ACTIVE_ID) st1
        else if opt_eqb navigationBaseId (Some Hierarchy.NEW_TASK_ACTIVE_ID)
        then setActiveTodoId (idAt (len - 1)%Z) st1
        else setActiveTodoId (idAt 0%Z) st1
      else setActiveTodoId (idAt (Z.max 0 (currentIndex - 1))) st1
    else
      if (currentIndex =? -1)%Z then
        if negb (truthy navigationBaseId)
        then setActiveTodoId (idAt 0%Z) st1
        else if opt_eqb navigationBaseId (Some Hierarchy.NEW_TASK_ACTIVE_ID)
        then st1
        else setActiveTodoId (idAt (len - 1)%Z) st1
      else if (currentIndex =? len - 1)%Z
      then setActiveTodoId (Some Hierarchy.NEW_TASK_ACTIVE_ID) st1
      else setActiveTodoId (idAt (currentIndex + 1)%Z) st1.

(** [{ ...item, is_completed: v }] for the records with identifier [k]. *)
Definition markCompleted (k : string) (v : bool) (l : list TodoRecord)
    : list TodoRecord :=
  map (fun item =>
         if id item =? k
         then mkTodo (id item) (title item) v (position item) (parent_id item)
                     (created_at item) (updated_at item)
         else item) l.

(** [handleToggle], which shows the new state before the store answers. *)
Definition handleToggle (env : Env) (todo : TodoRecord) (st : AppState)
    : AppState * list Rest.Request :=
  if negb (hasSupabaseEnv env) || truthy (busyId st) then (st, [])
  else
    let nextCompleted := negb (is_completed todo) in
    let st1 := setTodos (markCompleted (id todo) nextCompleted (todos st))
                        (setError None st) in
    let '(reqs, outcome) :=
      Rest.updateTodo (hasSupabaseEnv env) (now env) (net env) (client env)
                      (id todo) (Rest.mkUpdates None (Some nextCompleted) None None) in
    match outcome with
    | Rest.Resolved updated =>
        (setBusyId None (setTodos (replaceById updated (todos st1)) st1), reqs)
    | Rest.Rejected m =>
        (setBusyId None
           (setError (Some m)
              (setTodos (markCompleted (id todo) (is_completed todo) (todos st1)) st1)),
         reqs)
    end.

End HierarchyView.

(* ================================================================== *)
(** ** Range selection, nesting and unnesting in the outline variant *)
(* ================================================================== *)

Module OutlineActions.

(** [moveShiftSelectionByOffset]: the boolean it returns and the state it
    leaves (the focus it moves is not part of the state). *)
Definition moveShiftSelectionByOffset (filteredTodos : list TodoRecord)
    (focusedTodoId : string) (offset : Z) (st : AppState) : bool * AppState :=
  let focusedIndex := findIndex (fun todo => id todo =? focusedTodoId) filteredTodos in
  if (focusedIndex =? -1)%Z then (false, st)
  else
    let nextIndex := (focusedIndex + offset)%Z in
    if ((nextIndex <? 0) || (nextIndex >=? Z.of_nat (length filteredTodos)))%Z
    then (true, st)
    else
      let anchorId := match selectionAnchorId st with
                      | Some a => a
                      | None => focusedTodoId
                      end in
      let anchorIndex := findIndex (fun todo => id todo =? anchorId) filteredTodos in
      if (anchorIndex =? -1)%Z then (false, st)
      else
        let start := if (anchorIndex <=? nextIndex)%Z then anchorIndex else nextIndex in
        let end_ := if (anchorIndex <=? nextIndex)%Z then nextIndex else anchorIndex in
        let rangeIds := ids_of (JsIndex.slice filteredTodos start (end_ + 1)) in
        (true, setSelectedTodoIds rangeIds (setSelectionAnchorId (Some anchorId) st)).

(** The effect that follows a change of the filtered list. *)
Definition pruneSelection (filteredTodos : list TodoRecord) (st : AppState)
    : AppState :=
  let visibleIds := ids_of filteredTodos in
  let st1 := setSelectedTodoIds (filter (fun k => includes visibleIds k)
                                        (selectedTodoIds st)) st in
  if truthy (selectionAnchorId st) &&
     negb (match selectionAnchorId st with
           | Some a => includes visibleIds a
           | None => false
           end)
  then setSelectionAnchorId None st1 else st1.

(** [await Promise.all(updates.map(async (u) => updateTodo(u.id,
    { parent_id: u.parent_id })))] *)
Definition updateParents (env : Env) (updates : list (string * option string))
    : list Rest.Request * option string :=
  let calls :=
    map (fun u => Rest.updateTodo (hasSupabaseEnv env) (now env) (net env) (client env)
                                  (fst u)
                                  (Rest.mkUpdates None None None (Some (snd u))))
        updates in
  (concat (map fst calls),
   Rest.promiseAll
     (map (fun c => match snd c with
                    | Rest.Rejected m => Some m
                    | Rest.Resolved _ => None
                    end) calls)
     (arrival env)).


(** [unnestFocusedSelectionOneLevel] *)
Definition unnestFocusedSelectionOneLevel (env : Env) (activeId : string)
    (st : AppState) : AppState * list Rest.Request :=
  if negb (hasSupabaseEnv env) || truthy (busyId st) || truthy (editingId st)
  then (st, [])
  else
    let snapshot := todos st in
    match Outline.unnestUpdates snapshot (selectedTodoIds st) activeId with
    | [] => (st, [])
    | updates =>
        let next := Outline.afterUnnest snapshot (selectedTodoIds st) activeId in
        let '(reqs, failure) := updateParents env updates in
        match failure with
        | None => (setError None (setTodos next st), reqs)
        | Some m => (setError (Some m) (setTodos snapshot st), reqs)
        end
    end.

(** [nestFocusedSelectionIntoPrevious] *)
Definition nestFocusedSelectionIntoPrevious (env : Env) (activeId : string)
    (st : AppState) : AppState * list Rest.Request :=
  if negb (hasSupabaseEnv env) || truthy (busyId st) || truthy (editingId st)
  then (st, [])
  else
    let snapshot := todos st in
    match Outline.nestPlan snapshot (selectedTodoIds st) activeId with
    | None => (st, [])
    | Some (next, blockIds) =>
        let updates :=
          map (fun todoId =>
                 (todoId, match find (fun todo => id todo =? todoId) next with
                          | Some updatedTodo => parent_id updatedTodo
                          | None => None
                          end)) blockIds in
        let '(reqs, failure) := updateParents env updates in
        match failure with
        | Some m => (setError (Some m) (setTodos snapshot st), reqs)
        | None =>
            let '(st2, reqs') :=
              persistCurrentOrder env (setError None (setTodos next st)) in
            (st2, reqs ++ reqs')
        end
    end.

End OutlineActions.

(* ================================================================== *)
(** ** Nesting and unnesting in the hierarchy variant *)
(* ================================================================== *)

Module HierarchyNest.

(** [[...targetIds].sort((a, b) => key(a) - key(b))]: the sort is stable,
    identifiers with the same key keep their order. *)
Fixpoint insertByKey (key : string -> Z) (x : string) (sorted : list string)
    : list string :=
  match sorted with
  | [] => [x]
  | y :: r => if (key x <=? key y)%Z then x :: y :: r
              else y :: insertByKey key x r
  end.

Definition sortByKey (key : string -> Z) (l : list string) : list string :=
  fold_right (insertByKey key) [] l.

(** [visibleOrder.map((visibleId) => workingTodos.find((todo) => todo.id
    === visibleId)).filter(Boolean)] *)
Definition visibleIn (visibleOrder : list string) (workingTodos : list TodoRecord)
    : list TodoRecord :=
  flat_map (fun visibleId =>
              match find (fun todo => id todo =? visibleId) workingTodos with
              | Some todo => [todo]
              | None => []
              end) visibleOrder.

(** [depthMap[k] ?? 0] *)
Definition depthOr0 (depthMap : list (string * nat * nat)) (k : string) : Z :=
  match entry_get depthMap k with
  | Some d => Z.of_nat d
  | None => 0%Z
  end.

(** [workingTodos.map((item) => item.id === k ? { ...item, parent_id: p }
    : item)] *)
Definition setParent (k : string) (p : option string) (l : list TodoRecord)
    : list TodoRecord :=
  map (fun item => if id item =? k then with_parent item p else item) l.

(** One pass of the [forEach] of [handleNestActiveTodo], on the working
    list and the updates collected so far; [None] only when
    [buildDepthMap] has no result. *)
Definition nestStep (visibleOrder : list string)
    (acc : list TodoRecord * list (string * option string)) (targetId : string)
    : option (list TodoRecord * list (string * option string)) :=
  let '(workingTodos, updates) := acc in
  let visible := visibleIn visibleOrder workingTodos in
  let index := findIndex (fun todo => id todo =? targetId) visible in
  if (index <=? 0)%Z then Some acc
  else
    match nth_error visible (Z.to_nat (index - 1)),
          nth_error visible (Z.to_nat index) with
    | Some parent, Some current =>
        match Hierarchy.buildDepthMap workingTodos with
        | None => None
        | Some depthMap =>
            let currentDepth := depthOr0 depthMap (id current) in
            let parentDepth := depthOr0 depthMap (id parent) in
            let nextParentId :=
              if (currentDepth <? parentDepth)%Z then parent_id parent
              else Some (id parent) in
            if opt_eqb (parent_id current) nextParentId then Some acc
            else Some (setParent (id current) nextParentId workingTodos,
                       updates ++ [(id current, nextParentId)])
        end
    | _, _ => Some acc
    end.

(** One pass of the [forEach] of [handleUnnestActiveTodo]. *)
Definition unnestStep (visibleOrder : list string)
    (acc : list TodoRecord * list (string * option string)) (targetId : string)
    : option (list TodoRecord * list (string * option string)) :=
  let '(workingTodos, updates) := acc in
  let visible := visibleIn visibleOrder workingTodos in
  match find (fun todo => id todo =? targetId) visible with
  | None => Some acc
  | Some current =>
      if negb (truthy (parent_id current)) then Some acc
      else
        let currentIndex := findIndex (fun todo => id todo =? targetId) visible in
        let above :=
          if (currentIndex >? 0)%Z then nth_error visible (Z.to_nat (currentIndex - 1))
          else None in
        match Hierarchy.buildDepthMap workingTodos with
        | None => None
        | Some depthMap =>
            let currentDepth := depthOr0 depthMap (id current) in
            let aboveDepth :=
              match above with
              | Some a => depthOr0 depthMap (id a)
              | None => (-1)%Z
              end in
            let directParent :=
              find (fun todo => opt_eqb (Some (id todo)) (parent_id current))
                   workingTodos in
            let oneLevelUpParentId :=
              match directParent with
              | Some d => parent_id d
              | None => None
              end in
            let alignWithAboveParentId :=
              match above with
              | Some a => parent_id a
              | None => None
              end in
            let nextParentId :=
              match above with
              | Some _ => if (currentDepth >? aboveDepth)%Z
                          then alignWithAboveParentId else oneLevelUpParentId
              | None => oneLevelUpParentId
              end in
            if opt_eqb nextParentId (parent_id current) then Some acc
            else Some (setParent (id current) nextParentId workingTodos,
                       updates ++ [(id current, nextParentId)])
        end
  end.

(** [orderedTargetIds.forEach(...)] *)
Fixpoint forEachTarget
    (step : list TodoRecord * list (string * option string) -> string ->
            option (list TodoRecord * list (string * option string)))
    (targetIds : list string)
    (acc : list TodoRecord * list (string * option string))
    : option (list TodoRecord * list (string * option string)) :=
  match targetIds with
  | [] => Some acc
  | k :: rest =>
      match step acc k with
      | None => None
      | Some acc' => forEachTarget step rest acc'
      end
  end.

(** What [handleNestActiveTodo] and [handleUnnestActiveTodo] share: the
    guard, the targets in visible order, the passes, and the optimistic
    update with its way back. *)
Definition reparentVisible
    (step : list string -> list TodoRecord * list (string * option string) ->
            string -> option (list TodoRecord * list (string * option string)))
    (env : Env) (visible : list TodoRecord) (st : AppState)
    : option (AppState * list Rest.Request) :=
  let targetIds := Hierarchy.targetIdsOf st in
  if negb (hasSupabaseEnv env) || (length targetIds =? 0)%nat
     || truthy (busyId st) || truthy (editingId st)
  then Some (st, [])
  else
    let visibleOrder := ids_of visible in
    let orderedTargetIds := sortByKey (JsIndex.indexOf visibleOrder) targetIds in
    let previousTodos := todos st in
    match forEachTarget (step visibleOrder) orderedTargetIds (previousTodos, []) with
    | None => None
    | Some (workingTodos, updates) =>
        match updates with
        | [] => Some (st, [])
        | _ =>
            let '(reqs, failure) := OutlineActions.updateParents env updates in
            match failure with
            | None =>
                Some (setBusyId None (setTodos workingTodos (setError None st)), reqs)
            | Some m =>
                Some (setBusyId None (setError (Some m) (setTodos previousTodos st)),
                      reqs)
            end
        end
    end.

(** [handleNestActiveTodo] *)
Definition handleNestActiveTodo (env : Env) (visible : list TodoRecord)
    (st : AppState) : option (AppState * list Rest.Request) :=
  reparentVisible nestStep env visible st.

(** [handleUnnestActiveTodo] *)
Definition handleUnnestActiveTodo (env : Env) (visible : list TodoRecord)
    (st : AppState) : option (AppState * list Rest.Request) :=
  reparentVisible unnestStep env visible st.

End HierarchyNest.

(* ================================================================== *)
(** ** Sample data *)
(* ================================================================== *)

Module Examples.

Definition task (i : string) (p : option string) (pos : Z) : TodoRecord :=
  mkTodo i i false pos p "2024-05-01T09:00:00Z" "2024-05-01T09:00:00Z".

(** Three top-level tasks. *)
Definition abc : list TodoRecord :=
  [task "a" None 0; task "b" None 1; task "c" None 2].

(** A chain [R > Q > P] followed by a top-level task [T]. *)
Definition chain : list TodoRecord :=
  [task "R" None 0; task "Q" (Some "R") 1; task "P" (Some "Q") 2; task "T" None 3].

(** Two top-level tasks. *)
Definition pair : list TodoRecord := [task "P" None 0; task "T" None 1].

(** [B] is a child of [P], but [A] sits between them; [C] and [D] are
    top-level. *)
Definition straddledTail : list TodoRecord :=
  [task "P" None 0; task "A" None 1; task "B" (Some "P") 2; task "C" None 3;
   task "D" None 4].

(** [D] is a child of [B]. *)
Definition abcd : list TodoRecord :=
  [task "A" None 0; task "B" None 1; task "C" None 2; task "D" (Some "B") 3].

(** A parent and its child. *)
Definition family : list TodoRecord := [task "P" None 0; task "C" (Some "P") 1].

(** A child that comes before its parent. *)
Definition childFirst : list TodoRecord := [task "C" (Some "B") 0; task "B" None 1].

Definition familyRank (k : string) : nat := if k =? "C" then 1 else 0.

(** A store that accepts every call. *)
Definition acceptAll : Rest.Net :=
  Rest.mkNet (fun _ _ => Rest.Ok []) (fun _ _ _ => Rest.Ok [])
             (fun _ _ _ => Rest.Ok []) (fun _ _ => Rest.Ok tt)
             (fun _ => Rest.Ok tt).

(** A store that refuses the position update of one identifier. *)
Definition refusePosition (bad : string) : Rest.Net :=
  Rest.mkNet (fun _ _ => Rest.Ok []) (fun _ _ _ => Rest.Ok [])
             (fun _ _ _ => Rest.Ok [])
             (fun k _ => if k =? bad
                         then Rest.NotOk "500 Internal Server Error" None
                         else Rest.Ok tt)
             (fun _ => Rest.Ok tt).

Definition row (i : string) : Rest.ListRow :=
  Rest.mkListRow i i false "2024-05-01T09:00:00Z" "2024-05-01T09:00:00Z" None None.

(** A store whose table has no position column. *)
Definition noPositionStore : Rest.Net :=
  Rest.mkNet
    (fun cols _ =>
       if Rest.selectsPosition cols
       then Rest.NotOk "400 Bad Request"
              (Some (Rest.mkPayload (Some "column todos.position does not exist")
                                    None None))
       else Rest.Ok [row "x"; row "y"])
    (fun _ _ _ => Rest.Ok []) (fun _ _ _ => Rest.Ok [])
    (fun _ _ => Rest.Ok tt) (fun _ => Rest.Ok tt).

(** A store whose table has neither optional column; the error names the
    first column of the select list that is missing. *)
Definition baseOnlyStore : Rest.Net :=
  Rest.mkNet
    (fun cols _ =>
       match cols with
       | Rest.positionedColumns | Rest.parentColumns =>
           Rest.NotOk "400 Bad Request"
             (Some (Rest.mkPayload (Some "column todos.parent_id does not exist")
                                   None None))
       | Rest.positionedNoParentColumns =>
           Rest.NotOk "400 Bad Request"
             (Some (Rest.mkPayload (Some "column todos.position does not exist")
                                   None None))
       | Rest.baseColumns => Rest.Ok [row "x"; row "y"]
       end)
    (fun _ _ _ => Rest.Ok []) (fun _ _ _ => Rest.Ok [])
    (fun _ _ => Rest.Ok tt) (fun _ => Rest.Ok tt).

Definition envOf (n : Rest.Net) : Env :=
  mkEnv true n [] "2024-05-02T10:00:00Z" (Rest.mkClient (Some true) (Some true)).

(** Nothing is being edited, selected or saved. *)
Definition idle (l : list TodoRecord) : AppState :=
  mkApp l None None None "" [] None None true false FilterAll true.

(** The title of [target] is being edited and holds [text]. *)
Definition editing (l : list TodoRecord) (target text : string) : AppState :=
  mkApp l None None (Some target) text [] None None true false FilterAll true.

(** [sel] is selected. *)
Definition selecting (l : list TodoRecord) (sel : list string) : AppState :=
  mkApp l None None None "" sel None None true false FilterAll true.

End Examples.

(* ================================================================== *)
(** ** Vocabulary of the properties *)
(* ================================================================== *)

(** A record with its rank forgotten. *)
Definition strip (t : TodoRecord) : TodoRecord := with_position t 0.

(** The identifier resolves to a record without a (truthy) parent. *)
Definition rootKey (items : list TodoRecord) (k : string) : Prop :=
  match byId_get items k with
  | Some t => truthy (parent_id t) = false
  | None => True
  end.

(** Cached depths are 0 at the roots. *)
Definition cacheOk (items : list TodoRecord) (cache : list (string * nat)) : Prop :=
  forall k d, In (k, d) cache -> rootKey items k -> d = 0.

(** Memoised depths are 0 at the roots. *)
Definition memoOk (all : list TodoRecord) (memo : list (string * nat)) : Prop :=
  forall k d, In (k, d) memo -> rootKey all k -> d = 0.

(** What is left after the selected identifiers are filtered out. *)
Definition withoutSelected (selected : list string) (l : list TodoRecord)
    : list TodoRecord :=
  normalizePositions (filter (fun t => negb (includes selected (id t))) l).

(** The outcome of one position update. *)
Definition patchFails (n : Rest.Net) (target : string) (index : nat) : option string :=
  Rest.throwOnError (Rest.patchPosition n target (Z.of_nat index)).

(** The answer to the first request names the missing position column (and
    not the parent column): this is what [listTodos] reads off the error
    message. *)
Definition reportsMissingPosition (r : Rest.Response (list Rest.ListRow)) : Prop :=
  exists statusLine payload m,
    r = Rest.NotOk statusLine (Some payload) /\
    Rest.message payload = Some m /\
    Rest.isMissingColumn "parent_id" m = false /\
    Rest.isMissingColumn "position" m = true.

(** The store has no position column: no request that selects it is
    answered with rows. *)
Definition lacksPosition (n : Rest.Net) : Prop :=
  forall cols order, Rest.selectsPosition cols = true ->
    exists statusLine json, Rest.getTodos n cols order = Rest.NotOk statusLine json.

(** One level up from the reference [p]: the parent of the record that [p]
    names, none when it names no record. *)
Definition levelUp (items : list TodoRecord) (p : option string) : option string :=
  match p with
  | Some pid =>
      match byId_get items pid with
      | Some parent => parent_id parent
      | None => None
      end
  | None => None
  end.

(** The parent that [nestFocusedSelectionIntoPrevious] gives the block
    ([nextParentIdForBlock]): the record above it, or the parent of that
    record when it has one and the records of the block are not all
    children of that parent. *)
Definition nestTarget (above : TodoRecord) (block : list TodoRecord) : option string :=
  if truthy (parent_id above)
  then if truthy (parent_id above)
          && forallb (fun todo => opt_eqb (parent_id todo) (parent_id above)) block
       then Some (id above) else parent_id above
  else Some (id above).

(** No parent reference is the empty string. *)
Definition noEmptyParent (l : list TodoRecord) : Prop :=
  forall t, In t l -> parent_id t <> Some "".

(** [rank] decreases along every parent reference: the references form a
    forest, without a cycle. *)
Definition ranked (rank : string -> nat) (l : list TodoRecord) : Prop :=
  forall t pid, In t l -> parent_id t = Some pid -> rank pid < rank (id t).


(** The two lists agree in everything but the parent references. *)
Definition sameButParents (l l' : list TodoRecord) : Prop :=
  map (fun t => with_parent t None) l = map (fun t => with_parent t None) l'.




(** [pid] is reached from [k] by following parent references of [l]. *)
Inductive ancestorIn (l : list TodoRecord) : string -> string -> Prop :=
  | anc_parent : forall t pid,
      In t l -> parent_id t = Some pid -> ancestorIn l (id t) pid
  | anc_up : forall k p q,
      ancestorIn l k p -> ancestorIn l p q -> ancestorIn l k q.




(** The select list names [parent_id]. *)
Definition selectsParent (c : Rest.Columns) : bool :=
  match c with
  | Rest.parentColumns | Rest.positionedColumns => true
  | _ => false
  end.

(** The request names the position column, in its select list or in its
    body. *)
Definition namesPosition (r : Rest.Request) : bool :=
  match r with
  | Rest.GetTodos c _ => Rest.selectsPosition c
  | Rest.PostTodo _ body c =>
      match body with Some _ => true | None => false end || Rest.selectsPosition c
  | Rest.PatchTodo _ u c =>
      match Rest.u_position u with Some _ => true | None => false end
      || Rest.selectsPosition c
  | Rest.PatchPosition _ _ => true
  | Rest.DeleteTodo _ => false
  end.

(** The requests of one call of the client. *)
Definition requestsOf (hasEnv : bool) (cs : Rest.ClientState) (c : Rest.ClientCall)
    : list Rest.Request :=
  match c with
  | Rest.CallList n => snd (fst (Rest.listTodos hasEnv n cs))
  | Rest.CallCreate n now t pos => fst (Rest.createTodo hasEnv now n cs t pos)
  | Rest.CallUpdate n now target u => fst (Rest.updateTodo hasEnv now n cs target u)
  | Rest.CallPositions n arr ids => fst (Rest.updateTodoPositions hasEnv n arr cs ids)
  | Rest.CallDelete n target => fst (Rest.deleteTodo hasEnv n target)
  end.

(** The ranks of the list are its indices. *)
Definition wellRanked (l : list TodoRecord) : Prop := normalizePositions l = l.

(** A store that refuses every call. *)
Definition refuseAll : Rest.Net :=
  Rest.mkNet (fun _ _ => Rest.NotOk "503 Service Unavailable" None)
             (fun _ _ _ => Rest.NotOk "503 Service Unavailable" None)
             (fun _ _ _ => Rest.NotOk "503 Service Unavailable" None)
             (fun _ _ => Rest.NotOk "503 Service Unavailable" None)
             (fun _ => Rest.NotOk "503 Service Unavailable" None).

(** A store that answers a create or an update with the row it was sent. *)
Definition echoStore : Rest.Net :=
  Rest.mkNet (fun _ _ => Rest.Ok [])
             (fun t pos _ =>
                Rest.Ok [Rest.mkPartialRow (Some "n1") (Some t) (Some false) pos None
                                           None None])
             (fun k u _ =>
                Rest.Ok [Rest.mkPartialRow (Some k) (Rest.u_title u)
                                           (Rest.u_is_completed u) (Rest.u_position u)
                                           None None None])
             (fun _ _ => Rest.Ok tt) (fun _ => Rest.Ok tt).

(** The handler does nothing while a task is busy, and leaves none busy
    when it ran. *)
Definition guardedByBusy (h : AppState -> AppState * list Rest.Request) : Prop :=
  forall st,
    (truthy (busyId st) = true -> h st = (st, [])) /\
    (truthy (busyId st) = false -> truthy (busyId (fst (h st))) = false).

(** The outcome of a handler whose model needs fuel, the state as it was
    standing for a run that the fuel does not cover. *)
Definition settled (st : AppState) (r : option (AppState * list Rest.Request))
    : AppState * list Rest.Request :=
  match r with
  | Some out => out
  | None => (st, [])
  end.

(** The state a handler leaves when its call was rejected with [m]. *)
Definition afterRejection (m : string) (st : AppState) : AppState :=
  setBusyId None (setError (Some m) st).

(** Every parent reference names a record of the list. *)
Definition parentsPresent (l : list TodoRecord) : Prop :=
  forall t pid, In t l -> parent_id t = Some pid -> In pid (ids_of l).

(** [d] parent references lead from the record [k] up to a record without
    parent. *)
Inductive depthIs (items : list TodoRecord) : string -> nat -> Prop :=
  | depth_root : forall t,
      In t items -> parent_id t = None -> depthIs items (id t) 0
  | depth_child : forall t p d,
      In t items -> parent_id t = Some p -> depthIs items p d ->
      depthIs items (id t) (S d).

(** The record [k] refers to a parent that is not in the list. *)
Definition dangling (items : list TodoRecord) (k : string) : Prop :=
  exists t p, byId_get items k = Some t /\ parent_id t = Some p /\
              truthy (Some p) = true /\ byId_has items p = false.

(** The identifiers an outline action applies to: the selection when the
    active task is part of it, the active task alone otherwise. *)
Definition targetsOf (selected : list string) (activeId : string) : list string :=
  if negb (length selected =? 0)%nat && includes selected activeId
  then selected else [activeId].

(** The request carries a new parent for [k] and nothing else. *)
Definition reparents (cs : Rest.ClientState) (r : Rest.Request) (k : string) : Prop :=
  exists p, r = Rest.PatchTodo k (Rest.mkUpdates None None None (Some p))
                               (Rest.currentSelectColumns cs).

(** The list with the parent updates applied one after the other. *)
Definition applyParents (updates : list (string * option string))
    (l : list TodoRecord) : list TodoRecord :=
  fold_left (fun acc u => HierarchyNest.setParent (fst u) (snd u) acc) updates l.

(** The handler settles, with parent updates for targets only.  The list
    it leaves differs from the one it found in parent references only; it
    sends one request per update, carrying the new parent and nothing
    else.  Without an update the state is untouched; when every update is
    accepted the list left is the list found with the updates applied, no
    error is shown and nothing is busy; when one is refused the state is
    the one found with the message of the refusal. *)
Definition reparentsOnly (env : Env) (st : AppState)
    (r : option (AppState * list Rest.Request)) : Prop :=
  exists out updates,
    r = Some out /\
    sameButParents (todos (fst out)) (todos st) /\
    (forall u, In u updates -> In (fst u) (Hierarchy.targetIdsOf st)) /\
    snd out
    = map (fun u => Rest.PatchTodo (fst u)
                      (Rest.mkUpdates None None None (Some (snd u)))
                      (Rest.currentSelectColumns (client env))) updates /\
    (updates = [] -> fst out = st) /\
    (updates <> [] ->
     snd (OutlineActions.updateParents env updates) = None ->
     fst out = setBusyId None (setTodos (applyParents updates (todos st))
                                        (setError None st))) /\
    (forall m,
       updates <> [] ->
       snd (OutlineActions.updateParents env updates) = Some m ->
       fst out = afterRejection m st).

(* ================================================================== *)
(** * Properties *)
(* ================================================================== *)

Arguments truthy : simpl never.
Arguments deleteAll : simpl never.
Arguments persistCurrentOrder : simpl never.
Arguments Rest.updateTodoPositions : simpl never.
Arguments Rest.deleteTodo : simpl never.
Arguments Rest.updateTodo : simpl never.
Arguments normalizePositions : simpl never.

Lemma opt_eqb_eq : forall a b, opt_eqb a b = true <-> a = b.
Proof.
  intros [x|] [y|]; simpl; split; intro H; try congruence; try discriminate.
  - apply String.eqb_eq in H. now subst.
  - inversion H. apply String.eqb_refl.
Qed.

(** ** Lists, indices and splices *)

Section ListFacts.
Variable A : Type.
Implicit Types (l a b : list A) (x : A) (p : A -> bool).

Lemma firstn_app_len : forall a b, firstn (length a) (a ++ b) = a.
Proof. induction a; simpl; intros; [now destruct b | now rewrite IHa]. Qed.

Lemma skipn_app_len : forall a b, skipn (length a) (a ++ b) = b.
Proof. induction a; simpl; intros; auto. Qed.

Lemma nth_error_app_len : forall a x b, nth_error (a ++ x :: b) (length a) = Some x.
Proof. induction a; simpl; intros; auto. Qed.

Lemma skipn_S_app_len : forall a x b, skipn (S (length a)) (a ++ x :: b) = b.
Proof.
  intros.
  replace (S (length a)) with (length (a ++ [x])) by (rewrite length_app; simpl; lia).
  replace (a ++ x :: b) with ((a ++ [x]) ++ b) by (now rewrite <- app_assoc).
  apply skipn_app_len.
Qed.

Lemma spliceStart_nat : forall len i, spliceStart len (Z.of_nat i) = Nat.min i len.
Proof.
  intros. unfold spliceStart.
  destruct (Z.ltb_spec (Z.of_nat i) 0); [lia|]. now rewrite Nat2Z.id.
Qed.

(** Removing the element at an index that exists. *)
Lemma spliceOut_at : forall a x b,
  spliceOut (a ++ x :: b) (Z.of_nat (length a)) = (Some x, a ++ b).
Proof.
  intros. unfold spliceOut. rewrite spliceStart_nat.
  rewrite Nat.min_l by (rewrite length_app; simpl; lia).
  now rewrite nth_error_app_len, firstn_app_len, skipn_S_app_len.
Qed.

(** Inserting at an index within the array. *)
Lemma spliceIn_at : forall a b xs,
  spliceIn (a ++ b) (Z.of_nat (length a)) xs = a ++ xs ++ b.
Proof.
  intros. unfold spliceIn. rewrite spliceStart_nat.
  rewrite Nat.min_l by (rewrite length_app; lia).
  now rewrite firstn_app_len, skipn_app_len.
Qed.

Lemma arrayMove_split : forall a x b (j : nat),
  j <= length (a ++ b) ->
  arrayMove (a ++ x :: b) (Z.of_nat (length a)) (Z.of_nat j)
  = firstn j (a ++ b) ++ x :: skipn j (a ++ b).
Proof.
  intros. unfold arrayMove. rewrite spliceOut_at.
  unfold spliceIn. rewrite spliceStart_nat, Nat.min_l by assumption.
  reflexivity.
Qed.

Lemma split_at : forall l (i : nat),
  i < length l -> exists a x b, l = a ++ x :: b /\ length a = i.
Proof.
  intros l i Hi.
  destruct (nth_error l i) as [x|] eqn:E.
  - apply nth_error_split in E. destruct E as (a & b & -> & <-). eauto.
  - apply nth_error_None in E. lia.
Qed.

(** Moving an element from [i] to [j] and back from [j] to [i] gives the
    array back. *)
Lemma arrayMove_round_trip : forall l (i j : nat),
  i < length l -> j < length l ->
  arrayMove (arrayMove l (Z.of_nat i) (Z.of_nat j)) (Z.of_nat j) (Z.of_nat i) = l.
Proof.
  intros l i j Hi Hj.
  destruct (split_at l Hi) as (a & x & b & -> & <-).
  assert (Hlen : j <= length (a ++ b)).
  { rewrite length_app in *. simpl in Hj. lia. }
  rewrite arrayMove_split by assumption.
  set (u := firstn j (a ++ b)). set (v := skipn j (a ++ b)).
  assert (Hu : length u = j) by (unfold u; rewrite length_firstn; lia).
  assert (Huv : u ++ v = a ++ b) by apply firstn_skipn.
  rewrite <- Hu at 1.
  unfold arrayMove. rewrite spliceOut_at, Huv.
  now rewrite spliceIn_at.
Qed.

Lemma findIndexFrom_app_none : forall p a r k,
  (forall y, In y a -> p y = false) ->
  findIndexFrom p k (a ++ r) = findIndexFrom p (k + length a) r.
Proof.
  induction a as [|y a IH]; simpl; intros r k H.
  - now rewrite Nat.add_0_r.
  - rewrite (H y) by auto. rewrite IH by auto. f_equal. lia.
Qed.

Lemma findIndex_at : forall p a x b,
  (forall y, In y a -> p y = false) -> p x = true ->
  findIndex p (a ++ x :: b) = Z.of_nat (length a).
Proof.
  intros. unfold findIndex. rewrite findIndexFrom_app_none by assumption.
  simpl. now rewrite H0.
Qed.

Lemma findIndexFrom_none : forall p l k,
  (forall y, In y l -> p y = false) -> findIndexFrom p k l = (-1)%Z.
Proof.
  induction l as [|y l IH]; simpl; intros; auto.
  rewrite (H y) by auto. apply IH. auto.
Qed.

Lemma findIndexFrom_found : forall p l k x,
  In x l -> p x = true ->
  exists a y b, l = a ++ y :: b /\ p y = true /\
                (forall z, In z a -> p z = false) /\
                findIndexFrom p k l = Z.of_nat (k + length a).
Proof.
  induction l as [|y l IH]; simpl; intros k x Hin Hp; [contradiction|].
  destruct (p y) eqn:Ey.
  - exists [], y, l. simpl.
    repeat split; auto; try contradiction; try (now rewrite Nat.add_0_r).
  - destruct Hin as [->|Hin]; [congruence|].
    destruct (IH (S k) x Hin Hp) as (a & z & b & -> & Hz & Ha & Hf).
    exists (y :: a), z, b. simpl. repeat split; auto.
    + intros w [<-|Hw]; auto.
    + rewrite Hf. f_equal. lia.
Qed.

Lemma mapiFrom_length : forall (B : Type) (f : A -> nat -> B) l k,
  length (mapiFrom f k l) = length l.
Proof. induction l; simpl; intros; auto. Qed.

End ListFacts.

Lemma arrayMove_map : forall (A B : Type) (g : A -> B) (l : list A) i j,
  arrayMove (map g l) i j = map g (arrayMove l i j).
Proof.
  intros. unfold arrayMove, spliceOut, spliceIn.
  rewrite length_map, nth_error_map.
  destruct (nth_error l (spliceStart (length l) i)); cbn [option_map]; auto.
  rewrite firstn_map, skipn_map, <- map_app, length_map.
  rewrite firstn_map, skipn_map.
  change [g a] with (map g [a]). now rewrite <- !map_app.
Qed.

Lemma findIndex_map : forall (A B : Type) (g : A -> B) (p : B -> bool) (l : list A),
  findIndex p (map g l) = findIndex (fun x => p (g x)) l.
Proof.
  intros. unfold findIndex. generalize 0.
  induction l; simpl; intros; auto. destruct (p (g a)); auto.
Qed.

(** ** Renormalisation *)

Lemma normalizeFrom_strip : forall l1 l2 k,
  map strip l1 = map strip l2 ->
  mapiFrom (fun todo index => with_position todo (Z.of_nat index)) k l1
  = mapiFrom (fun todo index => with_position todo (Z.of_nat index)) k l2.
Proof.
  induction l1 as [|x l1 IH]; destruct l2 as [|y l2]; simpl; intros k H;
    try discriminate; auto.
  inversion H. f_equal; [|now apply IH].
  unfold strip, with_position in *. destruct x, y. simpl in *. congruence.
Qed.

Lemma normalizePositions_strip_eq : forall l1 l2,
  map strip l1 = map strip l2 -> normalizePositions l1 = normalizePositions l2.
Proof. intros. now apply normalizeFrom_strip. Qed.

Lemma strip_normalizePositions : forall l,
  map strip (normalizePositions l) = map strip l.
Proof.
  intros. unfold normalizePositions, mapi. generalize 0.
  induction l; simpl; intros; auto. now rewrite IHl.
Qed.

Lemma ids_normalizePositions : forall l, ids_of (normalizePositions l) = ids_of l.
Proof.
  intros. unfold normalizePositions, mapi, ids_of. generalize 0.
  induction l; simpl; intros; auto. now rewrite IHl.
Qed.

Lemma length_normalizePositions : forall l,
  length (normalizePositions l) = length l.
Proof. intros. apply mapiFrom_length. Qed.

Lemma positions_normalizePositions : forall l,
  map position (normalizePositions l) = map Z.of_nat (seq 0 (length l)).
Proof.
  intros. unfold normalizePositions, mapi. generalize 0.
  induction l; simpl; intros; auto. now rewrite IHl.
Qed.

(** ** Identifiers *)

Lemma ids_filter : forall (q : string -> bool) (l : list TodoRecord),
  ids_of (filter (fun t => q (id t)) l) = filter q (ids_of l).
Proof.
  induction l as [|t l IH]; simpl; auto.
  destruct (q (id t)); simpl; now rewrite IH.
Qed.

Lemma filter_all : forall (A : Type) (q : A -> bool) (l : list A),
  (forall x, In x l -> q x = true) -> filter q l = l.
Proof.
  induction l as [|x l IH]; simpl; intros H; auto.
  rewrite (H x) by auto. f_equal. apply IH. auto.
Qed.

(** Dropping an identifier that occurs once shortens the list by one. *)
Lemma length_filter_neq : forall (l : list string) (i : string),
  NoDup l -> In i l ->
  length (filter (fun x => negb (x =? i)) l) = length l - 1.
Proof.
  induction l as [|x l IH]; simpl; intros i Hnd Hin; [contradiction|].
  inversion Hnd as [|? ? Hx Hl]; subst.
  destruct (String.eqb_spec x i) as [->|Hne]; simpl.
  - rewrite filter_all; [lia|].
    intros y Hy. destruct (String.eqb_spec y i); subst; auto.
  - destruct Hin as [->|Hin]; [congruence|].
    rewrite IH by assumption.
    destruct l; [contradiction | simpl; lia].
Qed.

(** The first record carrying identifier [a], when identifiers are unique. *)
Lemma findIndex_unique_id : forall (items : list TodoRecord) (a : string),
  NoDup (ids_of items) -> In a (ids_of items) ->
  exists A x B, items = A ++ x :: B /\ id x = a /\
    ~ In a (ids_of A) /\ ~ In a (ids_of B) /\
    findIndex (fun t => id t =? a) items = Z.of_nat (length A).
Proof.
  intros items a Hnd Hin.
  apply in_map_iff in Hin. destruct Hin as (x0 & Hx0 & Hin).
  destruct (@findIndexFrom_found _ (fun t => id t =? a) items 0 x0 Hin)
    as (A & x & B & -> & Hx & HA & Hf).
  { now apply String.eqb_eq. }
  apply String.eqb_eq in Hx.
  exists A, x, B. repeat split; auto.
  - intro H. apply in_map_iff in H. destruct H as (z & Hz & Hz').
    apply HA in Hz'. apply String.eqb_neq in Hz'. congruence.
  - unfold ids_of in Hnd. rewrite map_app in Hnd. simpl in Hnd.
    apply NoDup_remove_2 in Hnd. rewrite Hx in Hnd.
    intro H. apply Hnd. apply in_or_app. now right.
Qed.

(* ------------------------------------------------------------------ *)
(** ** C5: removal renormalises the remaining ranks *)
(* ------------------------------------------------------------------ *)

(** C5. For every sequence [S] of tasks with unique identifiers and every
    identifier [i] occurring in it, the list left by removing [i]
    ([handleDelete]: filter, then [normalizePositions]) has one element
    less, carries exactly the ranks [0 .. len(S)-2] in that order, and
    consists of the remaining records of [S] in their original relative
    order, unchanged apart from their rank. *)
Theorem remove_renormalizes :
  forall (items : list TodoRecord) (i : string),
    NoDup (ids_of items) -> In i (ids_of items) ->
    let rest := Flat.removeTodo items i in
    length rest = length items - 1 /\
    map position rest = map Z.of_nat (seq 0 (length items - 1)) /\
    ids_of rest = filter (fun x => negb (x =? i)) (ids_of items) /\
    map strip rest = map strip (filter (fun t => negb (id t =? i)) items).
Proof.
  intros items i Hnd Hin rest. subst rest. unfold Flat.removeTodo.
  assert (Hlen : length (filter (fun t => negb (id t =? i)) items) = length items - 1).
  { rewrite <- (length_map id). fold (ids_of (filter (fun t => negb (id t =? i)) items)).
    rewrite (ids_filter (fun x => negb (x =? i))).
    rewrite length_filter_neq by assumption. unfold ids_of. now rewrite length_map. }
  repeat split.
  - now rewrite length_normalizePositions.
  - now rewrite positions_normalizePositions, Hlen.
  - rewrite ids_normalizePositions. apply (ids_filter (fun x => negb (x =? i))).
  - apply strip_normalizePositions.
Qed.

(* ------------------------------------------------------------------ *)
(** ** C10: moving an item to an index and back *)
(* ------------------------------------------------------------------ *)

(** C10. For every sequence [S] with unique identifiers, every identifier
    [a] occurring in [S] and every index [0 <= j < len(S)]: after
    [normalizePositions (arrayMove items i j)], where [i] is the index of [a],
    the item sits at index [j], and moving it from [j] back to [i] (again
    followed by [normalizePositions]) gives the original order with ranks
    [0 .. len(S)-1]; it is [S] itself when [S] was normalised. *)
Theorem moveTo_round_trip :
  forall (items : list TodoRecord) (a : string) (j : Z),
    NoDup (ids_of items) -> In a (ids_of items) ->
    (0 <= j < Z.of_nat (length items))%Z ->
    let i := findIndex (fun t => id t =? a) items in
    let moved := normalizePositions (arrayMove items i j) in
    findIndex (fun t => id t =? a) moved = j /\
    normalizePositions (arrayMove moved j i) = normalizePositions items /\
    ids_of (normalizePositions (arrayMove moved j i)) = ids_of items /\
    (normalizePositions items = items ->
     normalizePositions (arrayMove moved j i) = items).
Proof.
  intros items a j Hnd Hin Hj i moved.
  destruct (findIndex_unique_id items a Hnd Hin) as (A & x & B & Hitems & Hx & HnA & HnB & Hi).
  assert (Hi' : i = Z.of_nat (length A)) by exact Hi.
  assert (HlenA : length A < length items).
  { rewrite Hitems, length_app. simpl. lia. }
  set (jn := Z.to_nat j).
  assert (Hjn : j = Z.of_nat jn) by (unfold jn; lia).
  assert (Hjlt : jn < length items) by lia.
  assert (Hback : normalizePositions (arrayMove moved j i) = normalizePositions items).
  { apply normalizePositions_strip_eq.
    rewrite <- arrayMove_map. unfold moved.
    rewrite strip_normalizePositions, <- arrayMove_map.
    rewrite Hi', Hjn. apply arrayMove_round_trip; now rewrite length_map. }
  split; [|split; [exact Hback|split]].
  - rewrite <- (findIndex_map id (fun y => y =? a)).
    fold (ids_of moved). unfold moved. rewrite ids_normalizePositions.
    unfold ids_of. rewrite <- arrayMove_map.
    rewrite Hi', Hjn, Hitems, map_app. simpl map.
    rewrite <- (length_map id A).
    assert (Hle : jn <= length (map id A ++ map id B)).
    { rewrite length_app, !length_map. rewrite Hitems, length_app in Hjlt.
      simpl in Hjlt. lia. }
    rewrite arrayMove_split by exact Hle.
    rewrite findIndex_at.
    + rewrite length_firstn. f_equal. lia.
    + intros y Hy. apply String.eqb_neq. intros ->.
      assert (Hy' : In a (map id A ++ map id B)).
      { rewrite <- (firstn_skipn jn (map id A ++ map id B)).
        apply in_or_app. now left. }
      apply in_app_or in Hy'. destruct Hy'; [now apply HnA | now apply HnB].
    + rewrite Hx. apply String.eqb_refl.
  - rewrite Hback. apply ids_normalizePositions.
  - intros Hnorm. now rewrite Hback.
Qed.

(** ** Lookups by identifier *)

Lemma includes_In : forall (l : list string) (k : string),
  includes l k = true <-> In k l.
Proof.
  intros. unfold includes. rewrite existsb_exists. split.
  - intros (x & Hx & E). apply String.eqb_eq in E. now subst.
  - intros H. exists k. split; auto. apply String.eqb_refl.
Qed.

Lemma includes_not_In : forall (l : list string) (k : string),
  includes l k = false <-> ~ In k l.
Proof.
  intros. rewrite <- includes_In. destruct (includes l k); split; congruence.
Qed.

Lemma byId_has_In : forall items k, byId_has items k = true <-> In k (ids_of items).
Proof.
  intros. unfold byId_has, ids_of. rewrite existsb_exists, in_map_iff. split.
  - intros (t & Ht & E). apply String.eqb_eq in E. eauto.
  - intros (t & E & Ht). exists t. split; auto. now apply String.eqb_eq.
Qed.

Lemma byId_get_Some : forall items k t,
  byId_get items k = Some t -> In t items /\ id t = k.
Proof.
  unfold byId_get. intros items k t H. apply find_some in H.
  destruct H as [Hin E]. apply in_rev in Hin. apply String.eqb_eq in E. auto.
Qed.

Lemma byId_get_None : forall items k,
  byId_get items k = None -> ~ In k (ids_of items).
Proof.
  unfold byId_get. intros items k H Hin.
  apply in_map_iff in Hin. destruct Hin as (t & E & Hin).
  pose proof (find_none _ _ H t) as Hf. rewrite <- in_rev in Hf.
  specialize (Hf Hin). simpl in Hf. rewrite E, String.eqb_refl in Hf. discriminate.
Qed.

Lemma find_unique : forall (A : Type) (p : A -> bool) (l : list A) (x : A),
  (forall y, In y l -> p y = true -> y = x) -> In x l -> p x = true ->
  find p l = Some x.
Proof.
  induction l as [|y l IH]; simpl; intros x Hu Hin Hp; [contradiction|].
  destruct (p y) eqn:E.
  - f_equal. apply Hu; auto.
  - destruct Hin as [->|Hin]; [congruence|]. apply IH; auto.
Qed.

Lemma NoDup_ids_inj : forall items t u,
  NoDup (ids_of items) -> In t items -> In u items -> id t = id u -> t = u.
Proof.
  induction items as [|x items IH]; simpl; intros t u Hnd Ht Hu E; [contradiction|].
  inversion Hnd as [|? ? Hx Hnd']; subst.
  destruct Ht as [->|Ht], Hu as [->|Hu]; auto.
  - exfalso. apply Hx. rewrite E. now apply in_map.
  - exfalso. apply Hx. rewrite <- E. now apply in_map.
Qed.

Lemma byId_get_unique : forall items t,
  NoDup (ids_of items) -> In t items -> byId_get items (id t) = Some t.
Proof.
  intros items t Hnd Hin. unfold byId_get. apply find_unique.
  - intros y Hy E. apply in_rev in Hy. apply String.eqb_eq in E.
    eapply NoDup_ids_inj; eauto.
  - now apply in_rev in Hin.
  - apply String.eqb_refl.
Qed.

Lemma ids_length : forall items, length (ids_of items) = length items.
Proof. intros. apply length_map. Qed.

(** A set of identifiers seen so far never outgrows the collection. *)
Lemma seen_bound : forall (items : list TodoRecord) (seen : list string),
  NoDup seen -> incl seen (ids_of items) -> length seen <= length items.
Proof.
  intros. rewrite <- ids_length. now apply NoDup_incl_length.
Qed.

(* ------------------------------------------------------------------ *)
(** ** C6: the depth computation ends and gives 0 at the roots *)
(* ------------------------------------------------------------------ *)

Lemma cache_get_In : forall cache k d,
  Hierarchy.cache_get cache k = Some d -> In (k, d) cache.
Proof.
  unfold Hierarchy.cache_get. intros cache k d H.
  destruct (find (fun e => fst e =? k) cache) as [[k' d']|] eqn:E; [|discriminate].
  apply find_some in E. destruct E as [Hin E]. simpl in E.
  apply String.eqb_eq in E. inversion H. now subst.
Qed.

Lemma cacheOk_cons_zero : forall items cache k,
  cacheOk items cache -> cacheOk items ((k, 0) :: cache).
Proof.
  intros items cache k H k' d [E|Hin] Hr; [now inversion E | eauto].
Qed.

(** [getDepth] returns within the fuel that the size of the collection
    gives it, follows no more parent links than there are records left
    unseen, and gives 0 at a root. *)
Lemma getDepth_total : forall fuel items k seen cache,
  NoDup seen -> incl seen (ids_of items) ->
  length items < fuel + length seen ->
  cacheOk items cache ->
  exists d cache' links,
    Hierarchy.getDepth fuel items k seen cache = Some (d, cache', links) /\
    links + length seen <= length items /\
    cacheOk items cache' /\
    (rootKey items k -> d = 0).
Proof.
  induction fuel as [|fuel IH]; intros items k seen cache Hnd Hincl Hfuel Hc.
  - pose proof (seen_bound items Hnd Hincl). lia.
  - pose proof (seen_bound items Hnd Hincl) as Hb.
    simpl.
    destruct (Hierarchy.cache_get cache k) as [d|] eqn:Ecache.
    { exists d, cache, 0. repeat split; auto.
      intros Hr. apply cache_get_In in Ecache. eauto. }
    unfold rootKey.
    destruct (byId_get items k) as [item|] eqn:Eitem.
    2:{ exists 0, ((k, 0) :: cache), 0. repeat split; auto.
        now apply cacheOk_cons_zero. }
    destruct (parent_id item) as [pid|] eqn:Epar.
    2:{ exists 0, ((k, 0) :: cache), 0. repeat split; auto.
        now apply cacheOk_cons_zero. }
    destruct (negb (truthy (Some pid))) eqn:Etruthy.
    { exists 0, ((k, 0) :: cache), 0. repeat split; auto.
      now apply cacheOk_cons_zero. }
    destruct (includes seen k || negb (byId_has items pid)) eqn:Estop.
    { exists 0, ((k, 0) :: cache), 0. repeat split; auto.
      now apply cacheOk_cons_zero. }
    apply orb_false_iff in Estop. destruct Estop as [Hseen _].
    apply includes_not_In in Hseen.
    apply byId_get_Some in Eitem as Hitem. destruct Hitem as [Hin Hid].
    assert (Hk : In k (ids_of items)).
    { rewrite <- Hid. now apply in_map. }
    destruct (IH items pid (k :: seen) cache) as (d & cache' & links & E & Hl & Hc' & _).
    + now constructor.
    + intros x [<-|Hx]; auto.
    + simpl. lia.
    + assumption.
    + rewrite E. exists (S d), ((k, S d) :: cache'), (S links).
      simpl in Hl. repeat split; try lia.
      * intros k' d' [Eq|Hin'] Hr; [|eauto].
        inversion Eq; subst k' d'. unfold rootKey in Hr.
        rewrite Eitem, Epar in Hr. apply negb_false_iff in Etruthy. congruence.
      * intros Hr. apply negb_false_iff in Etruthy. congruence.
Qed.

Lemma depthLoop_total : forall items rest cache,
  cacheOk items cache ->
  exists entries,
    Hierarchy.depthLoop items rest cache = Some entries /\
    map (fun e => fst (fst e)) entries = ids_of rest /\
    Forall (fun e => snd e <= length items) entries /\
    Forall (fun e => rootKey items (fst (fst e)) -> snd (fst e) = 0) entries.
Proof.
  induction rest as [|item rest IH]; intros cache Hc; cbn [Hierarchy.depthLoop].
  - exists []. repeat split; constructor.
  - destruct (@getDepth_total (S (length items)) items (id item) [] cache)
      as (d & cache' & links & E & Hl & Hc' & Hz); auto.
    + constructor.
    + intros x [].
    + simpl. lia.
    + rewrite E. destruct (IH cache' Hc') as (entries & E' & Hids & Hb & Hr).
      rewrite E'. exists ((id item, d, links) :: entries).
      repeat split; simpl; try (now f_equal).
      * constructor; auto. simpl. simpl in Hl. lia.
      * constructor; auto.
Qed.

(** Reading a key that was assigned gives one of the assigned entries. *)
Lemma entry_get_In : forall entries k,
  In k (map (fun e => fst (fst e)) entries) ->
  exists d links, entry_get entries k = Some d /\ In (k, d, links) entries.
Proof.
  intros entries k Hin. unfold entry_get.
  destruct (find (fun e => fst (fst e) =? k) (rev entries)) as [[[k' d] links]|] eqn:E.
  - apply find_some in E. destruct E as [Hin' E]. simpl in E.
    apply String.eqb_eq in E. subst k'. apply in_rev in Hin'. eauto.
  - apply in_map_iff in Hin. destruct Hin as (e & Ek & Hin).
    exfalso. assert (H := find_none _ _ E e).
    rewrite <- in_rev in H. specialize (H Hin). simpl in H.
    rewrite Ek, String.eqb_refl in H. discriminate.
Qed.

Lemma root_of_null_parent : forall items t,
  NoDup (ids_of items) -> In t items -> parent_id t = None -> rootKey items (id t).
Proof.
  intros items t Hnd Hin Hp. unfold rootKey.
  rewrite byId_get_unique by assumption. now rewrite Hp.
Qed.

Lemma entries_zero_at_roots : forall items entries,
  map (fun e => fst (fst e)) entries = ids_of items ->
  Forall (fun e => rootKey items (fst (fst e)) -> snd (fst e) = 0) entries ->
  NoDup (ids_of items) ->
  forall t, In t items -> parent_id t = None -> entry_get entries (id t) = Some 0.
Proof.
  intros items entries Hids Hr Hnd t Hin Hp.
  destruct (@entry_get_In entries (id t)) as (d & links & E & Hin').
  - rewrite Hids. now apply in_map.
  - rewrite E. f_equal. rewrite Forall_forall in Hr.
    apply (Hr _ Hin'). simpl. now apply root_of_null_parent.
Qed.

(** The [while] loop of [depthFor] ends within the fuel given by the size
    of the collection; each pass adds an unseen, existing identifier. *)
Lemma walkUp_total : forall fuel all current seen depth,
  NoDup seen -> incl seen (ids_of all) ->
  length all < fuel + length seen ->
  exists d, Outline.walkUp fuel all current seen depth = Some d /\
            depth <= d /\ (d - depth) + length seen <= length all.
Proof.
  induction fuel as [|fuel IH]; intros all current seen depth Hnd Hincl Hfuel.
  - pose proof (seen_bound all Hnd Hincl). lia.
  - pose proof (seen_bound all Hnd Hincl) as Hb. simpl.
    destruct current as [c|]; [|exists depth; repeat split; lia].
    destruct (parent_id c) as [pid|]; [|exists depth; repeat split; lia].
    destruct (truthy (Some pid) && byId_has all pid) eqn:E;
      [|exists depth; repeat split; lia].
    destruct (includes seen pid) eqn:Es; [exists depth; repeat split; lia|].
    apply andb_true_iff in E. destruct E as [_ Hhas].
    apply byId_has_In in Hhas. apply includes_not_In in Es.
    destruct (IH all (byId_get all pid) (pid :: seen) (S depth))
      as (d & Ed & Hle & Hbound).
    + now constructor.
    + intros x [<-|Hx]; auto.
    + simpl. lia.
    + exists d. simpl in Hbound. repeat split; auto; lia.
Qed.

Lemma depthFor_total : forall all memo todoId,
  memoOk all memo ->
  exists d walked memo',
    Outline.depthFor all memo todoId = Some (d, walked, memo') /\
    walked <= length all /\ memoOk all memo' /\
    (rootKey all todoId -> d = 0).
Proof.
  intros all memo todoId Hm. unfold Outline.depthFor.
  destruct (find (fun e => fst e =? todoId) memo) as [[k d]|] eqn:E.
  - apply find_some in E. destruct E as [Hin E]. simpl in E.
    apply String.eqb_eq in E. subst k.
    exists d, 0, memo. repeat split; auto; [lia | eauto].
  - destruct (@walkUp_total (S (length all)) all (byId_get all todoId) [] 0)
      as (w & Ew & _ & Hb).
    + constructor.
    + intros x [].
    + simpl. lia.
    + rewrite Ew. simpl in Hb.
      assert (Hroot : rootKey all todoId ->
                Nat.min (if (w =? 0)%nat &&
                            truthy match byId_get all todoId with
                                   | Some t => parent_id t
                                   | None => None
                                   end
                         then 1 else w) 8 = 0).
      { unfold rootKey. intros Hr.
        destruct (byId_get all todoId) as [t|] eqn:Et.
        - rewrite Hr, andb_false_r.
          assert (w = 0); [|subst; reflexivity].
          simpl in Ew. destruct (parent_id t) as [pid|]; [|now inversion Ew].
          rewrite Hr in Ew. simpl in Ew. now inversion Ew.
        - simpl. rewrite andb_false_r.
          simpl in Ew. inversion Ew. reflexivity. }
      eexists _, w, _. split; [reflexivity|]. repeat split; auto; [lia|].
      intros k d [Eq|Hin] Hr; [|eauto]. inversion Eq; subst. auto.
Qed.

Lemma depthEntries_total : forall all rest memo,
  memoOk all memo ->
  exists entries,
    Outline.depthEntries all rest memo = Some entries /\
    map (fun e => fst (fst e)) entries = ids_of rest /\
    Forall (fun e => snd e <= length all) entries /\
    Forall (fun e => rootKey all (fst (fst e)) -> snd (fst e) = 0) entries.
Proof.
  induction rest as [|todo rest IH]; intros memo Hm; cbn [Outline.depthEntries].
  - exists []. repeat split; constructor.
  - destruct (depthFor_total (id todo) Hm) as (d & w & memo' & E & Hw & Hm' & Hz).
    rewrite E. destruct (IH memo' Hm') as (entries & E' & Hids & Hb & Hr).
    rewrite E'. exists ((id todo, d, w) :: entries).
    repeat split; simpl; try (now f_equal); constructor; auto.
Qed.

(** C6. For every collection of tasks, cyclic or dangling parent
    references included, both depth computations ([buildDepthMap] of the
    hierarchy variant and [depthByTodoId] of the outline variant) return:
    they give one entry per task, none of them follows more parent links
    than the collection has tasks, and, identifiers being unique, the
    depth recorded for every task whose [parent_id] is null is 0. *)
Theorem depth_terminates_zero_at_roots :
  forall items : list TodoRecord,
    (exists entries,
        Hierarchy.buildDepthMap items = Some entries /\
        map (fun e => fst (fst e)) entries = ids_of items /\
        Forall (fun e => snd e <= length items) entries /\
        (NoDup (ids_of items) ->
         forall t, In t items -> parent_id t = None ->
                   entry_get entries (id t) = Some 0)) /\
    (exists entries,
        Outline.depthByTodoId items = Some entries /\
        map (fun e => fst (fst e)) entries = ids_of items /\
        Forall (fun e => snd e <= length items) entries /\
        (NoDup (ids_of items) ->
         forall t, In t items -> parent_id t = None ->
                   entry_get entries (id t) = Some 0)).
Proof.
  intros items. split.
  - destruct (@depthLoop_total items items []) as (entries & E & Hids & Hb & Hr).
    { intros k d []. }
    exists entries. repeat split; auto.
    intros Hnd t Hin Hp. eapply entries_zero_at_roots; eauto.
  - destruct (@depthEntries_total items items []) as (entries & E & Hids & Hb & Hr).
    { intros k d []. }
    exists entries. repeat split; auto.
    intros Hnd t Hin Hp. eapply entries_zero_at_roots; eauto.
Qed.

(* ------------------------------------------------------------------ *)
(** ** C9: moving by one place *)
(* ------------------------------------------------------------------ *)

Lemma findIndex_cases : forall (A : Type) (p : A -> bool) (l : list A),
  findIndex p l = (-1)%Z \/
  exists a x b, l = a ++ x :: b /\ p x = true /\
                (forall z, In z a -> p z = false) /\
                findIndex p l = Z.of_nat (length a).
Proof.
  intros A p l.
  destruct (existsb p l) eqn:E.
  - right. apply existsb_exists in E. destruct E as (x & Hin & Hp).
    destruct (@findIndexFrom_found _ p l 0 x Hin Hp) as (a & y & b & -> & Hy & Ha & Hf).
    exists a, y, b. repeat split; auto.
  - left. apply findIndexFrom_none. intros y Hy.
    destruct (p y) eqn:Ey; auto.
    assert (existsb p l = true) by (apply existsb_exists; eauto). congruence.
Qed.

Lemma filter_reinsert : forall (A : Type) (q : A -> bool) (l : list A) (x : A) (j : nat),
  q x = false -> filter q (firstn j l ++ x :: skipn j l) = filter q l.
Proof.
  intros. rewrite filter_app. simpl. rewrite H.
  now rewrite <- filter_app, firstn_skipn.
Qed.

Lemma filter_drop_middle : forall (A : Type) (q : A -> bool) (a b : list A) (x : A),
  q x = false -> filter q (a ++ x :: b) = filter q (a ++ b).
Proof. intros. rewrite !filter_app. simpl. now rewrite H. Qed.

Lemma filter_strip : forall (f : string -> bool) (l : list TodoRecord),
  map strip (filter (fun t => f (id t)) l) = filter (fun t => f (id t)) (map strip l).
Proof.
  induction l as [|t l IH]; simpl; auto.
  destruct (f (id t)); simpl; now rewrite IH.
Qed.

Lemma length_reinsert : forall (A : Type) (l : list A) (x : A) (j : nat),
  length (firstn j l ++ x :: skipn j l) = S (length l).
Proof.
  intros. rewrite length_app. simpl.
  rewrite <- (firstn_skipn j l) at 3. rewrite length_app. lia.
Qed.

(** A move that takes place keeps every other record, in order. *)
Lemma moveTodoByOffset_moved : forall previous activeId offset next,
  Flat.moveTodoByOffset previous activeId offset = (next, true) ->
  map strip (filter (fun t => negb (id t =? activeId)) next)
  = map strip (filter (fun t => negb (id t =? activeId)) previous) /\
  map position next = map Z.of_nat (seq 0 (length previous)) /\
  length next = length previous.
Proof.
  intros previous activeId offset next H. unfold Flat.moveTodoByOffset in H.
  destruct (findIndex_cases (fun todo => id todo =? activeId) previous)
    as [E | (a & x & b & Hl & Hx & Ha & E)]; rewrite E in H.
  - simpl in H. inversion H.
  - destruct (Z.eqb_spec (Z.of_nat (length a)) (-1)); [lia|].
    destruct ((Z.of_nat (length a) + offset <? 0)%Z
              || (Z.of_nat (length a) + offset >=? Z.of_nat (length previous))%Z) eqn:Er;
      [inversion H|].
    apply orb_false_iff in Er. destruct Er as [Hlo Hhi].
    apply Z.ltb_ge in Hlo. rewrite Z.geb_leb in Hhi. apply Z.leb_gt in Hhi.
    inversion H as [Hn]. clear H.
    set (j := Z.to_nat (Z.of_nat (length a) + offset)).
    replace (Z.of_nat (length a) + offset)%Z with (Z.of_nat j) by (unfold j; lia).
    assert (Hj : j <= length (a ++ b)).
    { rewrite Hl, length_app in Hhi. simpl in Hhi. rewrite length_app. unfold j. lia. }
    rewrite Hl, arrayMove_split by assumption.
    assert (Hq : negb (id x =? activeId) = false) by now rewrite Hx.
    repeat split.
    + rewrite !(filter_strip (fun i => negb (i =? activeId))).
      rewrite strip_normalizePositions, !map_app. simpl map.
      rewrite <- firstn_map, <- skipn_map.
      rewrite filter_reinsert, filter_drop_middle by exact Hq.
      now rewrite map_app.
    + rewrite positions_normalizePositions, length_reinsert.
      do 2 f_equal. rewrite !length_app. simpl. lia.
    + rewrite length_normalizePositions, length_reinsert.
      rewrite !length_app. simpl. lia.
Qed.

Lemma moveTodoByOffset_first : forall x rest,
  Flat.moveTodoByOffset (x :: rest) (id x) (-1) = (x :: rest, false).
Proof.
  intros. unfold Flat.moveTodoByOffset, findIndex. simpl.
  now rewrite String.eqb_refl.
Qed.

Lemma findIndex_last_unique : forall (init : list TodoRecord) (y : TodoRecord),
  ~ In (id y) (ids_of init) ->
  findIndex (fun t => id t =? id y) (init ++ [y]) = Z.of_nat (length init).
Proof.
  intros init y Hn. apply findIndex_at.
  - intros z Hz. apply String.eqb_neq. intro E. apply Hn. rewrite <- E.
    now apply in_map.
  - apply String.eqb_refl.
Qed.

Lemma NoDup_last_fresh : forall (init : list TodoRecord) (y : TodoRecord),
  NoDup (ids_of (init ++ [y])) -> ~ In (id y) (ids_of init).
Proof.
  intros init y H. unfold ids_of in H. rewrite map_app in H. simpl in H.
  apply NoDup_remove_2 in H. now rewrite app_nil_r in H.
Qed.

Lemma moveTodoByOffset_last : forall init y,
  NoDup (ids_of (init ++ [y])) ->
  Flat.moveTodoByOffset (init ++ [y]) (id y) 1 = (init ++ [y], false).
Proof.
  intros init y Hnd. unfold Flat.moveTodoByOffset.
  rewrite findIndex_last_unique by now apply NoDup_last_fresh.
  destruct (Z.eqb_spec (Z.of_nat (length init)) (-1)); [lia|].
  rewrite length_app. simpl.
  replace ((Z.of_nat (length init) + 1 >=? Z.of_nat (length init + 1))%Z) with true.
  - now rewrite orb_true_r.
  - symmetry. rewrite Z.geb_leb. apply Z.leb_le. lia.
Qed.

(** The sibling move does nothing when the sibling list has no place
    [currentIndex + direction]. *)
Lemma reorderBySiblingMove_no_neighbor : forall items activeId direction active,
  byId_get items activeId = Some active ->
  let siblings := Hierarchy.childrenOf items (Hierarchy.parentKey items active) in
  let currentIndex := findIndex (fun item => id item =? activeId) siblings in
  (currentIndex + direction < 0 \/
   currentIndex + direction >= Z.of_nat (length siblings))%Z ->
  Hierarchy.reorderBySiblingMove items activeId direction = Some None.
Proof.
  intros items activeId direction active Hget siblings currentIndex Hout.
  unfold Hierarchy.reorderBySiblingMove. rewrite Hget.
  fold siblings. fold currentIndex.
  destruct (currentIndex =? -1)%Z; auto.
  replace ((currentIndex + direction <? 0)%Z
           || (currentIndex + direction >=? Z.of_nat (length siblings))%Z) with true; auto.
  symmetry. apply orb_true_iff. destruct Hout as [H|H].
  - left. now apply Z.ltb_lt.
  - right. rewrite Z.geb_leb. apply Z.leb_le. lia.
Qed.

Lemma reorderBySiblingMove_first : forall x rest,
  NoDup (ids_of (x :: rest)) ->
  Hierarchy.reorderBySiblingMove (x :: rest) (id x) (-1) = Some None.
Proof.
  intros x rest Hnd.
  apply reorderBySiblingMove_no_neighbor with (active := x).
  - apply byId_get_unique; simpl; auto.
  - left. unfold Hierarchy.childrenOf. cbn [filter].
    assert (E : opt_eqb (Hierarchy.parentKey (x :: rest) x)
                        (Hierarchy.parentKey (x :: rest) x) = true)
      by now apply opt_eqb_eq.
    rewrite E. unfold findIndex. cbn [findIndexFrom].
    rewrite String.eqb_refl. simpl. lia.
Qed.

Lemma reorderBySiblingMove_last : forall init y,
  NoDup (ids_of (init ++ [y])) ->
  Hierarchy.reorderBySiblingMove (init ++ [y]) (id y) 1 = Some None.
Proof.
  intros init y Hnd.
  apply reorderBySiblingMove_no_neighbor with (active := y).
  - apply byId_get_unique; auto. apply in_or_app. right. simpl. auto.
  - right. unfold Hierarchy.childrenOf. rewrite filter_app. cbn [filter].
    assert (E : opt_eqb (Hierarchy.parentKey (init ++ [y]) y)
                        (Hierarchy.parentKey (init ++ [y]) y) = true)
      by now apply opt_eqb_eq.
    rewrite E.
    set (sib := filter _ init).
    rewrite findIndex_at.
    + rewrite length_app. simpl. lia.
    + intros z Hz. unfold sib in Hz. apply filter_In in Hz. destruct Hz as [Hz _].
      apply String.eqb_neq. intro Ez.
      apply (NoDup_last_fresh _ _ Hnd). rewrite <- Ez. now apply in_map.
    + apply String.eqb_refl.
Qed.

(** C9 (as amended). With unique identifiers: moving the first item up or
    the last item down leaves the sequence as it is, in the flat variant
    ([moveTodoByOffset]) and in the hierarchy variant
    ([reorderBySiblingMove], which returns [null]); the sibling move is a
    no-op, not an error, whenever the item has no sibling at the place it
    would go to; and when the flat move takes place, every other record
    keeps its relative order (and all its fields but the rank) and the
    ranks are [0 .. n-1].  Renormalisation itself never reorders. *)
Theorem move_by_offset_edges :
  (forall x rest, Flat.moveTodoByOffset (x :: rest) (id x) (-1) = (x :: rest, false)) /\
  (forall init y, NoDup (ids_of (init ++ [y])) ->
     Flat.moveTodoByOffset (init ++ [y]) (id y) 1 = (init ++ [y], false)) /\
  (forall x rest, NoDup (ids_of (x :: rest)) ->
     Hierarchy.reorderBySiblingMove (x :: rest) (id x) (-1) = Some None) /\
  (forall init y, NoDup (ids_of (init ++ [y])) ->
     Hierarchy.reorderBySiblingMove (init ++ [y]) (id y) 1 = Some None) /\
  (forall items activeId direction active,
     byId_get items activeId = Some active ->
     let siblings := Hierarchy.childrenOf items (Hierarchy.parentKey items active) in
     let currentIndex := findIndex (fun item => id item =? activeId) siblings in
     (currentIndex + direction < 0 \/
      currentIndex + direction >= Z.of_nat (length siblings))%Z ->
     Hierarchy.reorderBySiblingMove items activeId direction = Some None) /\
  (forall previous activeId offset next,
     Flat.moveTodoByOffset previous activeId offset = (next, true) ->
     map strip (filter (fun t => negb (id t =? activeId)) next)
     = map strip (filter (fun t => negb (id t =? activeId)) previous) /\
     map position next = map Z.of_nat (seq 0 (length previous)) /\
     length next = length previous) /\
  (forall l, map strip (normalizePositions l) = map strip l).
Proof.
  repeat split.
  - apply moveTodoByOffset_first.
  - apply moveTodoByOffset_last.
  - apply reorderBySiblingMove_first.
  - apply reorderBySiblingMove_last.
  - apply reorderBySiblingMove_no_neighbor.
  - now apply (moveTodoByOffset_moved previous activeId offset).
  - now apply (moveTodoByOffset_moved previous activeId offset).
  - now apply (moveTodoByOffset_moved previous activeId offset).
  - apply strip_normalizePositions.
Qed.

(* ------------------------------------------------------------------ *)
(** ** Calls that the store accepts *)
(* ------------------------------------------------------------------ *)

Lemma promiseAll_none : forall results arrival,
  (forall r, In r results -> r = None) -> Rest.promiseAll results arrival = None.
Proof.
  intros results arrival H. unfold Rest.promiseAll.
  destruct (find _ arrival) as [k|] eqn:E.
  - apply find_some in E. destruct E as [_ E].
    destruct (nth_error results k) as [[m|]|] eqn:En; try discriminate.
    apply nth_error_In in En. apply H in En. discriminate.
  - destruct (find _ results) as [r|] eqn:E'; auto.
    apply find_some in E'. destruct E' as [Hin Hr].
    rewrite (H r Hin) in Hr. discriminate.
Qed.

(** The aggregate rejects exactly when one of the promises does, and then
    with the message of one of them. *)
Lemma promiseAll_some : forall results arrival m,
  Rest.promiseAll results arrival = Some m -> In (Some m) results.
Proof.
  intros results arrival m. unfold Rest.promiseAll.
  destruct (find _ arrival) as [k|] eqn:E.
  - apply find_some in E. destruct E as [_ E].
    destruct (nth_error results k) as [[m'|]|] eqn:En; try discriminate.
    intros H. rewrite (nth_error_nth _ _ _ En) in H. rewrite H in En.
    now apply nth_error_In in En.
  - destruct (find _ results) as [r|] eqn:E'; [|discriminate].
    apply find_some in E'. destruct E' as [Hin _]. intros ->. exact Hin.
Qed.

Lemma promiseAll_rejects : forall results arrival m,
  In (Some m) results -> exists m', Rest.promiseAll results arrival = Some m'.
Proof.
  intros results arrival m Hin.
  destruct (Rest.promiseAll results arrival) as [m'|] eqn:E; eauto.
  exfalso. unfold Rest.promiseAll in E.
  destruct (find _ arrival) as [k|] eqn:Ea.
  - apply find_some in Ea. destruct Ea as [_ Ea].
    destruct (nth_error results k) as [[m'|]|] eqn:En; try discriminate.
    rewrite (nth_error_nth _ _ _ En) in E. discriminate.
  - destruct (find _ results) as [r|] eqn:Er.
    + apply find_some in Er. destruct Er as [_ Hr]. subst r. discriminate.
    + apply (find_none _ _ Er) in Hin. discriminate.
Qed.

Lemma mapiFrom_In : forall (A B : Type) (f : A -> nat -> B) (l : list A) (k : nat) (y : B),
  In y (mapiFrom f k l) -> exists x i, In x l /\ y = f x i.
Proof.
  induction l as [|x l IH]; simpl; intros k y H; [contradiction|].
  destruct H as [<-|H]; eauto.
  destruct (IH _ _ H) as (x' & i & Hin & ->). eauto.
Qed.

Lemma deleteAll_ok : forall env targetIds,
  hasSupabaseEnv env = true ->
  (forall k, Rest.deleteRow (net env) k = Rest.Ok tt) ->
  snd (deleteAll env targetIds) = None.
Proof.
  intros env targetIds Henv Hok. unfold deleteAll. simpl.
  apply promiseAll_none. intros r Hr.
  apply in_map_iff in Hr. destruct Hr as (c & <- & Hc).
  apply in_map_iff in Hc. destruct Hc as (k & <- & _).
  unfold Rest.deleteTodo. rewrite Henv. simpl. now rewrite Hok.
Qed.

Lemma updateTodoPositions_ok : forall net arrival cs orderedIds,
  (forall k i, Rest.patchPosition net k i = Rest.Ok tt) ->
  snd (Rest.updateTodoPositions true net arrival cs orderedIds) = Rest.Resolved tt.
Proof.
  intros net arrival cs orderedIds Hok. unfold Rest.updateTodoPositions.
  destruct (Rest.supportsPositionColumn cs) as [[|]|]; auto;
    cbn [negb snd]; rewrite promiseAll_none; auto;
    intros r Hr; apply mapiFrom_In in Hr; destruct Hr as (x & i & _ & ->);
    now rewrite Hok.
Qed.

(* ------------------------------------------------------------------ *)
(** ** C8: bulk delete removes the selected identifiers only *)
(* ------------------------------------------------------------------ *)

Lemma dedupe_In : forall ids seen k,
  In k (Outline.dedupe seen ids) <-> In k ids /\ ~ In k seen.
Proof.
  induction ids as [|x ids IH]; simpl; intros seen k.
  - tauto.
  - destruct (includes seen x) eqn:E.
    + apply includes_In in E. rewrite IH. split.
      * intros [H1 H2]. auto.
      * intros [[->|H1] H2]; [contradiction|auto].
    + apply includes_not_In in E. simpl. rewrite IH. simpl. split.
      * intros [<-|[H1 H2]]; [tauto|]. split; [tauto|]. intro. apply H2. now right.
      * intros [[->|H1] H2]; [now left|].
        destruct (string_dec x k) as [->|Hne]; [now left|].
        right. split; auto. intros [H|H]; auto.
Qed.

Lemma includes_ext : forall l1 l2 k,
  (forall x, In x l1 <-> In x l2) -> includes l1 k = includes l2 k.
Proof.
  intros l1 l2 k H.
  destruct (includes l1 k) eqn:E1, (includes l2 k) eqn:E2; auto.
  - apply includes_In in E1. apply includes_not_In in E2. apply H in E1. contradiction.
  - apply includes_In in E2. apply includes_not_In in E1. apply H in E2. contradiction.
Qed.

Lemma withoutSelected_keeps : forall selected l t,
  In t l -> ~ In (id t) selected ->
  exists t', In t' (withoutSelected selected l) /\ strip t' = strip t.
Proof.
  intros selected l t Hin Hn.
  assert (H : In (strip t) (map strip (withoutSelected selected l))).
  { unfold withoutSelected. rewrite strip_normalizePositions.
    apply in_map. apply filter_In. split; auto.
    apply negb_true_iff. now apply includes_not_In. }
  apply in_map_iff in H. destruct H as (t' & E & Hin'). eauto.
Qed.

Lemma withoutSelected_removes : forall selected l t',
  In t' (withoutSelected selected l) -> ~ In (id t') selected /\ In (id t') (ids_of l).
Proof.
  intros selected l t' Hin.
  assert (H : In (id t') (ids_of (withoutSelected selected l))) by now apply in_map.
  unfold withoutSelected in H. rewrite ids_normalizePositions in H.
  apply in_map_iff in H. destruct H as (t & E & Ht).
  apply filter_In in Ht. destruct Ht as [Ht Hf].
  apply negb_true_iff, includes_not_In in Hf. rewrite <- E. split; auto.
  now apply in_map.
Qed.

Lemma deleteFocusedSelection_todos : forall env st activeId,
  hasSupabaseEnv env = true -> busyId st = None -> editingId st = None ->
  In activeId (selectedTodoIds st) ->
  (forall k, Rest.deleteRow (net env) k = Rest.Ok tt) ->
  todos (fst (Outline.deleteFocusedSelection env activeId st))
  = withoutSelected (selectedTodoIds st) (todos st).
Proof.
  intros env st activeId Henv Hbusy Hedit Hact Hok.
  unfold Outline.deleteFocusedSelection.
  rewrite Henv, Hbusy, Hedit. change (truthy None) with false. cbn [negb orb].
  assert (Hne : (length (selectedTodoIds st) =? 0)%nat = false).
  { destruct (selectedTodoIds st); [contradiction | reflexivity]. }
  assert (Hinc : includes (selectedTodoIds st) activeId = true) by now apply includes_In.
  rewrite Hne, Hinc. cbn [negb andb].
  remember (Outline.dedupe [] (selectedTodoIds st)) as targetIds eqn:Ed.
  assert (Hf : filter (fun todo => negb (includes targetIds (id todo))) (todos st)
               = filter (fun t => negb (includes (selectedTodoIds st) (id t))) (todos st)).
  { apply filter_ext. intros t. f_equal. apply includes_ext.
    intros x. rewrite Ed, dedupe_In. simpl. tauto. }
  assert (Hin : In activeId targetIds).
  { rewrite Ed. apply dedupe_In. auto. }
  pose proof (deleteAll_ok env targetIds Henv Hok) as Hd.
  destruct targetIds as [|k0 ks]; [contradiction|].
  rewrite Hf.
  destruct (deleteAll env (k0 :: ks)) as [reqs failure].
  cbn [snd] in Hd. subst failure.
  unfold persistCurrentOrder.
  destruct (negb (positioningAvailable _)); [reflexivity|].
  destruct (Rest.updateTodoPositions _ _ _ _ _) as [reqs' [u|m]]; reflexivity.
Qed.

Lemma handleDeleteSelection_todos : forall env st,
  hasSupabaseEnv env = true -> busyId st = None ->
  selectedTodoIds st <> [] ->
  (forall k, Rest.deleteRow (net env) k = Rest.Ok tt) ->
  (forall k i, Rest.patchPosition (net env) k i = Rest.Ok tt) ->
  todos (fst (Hierarchy.handleDeleteSelection env st))
  = withoutSelected (selectedTodoIds st) (todos st).
Proof.
  intros env st Henv Hbusy Hsel Hok Hpos.
  unfold Hierarchy.handleDeleteSelection, Hierarchy.targetIdsOf.
  destruct (selectedTodoIds st) as [|s0 sel] eqn:Es; [congruence|].
  rewrite Henv, Hbusy. change (truthy None) with false.
  cbn [negb orb length Nat.eqb].
  pose proof (deleteAll_ok env (s0 :: sel) Henv Hok) as Hd.
  destruct (deleteAll env (s0 :: sel)) as [reqs failure].
  cbn [snd] in Hd. subst failure.
  match goal with
  | |- context [Rest.updateTodoPositions ?a ?b ?c ?d ?e] =>
      pose proof (updateTodoPositions_ok b c d e Hpos) as Hu;
      destruct (Rest.updateTodoPositions a b c d e) as [reqs' outcome]
  end.
  cbn [snd] in Hu. subst outcome.
  destruct (editingId st) as [e|]; [|reflexivity].
  destruct (truthy (Some e) && includes (s0 :: sel) e); reflexivity.
Qed.

(** C8. In both bulk-delete handlers ([deleteFocusedSelection] with the
    active item inside the selection, [handleDeleteSelection] with a
    non-empty selection), once the store has accepted the calls the list
    on screen is the old list without the records whose identifier is
    selected, renormalised; every record whose identifier is not selected
    is still there with its fields (its [parent_id] included) unchanged but
    for the rank, whatever its parent; and from [A, B, C, D] with
    selection [{B, C}] the result is [A, D] with ranks [0, 1]. *)
Theorem bulk_delete_selected_only :
  forall (env : Env) (st : AppState),
    hasSupabaseEnv env = true -> busyId st = None ->
    (forall k, Rest.deleteRow (net env) k = Rest.Ok tt) ->
    (forall k i, Rest.patchPosition (net env) k i = Rest.Ok tt) ->
    forall after : list TodoRecord,
      ((exists activeId,
          editingId st = None /\ In activeId (selectedTodoIds st) /\
          after = todos (fst (Outline.deleteFocusedSelection env activeId st))) \/
       (selectedTodoIds st <> [] /\
        after = todos (fst (Hierarchy.handleDeleteSelection env st)))) ->
      after = withoutSelected (selectedTodoIds st) (todos st) /\
      (forall t, In t (todos st) -> ~ In (id t) (selectedTodoIds st) ->
                 exists t', In t' after /\ strip t' = strip t) /\
      (forall t', In t' after ->
                  ~ In (id t') (selectedTodoIds st) /\ In (id t') (ids_of (todos st))) /\
      (forall a b c d,
          id a = "A" -> id b = "B" -> id c = "C" -> id d = "D" ->
          todos st = [a; b; c; d] -> selectedTodoIds st = ["B"; "C"] ->
          after = [with_position a 0; with_position d 1]).
Proof.
  intros env st Henv Hbusy Hdel Hpos after Hafter.
  assert (E : after = withoutSelected (selectedTodoIds st) (todos st)).
  { destruct Hafter as [(activeId & Hedit & Hact & ->) | (Hsel & ->)].
    - now apply deleteFocusedSelection_todos.
    - now apply handleDeleteSelection_todos. }
  subst after. split; [reflexivity|]. split; [|split].
  - intros t Hin Hn. now apply withoutSelected_keeps.
  - intros t' Hin. now apply withoutSelected_removes.
  - intros a b c d Ha Hb Hc Hd Hl Hs. rewrite Hl, Hs.
    unfold withoutSelected. simpl. rewrite Ha, Hb, Hc, Hd. reflexivity.
Qed.

(* ------------------------------------------------------------------ *)
(** ** C7: committing an empty title *)
(* ------------------------------------------------------------------ *)

(** The guard common to the three [saveEdit]: an edit is open and nothing
    is busy. *)
Lemma saveEdit_guard : forall env st,
  hasSupabaseEnv env = true -> truthy (editingId st) = true ->
  truthy (busyId st) = false ->
  negb (hasSupabaseEnv env) || negb (truthy (editingId st)) || truthy (busyId st)
  = false.
Proof. intros env st -> -> ->. reflexivity. Qed.

(** C7 (as amended). Let an edit be open, nothing be busy and the trimmed
    text be empty.  The delete-on-empty variant sends one [DELETE] for the
    edited task and, when the store accepts it, removes the task,
    renormalises the ranks, closes the edit and shows no error.  The
    variant of [components/todo-app.tsx] shows the validation message,
    keeps the edit open and the list as it is, and sends nothing.  The
    hierarchy variant ignores the commit: the state is unchanged, so the
    edit stays open, no message is shown, and nothing is sent. *)
Theorem empty_title_commit :
  forall (env : Env) (st : AppState) (target : string),
    hasSupabaseEnv env = true ->
    editingId st = Some target -> target <> "" ->
    truthy (busyId st) = false ->
    JsString.trim (editingTitle st) = "" ->
    (Rest.deleteRow (net env) target = Rest.Ok tt ->
     let '(st', reqs) := Outline.saveEdit env st in
     reqs = [Rest.DeleteTodo target] /\
     todos st' = Flat.removeTodo (todos st) target /\
     error st' = None /\ editingId st' = None /\ busyId st' = None) /\
    Flat.saveEdit env st = (setError (Some "Todo title cannot be empty.") st, []) /\
    Hierarchy.saveEdit env st = (st, []).
Proof.
  intros env st target Henv Hedit Hne Hbusy Htrim.
  assert (Htruthy : truthy (editingId st) = true).
  { rewrite Hedit. unfold truthy. apply negb_true_iff. now apply String.eqb_neq. }
  pose proof (saveEdit_guard env st Henv Htruthy Hbusy) as Hg.
  split; [|split].
  - intros Hok. unfold Outline.saveEdit. rewrite Hg, Hedit, Htrim.
    cbn [String.eqb]. unfold Rest.deleteTodo. rewrite Henv. cbn [negb].
    rewrite Hok. cbn [Rest.throwOnError]. now repeat split.
  - unfold Flat.saveEdit. rewrite Hg, Htrim. reflexivity.
  - unfold Hierarchy.saveEdit. rewrite Hg, Htrim. reflexivity.
Qed.

(* ------------------------------------------------------------------ *)
(** ** C1: saving the order *)
(* ------------------------------------------------------------------ *)

Lemma mapiFrom_nth_error : forall (A B : Type) (f : A -> nat -> B) (l : list A) (k i : nat) (x : A),
  nth_error l i = Some x -> nth_error (mapiFrom f k l) i = Some (f x (k + i)).
Proof.
  induction l as [|y l IH]; intros k i x H; destruct i; simpl in *; try discriminate.
  - inversion H. now rewrite Nat.add_0_r.
  - rewrite (IH (S k) i x H). do 2 f_equal. lia.
Qed.

Lemma mapiFrom_In_index : forall (A B : Type) (f : A -> nat -> B) (l : list A) (k : nat) (y : B),
  In y (mapiFrom f k l) ->
  exists x i, nth_error l i = Some x /\ y = f x (k + i).
Proof.
  induction l as [|x l IH]; simpl; intros k y H; [contradiction|].
  destruct H as [<-|H].
  - exists x, 0. split; [reflexivity | now rewrite Nat.add_0_r].
  - destruct (IH _ _ H) as (x' & i & Hn & ->).
    exists x', (S i). split; [exact Hn | f_equal; lia].
Qed.

Lemma updateTodoPositions_unsupported : forall hasEnv n arrival cs orderedIds,
  Rest.supportsPositionColumn cs = Some false ->
  Rest.updateTodoPositions hasEnv n arrival cs orderedIds = ([], Rest.Resolved tt).
Proof. intros. unfold Rest.updateTodoPositions. now rewrite H. Qed.

Lemma updateTodoPositions_supported : forall n arrival cs orderedIds,
  Rest.supportsPositionColumn cs <> Some false ->
  Rest.updateTodoPositions true n arrival cs orderedIds
  = (mapi (fun target index => Rest.PatchPosition target (Z.of_nat index)) orderedIds,
     match Rest.promiseAll (mapi (patchFails n) orderedIds) arrival with
     | Some m => Rest.Rejected m
     | None => Rest.Resolved tt
     end).
Proof.
  intros. unfold Rest.updateTodoPositions.
  destruct (Rest.supportsPositionColumn cs) as [[|]|]; try reflexivity. congruence.
Qed.

(** The batch is rejected exactly when one of its updates fails, with the
    message of a failed update. *)
Lemma updateTodoPositions_batch : forall n arrival cs orderedIds,
  Rest.supportsPositionColumn cs <> Some false ->
  let outcome := snd (Rest.updateTodoPositions true n arrival cs orderedIds) in
  ((exists i target m, nth_error orderedIds i = Some target /\
                       patchFails n target i = Some m) ->
   exists m, outcome = Rest.Rejected m) /\
  (forall m, outcome = Rest.Rejected m ->
     exists i target, nth_error orderedIds i = Some target /\
                      patchFails n target i = Some m) /\
  ((forall i target, nth_error orderedIds i = Some target ->
                     patchFails n target i = None) ->
   outcome = Rest.Resolved tt).
Proof.
  intros n arrival cs orderedIds Hs outcome. subst outcome.
  rewrite updateTodoPositions_supported by assumption. cbn [snd].
  repeat split.
  - intros (i & target & m & Hn & Hf).
    destruct (@promiseAll_rejects (mapi (patchFails n) orderedIds) arrival m) as (m' & E).
    + rewrite <- Hf. eapply nth_error_In. unfold mapi.
      rewrite (mapiFrom_nth_error _ _ 0 _ Hn). reflexivity.
    + rewrite E. eauto.
  - intros m H.
    destruct (Rest.promiseAll _ arrival) as [m'|] eqn:E; inversion H; subst m'.
    apply promiseAll_some in E. apply mapiFrom_In_index in E.
    destruct E as (target & i & Hn & Hm). simpl in Hm. eauto.
  - intros Hall. rewrite promiseAll_none; auto.
    intros r Hr. apply mapiFrom_In_index in Hr.
    destruct Hr as (target & i & Hn & ->). simpl. auto.
Qed.

(** [handlePointerUp] never writes the list. *)
Lemma handlePointerUp_todos : forall env moved st,
  todos (fst (Flat.handlePointerUp env moved st)) = todos st.
Proof.
  intros. unfold Flat.handlePointerUp.
  destruct (negb moved); auto.
  destruct (negb (positioningAvailable st)); auto.
  destruct (Rest.updateTodoPositions _ _ _ _ _) as [reqs [u|m]]; reflexivity.
Qed.

Lemma handlePointerUp_error : forall env st m,
  positioningAvailable st = true ->
  snd (Rest.updateTodoPositions (hasSupabaseEnv env) (net env) (arrival env)
         (client env) (ids_of (todos st))) = Rest.Rejected m ->
  error (fst (Flat.handlePointerUp env true st)) = Some m.
Proof.
  intros env st m Hp H. unfold Flat.handlePointerUp. rewrite Hp. cbn [negb].
  destruct (Rest.updateTodoPositions _ _ _ _ _) as [reqs outcome].
  cbn [snd] in H. subst outcome. reflexivity.
Qed.

(** C1 (as amended). [updateTodoPositions] sends nothing and succeeds when
    the position capability is unsupported; otherwise it sends, for every
    identifier of the list, one update of that identifier's position to
    its index, and the call is rejected exactly when one of the updates
    fails, with the message of a failed update.  After a rejected call the
    drag handler ([handlePointerUp]) shows that message and leaves the list
    in the order the drag gave it: it never writes the list.  The keyboard
    move of the hierarchy variant ([handleMoveActiveTodo]) does put the
    list it started from back, and shows the message. *)
Theorem reposition_batch :
  forall (env : Env) (orderedIds : list string),
    hasSupabaseEnv env = true ->
    let call := Rest.updateTodoPositions (hasSupabaseEnv env) (net env)
                  (arrival env) (client env) in
    (Rest.supportsPositionColumn (client env) = Some false ->
     call orderedIds = ([], Rest.Resolved tt)) /\
    (Rest.supportsPositionColumn (client env) <> Some false ->
     fst (call orderedIds)
     = mapi (fun target index => Rest.PatchPosition target (Z.of_nat index)) orderedIds /\
     ((exists i target m, nth_error orderedIds i = Some target /\
                          patchFails (net env) target i = Some m) ->
      exists m, snd (call orderedIds) = Rest.Rejected m) /\
     (forall m, snd (call orderedIds) = Rest.Rejected m ->
        exists i target, nth_error orderedIds i = Some target /\
                         patchFails (net env) target i = Some m) /\
     ((forall i target, nth_error orderedIds i = Some target ->
                        patchFails (net env) target i = None) ->
      snd (call orderedIds) = Rest.Resolved tt)) /\
    (forall st moved, todos (fst (Flat.handlePointerUp env moved st)) = todos st) /\
    (forall st m,
       positioningAvailable st = true ->
       snd (call (ids_of (todos st))) = Rest.Rejected m ->
       error (fst (Flat.handlePointerUp env true st)) = Some m) /\
    (forall st direction active reordered m,
       activeTodoId st = Some active -> active <> "" ->
       active <> Hierarchy.NEW_TASK_ACTIVE_ID ->
       truthy (busyId st) = false -> truthy (editingId st) = false ->
       Hierarchy.reorderBySiblingMove (todos st) active direction = Some (Some reordered) ->
       snd (call (ids_of reordered)) = Rest.Rejected m ->
       exists st' reqs,
         Hierarchy.handleMoveActiveTodo env direction st = Some (st', reqs) /\
         todos st' = todos st /\ error st' = Some m).
Proof.
  intros env orderedIds Henv call. subst call. rewrite Henv.
  split; [|split; [|split; [|split]]].
  - apply updateTodoPositions_unsupported.
  - intros Hs. split.
    + now rewrite updateTodoPositions_supported.
    + now apply updateTodoPositions_batch.
  - intros. apply handlePointerUp_todos.
  - intros st m Hp H. apply handlePointerUp_error; auto. now rewrite Henv.
  - intros st direction active reordered m Hact Hne Hnew Hbusy Hedit Hre Hrej.
    unfold Hierarchy.handleMoveActiveTodo.
    rewrite Hact, Henv, Hbusy, Hedit, Hre.
    assert (Ht : truthy (Some active) = true).
    { unfold truthy. apply negb_true_iff. now apply String.eqb_neq. }
    rewrite Ht. apply String.eqb_neq in Hnew. rewrite Hnew. cbn [negb orb].
    destruct (Rest.updateTodoPositions _ _ _ _ _) as [reqs outcome].
    cbn [snd] in Hrej. subst outcome. eauto.
Qed.

(* ------------------------------------------------------------------ *)
(** ** C2: a store without the position column *)
(* ------------------------------------------------------------------ *)

Lemma rowFallback_positions : forall rows k,
  map position (mapiFrom Rest.rowFallback k rows)
  = map Z.of_nat (seq k (length rows)).
Proof. induction rows; simpl; intros; auto. now rewrite IHrows. Qed.

Lemma rowFallback_ids : forall rows k,
  ids_of (mapiFrom Rest.rowFallback k rows) = map Rest.l_id rows.
Proof. induction rows; simpl; intros; auto. now rewrite IHrows. Qed.

Lemma rowFallback_parents : forall rows k t,
  In t (mapiFrom Rest.rowFallback k rows) -> parent_id t = None.
Proof.
  induction rows; simpl; intros k t H; [contradiction|].
  destruct H as [<-|H]; eauto.
Qed.

(** A call leaves an unsupported position capability unsupported as long
    as the store has no position column. *)
Lemma afterCall_sticky : forall hasEnv cs c,
  lacksPosition (Rest.netOf c) ->
  Rest.supportsPositionColumn cs = Some false ->
  Rest.supportsPositionColumn (Rest.afterCall hasEnv cs c) = Some false.
Proof.
  intros hasEnv cs c Hl Hs. destruct c; simpl in *; auto.
  unfold Rest.listTodos. destruct (negb hasEnv); auto.
  destruct (Hl Rest.positionedColumns Rest.listOrder eq_refl) as (s1 & j1 & E1).
  rewrite E1.
  destruct (Rest.isMissingColumn "parent_id" _).
  - destruct (Hl Rest.positionedNoParentColumns Rest.listOrder eq_refl) as (s2 & j2 & E2).
    now rewrite E2.
  - destruct (negb (Rest.isMissingColumn "position" _)); auto.
    destruct (Rest.getTodos net0 Rest.baseColumns _); auto.
Qed.

Lemma afterCalls_sticky : forall hasEnv calls cs,
  Forall (fun c => lacksPosition (Rest.netOf c)) calls ->
  Rest.supportsPositionColumn cs = Some false ->
  Rest.supportsPositionColumn (Rest.afterCalls hasEnv cs calls) = Some false.
Proof.
  induction calls as [|c calls IH]; intros cs Hall Hs; simpl; auto.
  inversion Hall; subst. apply IH; auto. now apply afterCall_sticky.
Qed.

Lemma afterCalls_other : forall hasEnv calls cs,
  Forall (fun c => match c with Rest.CallList _ => False | _ => True end) calls ->
  Rest.afterCalls hasEnv cs calls = cs.
Proof.
  induction calls as [|c calls IH]; intros cs Hall; simpl; auto.
  inversion Hall as [|c' calls' Hc Hrest]; subst.
  destruct c; try contradiction; simpl; now apply IH.
Qed.

(** The first request of every call of [listTodos] selects [position]. *)
Lemma listTodos_first_request : forall n cs,
  exists rest,
    snd (fst (Rest.listTodos true n cs))
    = Rest.GetTodos Rest.positionedColumns Rest.listOrder :: rest.
Proof.
  intros n cs. unfold Rest.listTodos. cbn [negb].
  destruct (Rest.getTodos n Rest.positionedColumns Rest.listOrder);
    [eexists; reflexivity| |eexists; reflexivity].
  destruct (Rest.isMissingColumn "parent_id" _).
  - destruct (Rest.getTodos n Rest.positionedNoParentColumns Rest.listOrder);
      eexists; reflexivity.
  - destruct (negb (Rest.isMissingColumn "position" _)); [eexists; reflexivity|].
    destruct (Rest.getTodos n Rest.baseColumns ["created_at.asc"]);
      eexists; reflexivity.
Qed.

(** The flags [listTodos] leaves: the ones it found when no request was
    answered ok, and otherwise the ones that the select list of the request
    answered ok names. *)
Lemma listTodos_flags_cases : forall hasEnv n cs,
  (fst (fst (Rest.listTodos hasEnv n cs)) = cs /\
   (forall c o, In (Rest.GetTodos c o) (snd (fst (Rest.listTodos hasEnv n cs))) ->
                Rest.ok (Rest.getTodos n c o) = false) /\
   exists m, snd (Rest.listTodos hasEnv n cs) = Rest.Rejected m)
  \/
  (exists front cols order,
     snd (fst (Rest.listTodos hasEnv n cs)) = front ++ [Rest.GetTodos cols order] /\
     Rest.ok (Rest.getTodos n cols order) = true /\
     fst (fst (Rest.listTodos hasEnv n cs))
     = Rest.mkClient (Some (Rest.selectsPosition cols)) (Some (selectsParent cols))).
Proof.
  intros hasEnv n cs. unfold Rest.listTodos.
  destruct (negb hasEnv).
  { left. cbn. split; [reflexivity|]. split; [intros c o []|eauto]. }
  destruct (Rest.getTodos n Rest.positionedColumns Rest.listOrder)
    as [rows|s j|r] eqn:E1.
  - right. exists [], Rest.positionedColumns, Rest.listOrder.
    rewrite E1. cbn. auto.
  - destruct (Rest.isMissingColumn "parent_id" _).
    + destruct (Rest.getTodos n Rest.positionedNoParentColumns Rest.listOrder)
        as [rows|s' j'|r'] eqn:E2.
      * right. exists [Rest.GetTodos Rest.positionedColumns Rest.listOrder],
                      Rest.positionedNoParentColumns, Rest.listOrder.
        rewrite E2. cbn. auto.
      * left. cbn [fst snd]. split; [reflexivity|]. split; [|eauto].
        intros c o [H|[H|[]]]; injection H as <- <-; [now rewrite E1|now rewrite E2].
      * right. exists [Rest.GetTodos Rest.positionedColumns Rest.listOrder],
                      Rest.positionedNoParentColumns, Rest.listOrder.
        rewrite E2. cbn. auto.
    + destruct (negb (Rest.isMissingColumn "position" _)).
      { left. cbn [fst snd]. split; [reflexivity|]. split; [|eauto].
        intros c o [H|[]]; injection H as <- <-. now rewrite E1. }
      destruct (Rest.getTodos n Rest.baseColumns ["created_at.asc"])
        as [rows|s' j'|r'] eqn:E3.
      * right. exists [Rest.GetTodos Rest.positionedColumns Rest.listOrder],
                      Rest.baseColumns, ["created_at.asc"].
        rewrite E3. cbn. auto.
      * left. cbn [fst snd]. split; [reflexivity|]. split; [|eauto].
        intros c o [H|[H|[]]]; injection H as <- <-; [now rewrite E1|now rewrite E3].
      * right. exists [Rest.GetTodos Rest.positionedColumns Rest.listOrder],
                      Rest.baseColumns, ["created_at.asc"].
        rewrite E3. cbn. auto.
  - right. exists [], Rest.positionedColumns, Rest.listOrder.
    rewrite E1. cbn. auto.
Qed.

(** After a call of [listTodos] on a demoted client positioning is enabled
    exactly when a request that selects [position] was answered ok. *)
Lemma listTodos_promotes : forall n cs,
  Rest.isPositioningEnabled cs = false ->
  (Rest.isPositioningEnabled (fst (fst (Rest.listTodos true n cs))) = true <->
   exists cols order,
     In (Rest.GetTodos cols order) (snd (fst (Rest.listTodos true n cs))) /\
     Rest.selectsPosition cols = true /\
     Rest.ok (Rest.getTodos n cols order) = true).
Proof.
  intros n cs Hoff.
  assert (Hreqs : forall q, In q (snd (fst (Rest.listTodos true n cs))) ->
            q = Rest.GetTodos Rest.positionedColumns Rest.listOrder \/
            q = Rest.GetTodos Rest.positionedNoParentColumns Rest.listOrder \/
            q = Rest.GetTodos Rest.baseColumns ["created_at.asc"]).
  { unfold Rest.listTodos. cbn [negb].
    destruct (Rest.getTodos n Rest.positionedColumns Rest.listOrder);
      [cbn; intuition| |cbn; intuition].
    destruct (Rest.isMissingColumn "parent_id" _).
    - destruct (Rest.getTodos n Rest.positionedNoParentColumns Rest.listOrder);
        cbn; intuition.
    - destruct (negb (Rest.isMissingColumn "position" _)); [cbn; intuition|].
      destruct (Rest.getTodos n Rest.baseColumns ["created_at.asc"]); cbn; intuition. }
  destruct (listTodos_flags_cases true n cs)
    as [(F & Hno & _)|(front & cols & order & Ef & Hok & F)].
  - rewrite F, Hoff. split; [discriminate|].
    intros (cols & order & Hin & _ & Hok). rewrite (Hno cols order Hin) in Hok.
    discriminate.
  - rewrite F. unfold Rest.isPositioningEnabled. cbn [Rest.supportsPositionColumn].
    split.
    + intros Hen. exists cols, order. split; [|split; [|exact Hok]].
      * rewrite Ef. apply in_or_app. right. now left.
      * destruct (Rest.selectsPosition cols); [reflexivity|discriminate].
    + intros (cols' & order' & Hin & Hsel & Hok').
      destruct (Rest.selectsPosition cols) eqn:Es; [reflexivity|exfalso].
      (* the request answered ok is the last one; an earlier request that
         selects position was not answered ok *)
      revert Ef Hin Hok Hok' F. unfold Rest.listTodos. cbn [negb].
      destruct (Rest.getTodos n Rest.positionedColumns Rest.listOrder)
        as [rows|s1 j1|r1] eqn:E1.
      * cbn [fst snd]. intros _ _ _ _ F. discriminate F.
      * destruct (Rest.isMissingColumn "parent_id" _).
        -- destruct (Rest.getTodos n Rest.positionedNoParentColumns Rest.listOrder)
             as [rows|s2 j2|r2] eqn:E2; cbn [fst snd]; intros Ef Hin Hok Hok' F.
           ++ discriminate F.
           ++ destruct Hin as [H|[H|[]]]; injection H as <- <-;
                [rewrite E1 in Hok'|rewrite E2 in Hok']; discriminate.
           ++ discriminate F.
        -- destruct (negb (Rest.isMissingColumn "position" _)).
           { cbn [fst snd]. intros _ Hin _ Hok' _.
             destruct Hin as [H|[]]. injection H as <- <-.
             rewrite E1 in Hok'. discriminate. }
           destruct (Rest.getTodos n Rest.baseColumns ["created_at.asc"])
             as [rows|s3 j3|r3] eqn:E3; cbn [fst snd]; intros Ef Hin Hok Hok' F;
             (destruct Hin as [H|[H|[]]]; injection H as <- <-;
              [rewrite E1 in Hok'; discriminate|discriminate Hsel]).
      * cbn [fst snd]. intros _ _ _ _ F. discriminate F.
Qed.

(** C2 (as amended).  When the answer to the positioned request reports the
    missing position column and the store answers the request for the base
    columns with rows, [listTodos] sends exactly those two requests (the
    second selects no position), returns the rows in the order received
    with ranks [0 .. n-1] and no parent, and leaves the position capability
    unsupported: [isPositioningEnabled] is false.  The flags then stay
    through any calls other than [listTodos]; every later [listTodos]
    starts again with the request that selects [position]; positioning
    stays disabled over any calls against stores that refuse every request
    selecting [position]; and a later [listTodos] enables it again exactly
    when one of its requests that select [position] is answered ok. *)
Theorem list_without_position_column :
  forall (n : Rest.Net) (cs : Rest.ClientState) (rows : list Rest.ListRow),
    reportsMissingPosition (Rest.getTodos n Rest.positionedColumns Rest.listOrder) ->
    Rest.getTodos n Rest.baseColumns ["created_at.asc"] = Rest.Ok rows ->
    exists cs' result,
      Rest.listTodos true n cs
      = (cs', [Rest.GetTodos Rest.positionedColumns Rest.listOrder;
               Rest.GetTodos Rest.baseColumns ["created_at.asc"]],
         Rest.Resolved result) /\
      Rest.selectsPosition Rest.baseColumns = false /\
      ids_of result = map Rest.l_id rows /\
      map position result = map Z.of_nat (seq 0 (length rows)) /\
      (forall t, In t result -> parent_id t = None) /\
      Rest.isPositioningEnabled cs' = false /\
      (forall calls,
         Forall (fun c => match c with Rest.CallList _ => False | _ => True end) calls ->
         Rest.afterCalls true cs' calls = cs') /\
      (forall n2, exists rest,
         snd (fst (Rest.listTodos true n2 cs'))
         = Rest.GetTodos Rest.positionedColumns Rest.listOrder :: rest) /\
      (forall calls,
         Forall (fun c => lacksPosition (Rest.netOf c)) calls ->
         Rest.isPositioningEnabled (Rest.afterCalls true cs' calls) = false) /\
      (forall n2,
         Rest.isPositioningEnabled (Rest.afterCalls true cs' [Rest.CallList n2]) = true <->
         exists cols order,
           In (Rest.GetTodos cols order) (snd (fst (Rest.listTodos true n2 cs'))) /\
           Rest.selectsPosition cols = true /\
           Rest.ok (Rest.getTodos n2 cols order) = true).
Proof.
  intros n cs rows (s & payload & m & E1 & Em & Hpar & Hpos) E3.
  exists (Rest.mkClient (Some false) (Some false)), (mapi Rest.rowFallback rows).
  split; [|split; [|split; [|split; [|split; [|split; [|split; [|split; [|split]]]]]]]].
  - unfold Rest.listTodos. cbn [negb]. rewrite E1, Em, Hpar, Hpos. cbn [negb].
    now rewrite E3.
  - reflexivity.
  - apply rowFallback_ids.
  - apply rowFallback_positions.
  - intros t. apply rowFallback_parents.
  - reflexivity.
  - intros calls Hall. now apply afterCalls_other.
  - intros n2. apply listTodos_first_request.
  - intros calls Hall. unfold Rest.isPositioningEnabled.
    now rewrite afterCalls_sticky.
  - intros n2. apply (listTodos_promotes n2 (Rest.mkClient (Some false) (Some false))).
    reflexivity.
Qed.

(* ------------------------------------------------------------------ *)
(** ** Single targets in a list with unique identifiers *)
(* ------------------------------------------------------------------ *)

Lemma NoDup_split_fresh : forall (A B : list TodoRecord) (t x : TodoRecord),
  NoDup (ids_of (A ++ t :: B)) -> In x (A ++ B) -> id x <> id t.
Proof.
  intros A B t x Hnd Hin E. unfold ids_of in Hnd. rewrite map_app in Hnd.
  simpl in Hnd. apply NoDup_remove_2 in Hnd. apply Hnd.
  rewrite <- map_app, <- E. now apply in_map.
Qed.

Lemma filter_false : forall (A : Type) (q : A -> bool) (l : list A),
  (forall x, In x l -> q x = false) -> filter q l = [].
Proof.
  induction l as [|x l IH]; simpl; intros H; auto.
  rewrite (H x) by auto. apply IH. auto.
Qed.

Lemma strip_eq_position : forall t t',
  strip t' = strip t -> t' = with_position t (position t').
Proof.
  intros [] []. unfold strip, with_position. simpl. intros H. inversion H. reflexivity.
Qed.

(** Looking a record up after renormalisation gives it with a new rank. *)
Lemma byId_get_normalizePositions : forall l t,
  NoDup (ids_of l) -> In t l ->
  exists pos, byId_get (normalizePositions l) (id t) = Some (with_position t pos).
Proof.
  intros l t Hnd Hin.
  assert (H : In (strip t) (map strip (normalizePositions l))).
  { rewrite strip_normalizePositions. now apply in_map. }
  apply in_map_iff in H. destruct H as (t' & E & Hin').
  apply strip_eq_position in E. exists (position t').
  assert (Hid : id t' = id t) by (rewrite E; reflexivity).
  rewrite <- Hid, <- E. apply byId_get_unique; auto.
  now rewrite ids_normalizePositions.
Qed.

Lemma find_map_pres : forall (A : Type) (q : A -> bool) (g : A -> A) (l : list A),
  (forall x, q (g x) = q x) -> find q (map g l) = option_map g (find q l).
Proof.
  induction l as [|x l IH]; simpl; intros H; auto.
  rewrite H. destruct (q x); auto.
Qed.

Lemma byId_get_map : forall (g : TodoRecord -> TodoRecord) l k,
  (forall x, id (g x) = id x) ->
  byId_get (map g l) k = option_map g (byId_get l k).
Proof.
  intros g l k H. unfold byId_get. rewrite <- map_rev.
  apply find_map_pres. intros x. now rewrite H.
Qed.

Lemma ids_map_pres : forall (g : TodoRecord -> TodoRecord) l,
  (forall x, id (g x) = id x) -> ids_of (map g l) = ids_of l.
Proof.
  intros g l H. unfold ids_of. rewrite map_map. apply map_ext. auto.
Qed.

(* ------------------------------------------------------------------ *)
(** ** C3: parents of a moved block *)
(* ------------------------------------------------------------------ *)




















Lemma list_max_ge : forall (l : list nat) (x : nat), In x l -> x <= list_max l.
Proof.
  induction l as [|y l IH]; simpl; intros x H; [contradiction|].
  destruct H as [->|H]; [lia|]. specialize (IH x H). lia.
Qed.


(** *** The block move permutes the list *)

Lemma In_firstn_In : forall (A : Type) (n : nat) (l : list A) (x : A),
  In x (firstn n l) -> In x l.
Proof.
  intros A n l x H. rewrite <- (firstn_skipn n l). apply in_or_app. now left.
Qed.

Lemma In_skipn_In : forall (A : Type) (n : nat) (l : list A) (x : A),
  In x (skipn n l) -> In x l.
Proof.
  intros A n l x H. rewrite <- (firstn_skipn n l). apply in_or_app. now right.
Qed.

Lemma filter_partition_perm : forall (A : Type) (f : A -> bool) (l : list A),
  Permutation (filter f l ++ filter (fun x => negb (f x)) l) l.
Proof.
  induction l as [|x l IH]; simpl; auto.
  destruct (f x); simpl.
  - now constructor.
  - apply Permutation_sym. apply Permutation_cons_app. now apply Permutation_sym.
Qed.

Lemma spliceIn_perm : forall (A : Type) (l xs : list A) (k : Z),
  Permutation (spliceIn l k xs) (xs ++ l).
Proof.
  intros. unfold spliceIn.
  set (s := spliceStart (length l) k).
  apply Permutation_trans with (xs ++ firstn s l ++ skipn s l).
  - apply Permutation_app_swap_app.
  - now rewrite firstn_skipn.
Qed.

Lemma blockOf_filter : forall items selectedIds activeId,
  exists q : string -> bool,
    Outline.blockOf items selectedIds activeId = filter (fun t => q (id t)) items.
Proof.
  intros. unfold Outline.blockOf.
  destruct (filter (fun todo => includes selectedIds (id todo)) items) eqn:E.
  - exists (fun k => k =? activeId). reflexivity.
  - exists (includes selectedIds). now rewrite E.
Qed.

Lemma stationary_filter : forall (q : string -> bool) items,
  filter (fun todo => negb (includes (ids_of (filter (fun t => q (id t)) items)) (id todo)))
         items
  = filter (fun t => negb (q (id t))) items.
Proof.
  intros q items. apply filter_ext_in. intros t Ht. f_equal.
  destruct (q (id t)) eqn:E.
  - apply includes_In. apply in_map. apply filter_In. auto.
  - apply includes_not_In. intros H. apply in_map_iff in H.
    destruct H as (b & Eb & Hb). apply filter_In in Hb.
    destruct Hb as [_ Hq]. congruence.
Qed.

(** Filtering the block out of the compacted list gives the stationary
    records back. *)
Lemma withoutBlock_stationary : forall (q : string -> bool) items (k : Z),
  filter (fun todo => negb (includes (ids_of (filter (fun t => q (id t)) items)) (id todo)))
         (spliceIn (filter (fun t => negb (q (id t))) items) k
                   (filter (fun t => q (id t)) items))
  = filter (fun t => negb (q (id t))) items.
Proof.
  intros q items k.
  set (block := filter (fun t => q (id t)) items).
  set (stationary := filter (fun t => negb (q (id t))) items).
  unfold spliceIn.
  set (s := spliceStart (length stationary) k).
  assert (Hst : forall x, In x stationary ->
                          negb (includes (ids_of block) (id x)) = true).
  { intros x Hx. apply filter_In in Hx. destruct Hx as [_ Hq].
    apply negb_true_iff, includes_not_In. intros H.
    apply in_map_iff in H. destruct H as (b & Eb & Hb).
    apply filter_In in Hb. destruct Hb as [_ Hb].
    rewrite Eb in Hb. rewrite Hb in Hq. discriminate. }
  rewrite !filter_app.
  rewrite (filter_all _ (firstn s stationary))
    by (intros x Hx; apply Hst; eapply In_firstn_In; eauto).
  rewrite (filter_all _ (skipn s stationary))
    by (intros x Hx; apply Hst; eapply In_skipn_In; eauto).
  rewrite (filter_false _ block).
  - simpl. apply firstn_skipn.
  - intros x Hx. apply negb_false_iff, includes_In. now apply in_map.
Qed.



(** *** The walk of the repair *)




Lemma with_parent_self : forall t, with_parent t (parent_id t) = t.
Proof. intros []. reflexivity. Qed.
















Lemma updateParents_requests : forall env updates,
  hasSupabaseEnv env = true ->
  fst (OutlineActions.updateParents env updates)
  = map (fun u => Rest.PatchTodo (fst u)
                    (Rest.mkUpdates None None None (Some (snd u)))
                    (Rest.currentSelectColumns (client env))) updates.
Proof.
  intros env updates Henv. unfold OutlineActions.updateParents. cbn [fst].
  rewrite Henv. induction updates as [|u us IH]; [reflexivity|].
  cbn [map concat]. rewrite IH. unfold Rest.updateTodo at 1. cbn [negb].
  destruct (Rest.patchTodo _ _ _ _) as [[|first rest]|s j|r]; reflexivity.
Qed.



Lemma filter_negb_none : forall (A : Type) (q : A -> bool) (l : list A),
  (forall x, In x l -> q x = false) -> filter (fun x => negb (q x)) l = l.
Proof.
  intros A q l H. apply filter_all. intros x Hx. now rewrite H.
Qed.

Lemma updateMap_get_In : forall updates k p,
  Outline.updateMap_get updates k = Some p -> In (k, p) updates.
Proof.
  intros updates k p H. unfold Outline.updateMap_get in H.
  destruct (find (fun u => fst u =? k) (rev updates)) as [[k' p']|] eqn:E;
    [|discriminate].
  injection H as <-. apply find_some in E. destruct E as [Hin E].
  simpl in E. apply String.eqb_eq in E. subst k'. now apply in_rev.
Qed.

Lemma filter_first_split : forall (A : Type) (q : A -> bool) (l : list A) (x : A)
    (r : list A),
  filter q l = x :: r ->
  exists pre post,
    l = pre ++ x :: post /\ (forall y, In y pre -> q y = false) /\
    q x = true /\ r = filter q post.
Proof.
  intros A q l. induction l as [|y l IH]; intros x r H; [discriminate|].
  simpl in H. destruct (q y) eqn:E.
  - injection H as <- <-. exists [], l. simpl. repeat split; auto. intros z [].
  - destruct (IH x r H) as (pre & post & -> & Hpre & Hx & Hr).
    exists (y :: pre), post. simpl. repeat split; auto.
    intros z [<-|Hz]; auto.
Qed.

Lemma compact_shape : forall items selectedIds activeId compacted block anchorIndex,
  Outline.compactSelectionAtAnchor items selectedIds activeId
  = Some (compacted, block, anchorIndex) ->
  exists pre first post rest,
    items = pre ++ first :: post /\
    anchorIndex = Z.of_nat (length pre) /\
    block = Outline.blockOf items selectedIds activeId /\
    In first block /\
    (forall x, In x pre -> ~ In (id x) (ids_of block)) /\
    compacted = pre ++ block ++ rest /\
    Permutation compacted items.
Proof.
  intros items selectedIds activeId compacted block anchorIndex H.
  unfold Outline.compactSelectionAtAnchor in H. cbv zeta in H.
  destruct (blockOf_filter items selectedIds activeId) as (q & Eq).
  rewrite !Eq in H. rewrite Eq.
  remember (filter (fun t => q (id t)) items) as blk eqn:Eb.
  destruct blk as [|first brest]; [discriminate|].
  symmetry in Eb.
  destruct (filter_first_split _ _ Eb) as (pre & post & Ei & Hpre & Hfirst & Hrest).
  assert (Hblock : forall x, In x (first :: brest) -> q (id x) = true).
  { intros x Hx. rewrite <- Eb in Hx. apply filter_In in Hx. tauto. }
  assert (Hids : forall k, In k (ids_of (first :: brest)) -> q k = true).
  { intros k Hk. unfold ids_of in Hk. apply in_map_iff in Hk.
    destruct Hk as (x & <- & Hx). now apply Hblock. }
  assert (Ea : findIndex (fun todo => id todo =? id first) items
               = Z.of_nat (length pre)).
  { rewrite Ei. apply findIndex_at.
    - intros y Hy. apply String.eqb_neq. intros E.
      pose proof (Hpre y Hy) as H1. rewrite E, Hfirst in H1. discriminate.
    - apply String.eqb_refl. }
  rewrite Ea in H.
  replace (Z.of_nat (length pre) =? -1)%Z with false in H
    by (symmetry; apply Z.eqb_neq; lia).
  assert (Est : filter (fun todo => negb (includes (ids_of (first :: brest)) (id todo)))
                       items
                = pre ++ filter (fun t => negb (q (id t))) post).
  { rewrite <- Eb. rewrite stationary_filter. rewrite Ei, filter_app.
    cbn [filter]. rewrite Hfirst. cbn [negb].
    now rewrite (filter_negb_none (fun t => q (id t)) pre Hpre). }
  assert (Hperm : Permutation ((first :: brest) ++ pre
                               ++ filter (fun t => negb (q (id t))) post) items).
  { rewrite <- Est. rewrite <- Eb. rewrite stationary_filter.
    apply filter_partition_perm. }
  rewrite Est in H. injection H as <- <- <-.
  exists pre, first, post, (filter (fun t => negb (q (id t))) post).
  split; [exact Ei|]. split; [reflexivity|]. split; [reflexivity|].
  split; [now left|]. split.
  - intros x Hx Hin. apply Hids in Hin. rewrite (Hpre x Hx) in Hin. discriminate.
  - split; [apply spliceIn_at|].
    eapply Permutation_trans; [apply spliceIn_perm|]. exact Hperm.
Qed.


(* ------------------------------------------------------------------ *)
(** ** C4: nest, then unnest *)
(* ------------------------------------------------------------------ *)

Lemma updateMap_get_some : forall updates k p,
  In (k, p) updates -> exists p', Outline.updateMap_get updates k = Some p'.
Proof.
  intros updates k p H. unfold Outline.updateMap_get.
  destruct (find (fun u => fst u =? k) (rev updates)) as [u|] eqn:E;
    [eexists; reflexivity|].
  apply in_rev in H. pose proof (find_none _ _ E (k, p) H) as Hf.
  simpl in Hf. rewrite String.eqb_refl in Hf. discriminate.
Qed.

Lemma unnestUpdates_value : forall X selected activeId k p,
  In (k, p) (Outline.unnestUpdates X selected activeId) ->
  In k (targetsOf selected activeId) /\
  exists todo, byId_get X k = Some todo /\ truthy (parent_id todo) = true /\
               p = levelUp X (parent_id todo) /\ p <> parent_id todo.
Proof.
  intros X selected activeId k p H. unfold Outline.unnestUpdates in H.
  fold (targetsOf selected activeId) in H.
  apply in_flat_map in H. destruct H as (todoId & Hin & H).
  destruct (byId_get X todoId) as [todo|] eqn:E; [|destruct H].
  destruct (negb (truthy (parent_id todo))) eqn:T; [destruct H|].
  change (match parent_id todo with
          | Some pid => match byId_get X pid with
                        | Some parent => parent_id parent
                        | None => None
                        end
          | None => None
          end) with (levelUp X (parent_id todo)) in H.
  destruct (opt_eqb (levelUp X (parent_id todo)) (parent_id todo)) eqn:Eq;
    [destruct H|].
  destruct H as [H|[]]. injection H as <- <-.
  split; [exact Hin|]. exists todo. split; [exact E|].
  split; [now apply negb_false_iff in T|]. split; [reflexivity|].
  intros Heq. apply opt_eqb_eq in Heq. congruence.
Qed.

Lemma unnestUpdates_intro : forall X selected activeId k todo,
  In k (targetsOf selected activeId) -> byId_get X k = Some todo ->
  truthy (parent_id todo) = true ->
  levelUp X (parent_id todo) <> parent_id todo ->
  In (k, levelUp X (parent_id todo)) (Outline.unnestUpdates X selected activeId).
Proof.
  intros X selected activeId k todo Hin E T Hneq. unfold Outline.unnestUpdates.
  fold (targetsOf selected activeId).
  apply in_flat_map. exists k. split; [exact Hin|].
  rewrite E, T. cbn [negb].
  change (match parent_id todo with
          | Some pid => match byId_get X pid with
                        | Some parent => parent_id parent
                        | None => None
                        end
          | None => None
          end) with (levelUp X (parent_id todo)).
  destruct (opt_eqb (levelUp X (parent_id todo)) (parent_id todo)) eqn:Eq.
  - apply opt_eqb_eq in Eq. contradiction.
  - now left.
Qed.

(** Unnesting, record by record: a target with a parent gets the parent
    one level up, every other record is left as it is. *)
Lemma afterUnnest_lookup : forall X selected activeId todo,
  NoDup (ids_of X) -> In todo X ->
  byId_get (Outline.afterUnnest X selected activeId) (id todo)
  = Some (with_parent todo
            (if includes (targetsOf selected activeId) (id todo)
                && truthy (parent_id todo)
             then levelUp X (parent_id todo) else parent_id todo)).
Proof.
  intros X selected activeId todo Hnd Hin.
  set (updates := Outline.unnestUpdates X selected activeId).
  set (g := fun t : TodoRecord =>
              match Outline.updateMap_get updates (id t) with
              | Some p => with_parent t p
              | None => t
              end).
  assert (Emap : Outline.afterUnnest X selected activeId = map g X).
  { unfold Outline.afterUnnest. fold updates.
    destruct updates as [|u us] eqn:Eu; [|reflexivity].
    symmetry. rewrite <- (map_id X) at 2. apply map_ext. intros t. reflexivity. }
  rewrite Emap, byId_get_map.
  2:{ intros x. unfold g. destruct (Outline.updateMap_get updates (id x)); reflexivity. }
  rewrite (byId_get_unique _ _ Hnd Hin). cbn [option_map]. f_equal. unfold g.
  destruct (Outline.updateMap_get updates (id todo)) as [p|] eqn:G.
  - apply updateMap_get_In in G. apply unnestUpdates_value in G.
    destruct G as (Ht & todo' & Eget & T & -> & _).
    rewrite (byId_get_unique _ _ Hnd Hin) in Eget. injection Eget as <-.
    apply includes_In in Ht. now rewrite Ht, T.
  - destruct (includes (targetsOf selected activeId) (id todo)
              && truthy (parent_id todo)) eqn:C; [|now rewrite with_parent_self].
    apply andb_true_iff in C. destruct C as [Ht T]. apply includes_In in Ht.
    destruct (opt_eqb (levelUp X (parent_id todo)) (parent_id todo)) eqn:Eq.
    + apply opt_eqb_eq in Eq. rewrite Eq. now rewrite with_parent_self.
    + exfalso.
      assert (Hneq : levelUp X (parent_id todo) <> parent_id todo).
      { intros Heq. apply opt_eqb_eq in Heq. congruence. }
      pose proof (@unnestUpdates_intro X selected activeId (id todo) todo Ht
                    (byId_get_unique _ _ Hnd Hin) T Hneq) as Hu.
      apply updateMap_get_some in Hu. destruct Hu as (p' & Hu).
      fold updates in Hu. congruence.
Qed.

Lemma differsFrom_false_id : forall next snapshot i x,
  Outline.differsFrom next snapshot = false ->
  nth_error next i = Some x ->
  exists y, nth_error snapshot i = Some y /\ id x = id y /\ parent_id x = parent_id y.
Proof.
  induction next as [|n next IH]; intros snapshot i x H Hx.
  - destruct i; discriminate.
  - destruct snapshot as [|s snapshot]; [discriminate|].
    simpl in H. apply orb_false_iff in H. destruct H as [H Hrest].
    apply orb_false_iff in H. destruct H as [Hid Hpar].
    destruct i; simpl in Hx.
    + injection Hx as <-. exists s. split; [reflexivity|].
      apply negb_false_iff in Hid, Hpar. apply String.eqb_eq in Hid.
      apply opt_eqb_eq in Hpar. auto.
    + simpl. eapply IH; eauto.
Qed.

(** The block of a compaction is part of the list, the record right above
    it is not part of the block, and the targets of an action include the
    identifiers of the block. *)
Lemma compact_block : forall snapshot selected activeId compacted block anchorIndex,
  Outline.compactSelectionAtAnchor snapshot
    (Outline.selectedForAction selected activeId) activeId
  = Some (compacted, block, anchorIndex) ->
  Permutation compacted snapshot /\
  (forall t, In t block -> In t snapshot /\ In (id t) (targetsOf selected activeId)) /\
  (forall above, (anchorIndex =? 0)%Z = false ->
     nth_error compacted (Z.to_nat (anchorIndex - 1)) = Some above ->
     ~ In (id above) (ids_of block)).
Proof.
  intros snapshot selected activeId compacted block anchorIndex Ec.
  destruct (compact_shape _ _ _ Ec)
    as (pre & first & post & rest & Ei & Ea & Eblock & Hfirst & Hpre & Ecomp & Hperm).
  split; [exact Hperm|]. split.
  - intros t Ht. rewrite Eblock in Ht. unfold Outline.blockOf in Ht.
    unfold Outline.selectedForAction in Ht. unfold targetsOf.
    destruct (negb (length selected =? 0)%nat && includes selected activeId) eqn:C.
    + destruct (filter (fun todo => includes selected (id todo)) snapshot)
        as [|x xs] eqn:Ef.
      * apply filter_In in Ht. destruct Ht as [Hin Hid]. split; [exact Hin|].
        apply String.eqb_eq in Hid. rewrite Hid.
        apply andb_true_iff in C. destruct C as [_ C]. now apply includes_In.
      * rewrite <- Ef in Ht. apply filter_In in Ht. destruct Ht as [Hin Hsel].
        split; [exact Hin|]. now apply includes_In.
    + cbn [filter includes existsb] in Ht.
      rewrite (filter_false (fun _ : TodoRecord => false)) in Ht by reflexivity.
      apply filter_In in Ht. destruct Ht as [Hin Hid]. split; [exact Hin|].
      apply String.eqb_eq in Hid. left. now symmetry.
  - intros above E0 Habove. apply Z.eqb_neq in E0.
    apply Hpre. rewrite Ecomp in Habove.
    assert (Hlt : Z.to_nat (anchorIndex - 1) < length pre) by lia.
    rewrite nth_error_app1 in Habove by exact Hlt.
    eapply nth_error_In; eauto.
Qed.

(** Nesting, record by record: the records of the block get the parent
    [nestTarget], every other record keeps its parent. *)
Lemma afterNest_lookup :
  forall snapshot selected activeId compacted block anchorIndex above todo,
    NoDup (ids_of snapshot) ->
    Outline.compactSelectionAtAnchor snapshot
      (Outline.selectedForAction selected activeId) activeId
    = Some (compacted, block, anchorIndex) ->
    (anchorIndex =? 0)%Z = false ->
    nth_error compacted (Z.to_nat (anchorIndex - 1)) = Some above ->
    In todo snapshot ->
    exists tn,
      byId_get (Outline.afterNest snapshot selected activeId) (id todo) = Some tn /\
      id tn = id todo /\
      parent_id tn = if includes (ids_of block) (id todo)
                     then nestTarget above block else parent_id todo.
Proof.
  intros snapshot selected activeId compacted block anchorIndex above todo
         Hnd Ec E0 Habove Hin.
  destruct (compact_block _ _ _ Ec) as (Hperm & _ & _).
  set (reparent := fun t : TodoRecord =>
                     if negb (includes (ids_of block) (id t)) then t
                     else with_parent t (nestTarget above block)).
  assert (Hid : forall x, id (reparent x) = id x).
  { intros x. unfold reparent. destruct (negb _); reflexivity. }
  assert (Hpar : parent_id (reparent todo)
                 = if includes (ids_of block) (id todo)
                   then nestTarget above block else parent_id todo).
  { unfold reparent. destruct (includes (ids_of block) (id todo)); reflexivity. }
  set (next := normalizePositions (map reparent compacted)).
  assert (Hndm : NoDup (ids_of (map reparent compacted))).
  { rewrite (ids_map_pres reparent compacted Hid).
    eapply Permutation_NoDup; [|exact Hnd].
    apply Permutation_sym. unfold ids_of. now apply Permutation_map. }
  assert (Hnext : exists pos,
            byId_get next (id todo) = Some (with_position (reparent todo) pos)).
  { rewrite <- (Hid todo). apply byId_get_normalizePositions; [exact Hndm|].
    apply in_map. eapply Permutation_in; [apply Permutation_sym; exact Hperm|exact Hin]. }
  assert (Eafter : Outline.afterNest snapshot selected activeId
                   = if Outline.differsFrom next snapshot then next else snapshot).
  { unfold Outline.afterNest, Outline.nestPlan. rewrite Ec, E0, Habove.
    cbv zeta. fold (nestTarget above block). fold reparent. fold next.
    destruct (Outline.differsFrom next snapshot); reflexivity. }
  rewrite Eafter. destruct (Outline.differsFrom next snapshot) eqn:Ed.
  - destruct Hnext as (pos & Hget). eexists. split; [exact Hget|].
    split; [apply Hid|exact Hpar].
  - exists todo. split; [now apply byId_get_unique|]. split; [reflexivity|].
    destruct Hnext as (pos & Hget). apply byId_get_Some in Hget.
    destruct Hget as [Hinn _]. apply In_nth_error in Hinn.
    destruct Hinn as (i & Hi).
    destruct (@differsFrom_false_id next snapshot i _ Ed Hi) as (y & Hy & Eid & Epar).
    cbn [id parent_id with_position] in Eid, Epar. rewrite Hid in Eid.
    assert (y = todo).
    { apply (@NoDup_ids_inj snapshot y todo Hnd); auto.
      eapply nth_error_In; eauto. }
    subst y. rewrite <- Hpar. symmetry. exact Epar.
Qed.

Lemma afterNest_ids : forall snapshot selected activeId,
  Permutation (ids_of (Outline.afterNest snapshot selected activeId)) (ids_of snapshot).
Proof.
  intros snapshot selected activeId. unfold Outline.afterNest, Outline.nestPlan.
  destruct (Outline.compactSelectionAtAnchor snapshot _ activeId)
    as [[[compacted block] anchorIndex]|] eqn:Ec; [|apply Permutation_refl].
  destruct (compact_block _ _ _ Ec) as (Hperm & _ & _).
  destruct (anchorIndex =? 0)%Z; [apply Permutation_refl|].
  destruct (nth_error compacted _) as [above|]; [|apply Permutation_refl].
  cbv zeta. destruct (negb (Outline.differsFrom _ snapshot)); [apply Permutation_refl|].
  rewrite ids_normalizePositions, ids_map_pres.
  - unfold ids_of. now apply Permutation_map.
  - intros x. destruct (negb _); reflexivity.
Qed.

(** C4 (as amended).  In a collection with unique, non-empty identifiers,
    nesting ([nestFocusedSelectionIntoPrevious]) and unnesting at once
    ([unnestFocusedSelectionOneLevel]) leaves every record [t] of the block
    they act on (the target alone, or the selection that contains it) with
    the parent of the record that nesting put it under.  With [above] the
    record right above the block, that is the parent of [above] when
    [above] has no parent or every record of the block has the parent of
    [above]; otherwise nesting puts the block under the parent [L] of
    [above], and the record ends with the parent of [L] ([L] itself when
    [L] is in the block, no parent when [L] names no record).  With the
    block at the top of the list nesting does nothing and unnesting lifts a
    record that has a parent one level up.  So the parent [t] started with
    is restored exactly when it is the parent given here; this is always so
    when the records of the block are siblings of [above]. *)
Theorem nest_unnest_siblings :
  forall (snapshot : list TodoRecord) (selected : list string) (activeId : string)
         (compacted block : list TodoRecord) (anchorIndex : Z),
    NoDup (ids_of snapshot) ->
    (forall t, In t snapshot -> id t <> "") ->
    Outline.compactSelectionAtAnchor snapshot
      (Outline.selectedForAction selected activeId) activeId
    = Some (compacted, block, anchorIndex) ->
    let final :=
      Outline.afterUnnest (Outline.afterNest snapshot selected activeId)
                          selected activeId in
    forall t, In t block ->
      exists tf,
        byId_get final (id t) = Some tf /\
        parent_id tf
        = match (if (anchorIndex =? 0)%Z then None
                 else nth_error compacted (Z.to_nat (anchorIndex - 1))) with
          | Some above =>
              match parent_id above with
              | Some L =>
                  if truthy (Some L)
                     && negb (forallb (fun todo => opt_eqb (parent_id todo) (Some L))
                                      block)
                  then if includes (ids_of block) L then Some L
                       else levelUp snapshot (Some L)
                  else Some L
              | None => None
              end
          | None =>
              if truthy (parent_id t) then levelUp snapshot (parent_id t)
              else parent_id t
          end /\
        (forall above,
           (anchorIndex =? 0)%Z = false ->
           nth_error compacted (Z.to_nat (anchorIndex - 1)) = Some above ->
           (forall todo, In todo block -> parent_id todo = parent_id above) ->
           parent_id tf = parent_id t).
Proof.
  intros snapshot selected activeId compacted block anchorIndex Hnd Hids Ec final t Ht.
  destruct (compact_block _ _ _ Ec) as (Hperm & Hblock & Habove_out).
  destruct (Hblock t Ht) as (Hin & Htarget).
  apply includes_In in Htarget.
  assert (Hbt : includes (ids_of block) (id t) = true).
  { apply includes_In. now apply in_map. }
  destruct (anchorIndex =? 0)%Z eqn:E0.
  - (* the block is at the top: nesting does nothing *)
    assert (En : Outline.afterNest snapshot selected activeId = snapshot).
    { unfold Outline.afterNest, Outline.nestPlan. now rewrite Ec, E0. }
    unfold final. rewrite En.
    rewrite (@afterUnnest_lookup snapshot selected activeId t Hnd Hin).
    eexists. split; [reflexivity|]. rewrite Htarget. cbn [andb parent_id with_parent].
    split; [reflexivity|]. intros above Hf. discriminate Hf.
  - destruct (nth_error compacted (Z.to_nat (anchorIndex - 1))) as [above|] eqn:Ea.
    2:{ exfalso. destruct (compact_shape _ _ _ Ec)
          as (pre & first & post & rest & _ & Eanchor & _ & _ & _ & Ecomp & _).
        apply Z.eqb_neq in E0. apply nth_error_None in Ea.
        rewrite Ecomp, length_app in Ea. lia. }
    assert (Hina : In above snapshot).
    { eapply Permutation_in; [exact Hperm|]. eapply nth_error_In; eauto. }
    assert (Hnb : includes (ids_of block) (id above) = false).
    { apply includes_not_In. now apply (Habove_out above). }
    destruct (@afterNest_lookup snapshot selected activeId compacted block
                anchorIndex above t Hnd Ec E0 Ea Hin) as (tn & Etn & Eidn & Eparn).
    rewrite Hbt in Eparn.
    destruct (@afterNest_lookup snapshot selected activeId compacted block
                anchorIndex above above Hnd Ec E0 Ea Hina)
      as (an & Ean & Eida & Epara).
    rewrite Hnb in Epara.
    assert (Hlook : forall lr, In lr snapshot ->
              exists ln,
                byId_get (Outline.afterNest snapshot selected activeId) (id lr)
                = Some ln /\
                parent_id ln = if includes (ids_of block) (id lr)
                               then nestTarget above block else parent_id lr).
    { intros lr Hinl.
      destruct (@afterNest_lookup snapshot selected activeId compacted block
                  anchorIndex above lr Hnd Ec E0 Ea Hinl) as (ln & Eln & _ & Eparl).
      eauto. }
    pose proof (afterNest_ids snapshot selected activeId) as Hpids.
    set (nested := Outline.afterNest snapshot selected activeId) in *.
    assert (Hndn : NoDup (ids_of nested)).
    { eapply Permutation_NoDup; [|exact Hnd]. apply Permutation_sym. exact Hpids. }
    assert (Hinn : In tn nested) by (apply byId_get_Some in Etn; tauto).
    pose proof (@afterUnnest_lookup nested selected activeId tn Hndn Hinn) as Efinal.
    rewrite Eidn in Efinal. rewrite Htarget in Efinal. cbn [andb] in Efinal.
    assert (Htruthy_above : truthy (Some (id above)) = true).
    { unfold truthy. apply negb_true_iff, String.eqb_neq. now apply Hids. }
    assert (Hresult :
              (if truthy (parent_id tn) then levelUp nested (parent_id tn)
               else parent_id tn)
              = match parent_id above with
                | Some L =>
                    if truthy (Some L)
                       && negb (forallb (fun todo => opt_eqb (parent_id todo) (Some L))
                                        block)
                    then if includes (ids_of block) L then Some L
                         else levelUp snapshot (Some L)
                    else Some L
                | None => None
                end).
    { rewrite Eparn. unfold nestTarget.
      destruct (parent_id above) as [L|] eqn:EL.
      - destruct (truthy (Some L)) eqn:TL; cbn [andb negb].
        + destruct (forallb (fun todo => opt_eqb (parent_id todo) (Some L)) block)
            eqn:Eall; cbn [negb].
          * rewrite Htruthy_above. unfold levelUp. rewrite Ean. exact Epara.
          * rewrite TL. unfold levelUp.
            destruct (byId_get snapshot L) as [lr|] eqn:El.
            -- apply byId_get_Some in El. destruct El as [Hinl Hidl].
               destruct (Hlook lr Hinl) as (ln & Eln & Eparl).
               rewrite Hidl in Eln, Eparl. rewrite Eln, Eparl.
               destruct (includes (ids_of block) L); [|reflexivity].
               unfold nestTarget. rewrite EL, TL, Eall. reflexivity.
            -- assert (Hmiss : ~ In L (ids_of snapshot)) by now apply byId_get_None.
               destruct (byId_get nested L) as [ln|] eqn:Eln.
               ++ exfalso. apply Hmiss. apply byId_get_Some in Eln.
                  destruct Eln as [Hinl Hidl].
                  eapply Permutation_in; [exact Hpids|].
                  rewrite <- Hidl. now apply in_map.
               ++ destruct (includes (ids_of block) L) eqn:Eb; [|reflexivity].
                  exfalso. apply Hmiss. apply includes_In in Eb.
                  apply in_map_iff in Eb. destruct Eb as (b & <- & Hb).
                  apply in_map. now apply Hblock.
        + rewrite Htruthy_above. unfold levelUp. rewrite Ean. exact Epara.
      - cbn [truthy]. change (truthy None) with false. cbv iota.
        rewrite Htruthy_above. unfold levelUp. rewrite Ean. exact Epara. }
    unfold final. eexists. split; [exact Efinal|].
    cbn [parent_id with_parent]. split; [exact Hresult|].
    intros above' _ Ha' Hall. injection Ha' as <-.
    rewrite Hresult. rewrite (Hall t Ht).
    destruct (parent_id above) as [L|] eqn:EL; [|reflexivity].
    replace (forallb (fun todo => opt_eqb (parent_id todo) (Some L)) block) with true.
    + now rewrite andb_false_r.
    + symmetry. apply forallb_forall. intros x Hx. apply opt_eqb_eq.
      now apply Hall.
Qed.

(* ================================================================== *)
(** * The properties on sample data *)
(* ================================================================== *)

Ltac distinct_ids := repeat constructor; simpl; intuition discriminate.

Lemma abc_distinct : NoDup (ids_of Examples.abc).
Proof. distinct_ids. Defined.

(** C5 on [a, b, c] without [b]. *)
Lemma remove_renormalizes_witness :
  NoDup (ids_of Examples.abc) /\ In "b" (ids_of Examples.abc) /\
  map position (Flat.removeTodo Examples.abc "b") = [0; 1]%Z /\
  ids_of (Flat.removeTodo Examples.abc "b") = ["a"; "c"].
Proof.
  assert (Hin : In "b" (ids_of Examples.abc)) by (simpl; tauto).
  split; [exact abc_distinct | split; [exact Hin|]].
  destruct (@remove_renormalizes Examples.abc "b" abc_distinct Hin)
    as (_ & Hpos & Hids & _).
  split; [exact Hpos | exact Hids].
Defined.

(** C10 on [a, b, c]: [a] to index 2 and back. *)
Lemma moveTo_round_trip_witness :
  NoDup (ids_of Examples.abc) /\ In "a" (ids_of Examples.abc) /\
  (0 <= 2 < Z.of_nat (length Examples.abc))%Z /\
  normalizePositions
    (arrayMove (normalizePositions (arrayMove Examples.abc 0 2)) 2 0)
  = Examples.abc.
Proof.
  assert (Hin : In "a" (ids_of Examples.abc)) by (simpl; tauto).
  assert (Hj : (0 <= 2 < Z.of_nat (length Examples.abc))%Z) by (simpl; lia).
  split; [exact abc_distinct | split; [exact Hin | split; [exact Hj|]]].
  destruct (@moveTo_round_trip Examples.abc "a" 2%Z abc_distinct Hin Hj)
    as (_ & _ & _ & Hback).
  apply Hback. reflexivity.
Defined.

(** C6 on the chain [R > Q > P], [T]. *)
Lemma depth_terminates_zero_at_roots_witness :
  NoDup (ids_of Examples.chain) /\
  exists entries,
    Hierarchy.buildDepthMap Examples.chain = Some entries /\
    entry_get entries "T" = Some 0.
Proof.
  assert (Hnd : NoDup (ids_of Examples.chain)) by distinct_ids.
  split; [exact Hnd|].
  destruct (depth_terminates_zero_at_roots Examples.chain)
    as [(entries & E & _ & _ & Hz) _].
  exists entries. split; [exact E|].
  apply (Hz Hnd (Examples.task "T" None 3)); [simpl; tauto | reflexivity].
Defined.

(** C9 as stated fails: moving [D] up swaps it with its sibling [C], and
    the list is then re-emitted in pre-order, which takes [B] in front of
    [A]: two records that are neither the one moved nor the one it was
    swapped with. *)
Lemma sibling_move_reorders_untouched :
  let untouched := fun k => negb (k =? "D") && negb (k =? "C") in
  exists reordered,
    Hierarchy.reorderBySiblingMove Examples.straddledTail "D" (-1)
    = Some (Some reordered) /\
    ids_of Examples.straddledTail = ["P"; "A"; "B"; "C"; "D"] /\
    ids_of reordered = ["P"; "B"; "A"; "D"; "C"] /\
    filter untouched (ids_of Examples.straddledTail) = ["P"; "A"; "B"] /\
    filter untouched (ids_of reordered) = ["P"; "B"; "A"].
Proof.
  eexists. split; [vm_compute; reflexivity|].
  repeat split.
Qed.

(** C9 (as amended) on [a, b, c]. *)
Lemma move_by_offset_edges_witness :
  NoDup (ids_of ([Examples.task "a" None 0; Examples.task "b" None 1]
                 ++ [Examples.task "c" None 2])) /\
  Flat.moveTodoByOffset Examples.abc "c" 1 = (Examples.abc, false) /\
  Hierarchy.reorderBySiblingMove Examples.abc "c" 1 = Some None.
Proof.
  assert (Hnd : NoDup (ids_of ([Examples.task "a" None 0; Examples.task "b" None 1]
                               ++ [Examples.task "c" None 2]))) by distinct_ids.
  split; [exact Hnd|].
  destruct move_by_offset_edges as (_ & Hlast & _ & Hsib & _).
  split.
  - exact (Hlast [Examples.task "a" None 0; Examples.task "b" None 1]
                 (Examples.task "c" None 2) Hnd).
  - exact (Hsib [Examples.task "a" None 0; Examples.task "b" None 1]
                (Examples.task "c" None 2) Hnd).
Defined.

(** C8 on [A, B, C, D] with [D] a child of [B] and [{B, C}] selected. *)
Lemma bulk_delete_selected_only_witness :
  let env := Examples.envOf Examples.acceptAll in
  let st := Examples.selecting Examples.abcd ["B"; "C"] in
  hasSupabaseEnv env = true /\ busyId st = None /\
  todos (fst (Outline.deleteFocusedSelection env "B" st))
  = [Examples.task "A" None 0; Examples.task "D" (Some "B") 1].
Proof.
  intros env st.
  split; [reflexivity | split; [reflexivity|]].
  destruct (@bulk_delete_selected_only env st eq_refl eq_refl
              (fun _ => eq_refl) (fun _ _ => eq_refl)
              (todos (fst (Outline.deleteFocusedSelection env "B" st))))
    as (_ & _ & _ & Hscenario).
  - left. exists "B". split; [reflexivity|]. split; [simpl; tauto | reflexivity].
  - exact (Hscenario (Examples.task "A" None 0) (Examples.task "B" None 1)
                     (Examples.task "C" None 2) (Examples.task "D" (Some "B") 3)
                     eq_refl eq_refl eq_refl eq_refl eq_refl eq_refl).
Defined.

(** C7 as stated fails: the hierarchy variant is not the delete-on-empty
    one, and it shows no validation error for a blank title. *)
Lemma hierarchy_blank_title_is_silent :
  let env := Examples.envOf Examples.acceptAll in
  let st := Examples.editing Examples.abc "a" "   " in
  JsString.trim (editingTitle st) = "" /\
  Hierarchy.saveEdit env st = (st, []) /\
  error (fst (Hierarchy.saveEdit env st)) = None /\
  todos (fst (Hierarchy.saveEdit env st)) = Examples.abc.
Proof. repeat split. Qed.

(** C7 (as amended) on a blank title. *)
Lemma empty_title_commit_witness :
  let env := Examples.envOf Examples.acceptAll in
  let st := Examples.editing Examples.abc "a" "   " in
  hasSupabaseEnv env = true /\ editingId st = Some "a" /\ "a" <> "" /\
  truthy (busyId st) = false /\ JsString.trim (editingTitle st) = "" /\
  Flat.saveEdit env st = (setError (Some "Todo title cannot be empty.") st, []) /\
  ids_of (todos (fst (Outline.saveEdit env st))) = ["b"; "c"].
Proof.
  intros env st.
  assert (Hne : "a" <> "") by discriminate.
  destruct (@empty_title_commit env st "a" eq_refl eq_refl Hne eq_refl eq_refl)
    as (Hdel & Hflat & _).
  do 2 (split; [reflexivity|]). split; [exact Hne|].
  do 2 (split; [reflexivity|]). split; [exact Hflat|].
  specialize (Hdel eq_refl).
  destruct (Outline.saveEdit env st) as [st' reqs].
  destruct Hdel as (_ & Htodos & _). cbn [fst]. rewrite Htodos. reflexivity.
Defined.

(** C1 as stated fails: [b] is dragged over [a], the update of [a] is
    refused, the message is shown, and the list stays in the dragged order
    instead of going back to [a, b, c]. *)
Lemma drag_failure_keeps_dragged_order :
  let env := Examples.envOf (Examples.refusePosition "a") in
  let st := Examples.idle Examples.abc in
  let after := fst (Flat.dragGesture env "b" ["a"] st) in
  snd (Flat.dragGesture env "b" ["a"] st)
  = [Rest.PatchPosition "b" 0; Rest.PatchPosition "a" 1; Rest.PatchPosition "c" 2] /\
  error after = Some "500 Internal Server Error" /\
  ids_of (todos st) = ["a"; "b"; "c"] /\
  ids_of (todos after) = ["b"; "a"; "c"] /\
  todos after <> todos st.
Proof.
  repeat split; try reflexivity. vm_compute. discriminate.
Qed.

(** C1 (as amended) on the order [b, a, c] with the update of [a] refused. *)
Lemma reposition_batch_witness :
  let env := Examples.envOf (Examples.refusePosition "a") in
  hasSupabaseEnv env = true /\
  Rest.supportsPositionColumn (client env) <> Some false /\
  exists m,
    snd (Rest.updateTodoPositions (hasSupabaseEnv env) (net env) (arrival env)
                                  (client env) ["b"; "a"; "c"])
    = Rest.Rejected m.
Proof.
  intros env.
  assert (Hs : Rest.supportsPositionColumn (client env) <> Some false) by discriminate.
  split; [reflexivity | split; [exact Hs|]].
  destruct (@reposition_batch env ["b"; "a"; "c"] eq_refl) as (_ & Hsup & _).
  destruct (Hsup Hs) as (_ & Hrej & _).
  apply Hrej. exists 1, "a", "500 Internal Server Error". split; reflexivity.
Defined.

(** C2 as stated fails: the capability is probed again by every call of
    [listTodos].  After a call against a store without the position column
    positioning is disabled; the next call asks for [position] again, and
    once the store answers that request positioning is enabled.  And
    against a store with neither optional column, whose first error names
    [parent_id], the retry still selects [position] and no task is
    returned. *)
Lemma position_capability_probed_again :
  let cs1 := fst (fst (Rest.listTodos true Examples.noPositionStore Rest.initialClient)) in
  lacksPosition Examples.noPositionStore /\
  Rest.isPositioningEnabled cs1 = false /\
  snd (fst (Rest.listTodos true Examples.noPositionStore cs1))
  = [Rest.GetTodos Rest.positionedColumns Rest.listOrder;
     Rest.GetTodos Rest.baseColumns ["created_at.asc"]] /\
  Rest.isPositioningEnabled (Rest.afterCalls true cs1 [Rest.CallList Examples.acceptAll])
  = true /\
  lacksPosition Examples.baseOnlyStore /\
  Rest.listTodos true Examples.baseOnlyStore Rest.initialClient
  = (Rest.initialClient,
     [Rest.GetTodos Rest.positionedColumns Rest.listOrder;
      Rest.GetTodos Rest.positionedNoParentColumns Rest.listOrder],
     Rest.Rejected "column todos.position does not exist").
Proof.
  cbv zeta. split; [|split; [reflexivity|split; [reflexivity|split; [reflexivity|split]]]].
  - intros cols order H. destruct cols; try discriminate H; eexists; eexists; reflexivity.
  - intros cols order H. destruct cols; try discriminate H; eexists; eexists; reflexivity.
  - reflexivity.
Qed.

(** C2 (as amended) on a store without the position column. *)
Lemma list_without_position_column_witness :
  reportsMissingPosition
    (Rest.getTodos Examples.noPositionStore Rest.positionedColumns Rest.listOrder) /\
  exists cs' result,
    Rest.listTodos true Examples.noPositionStore Rest.initialClient
    = (cs', [Rest.GetTodos Rest.positionedColumns Rest.listOrder;
             Rest.GetTodos Rest.baseColumns ["created_at.asc"]],
       Rest.Resolved result) /\
    map position result = [0; 1]%Z /\
    Rest.isPositioningEnabled cs' = false.
Proof.
  assert (H : reportsMissingPosition
                (Rest.getTodos Examples.noPositionStore Rest.positionedColumns
                               Rest.listOrder)).
  { exists "400 Bad Request",
           (Rest.mkPayload (Some "column todos.position does not exist") None None),
           "column todos.position does not exist".
    repeat split. }
  split; [exact H|].
  destruct (@list_without_position_column Examples.noPositionStore Rest.initialClient
              [Examples.row "x"; Examples.row "y"] H eq_refl)
    as (cs' & result & E & _ & _ & Hpos & _ & Hen & _).
  exists cs', result. repeat split; assumption.
Defined.

(** With neither optional column the first error names [parent_id], the
    retry still selects [position], and [listTodos] fails. *)
Remark list_on_base_only_store :
  Rest.listTodos true Examples.baseOnlyStore Rest.initialClient
  = (Rest.initialClient,
     [Rest.GetTodos Rest.positionedColumns Rest.listOrder;
      Rest.GetTodos Rest.positionedNoParentColumns Rest.listOrder],
     Rest.Rejected "column todos.position does not exist").
Proof. reflexivity. Qed.

(** C4 as stated fails: [T] is top-level, the record before it is two
    levels deep; nesting puts [T] under [Q], unnesting under [R]. *)
Lemma nest_unnest_not_restored :
  let nested := Outline.afterNest Examples.chain [] "T" in
  let unnested := Outline.afterUnnest nested [] "T" in
  option_map parent_id (byId_get Examples.chain "T") = Some None /\
  option_map parent_id (byId_get nested "T") = Some (Some "Q") /\
  option_map parent_id (byId_get unnested "T") = Some (Some "R").
Proof. repeat split. Qed.

(** C4 (as amended) on two top-level tasks. *)
Lemma nest_unnest_siblings_witness :
  NoDup (ids_of Examples.pair) /\
  (forall t, In t Examples.pair -> id t <> "") /\
  exists tf,
    byId_get (Outline.afterUnnest (Outline.afterNest Examples.pair [] "T") [] "T") "T"
    = Some tf /\
    parent_id tf = None.
Proof.
  assert (Hnd : NoDup (ids_of Examples.pair)) by distinct_ids.
  assert (Hne : forall t, In t Examples.pair -> id t <> "").
  { intros t [<-|[<-|[]]]; discriminate. }
  split; [exact Hnd | split; [exact Hne|]].
  destruct (@nest_unnest_siblings Examples.pair [] "T" Examples.pair
              [Examples.task "T" None 1] 1%Z Hnd Hne eq_refl
              (Examples.task "T" None 1) (or_introl eq_refl))
    as (tf & E & Hp & _).
  exists tf. split; [exact E|]. rewrite Hp. reflexivity.
Defined.

(** Two cases in which the parent is restored although the target is not
    a sibling of the record above it alone: a top-level [T] below a child
    of the top-level [R] goes under [R] and back, and a selected block
    [X, Y] below [P] goes under [P] and back. *)
Remark nest_unnest_restored_beyond_siblings :
  let below := [Examples.task "R" None 0; Examples.task "Q" (Some "R") 1;
                Examples.task "T" None 2] in
  let rows := [Examples.task "P" None 0; Examples.task "X" None 1;
               Examples.task "Y" None 2] in
  option_map parent_id (byId_get (Outline.afterNest below [] "T") "T")
  = Some (Some "R") /\
  option_map parent_id
    (byId_get (Outline.afterUnnest (Outline.afterNest below [] "T") [] "T") "T")
  = Some None /\
  map parent_id (Outline.afterNest rows ["X"; "Y"] "X")
  = [None; Some "P"; Some "P"] /\
  map parent_id
    (Outline.afterUnnest (Outline.afterNest rows ["X"; "Y"] "X") ["X"; "Y"] "X")
  = [None; None; None].
Proof. repeat split. Qed.

(** A nested target that nesting leaves in place is lifted by unnesting:
    [C] is a child of [P] already, and ends at the top level. *)
Remark nest_in_place_then_unnest :
  Outline.afterNest Examples.family [] "C" = Examples.family /\
  option_map parent_id
    (byId_get (Outline.afterUnnest (Outline.afterNest Examples.family [] "C") [] "C")
              "C")
  = Some None.
Proof. split; reflexivity. Qed.


(** What the witness of C3 commits. *)
Remark moved_child_loses_parent :
  Outline.moveFocusedSelectionPlan 2 Examples.family [] "C" (-1)
  = Some (Some ([Examples.task "C" None 0; Examples.task "P" None 1],
                [("C", None)])).
Proof. reflexivity. Qed.

(** A record that is its own parent: nesting [B] under the record above
    it, a child of [B], gives [B] itself as parent, and on such a list the
    repair of a move of [B] does not end, whatever the fuel. *)
Remark repair_of_self_parent_never_ends :
  ids_of Examples.childFirst = ["C"; "B"] /\
  Outline.afterNest Examples.childFirst [] "B"
  = [Examples.task "C" (Some "B") 0; Examples.task "B" (Some "B") 1] /\
  forall fuel,
    Outline.moveFocusedSelectionPlan fuel
      [Examples.task "C" (Some "B") 0; Examples.task "B" (Some "B") 1] [] "B" (-1)
    = None.
Proof.
  split; [reflexivity|]. split; [reflexivity|].
  intros fuel. unfold Outline.moveFocusedSelectionPlan.
  change (Outline.compactAndMoveSelection
            [Examples.task "C" (Some "B") 0; Examples.task "B" (Some "B") 1]
            (Outline.selectedForAction [] "B") "B" (-1))
    with ([Examples.task "B" (Some "B") 0; Examples.task "C" (Some "B") 1], true).
  cbn [snd fst negb].
  change (Outline.movedIdsOf [] "B") with ["B"].
  unfold Outline.normalizeMovedParentsAfterReorder.
  cbn [Outline.normalizeMovedLoop].
  change (Outline.indexById_get
            [Examples.task "B" (Some "B") 0; Examples.task "C" (Some "B") 1] "B")
    with (Some 0).
  assert (H : forall changed,
            Outline.repairParent fuel
              [Examples.task "B" (Some "B") 0; Examples.task "C" (Some "B") 1] 0 changed
            = None).
  { induction fuel as [|fuel IH]; intros changed; [reflexivity|].
    cbn [Outline.repairParent nth_error]. exact (IH true). }
  cbv beta iota. now rewrite H.
Qed.

(* ================================================================== *)
(** * Further properties of the code *)
(* ================================================================== *)

(** ** The record store client *)

Lemma ids_mapiFrom : forall (f : Rest.ListRow -> nat -> TodoRecord) rows k,
  (forall row i, id (f row i) = Rest.l_id row) ->
  ids_of (mapiFrom f k rows) = map Rest.l_id rows.
Proof.
  intros f rows. induction rows as [|r rows IH]; intros k H; simpl; auto.
  rewrite H. f_equal. now apply IH.
Qed.

Lemma positions_rowFallback : forall rows k,
  map position (mapiFrom Rest.rowFallback k rows)
  = map Z.of_nat (seq k (length rows)).
Proof.
  induction rows as [|r rows IH]; intros k; simpl; auto.
  f_equal. apply IH.
Qed.

(** X1.  When [listTodos] resolves, the last request it sent is the one the
    store answered with rows, at most one request came before it, the
    capability flags are exactly what the select list of that request
    names, the records come in the order of the rows, they have no parent
    when the select list has no [parent_id], and their ranks are the row
    indices when it has no [position]. *)
Theorem listTodos_flags_follow_answer :
  forall (n : Rest.Net) (cs cs' : Rest.ClientState) (reqs : list Rest.Request)
         (loaded : list TodoRecord),
    Rest.listTodos true n cs = (cs', reqs, Rest.Resolved loaded) ->
    exists front cols order rows,
      reqs = front ++ [Rest.GetTodos cols order] /\
      length front <= 1 /\
      Rest.getTodos n cols order = Rest.Ok rows /\
      cs' = Rest.mkClient (Some (Rest.selectsPosition cols)) (Some (selectsParent cols)) /\
      ids_of loaded = map Rest.l_id rows /\
      (selectsParent cols = false -> forall t, In t loaded -> parent_id t = None) /\
      (Rest.selectsPosition cols = false ->
       map position loaded = map Z.of_nat (seq 0 (length rows))).
Proof.
  intros n cs cs' reqs loaded H. unfold Rest.listTodos in H. cbn [negb] in H.
  destruct (Rest.getTodos n Rest.positionedColumns Rest.listOrder)
    as [rows|s j|r] eqn:E1; [| |discriminate].
  - injection H as <- <- <-.
    exists [], Rest.positionedColumns, Rest.listOrder, rows.
    repeat split; simpl; auto; try discriminate.
    apply ids_mapiFrom. reflexivity.
  - destruct (Rest.isMissingColumn "parent_id" _).
    + destruct (Rest.getTodos n Rest.positionedNoParentColumns Rest.listOrder)
        as [rows|s' j'|r'] eqn:E2; [|discriminate|discriminate].
      injection H as <- <- <-.
      exists [Rest.GetTodos Rest.positionedColumns Rest.listOrder],
             Rest.positionedNoParentColumns, Rest.listOrder, rows.
      repeat split; simpl; auto; try discriminate.
      * apply ids_mapiFrom. reflexivity.
      * intros _ t Ht. unfold mapi in Ht. apply mapiFrom_In in Ht.
        destruct Ht as (x & i & _ & ->). reflexivity.
    + destruct (negb (Rest.isMissingColumn "position" _)); [discriminate|].
      destruct (Rest.getTodos n Rest.baseColumns ["created_at.asc"])
        as [rows|s' j'|r'] eqn:E3; [|discriminate|discriminate].
      injection H as <- <- <-.
      exists [Rest.GetTodos Rest.positionedColumns Rest.listOrder],
             Rest.baseColumns, ["created_at.asc"], rows.
      repeat split; simpl; auto.
      * apply ids_mapiFrom. reflexivity.
      * intros _ t Ht. unfold mapi in Ht. apply mapiFrom_In in Ht.
        destruct Ht as (x & i & _ & ->). reflexivity.
      * intros _. apply positions_rowFallback.
Qed.

(** X2.  [listTodos] probes the store afresh on every call: the requests
    it sends and the result it settles with do not depend on the capability
    flags it starts from.  The flags it leaves are the ones it found when
    no request was answered ok (the call is rejected then), and otherwise
    the ones that the select list of the request answered ok names, whether
    the body of that answer could be read or not: a call rejected after an
    ok answer leaves the flags written. *)
Theorem listTodos_probes_again :
  forall (hasEnv : bool) (n : Rest.Net) (cs1 cs2 : Rest.ClientState),
    snd (fst (Rest.listTodos hasEnv n cs1)) = snd (fst (Rest.listTodos hasEnv n cs2)) /\
    snd (Rest.listTodos hasEnv n cs1) = snd (Rest.listTodos hasEnv n cs2) /\
    ((fst (fst (Rest.listTodos hasEnv n cs1)) = cs1 /\
      fst (fst (Rest.listTodos hasEnv n cs2)) = cs2 /\
      (forall c o, In (Rest.GetTodos c o) (snd (fst (Rest.listTodos hasEnv n cs1))) ->
                   Rest.ok (Rest.getTodos n c o) = false) /\
      exists m, snd (Rest.listTodos hasEnv n cs1) = Rest.Rejected m)
     \/
     (exists front cols order,
        snd (fst (Rest.listTodos hasEnv n cs1)) = front ++ [Rest.GetTodos cols order] /\
        Rest.ok (Rest.getTodos n cols order) = true /\
        fst (fst (Rest.listTodos hasEnv n cs1))
        = Rest.mkClient (Some (Rest.selectsPosition cols)) (Some (selectsParent cols)) /\
        fst (fst (Rest.listTodos hasEnv n cs2))
        = Rest.mkClient (Some (Rest.selectsPosition cols)) (Some (selectsParent cols)))).
Proof.
  intros hasEnv n cs1 cs2.
  assert (Hsame : snd (fst (Rest.listTodos hasEnv n cs1))
                  = snd (fst (Rest.listTodos hasEnv n cs2)) /\
                  snd (Rest.listTodos hasEnv n cs1) = snd (Rest.listTodos hasEnv n cs2) /\
                  (fst (fst (Rest.listTodos hasEnv n cs1)) = cs1 /\
                   fst (fst (Rest.listTodos hasEnv n cs2)) = cs2
                   \/ fst (fst (Rest.listTodos hasEnv n cs1))
                      = fst (fst (Rest.listTodos hasEnv n cs2)))).
  { unfold Rest.listTodos.
    destruct (negb hasEnv); [simpl; auto|].
    destruct (Rest.getTodos n Rest.positionedColumns Rest.listOrder); [simpl; auto| |simpl; auto].
    destruct (Rest.isMissingColumn "parent_id" _).
    - destruct (Rest.getTodos n Rest.positionedNoParentColumns Rest.listOrder);
        simpl; auto.
    - destruct (negb (Rest.isMissingColumn "position" _)); [simpl; auto|].
      destruct (Rest.getTodos n Rest.baseColumns ["created_at.asc"]); simpl; auto. }
  destruct Hsame as (Hreqs & Hres & Hflags).
  split; [exact Hreqs|]. split; [exact Hres|].
  destruct (listTodos_flags_cases hasEnv n cs1) as [(F1 & Hno & Hrej)|(front & cols & order & Ef & Hok & F1)];
    destruct (listTodos_flags_cases hasEnv n cs2) as [(F2 & Hno2 & Hrej2)|(front2 & cols2 & order2 & Ef2 & Hok2 & F2)].
  - left. auto.
  - exfalso. rewrite <- Hreqs in Ef2.
    rewrite (Hno cols2 order2) in Hok2; [discriminate|].
    rewrite Ef2. apply in_or_app. right. now left.
  - exfalso. rewrite Hreqs in Ef.
    rewrite (Hno2 cols order) in Hok; [discriminate|].
    rewrite Ef. apply in_or_app. right. now left.
  - right. exists front, cols, order. repeat split; auto.
    rewrite Hreqs, Ef2 in Ef. apply app_inj_tail in Ef. destruct Ef as [_ Eq].
    injection Eq as <- <-. exact F2.
Qed.

(** X3.  A client that has found the position column missing never names
    it again outside [listTodos]: no request of [createTodo], [deleteTodo],
    [updateTodoPositions], or of an [updateTodo] whose updates carry no
    position, selects or writes [position]. *)
Theorem demoted_client_skips_position :
  forall (hasEnv : bool) (cs : Rest.ClientState) (c : Rest.ClientCall),
    Rest.isPositioningEnabled cs = false ->
    match c with
    | Rest.CallList _ => False
    | Rest.CallUpdate _ _ _ u => Rest.u_position u = None
    | _ => True
    end ->
    forallb (fun r => negb (namesPosition r)) (requestsOf hasEnv cs c) = true.
Proof.
  intros hasEnv cs c Hoff Hc.
  unfold Rest.isPositioningEnabled in Hoff.
  destruct cs as [[[|]|] sp]; try discriminate.
  destruct c as [n|n nw t pos|n nw target u|n arr ids|n target];
    cbn [requestsOf].
  - contradiction.
  - unfold Rest.createTodo. destruct (negb hasEnv); [reflexivity|].
    cbn [Rest.supportsPositionColumn Rest.currentSelectColumns Rest.supportsParentColumn].
    destruct (Rest.postTodo n t None _) as [[|? ?]|? ?|?];
      destruct sp as [[|]|]; reflexivity.
  - unfold Rest.updateTodo. destruct (negb hasEnv); [reflexivity|].
    cbn [Rest.supportsPositionColumn Rest.currentSelectColumns Rest.supportsParentColumn].
    destruct (Rest.patchTodo n target u _) as [[|? ?]|? ?|?];
      cbn [fst forallb namesPosition]; rewrite Hc;
      destruct sp as [[|]|]; reflexivity.
  - unfold Rest.updateTodoPositions. reflexivity.
  - unfold Rest.deleteTodo. destruct (negb hasEnv); reflexivity.
Qed.

Lemma append_nonempty : forall a b : string, a <> "" -> (a ++ b)%string <> "".
Proof. intros [|c a] b H; [congruence|discriminate]. Qed.

Lemma string_app_assoc : forall a b c : string,
  ((a ++ b) ++ c)%string = (a ++ (b ++ c))%string.
Proof. induction a as [|x a IH]; intros; simpl; [reflexivity|now rewrite IH]. Qed.

Lemma string_app_empty_r : forall a : string, (a ++ "")%string = a.
Proof. induction a as [|x a IH]; simpl; [reflexivity|now rewrite IH]. Qed.

(** X4.  The message of a refused response is never empty when the status
    line is not: it is the status line when the body does not parse, and
    otherwise starts with the [message] of the body when that is not empty
    and with the status line when it is. *)
Theorem errorMessage_starts_with_reason :
  forall (statusLine : string) (json : option Rest.Payload),
    statusLine <> "" ->
    Rest.errorMessage statusLine json <> "" /\
    (json = None -> Rest.errorMessage statusLine json = statusLine) /\
    (forall payload, json = Some payload ->
       exists rest,
         Rest.errorMessage statusLine json
         = ((if truthy (Rest.message payload)
             then match Rest.message payload with Some m => m | None => "" end
             else statusLine) ++ rest)%string).
Proof.
  intros statusLine json Hs.
  assert (Hstart : forall payload, json = Some payload ->
            exists rest,
              Rest.errorMessage statusLine json
              = ((if truthy (Rest.message payload)
                  then match Rest.message payload with Some m => m | None => "" end
                  else statusLine) ++ rest)%string).
  { intros payload ->. unfold Rest.errorMessage.
    set (m1 := match Rest.message payload with
               | Some m => if truthy (Some m) then m else statusLine
               | None => statusLine
               end).
    assert (E : (if truthy (Rest.message payload)
                 then match Rest.message payload with Some m => m | None => "" end
                 else statusLine) = m1).
    { unfold m1. destruct (Rest.message payload) as [m|]; reflexivity. }
    rewrite E. cbv zeta.
    destruct (Rest.details payload) as [d|], (Rest.hint payload) as [h|];
      try destruct (truthy (Some d)); try destruct (truthy (Some h));
      first [ eexists; rewrite ?string_app_assoc; reflexivity
            | exists ""; now rewrite string_app_empty_r ]. }
  split; [|split; [intros ->; reflexivity | exact Hstart]].
  destruct json as [payload|]; [|exact Hs].
  destruct (Hstart payload eq_refl) as [rest ->].
  apply append_nonempty.
  destruct (truthy (Rest.message payload)) eqn:T; [|exact Hs].
  destruct (Rest.message payload) as [m|]; [|discriminate].
  unfold truthy in T. destruct (m =? "") eqn:E; [discriminate|].
  now apply String.eqb_neq in E.
Qed.

Lemma listTodos_flags_follow_answer_witness :
  Rest.listTodos true Examples.noPositionStore Rest.initialClient
  = (Rest.mkClient (Some false) (Some false),
     [Rest.GetTodos Rest.positionedColumns Rest.listOrder;
      Rest.GetTodos Rest.baseColumns ["created_at.asc"]],
     Rest.Resolved [Examples.task "x" None 0; Examples.task "y" None 1]) /\
  exists front cols order rows,
    [Rest.GetTodos Rest.positionedColumns Rest.listOrder;
     Rest.GetTodos Rest.baseColumns ["created_at.asc"]]
    = front ++ [Rest.GetTodos cols order] /\
    length front <= 1 /\
    Rest.getTodos Examples.noPositionStore cols order = Rest.Ok rows /\
    Rest.mkClient (Some false) (Some false)
    = Rest.mkClient (Some (Rest.selectsPosition cols)) (Some (selectsParent cols)) /\
    ids_of [Examples.task "x" None 0; Examples.task "y" None 1] = map Rest.l_id rows /\
    (selectsParent cols = false ->
     forall t, In t [Examples.task "x" None 0; Examples.task "y" None 1] ->
               parent_id t = None) /\
    (Rest.selectsPosition cols = false ->
     map position [Examples.task "x" None 0; Examples.task "y" None 1]
     = map Z.of_nat (seq 0 (length rows))).
Proof.
  split; [reflexivity|].
  apply (@listTodos_flags_follow_answer Examples.noPositionStore Rest.initialClient
           (Rest.mkClient (Some false) (Some false))
           [Rest.GetTodos Rest.positionedColumns Rest.listOrder;
            Rest.GetTodos Rest.baseColumns ["created_at.asc"]]
           [Examples.task "x" None 0; Examples.task "y" None 1]).
  reflexivity.
Defined.

Lemma demoted_client_skips_position_witness :
  Rest.isPositioningEnabled (Rest.mkClient (Some false) (Some false)) = false /\
  forallb (fun r => negb (namesPosition r))
          (requestsOf true (Rest.mkClient (Some false) (Some false))
                      (Rest.CallCreate echoStore "2024-05-02T10:00:00Z" "milk" 3))
  = true.
Proof.
  split; [reflexivity|].
  apply (@demoted_client_skips_position true (Rest.mkClient (Some false) (Some false))
           (Rest.CallCreate echoStore "2024-05-02T10:00:00Z" "milk" 3)
           eq_refl I).
Defined.

Lemma errorMessage_starts_with_reason_witness :
  "404 Not Found" <> "" /\
  Rest.errorMessage "404 Not Found"
    (Some (Rest.mkPayload (Some "no such row") (Some "id=7") None)) <> "".
Proof.
  split; [discriminate|].
  apply (@errorMessage_starts_with_reason "404 Not Found"
           (Some (Rest.mkPayload (Some "no such row") (Some "id=7") None))).
  discriminate.
Defined.

(** ** Drags and single moves *)

Lemma spliceOut_perm : forall (A : Type) (l : list A) (k : Z) (m : A) (next : list A),
  spliceOut l k = (Some m, next) -> Permutation (m :: next) l.
Proof.
  intros A l k m next H. unfold spliceOut in H.
  set (s := spliceStart (length l) k) in *.
  injection H as Hm <-.
  apply nth_error_split in Hm. destruct Hm as (a & b & -> & Hlen).
  rewrite <- Hlen.
  change (match a ++ m :: b with
          | [] => []
          | _ :: l => skipn (length a) l
          end) with (skipn (S (length a)) (a ++ m :: b)).
  rewrite firstn_app_len, (skipn_S_app_len a m b).
  apply Permutation_middle.
Qed.

Lemma arrayMove_perm : forall (A : Type) (l : list A) (i j : Z),
  Permutation (arrayMove l i j) l.
Proof.
  intros A l i j. unfold arrayMove.
  destruct (spliceOut l i) as [[m|] next] eqn:E; [|apply Permutation_refl].
  eapply Permutation_trans; [apply spliceIn_perm|].
  simpl. eapply spliceOut_perm. exact E.
Qed.

Lemma arrayMove_length : forall (A : Type) (l : list A) (i j : Z),
  length (arrayMove l i j) = length l.
Proof. intros. apply Permutation_length. apply arrayMove_perm. Qed.

(** X5.  A step of a pointer drag never loses, duplicates or alters a
    task, whatever the two identifiers are: the list after [dragOver] is a
    rearrangement of the list before, ranks apart; when the step moved
    something the ranks are the indices again, and when it did not the list
    is the very same. *)
Theorem dragOver_rearranges :
  forall (previous : list TodoRecord) (activeId overId : string),
    Permutation (map strip (fst (Flat.dragOver previous activeId overId)))
                (map strip previous) /\
    (if snd (Flat.dragOver previous activeId overId)
     then map position (fst (Flat.dragOver previous activeId overId))
          = map Z.of_nat (seq 0 (length previous))
     else fst (Flat.dragOver previous activeId overId) = previous).
Proof.
  intros previous activeId overId. unfold Flat.dragOver.
  destruct (_ || _ || _)%bool; cbn [fst snd].
  - split; [apply Permutation_refl | reflexivity].
  - split.
    + rewrite strip_normalizePositions. apply Permutation_map. apply arrayMove_perm.
    + rewrite positions_normalizePositions. now rewrite arrayMove_length.
Qed.

Lemma findIndex_reinserted : forall (rest : list TodoRecord) (x : TodoRecord) (j : nat),
  ~ In (id x) (ids_of rest) -> j <= length rest ->
  findIndex (fun t => id t =? id x) (firstn j rest ++ x :: skipn j rest) = Z.of_nat j.
Proof.
  intros rest x j Hfresh Hj.
  rewrite findIndex_at.
  - now rewrite length_firstn, Nat.min_l.
  - intros y Hy. apply String.eqb_neq. intros E. apply Hfresh.
    rewrite <- E. apply in_map. eapply In_firstn_In. exact Hy.
  - apply String.eqb_refl.
Qed.

(** X6.  In a list with unique identifiers, dragging a task over another
    one puts it at the index the other one had: the drag step moves, and
    the dragged task is then found where the hovered task was. *)
Theorem dragOver_takes_place :
  forall (previous : list TodoRecord) (activeId overId : string),
    NoDup (ids_of previous) ->
    In activeId (ids_of previous) -> In overId (ids_of previous) ->
    activeId <> overId ->
    snd (Flat.dragOver previous activeId overId) = true /\
    findIndex (fun t => id t =? activeId) (fst (Flat.dragOver previous activeId overId))
    = findIndex (fun t => id t =? overId) previous.
Proof.
  intros previous a o Hnd Ha Ho Hneq.
  destruct (@findIndex_unique_id previous a Hnd Ha) as (A & x & B & Ep & Hx & HnA & HnB & Hia).
  destruct (@findIndex_unique_id previous o Hnd Ho) as (A' & y & B' & Ep' & Hy & HnA' & HnB' & Hio).
  assert (Hlen : length A' < length previous).
  { rewrite Ep', length_app. simpl. lia. }
  assert (Hdiff : length A <> length A').
  { intros E. apply Hneq. rewrite <- Hx, <- Hy.
    assert (Hn1 : nth_error previous (length A) = Some x)
      by (rewrite Ep; apply nth_error_app_len).
    assert (Hn2 : nth_error previous (length A') = Some y)
      by (rewrite Ep'; apply nth_error_app_len).
    rewrite E in Hn1. congruence. }
  unfold Flat.dragOver. rewrite Hia, Hio.
  assert (G : ((Z.of_nat (length A) =? -1) || (Z.of_nat (length A') =? -1)
               || (Z.of_nat (length A) =? Z.of_nat (length A')))%Z = false).
  { repeat (apply orb_false_iff; split); apply Z.eqb_neq; lia. }
  rewrite G. cbn [fst snd]. split; [reflexivity|].
  rewrite Ep at 1. rewrite arrayMove_split.
  - unfold normalizePositions, mapi.
    change (fun t : TodoRecord => id t =? a)
      with (fun t : TodoRecord => (fun k => k =? a) (id t)).
    rewrite <- (findIndex_map id (fun k => k =? a)).
    fold (ids_of (mapiFrom (fun todo index => with_position todo (Z.of_nat index)) 0
                           (firstn (length A') (A ++ B) ++ x :: skipn (length A') (A ++ B)))).
    fold (mapi (fun todo index => with_position todo (Z.of_nat index))
               (firstn (length A') (A ++ B) ++ x :: skipn (length A') (A ++ B))).
    fold (normalizePositions (firstn (length A') (A ++ B) ++ x :: skipn (length A') (A ++ B))).
    rewrite ids_normalizePositions. unfold ids_of.
    rewrite (findIndex_map id (fun k => k =? a)). rewrite <- Hx.
    apply findIndex_reinserted.
    + rewrite Hx. unfold ids_of. rewrite map_app. intros Hin.
      apply in_app_or in Hin. tauto.
    + rewrite Ep, length_app in Hlen. simpl in Hlen. rewrite length_app. lia.
  - rewrite Ep, length_app in Hlen. simpl in Hlen. rewrite length_app. lia.
Qed.

Lemma dragOver_takes_place_witness :
  NoDup (ids_of Examples.abc) /\ In "a" (ids_of Examples.abc) /\
  In "c" (ids_of Examples.abc) /\ "a" <> "c" /\
  snd (Flat.dragOver Examples.abc "a" "c") = true /\
  findIndex (fun t => id t =? "a") (fst (Flat.dragOver Examples.abc "a" "c"))
  = findIndex (fun t => id t =? "c") Examples.abc.
Proof.
  assert (Hnd : NoDup (ids_of Examples.abc)) by distinct_ids.
  assert (Ha : In "a" (ids_of Examples.abc)) by (simpl; auto).
  assert (Hc : In "c" (ids_of Examples.abc)) by (simpl; auto).
  assert (Hne : "a" <> "c") by discriminate.
  split; [exact Hnd|]. split; [exact Ha|]. split; [exact Hc|]. split; [exact Hne|].
  exact (@dragOver_takes_place Examples.abc "a" "c" Hnd Ha Hc Hne).
Defined.

(** ** Handlers of the flat list *)

Lemma ids_replaceById : forall updated previous,
  ids_of (replaceById updated previous) = ids_of previous.
Proof.
  intros updated previous. unfold replaceById, ids_of. rewrite map_map.
  apply map_ext. intros item.
  destruct (id item =? id updated) eqn:E; [|reflexivity].
  apply String.eqb_eq in E. now rewrite E.
Qed.

(** X7.  Toggling a task and committing a new title never add, remove or
    reorder tasks, whatever the store answers: the identifiers of the list
    are the same, in the same order, after [handleToggle] and after the
    [saveEdit] that refuses or ignores an empty title. *)
Theorem toggle_and_rename_keep_order :
  forall (env : Env) (st : AppState) (todo : TodoRecord),
    ids_of (todos (fst (TodoApp.handleToggle env todo st))) = ids_of (todos st) /\
    ids_of (todos (fst (Flat.saveEdit env st))) = ids_of (todos st) /\
    ids_of (todos (fst (Hierarchy.saveEdit env st))) = ids_of (todos st).
Proof.
  intros env st todo. split; [|split].
  - unfold TodoApp.handleToggle.
    destruct (negb (hasSupabaseEnv env) || truthy (busyId st)); [reflexivity|].
    destruct (Rest.updateTodo _ _ _ _ _ _) as [reqs [updated|m]]; cbn [fst].
    + apply ids_replaceById.
    + reflexivity.
  - unfold Flat.saveEdit.
    destruct (negb (hasSupabaseEnv env) || negb (truthy (editingId st))
              || truthy (busyId st)); [reflexivity|].
    destruct (JsString.trim (editingTitle st) =? ""); [reflexivity|].
    destruct (editingId st) as [target|]; [|reflexivity].
    destruct (Rest.updateTodo _ _ _ _ _ _) as [reqs [updated|m]]; cbn [fst].
    + apply ids_replaceById.
    + reflexivity.
  - unfold Hierarchy.saveEdit.
    destruct (negb (hasSupabaseEnv env) || negb (truthy (editingId st))
              || truthy (busyId st)); [reflexivity|].
    destruct (JsString.trim (editingTitle st) =? ""); [reflexivity|].
    destruct (editingId st) as [target|]; [|reflexivity].
    destruct (Rest.updateTodo _ _ _ _ _ _) as [reqs [updated|m]]; cbn [fst].
    + apply ids_replaceById.
    + reflexivity.
Qed.

Lemma guarded_handleToggle : forall env todo,
  guardedByBusy (TodoApp.handleToggle env todo).
Proof.
  intros env todo st. unfold TodoApp.handleToggle.
  destruct (truthy (busyId st)) eqn:B.
  - rewrite orb_true_r. split; [reflexivity|discriminate].
  - split; [discriminate|intros _].
    destruct (negb (hasSupabaseEnv env)); cbn [orb fst]; [exact B|].
    destruct (Rest.updateTodo _ _ _ _ _ _) as [reqs [updated|m]]; reflexivity.
Qed.

Lemma guarded_handleDelete : forall env target,
  guardedByBusy (Flat.handleDelete env target).
Proof.
  intros env target st. unfold Flat.handleDelete.
  destruct (truthy (busyId st)) eqn:B.
  - rewrite orb_true_r. split; [reflexivity|discriminate].
  - split; [discriminate|intros _].
    destruct (negb (hasSupabaseEnv env)); cbn [orb fst]; [exact B|].
    destruct (Rest.deleteTodo _ _ _) as [reqs [u|m]]; [|reflexivity].
    destruct (opt_eqb (editingId st) (Some target)); reflexivity.
Qed.

Lemma guarded_flat_saveEdit : forall env, guardedByBusy (Flat.saveEdit env).
Proof.
  intros env st. unfold Flat.saveEdit.
  destruct (truthy (busyId st)) eqn:B.
  - rewrite orb_true_r. split; [reflexivity|discriminate].
  - split; [discriminate|intros _].
    destruct (negb (hasSupabaseEnv env) || negb (truthy (editingId st)));
      cbn [orb fst]; [exact B|].
    destruct (JsString.trim (editingTitle st) =? ""); [exact B|].
    destruct (editingId st) as [target|]; [|exact B].
    destruct (Rest.updateTodo _ _ _ _ _ _) as [reqs [updated|m]]; reflexivity.
Qed.

Lemma guarded_outline_saveEdit : forall env, guardedByBusy (Outline.saveEdit env).
Proof.
  intros env st. unfold Outline.saveEdit.
  destruct (truthy (busyId st)) eqn:B.
  - rewrite orb_true_r. split; [reflexivity|discriminate].
  - split; [discriminate|intros _].
    destruct (negb (hasSupabaseEnv env) || negb (truthy (editingId st)));
      cbn [orb fst]; [exact B|].
    destruct (editingId st) as [target|]; [|exact B].
    destruct (JsString.trim (editingTitle st) =? "").
    + destruct (Rest.deleteTodo _ _ _) as [reqs [u|m]]; reflexivity.
    + destruct (Rest.updateTodo _ _ _ _ _ _) as [reqs [updated|m]]; reflexivity.
Qed.

Lemma guarded_hierarchy_saveEdit : forall env, guardedByBusy (Hierarchy.saveEdit env).
Proof.
  intros env st. unfold Hierarchy.saveEdit.
  destruct (truthy (busyId st)) eqn:B.
  - rewrite orb_true_r. split; [reflexivity|discriminate].
  - split; [discriminate|intros _].
    destruct (negb (hasSupabaseEnv env) || negb (truthy (editingId st)));
      cbn [orb fst]; [exact B|].
    destruct (JsString.trim (editingTitle st) =? ""); [exact B|].
    destruct (editingId st) as [target|]; [|exact B].
    destruct (Rest.updateTodo _ _ _ _ _ _) as [reqs [updated|m]]; reflexivity.
Qed.

Lemma guarded_deleteFocusedSelection : forall env activeId,
  guardedByBusy (Outline.deleteFocusedSelection env activeId).
Proof.
  intros env activeId st. unfold Outline.deleteFocusedSelection.
  destruct (truthy (busyId st)) eqn:B.
  - rewrite orb_true_r. cbn [orb]. split; [reflexivity|discriminate].
  - split; [discriminate|intros _].
    destruct (negb (hasSupabaseEnv env)); cbn [orb fst]; [exact B|].
    destruct (truthy (editingId st)); [exact B|].
    destruct (Outline.dedupe [] _) as [|t ts]; [exact B|].
    destruct (deleteAll env (t :: ts)) as [reqs [m|]]; [reflexivity|].
    destruct (persistCurrentOrder env _) as [st2 reqs']; reflexivity.
Qed.

Lemma guarded_handleDeleteSelection : forall env,
  guardedByBusy (Hierarchy.handleDeleteSelection env).
Proof.
  intros env st. unfold Hierarchy.handleDeleteSelection.
  destruct (truthy (busyId st)) eqn:B.
  - rewrite orb_true_r. split; [reflexivity|discriminate].
  - split; [discriminate|intros _].
    destruct (negb (hasSupabaseEnv env) || (length (Hierarchy.targetIdsOf st) =? 0)%nat);
      cbn [orb fst]; [exact B|].
    destruct (deleteAll env _) as [reqs [m|]]; [reflexivity|].
    destruct (Rest.updateTodoPositions _ _ _ _ _) as [reqs' [u|m]]; reflexivity.
Qed.

Lemma guarded_handleMoveActiveTodo : forall env direction,
  guardedByBusy (fun st => settled st (Hierarchy.handleMoveActiveTodo env direction st)).
Proof.
  intros env direction st. unfold Hierarchy.handleMoveActiveTodo.
  destruct (activeTodoId st) as [active|].
  2:{ split; [reflexivity|intros B; exact B]. }
  destruct (truthy (busyId st)) eqn:B.
  - rewrite orb_true_r. cbn [orb]. split; [reflexivity|discriminate].
  - split; [discriminate|intros _].
    destruct (negb (hasSupabaseEnv env) || negb (truthy (Some active))
              || (active =? Hierarchy.NEW_TASK_ACTIVE_ID));
      cbn [orb fst settled]; [exact B|].
    destruct (truthy (editingId st)); cbn [settled fst]; [exact B|].
    destruct (Hierarchy.reorderBySiblingMove (todos st) active direction)
      as [[reordered|]|]; cbn [settled fst]; try exact B.
    destruct (Rest.updateTodoPositions _ _ _ _ _) as [reqs [u|m]]; reflexivity.
Qed.

(** X8.  Every handler that marks a task busy is guarded by the mark and
    releases it: while a task is busy the handler returns at once, with the
    state untouched and nothing sent, and when it runs from a state with no
    busy task it ends, on success as on failure, with no busy task.  This
    holds for toggling, deleting one task, the three [saveEdit]s, the two
    bulk deletes and the sibling move. *)
Theorem handlers_guarded_by_busy :
  forall (env : Env) (todo : TodoRecord) (target : string) (direction : Z),
    guardedByBusy (TodoApp.handleToggle env todo) /\
    guardedByBusy (Flat.handleDelete env target) /\
    guardedByBusy (Flat.saveEdit env) /\
    guardedByBusy (Outline.saveEdit env) /\
    guardedByBusy (Hierarchy.saveEdit env) /\
    guardedByBusy (Outline.deleteFocusedSelection env target) /\
    guardedByBusy (Hierarchy.handleDeleteSelection env) /\
    guardedByBusy (fun st => settled st (Hierarchy.handleMoveActiveTodo env direction st)).
Proof.
  intros env todo target direction.
  repeat split;
    first [ apply guarded_handleToggle | apply guarded_handleDelete
          | apply guarded_flat_saveEdit | apply guarded_outline_saveEdit
          | apply guarded_hierarchy_saveEdit | apply guarded_deleteFocusedSelection
          | apply guarded_handleDeleteSelection | apply guarded_handleMoveActiveTodo ].
Qed.

(** X9.  A call that the store refuses leaves the list and the editor as
    they were: when the one request of [handleToggle], of [handleDelete] or
    of the [saveEdit] of a non-blank title is answered with an error, the
    state the handler leaves is the state it found with only the error
    message set and no task busy; the edit stays open with the typed text. *)
Theorem refused_call_keeps_list :
  forall (env : Env) (st : AppState) (statusLine : string)
         (json : option Rest.Payload),
    hasSupabaseEnv env = true -> truthy (busyId st) = false ->
    (forall todo,
       Rest.patchTodo (net env) (id todo)
         (Rest.mkUpdates None (Some (negb (is_completed todo))) None None)
         (Rest.currentSelectColumns (client env)) = Rest.NotOk statusLine json ->
       fst (TodoApp.handleToggle env todo st)
       = afterRejection (Rest.errorMessage statusLine json) st) /\
    (forall target,
       Rest.deleteRow (net env) target = Rest.NotOk statusLine json ->
       fst (Flat.handleDelete env target st)
       = afterRejection (Rest.errorMessage statusLine json) st) /\
    (forall target,
       editingId st = Some target -> target <> "" ->
       JsString.trim (editingTitle st) <> "" ->
       Rest.patchTodo (net env) target
         (Rest.mkUpdates (Some (JsString.trim (editingTitle st))) None None None)
         (Rest.currentSelectColumns (client env)) = Rest.NotOk statusLine json ->
       fst (Flat.saveEdit env st)
       = afterRejection (Rest.errorMessage statusLine json) st /\
       fst (Outline.saveEdit env st)
       = afterRejection (Rest.errorMessage statusLine json) st /\
       fst (Hierarchy.saveEdit env st)
       = afterRejection (Rest.errorMessage statusLine json) st).
Proof.
  intros env st statusLine json Henv Hbusy. split; [|split].
  - intros todo Hnet. unfold TodoApp.handleToggle, Rest.updateTodo.
    rewrite Henv, Hbusy. cbn [negb orb]. rewrite Hnet. reflexivity.
  - intros target Hnet. unfold Flat.handleDelete, Rest.deleteTodo.
    rewrite Henv, Hbusy. cbn [negb orb]. rewrite Hnet. reflexivity.
  - intros target He Hne Ht Hnet.
    assert (Htr : truthy (editingId st) = true).
    { rewrite He. unfold truthy. apply String.eqb_neq in Hne. now rewrite Hne. }
    apply String.eqb_neq in Ht.
    unfold Flat.saveEdit, Outline.saveEdit, Hierarchy.saveEdit, Rest.updateTodo.
    rewrite Henv, Hbusy, Htr, Ht, He. cbn [negb orb]. rewrite Hnet.
    repeat split; reflexivity.
Qed.

Lemma refused_call_keeps_list_witness :
  hasSupabaseEnv (Examples.envOf refuseAll) = true /\
  truthy (busyId (Examples.idle Examples.abc)) = false /\
  fst (Flat.handleDelete (Examples.envOf refuseAll) "b" (Examples.idle Examples.abc))
  = afterRejection "503 Service Unavailable" (Examples.idle Examples.abc).
Proof.
  split; [reflexivity|]. split; [reflexivity|].
  exact (proj1 (proj2 (@refused_call_keeps_list (Examples.envOf refuseAll)
                         (Examples.idle Examples.abc) "503 Service Unavailable" None
                         eq_refl eq_refl)) "b" eq_refl).
Defined.

(** ** The add form and the first load *)

Lemma mapiFrom_app : forall (A B : Type) (f : A -> nat -> B) (l1 l2 : list A) (k : nat),
  mapiFrom f k (l1 ++ l2) = mapiFrom f k l1 ++ mapiFrom f (k + length l1) l2.
Proof.
  intros A B f l1. induction l1 as [|x l1 IH]; intros l2 k; simpl.
  - now rewrite Nat.add_0_r.
  - rewrite IH. do 3 f_equal. lia.
Qed.

Lemma normalizePositions_snoc : forall l x,
  normalizePositions (l ++ [x])
  = normalizePositions l ++ [with_position x (Z.of_nat (length l))].
Proof.
  intros l x. unfold normalizePositions, mapi. rewrite mapiFrom_app. reflexivity.
Qed.

(** X10.  [handleAdd] sends nothing for a blank title or while an add is
    under way; otherwise it sends one create request with the trimmed
    title and, when positioning is enabled, the length of the list as the
    proposed rank.  On success the created record is appended and ranked by
    its index whatever rank the store returned, the earlier records keep
    their order, and the input is cleared; on failure the list and the
    typed title stay and the message is shown.  In both cases the form is
    no longer adding. *)
Theorem handleAdd_appends :
  forall (env : Env) (st : TodoApp.FormState),
    hasSupabaseEnv env = true -> TodoApp.isAdding st = false ->
    let title := JsString.trim (TodoApp.newTitle st) in
    let l := todos (TodoApp.app st) in
    (title = "" -> TodoApp.handleAdd env st = (st, [])) /\
    (title <> "" ->
     snd (TodoApp.handleAdd env st)
     = [Rest.PostTodo title
          (if Rest.isPositioningEnabled (client env)
           then Some (Z.of_nat (length l)) else None)
          (Rest.currentSelectColumns (client env))] /\
     TodoApp.isAdding (fst (TodoApp.handleAdd env st)) = false /\
     match snd (Rest.createTodo true (now env) (net env) (client env) title
                                (Z.of_nat (length l))) with
     | Rest.Resolved created =>
         todos (TodoApp.app (fst (TodoApp.handleAdd env st)))
         = normalizePositions l ++ [with_position created (Z.of_nat (length l))] /\
         TodoApp.newTitle (fst (TodoApp.handleAdd env st)) = "" /\
         error (TodoApp.app (fst (TodoApp.handleAdd env st))) = None
     | Rest.Rejected m =>
         todos (TodoApp.app (fst (TodoApp.handleAdd env st))) = l /\
         TodoApp.newTitle (fst (TodoApp.handleAdd env st)) = TodoApp.newTitle st /\
         error (TodoApp.app (fst (TodoApp.handleAdd env st))) = Some m
     end).
Proof.
  intros env st Henv Hadd title l. unfold TodoApp.handleAdd.
  rewrite Henv, Hadd. cbn [negb orb]. fold title. fold l. split.
  - intros ->. reflexivity.
  - intros Hne. apply String.eqb_neq in Hne. rewrite Hne.
    unfold Rest.createTodo. cbn [negb].
    unfold Rest.isPositioningEnabled.
    set (body := match Rest.supportsPositionColumn (client env) with
                 | Some false => None
                 | _ => Some (Z.of_nat (length l))
                 end).
    assert (Eb : (if match Rest.supportsPositionColumn (client env) with
                     | Some false => false
                     | _ => true
                     end then Some (Z.of_nat (length l)) else None) = body).
    { unfold body. destruct (Rest.supportsPositionColumn (client env)) as [[|]|];
        reflexivity. }
    rewrite Eb.
    destruct (Rest.postTodo (net env) title body _) as [[|first rest]|s j|r];
      cbn [fst snd TodoApp.isAdding TodoApp.app TodoApp.newTitle todos error
           setTodos setError];
      repeat split; try reflexivity.
    apply normalizePositions_snoc.
Qed.

Lemma handleAdd_appends_witness :
  hasSupabaseEnv (Examples.envOf echoStore) = true /\
  TodoApp.isAdding (TodoApp.mkForm (Examples.idle Examples.abc) false false "  milk ")
  = false /\
  snd (TodoApp.handleAdd (Examples.envOf echoStore)
         (TodoApp.mkForm (Examples.idle Examples.abc) false false "  milk "))
  = [Rest.PostTodo "milk" (Some 3%Z) Rest.positionedColumns].
Proof.
  split; [reflexivity|]. split; [reflexivity|].
  refine (proj1 (proj2 (@handleAdd_appends (Examples.envOf echoStore)
                   (TodoApp.mkForm (Examples.idle Examples.abc) false false "  milk ")
                   eq_refl eq_refl) _)).
  discriminate.
Defined.

(** X11.  Adding a task and then deleting it gives back the list there
    was: in a list whose ranks are its indices, appending a record with a
    fresh identifier (as [handleAdd] does) and removing that identifier
    (as [handleDelete] does) is the identity. *)
Theorem add_then_delete_restores :
  forall (l : list TodoRecord) (created : TodoRecord),
    wellRanked l -> ~ In (id created) (ids_of l) ->
    Flat.removeTodo (normalizePositions (l ++ [created])) (id created) = l.
Proof.
  intros l created Hw Hfresh. unfold Flat.removeTodo.
  rewrite normalizePositions_snoc, Hw, filter_app. simpl.
  rewrite String.eqb_refl. simpl. rewrite app_nil_r.
  rewrite filter_all; [exact Hw|].
  intros x Hx. apply negb_true_iff, String.eqb_neq. intros E.
  apply Hfresh. rewrite <- E. now apply in_map.
Qed.

Lemma add_then_delete_restores_witness :
  wellRanked Examples.abc /\ ~ In (id (Examples.task "d" None 9)) (ids_of Examples.abc) /\
  Flat.removeTodo (normalizePositions (Examples.abc ++ [Examples.task "d" None 9]))
                  (id (Examples.task "d" None 9))
  = Examples.abc.
Proof.
  assert (Hw : wellRanked Examples.abc) by reflexivity.
  assert (Hf : ~ In (id (Examples.task "d" None 9)) (ids_of Examples.abc))
    by (simpl; intuition discriminate).
  split; [exact Hw|]. split; [exact Hf|].
  exact (@add_then_delete_restores Examples.abc (Examples.task "d" None 9) Hw Hf).
Defined.

(** X12.  [loadTodos] always ends the loading state.  When the list
    request resolves, the records are shown in the order of the rows with
    their indices as ranks (the ranks stored in the rows are not shown),
    and reordering is available exactly when the client has not found the
    position column missing; when it rejects, the list on screen and the
    availability of reordering stay and the message is shown, while the
    flags of the client are the ones there were only if no request was
    answered ok: after an ok answer whose body could not be read they are
    the ones its select list names. *)
Theorem loadTodos_ranks_by_index :
  forall (env : Env) (st : TodoApp.FormState),
    let out := fst (fst (TodoApp.loadTodos env st)) in
    let cs := snd (fst (TodoApp.loadTodos env st)) in
    TodoApp.isLoading out = false /\
    match snd (Rest.listTodos (hasSupabaseEnv env) (net env) (client env)) with
    | Rest.Resolved rows =>
        hasSupabaseEnv env = true /\
        ids_of (todos (TodoApp.app out)) = ids_of rows /\
        map position (todos (TodoApp.app out)) = map Z.of_nat (seq 0 (length rows)) /\
        positioningAvailable (TodoApp.app out) = Rest.isPositioningEnabled cs /\
        error (TodoApp.app out) = None
    | Rest.Rejected m =>
        todos (TodoApp.app out) = todos (TodoApp.app st) /\
        positioningAvailable (TodoApp.app out) = positioningAvailable (TodoApp.app st) /\
        (hasSupabaseEnv env = true -> error (TodoApp.app out) = Some m) /\
        ((cs = client env /\
          forall c o, In (Rest.GetTodos c o) (snd (TodoApp.loadTodos env st)) ->
                      Rest.ok (Rest.getTodos (net env) c o) = false)
         \/
         exists front cols order,
           snd (TodoApp.loadTodos env st) = front ++ [Rest.GetTodos cols order] /\
           Rest.ok (Rest.getTodos (net env) cols order) = true /\
           cs = Rest.mkClient (Some (Rest.selectsPosition cols))
                              (Some (selectsParent cols)))
    end.
Proof.
  intros env st. cbv zeta. unfold TodoApp.loadTodos.
  destruct (hasSupabaseEnv env) eqn:Henv; cbn [negb].
  - pose proof (listTodos_flags_cases true (net env) (client env)) as Hflags.
    destruct (Rest.listTodos true (net env) (client env)) as [[cs reqs] [rows|m]];
      cbn [fst snd TodoApp.isLoading TodoApp.app todos error positioningAvailable
           setPositioningAvailable setTodos setError] in *.
    + repeat split; auto.
      * apply ids_normalizePositions.
      * apply positions_normalizePositions.
    + split; [reflexivity|]. split; [reflexivity|]. split; [reflexivity|].
      split; [reflexivity|].
      destruct Hflags as [(F & Hno & _)|(front & cols & order & Ef & Hok & F)].
      * left. auto.
      * right. exists front, cols, order. auto.
  - unfold Rest.listTodos. cbn [negb fst snd TodoApp.isLoading TodoApp.app].
    split; [reflexivity|]. split; [reflexivity|]. split; [reflexivity|].
    split; [discriminate|]. left. split; [reflexivity|]. intros c o [].
Qed.

Lemma loadTodos_ranks_by_index_witness :
  positioningAvailable
    (TodoApp.app (fst (fst (TodoApp.loadTodos
                              (mkEnv true Examples.noPositionStore [] "2024-05-02T10:00:00Z"
                                     Rest.initialClient)
                              (TodoApp.mkForm (Examples.idle []) true false "")))))
  = false.
Proof.
  pose proof (@loadTodos_ranks_by_index
                (mkEnv true Examples.noPositionStore [] "2024-05-02T10:00:00Z"
                       Rest.initialClient)
                (TodoApp.mkForm (Examples.idle []) true false "")) as H.
  cbv zeta in H. destruct H as (_ & H).
  change (Rest.listTodos
            (hasSupabaseEnv (mkEnv true Examples.noPositionStore [] "2024-05-02T10:00:00Z"
                                   Rest.initialClient))
            (net (mkEnv true Examples.noPositionStore [] "2024-05-02T10:00:00Z"
                        Rest.initialClient))
            (client (mkEnv true Examples.noPositionStore [] "2024-05-02T10:00:00Z"
                           Rest.initialClient)))
    with (Rest.mkClient (Some false) (Some false),
          [Rest.GetTodos Rest.positionedColumns Rest.listOrder;
           Rest.GetTodos Rest.baseColumns ["created_at.asc"]],
          Rest.Resolved [Examples.task "x" None 0; Examples.task "y" None 1]) in H.
  cbn [snd] in H. destruct H as (_ & _ & _ & H & _). exact H.
Defined.

Lemma filter_In_sub : forall (A : Type) (q : A -> bool) (l : list A) (x : A),
  In x (filter q l) -> In x l.
Proof. intros A q l x H. apply filter_In in H. tauto. Qed.

(** X13.  The two counters and the three views agree: [doneCount] is the
    number of records the "done" view shows and [openCount] the number the
    "open" view shows, the two views together hold every record exactly
    once, and every view is the list filtered, in its order.  The switch of
    the later variants that hides completed tasks shows the "open" view,
    and the whole list when it is off. *)
Theorem views_partition_the_list :
  forall (l : list TodoRecord),
    TodoApp.doneCount l = Z.of_nat (length (TodoApp.filteredTodos FilterDone l)) /\
    TodoApp.openCount l = length (TodoApp.filteredTodos FilterOpen l) /\
    Permutation (TodoApp.filteredTodos FilterOpen l ++ TodoApp.filteredTodos FilterDone l)
                l /\
    TodoApp.filteredTodos FilterAll l = l /\
    HierarchyView.filteredTodos true l = l /\
    HierarchyView.filteredTodos false l = TodoApp.filteredTodos FilterOpen l /\
    forall f,
      exists keep : TodoRecord -> bool,
        TodoApp.filteredTodos f l = filter keep l.
Proof.
  intros l.
  assert (Hperm : Permutation
            (filter (fun todo => negb (is_completed todo)) l
             ++ filter (fun todo => is_completed todo) l) l).
  { pose proof (filter_partition_perm (fun todo => negb (is_completed todo)) l) as H.
    erewrite (filter_ext (fun x => negb (negb (is_completed x)))) in H.
    - exact H.
    - intros a. apply negb_involutive. }
  split; [|split; [|split; [|split; [|split; [|split]]]]].
  - unfold TodoApp.doneCount, TodoApp.openCount. cbn [TodoApp.filteredTodos].
    apply Permutation_length in Hperm. rewrite length_app in Hperm. lia.
  - reflexivity.
  - exact Hperm.
  - reflexivity.
  - reflexivity.
  - reflexivity.
  - intros [| |]; cbn [TodoApp.filteredTodos].
    + exists (fun _ => true). symmetry. apply filter_all. auto.
    + eexists. reflexivity.
    + eexists. reflexivity.
Qed.

(** ** The sibling move of the hierarchy variant *)

Lemma existsb_id_In : forall (ord : list TodoRecord) (k : string),
  existsb (fun item => id item =? k) ord = true <-> In k (ids_of ord).
Proof.
  intros ord k. rewrite existsb_exists. unfold ids_of. rewrite in_map_iff. split.
  - intros (x & Hin & E). apply String.eqb_eq in E. eauto.
  - intros (x & E & Hin). exists x. split; [exact Hin|]. now apply String.eqb_eq.
Qed.

Lemma ids_snoc : forall (ord : list TodoRecord) (c : TodoRecord),
  ids_of (ord ++ [c]) = ids_of ord ++ [id c].
Proof. intros. unfold ids_of. now rewrite map_app. Qed.

Lemma NoDup_snoc : forall (A : Type) (l : list A) (x : A),
  NoDup l -> ~ In x l -> NoDup (l ++ [x]).
Proof.
  intros A l x Hnd Hx. apply NoDup_app; auto.
  - repeat constructor. intros [].
  - intros a Ha [E|[]]. subst. contradiction.
Qed.

Section Visit.
Variable items : list TodoRecord.
Variable children : option string -> list TodoRecord.
Hypothesis children_in : forall key c, In c (children key) -> In c items.

(** The loop over the children of one key, from the state [acc]. *)
Lemma visit_children_total : forall fuel,
  (forall key ord,
     NoDup (ids_of ord) -> incl ord items -> length items < fuel + length ord ->
     exists ord', Hierarchy.visit fuel children key ord = Some ord' /\
                  NoDup (ids_of ord') /\ incl ord' items /\
                  length ord <= length ord') ->
  forall (cs : list TodoRecord) (ord : list TodoRecord),
    (forall c, In c cs -> In c items) ->
    NoDup (ids_of ord) -> incl ord items -> length items < S fuel + length ord ->
    exists ord',
      fold_left
        (fun acc child =>
           match acc with
           | None => None
           | Some o =>
               if existsb (fun item => id item =? id child) o then Some o
               else Hierarchy.visit fuel children (Some (id child)) (o ++ [child])
           end)
        cs (Some ord) = Some ord' /\
      NoDup (ids_of ord') /\ incl ord' items /\ length ord <= length ord'.
Proof.
  intros fuel IH cs. induction cs as [|c cs IHcs]; intros ord Hcs Hnd Hincl Hfuel.
  - simpl. exists ord. auto.
  - simpl. destruct (existsb (fun item => id item =? id c) ord) eqn:E.
    + apply IHcs; auto. intros x Hx. apply Hcs. now right.
    + assert (Hfresh : ~ In (id c) (ids_of ord)).
      { intros Hin. apply existsb_id_In in Hin. congruence. }
      destruct (IH (Some (id c)) (ord ++ [c])) as (o1 & E1 & Hnd1 & Hincl1 & Hlen1).
      * rewrite ids_snoc. now apply NoDup_snoc.
      * intros x Hx. apply in_app_or in Hx. destruct Hx as [Hx|[<-|[]]].
        -- now apply Hincl.
        -- apply Hcs. now left.
      * rewrite length_app. simpl. lia.
      * rewrite E1.
        destruct (IHcs o1) as (o2 & E2 & Hnd2 & Hincl2 & Hlen2); auto.
        -- intros x Hx. apply Hcs. now right.
        -- rewrite length_app in Hlen1. simpl in Hlen1. lia.
        -- exists o2. repeat split; auto.
           rewrite length_app in Hlen1. simpl in Hlen1. lia.
Qed.

Lemma ordered_bound : forall ord : list TodoRecord,
  NoDup (ids_of ord) -> incl ord items -> length ord <= length items.
Proof.
  intros ord Hnd Hincl. rewrite <- (ids_length ord).
  apply seen_bound; [exact Hnd|].
  intros k Hk. unfold ids_of in *. apply in_map_iff in Hk.
  destruct Hk as (x & <- & Hx). apply in_map. now apply Hincl.
Qed.

Lemma visit_total : forall fuel key ord,
  NoDup (ids_of ord) -> incl ord items -> length items < fuel + length ord ->
  exists ord', Hierarchy.visit fuel children key ord = Some ord' /\
               NoDup (ids_of ord') /\ incl ord' items /\
               length ord <= length ord'.
Proof.
  induction fuel as [|fuel IH]; intros key ord Hnd Hincl Hfuel.
  - pose proof (ordered_bound Hnd Hincl). simpl in Hfuel. lia.
  - simpl. apply visit_children_total; auto.
    intros c Hc. eapply children_in. exact Hc.
Qed.

End Visit.

Lemma spliceOut_rest_incl : forall (A : Type) (l : list A) (k : Z) (x : A),
  In x (snd (spliceOut l k)) -> In x l.
Proof.
  intros A l k x H. unfold spliceOut in H. cbn [snd] in H.
  apply in_app_or in H. destruct H as [H|H].
  - eapply In_firstn_In. exact H.
  - eapply In_skipn_In. exact H.
Qed.

Lemma reorderedSiblings_incl : forall (siblings : list TodoRecord) (i j : Z) (x : TodoRecord),
  In x (match spliceOut siblings i with
        | (Some moved, rest) => spliceIn rest j [moved]
        | (None, rest) => rest
        end) ->
  In x siblings.
Proof.
  intros siblings i j x H.
  destruct (spliceOut siblings i) as [[moved|] rest] eqn:E.
  - apply (Permutation_in x (spliceIn_perm rest [moved] j)) in H.
    apply (Permutation_in x (@spliceOut_perm _ siblings i moved rest E)). exact H.
  - apply (@spliceOut_rest_incl _ siblings i x). now rewrite E.
Qed.

Lemma childrenOf_incl : forall items key x,
  In x (Hierarchy.childrenOf items key) -> In x items.
Proof. intros items key x H. unfold Hierarchy.childrenOf in H. eapply filter_In_sub. exact H. Qed.

Lemma NoDup_of_ids : forall l : list TodoRecord, NoDup (ids_of l) -> NoDup l.
Proof. intros l H. eapply NoDup_map_inv. exact H. Qed.

Lemma ordered_completed_perm : forall (items ordered : list TodoRecord),
  NoDup (ids_of items) -> NoDup (ids_of ordered) -> incl ordered items ->
  Permutation
    (if negb (length ordered =? length items)%nat
     then ordered ++ filter (fun item => negb (includes (ids_of ordered) (id item))) items
     else ordered)
    items.
Proof.
  intros items ordered Hnd Hndo Hincl.
  destruct (length ordered =? length items)%nat eqn:E; cbn [negb].
  - apply Nat.eqb_eq in E.
    apply NoDup_Permutation_bis; [now apply NoDup_of_ids | lia | exact Hincl].
  - apply NoDup_Permutation.
    + apply NoDup_app.
      * now apply NoDup_of_ids.
      * apply NoDup_filter. now apply NoDup_of_ids.
      * intros x Hx Hf. apply filter_In in Hf. destruct Hf as (_ & Hf).
        apply negb_true_iff, includes_not_In in Hf. apply Hf. now apply in_map.
    + now apply NoDup_of_ids.
    + intros x. split.
      * intros H. apply in_app_or in H. destruct H as [H|H].
        -- now apply Hincl.
        -- eapply filter_In_sub. exact H.
      * intros Hx. apply in_or_app.
        destruct (includes (ids_of ordered) (id x)) eqn:I.
        -- left. apply includes_In in I. unfold ids_of in I. apply in_map_iff in I.
           destruct I as (y & Ey & Hy).
           assert (y = x).
           { apply (@NoDup_ids_inj items y x Hnd); auto. }
           now subst.
        -- right. apply filter_In. split; [exact Hx|]. now rewrite I.
Qed.

(** X14.  [reorderBySiblingMove] always returns: the recursive walk over
    the sibling lists ends within the depth that the number of records
    allows, also when the parent references form a cycle.  What it returns
    is ranked by index, and in a list with unique identifiers it is a
    rearrangement of the list given: no record is lost, duplicated or
    altered, ranks apart.  [handleMoveActiveTodo] therefore always
    settles. *)
Theorem sibling_move_rearranges :
  forall (items : list TodoRecord) (activeId : string) (direction : Z),
    (exists r,
       Hierarchy.reorderBySiblingMove items activeId direction = Some r /\
       match r with
       | None => True
       | Some reordered =>
           map position reordered = map Z.of_nat (seq 0 (length reordered)) /\
           (NoDup (ids_of items) ->
            Permutation (map strip reordered) (map strip items))
       end) /\
    (forall env st,
       todos st = items -> activeTodoId st = Some activeId ->
       Hierarchy.handleMoveActiveTodo env direction st <> None).
Proof.
  intros items activeId direction.
  assert (Hmain : exists r,
       Hierarchy.reorderBySiblingMove items activeId direction = Some r /\
       match r with
       | None => True
       | Some reordered =>
           map position reordered = map Z.of_nat (seq 0 (length reordered)) /\
           (NoDup (ids_of items) ->
            Permutation (map strip reordered) (map strip items))
       end).
  { unfold Hierarchy.reorderBySiblingMove.
    destruct (byId_get items activeId) as [active|]; [|exists None; auto].
    destruct (_ =? -1)%Z; [exists None; auto|].
    destruct (_ || _)%bool; [exists None; auto|].
    set (siblings := Hierarchy.childrenOf items (Hierarchy.parentKey items active)).
    set (currentIndex := findIndex (fun item => id item =? activeId) siblings).
    set (children := fun key : option string =>
           if opt_eqb key (Hierarchy.parentKey items active)
           then match spliceOut siblings currentIndex with
                | (Some moved, rest) => spliceIn rest (currentIndex + direction) [moved]
                | (None, rest) => rest
                end
           else Hierarchy.childrenOf items key).
    assert (Hch : forall key c, In c (children key) -> In c items).
    { intros key c Hc. unfold children in Hc.
      destruct (opt_eqb key (Hierarchy.parentKey items active)).
      - apply reorderedSiblings_incl in Hc. eapply childrenOf_incl. exact Hc.
      - eapply childrenOf_incl. exact Hc. }
    destruct (@visit_total items children Hch (S (length items)) None [])
      as (ordered & E & Hnd & Hincl & _).
    - constructor.
    - intros x [].
    - simpl. lia.
    - rewrite E. eexists. split; [reflexivity|]. split.
      + rewrite positions_normalizePositions. now rewrite length_normalizePositions.
      + intros Hnodup. rewrite strip_normalizePositions. apply Permutation_map.
        now apply ordered_completed_perm. }
  split; [exact Hmain|].
  intros env st <- Hact. unfold Hierarchy.handleMoveActiveTodo. rewrite Hact.
  destruct (_ || _ || _ || _ || _)%bool; [discriminate|].
  destruct Hmain as (r & -> & _).
  destruct r as [reordered|]; [|discriminate].
  destruct (Rest.updateTodoPositions _ _ _ _ _) as [reqs [u|m]]; discriminate.
Qed.

Lemma sibling_move_rearranges_witness :
  NoDup (ids_of Examples.abcd) /\
  exists reordered,
    Hierarchy.reorderBySiblingMove Examples.abcd "B" (-1) = Some (Some reordered) /\
    Permutation (map strip reordered) (map strip Examples.abcd).
Proof.
  assert (Hnd : NoDup (ids_of Examples.abcd)) by distinct_ids.
  split; [exact Hnd|].
  destruct (proj1 (@sibling_move_rearranges Examples.abcd "B" (-1))) as (r & E & H).
  destruct r as [reordered|].
  - exists reordered. split; [exact E|]. exact (proj2 H Hnd).
  - exfalso. vm_compute in E. discriminate E.
Defined.

(** ** Moving a block of selected tasks *)

Lemma idsDiffer_refl : forall l, Outline.idsDiffer l l = false.
Proof.
  induction l as [|x l IH]; simpl; auto.
  now rewrite String.eqb_refl, IH.
Qed.

(** X15.  A block move keeps the block together and everything else in
    order: when [compactAndMoveSelection] reports a change, its result is,
    ranked by index, the unselected records in their order with the whole
    block (the selected records in list order) inserted at one place; when
    it reports none, the result is the list it was given. *)
Theorem block_move_keeps_block_together :
  forall (items : list TodoRecord) (selectedIds : list string) (activeId : string)
         (offset : Z),
    let block := Outline.blockOf items selectedIds activeId in
    let out := Outline.compactAndMoveSelection items selectedIds activeId offset in
    if snd out
    then exists before after,
           fst out = normalizePositions (before ++ block ++ after) /\
           before ++ after
           = filter (fun todo => negb (includes (ids_of block) (id todo))) items
    else fst out = items.
Proof.
  intros items selectedIds activeId offset. cbv zeta.
  unfold Outline.compactAndMoveSelection. cbv zeta.
  destruct (blockOf_filter items selectedIds activeId) as (q & Eq).
  rewrite !Eq. rewrite !stationary_filter.
  remember (filter (fun t => q (id t)) items) as block eqn:Eb.
  destruct block as [|first rest]; [reflexivity|].
  rewrite Eb. rewrite withoutBlock_stationary.
  destruct (_ =? -1)%Z; [reflexivity|].
  destruct (negb _ && negb _)%bool.
  - destruct (Outline.idsDiffer _ items); cbn [fst snd]; [|reflexivity].
    unfold spliceIn. eexists. eexists. split; [reflexivity|]. apply firstn_skipn.
  - destruct (Outline.idsDiffer _ items); cbn [fst snd]; [|reflexivity].
    unfold spliceIn. eexists. eexists. split; [reflexivity|]. apply firstn_skipn.
Qed.

Lemma filter_nil_all_false : forall (A : Type) (q : A -> bool) (l : list A),
  filter q l = [] -> forall x, In x l -> q x = false.
Proof.
  intros A q l H x Hx. destruct (q x) eqn:E; [|reflexivity].
  assert (Hin : In x (filter q l)) by (apply filter_In; auto).
  rewrite H in Hin. destruct Hin.
Qed.

Lemma filter_negb_all : forall (A : Type) (q : A -> bool) (l : list A),
  (forall x, In x l -> q x = true) -> filter (fun x => negb (q x)) l = [].
Proof.
  intros A q l H. apply filter_false. intros x Hx. now rewrite H.
Qed.

Lemma block_at_top_stays : forall block rest selectedIds activeId offset,
  block <> [] -> (offset <= 0)%Z ->
  Outline.blockOf (block ++ rest) selectedIds activeId = block ->
  Outline.compactAndMoveSelection (block ++ rest) selectedIds activeId offset
  = (block ++ rest, false).
Proof.
  intros block rest selectedIds activeId offset Hne Hoff Hblock.
  unfold Outline.compactAndMoveSelection. cbv zeta.
  destruct (blockOf_filter (block ++ rest) selectedIds activeId) as (q & Eq).
  rewrite !Eq. rewrite !stationary_filter. rewrite Eq in Hblock.
  assert (Hall : forall x, In x block -> q (id x) = true).
  { intros x Hx. rewrite <- Hblock in Hx. apply filter_In in Hx. tauto. }
  assert (Hrest : forall x, In x rest -> q (id x) = false).
  { apply filter_nil_all_false.
    rewrite filter_app, (filter_all _ block Hall) in Hblock.
    rewrite <- (app_nil_r block) in Hblock at 2. now apply app_inv_head in Hblock. }
  rewrite Hblock.
  assert (Est : filter (fun t => negb (q (id t))) (block ++ rest) = rest).
  { rewrite filter_app.
    rewrite (filter_negb_all (fun t => q (id t)) block Hall).
    now rewrite (filter_negb_none (fun t => q (id t)) rest Hrest). }
  rewrite Est.
  destruct block as [|first brest]; [congruence|].
  assert (Ea : findIndex (fun todo => id todo =? id first) ((first :: brest) ++ rest)
               = 0%Z).
  { unfold findIndex. simpl. now rewrite String.eqb_refl. }
  rewrite Ea. cbn [Z.eqb].
  assert (Ec : spliceIn rest 0 (first :: brest) = (first :: brest) ++ rest).
  { unfold spliceIn, spliceStart. simpl. reflexivity. }
  rewrite Ec.
  replace (offset >? 0)%Z with false
    by (symmetry; rewrite Z.gtb_ltb; apply Z.ltb_ge; lia).
  replace (0 >? 0)%Z with false by reflexivity.
  rewrite andb_false_r. cbn [negb andb].
  now rewrite idsDiffer_refl.
Qed.

Lemma block_at_bottom_stays : forall block rest selectedIds activeId offset,
  block <> [] -> (0 <= offset)%Z ->
  Outline.blockOf (rest ++ block) selectedIds activeId = block ->
  Outline.compactAndMoveSelection (rest ++ block) selectedIds activeId offset
  = (rest ++ block, false).
Proof.
  intros block rest selectedIds activeId offset Hne Hoff Hblock.
  unfold Outline.compactAndMoveSelection. cbv zeta.
  destruct (blockOf_filter (rest ++ block) selectedIds activeId) as (q & Eq).
  rewrite !Eq. rewrite !stationary_filter. rewrite Eq in Hblock.
  assert (Hall : forall x, In x block -> q (id x) = true).
  { intros x Hx. rewrite <- Hblock in Hx. apply filter_In in Hx. tauto. }
  assert (Hrest : forall x, In x rest -> q (id x) = false).
  { apply filter_nil_all_false.
    rewrite filter_app, (filter_all _ block Hall) in Hblock.
    rewrite <- (app_nil_l block) in Hblock at 2. now apply app_inv_tail in Hblock. }
  rewrite Hblock.
  assert (Est : filter (fun t => negb (q (id t))) (rest ++ block) = rest).
  { rewrite filter_app.
    rewrite (filter_negb_all (fun t => q (id t)) block Hall).
    rewrite (filter_negb_none (fun t => q (id t)) rest Hrest). apply app_nil_r. }
  rewrite Est.
  destruct block as [|first brest]; [congruence|].
  assert (Ea : findIndex (fun todo => id todo =? id first) (rest ++ first :: brest)
               = Z.of_nat (length rest)).
  { apply findIndex_at.
    - intros y Hy. apply String.eqb_neq. intros E.
      pose proof (Hrest y Hy) as H1. rewrite E in H1.
      rewrite (Hall first) in H1 by (now left). discriminate.
    - apply String.eqb_refl. }
  rewrite Ea.
  replace (Z.of_nat (length rest) =? -1)%Z with false by (symmetry; apply Z.eqb_neq; lia).
  assert (Ec : spliceIn rest (Z.of_nat (length rest)) (first :: brest)
               = rest ++ first :: brest).
  { pose proof (spliceIn_at rest [] (first :: brest)) as H.
    rewrite !app_nil_r in H. exact H. }
  rewrite Ec.
  replace (offset <? 0)%Z with false by (symmetry; apply Z.ltb_ge; lia).
  replace (Z.of_nat (length rest) + Z.of_nat (length (first :: brest))
           <? Z.of_nat (length (rest ++ first :: brest)))%Z with false.
  - rewrite andb_false_r. cbn [negb andb].
    now rewrite idsDiffer_refl.
  - symmetry. apply Z.ltb_ge. rewrite length_app. lia.
Qed.

(** X16.  At the edges a block does not move: when the selected records
    are the first records of the list, moving the block up leaves the list
    as it is and reports no change, and likewise moving it down when they
    are the last records; [moveFocusedSelectionByOffset] then returns
    without touching the list or the store. *)
Theorem block_move_edges :
  forall (block rest : list TodoRecord) (selectedIds : list string)
         (activeId : string),
    block <> [] ->
    (Outline.blockOf (block ++ rest) selectedIds activeId = block ->
     Outline.compactAndMoveSelection (block ++ rest) selectedIds activeId (-1)
     = (block ++ rest, false)) /\
    (Outline.blockOf (rest ++ block) selectedIds activeId = block ->
     Outline.compactAndMoveSelection (rest ++ block) selectedIds activeId 1
     = (rest ++ block, false)).
Proof.
  intros block rest selectedIds activeId Hne. split; intros H.
  - apply block_at_top_stays; auto. lia.
  - apply block_at_bottom_stays; auto. lia.
Qed.

Lemma block_move_edges_witness :
  [Examples.task "A" None 0; Examples.task "B" None 1] <> [] /\
  Outline.compactAndMoveSelection Examples.abcd ["B"; "A"] "A" (-1)
  = (Examples.abcd, false).
Proof.
  assert (Hne : [Examples.task "A" None 0; Examples.task "B" None 1] <> [])
    by discriminate.
  split; [exact Hne|].
  exact (proj1 (@block_move_edges
                  [Examples.task "A" None 0; Examples.task "B" None 1]
                  [Examples.task "C" None 2; Examples.task "D" (Some "B") 3]
                  ["B"; "A"] "A" Hne) eq_refl).
Defined.

(** ** Depths in a forest *)

Lemma depthIs_unique : forall items k d d',
  NoDup (ids_of items) -> depthIs items k d -> depthIs items k d' -> d = d'.
Proof.
  intros items k d d' Hnd H. revert d'.
  induction H as [t Hin Hp | t p d Hin Hp Hd IH]; intros d' H'.
  - inversion H' as [t' Hin' Hp' Eid | t' p' d0 Hin' Hp' Hd' Eid]; subst; auto.
    assert (t' = t) by (apply (@NoDup_ids_inj items t' t Hnd); auto).
    subst. congruence.
  - inversion H' as [t' Hin' Hp' Eid | t' p' d0 Hin' Hp' Hd' Eid]; subst.
    + assert (t' = t) by (apply (@NoDup_ids_inj items t' t Hnd); auto).
      subst. congruence.
    + assert (t' = t) by (apply (@NoDup_ids_inj items t' t Hnd); auto).
      subst. f_equal. apply IH. congruence.
Qed.

Lemma truthy_false_empty : forall p, truthy (Some p) = false -> p = "".
Proof.
  intros p H. unfold truthy in H. apply negb_false_iff in H.
  now apply String.eqb_eq in H.
Qed.

Section Forest.
Variable items : list TodoRecord.
Variable rank : string -> nat.
Hypothesis Hnd : NoDup (ids_of items).
Hypothesis Hne : noEmptyParent items.
Hypothesis Hpp : parentsPresent items.
Hypothesis Hr : ranked rank items.

Lemma getDepth_forest : forall fuel k seen cache d cache' links,
  In k (ids_of items) ->
  (forall s, In s seen -> rank k < rank s) ->
  (forall k' d', In (k', d') cache -> depthIs items k' d') ->
  Hierarchy.getDepth fuel items k seen cache = Some (d, cache', links) ->
  depthIs items k d /\
  (forall k' d', In (k', d') cache' -> depthIs items k' d').
Proof.
  induction fuel as [|fuel IH]; intros k seen cache d cache' links Hk Hseen Hc H;
    [discriminate|].
  simpl in H.
  destruct (Hierarchy.cache_get cache k) as [d0|] eqn:Ecache.
  { injection H as <- <- <-. split; [|exact Hc].
    apply Hc. now apply cache_get_In. }
  destruct (byId_get items k) as [item|] eqn:Eitem.
  2:{ exfalso. apply byId_get_None in Eitem. contradiction. }
  apply byId_get_Some in Eitem as Hitem. destruct Hitem as [Hin Hid].
  destruct (parent_id item) as [pid|] eqn:Epar.
  2:{ injection H as <- <- <-.
      assert (Hd : depthIs items k 0) by (rewrite <- Hid; now constructor).
      split; [exact Hd|]. intros k' d' [E|Hin']; [|auto]. now inversion E; subst. }
  destruct (negb (truthy (Some pid))) eqn:Etruthy.
  { exfalso. apply negb_true_iff, truthy_false_empty in Etruthy. subst pid.
    exact (Hne item Hin Epar). }
  destruct (includes seen k || negb (byId_has items pid)) eqn:Estop.
  { exfalso. apply orb_true_iff in Estop. destruct Estop as [Hs|Hh].
    - apply includes_In in Hs. specialize (Hseen k Hs). lia.
    - apply negb_true_iff in Hh.
      assert (Hp : byId_has items pid = true)
        by (apply byId_has_In; eapply Hpp; eauto).
      congruence. }
  destruct (Hierarchy.getDepth fuel items pid (k :: seen) cache)
    as [[[d1 cache1] links1]|] eqn:Erec; [|discriminate].
  injection H as <- <- <-.
  assert (Hlt : rank pid < rank k) by (rewrite <- Hid; eapply Hr; eauto).
  destruct (IH pid (k :: seen) cache d1 cache1 links1) as (Hd1 & Hc1); auto.
  - eapply Hpp; eauto.
  - intros s [<-|Hs]; [exact Hlt|]. specialize (Hseen s Hs). lia.
  - assert (Hd : depthIs items k (S d1)).
    { rewrite <- Hid. eapply depth_child; eauto. }
    split; [exact Hd|]. intros k' d' [E|Hin']; [|auto]. now inversion E; subst.
Qed.

Lemma depthLoop_forest : forall rest cache entries,
  incl rest items ->
  (forall k' d', In (k', d') cache -> depthIs items k' d') ->
  Hierarchy.depthLoop items rest cache = Some entries ->
  Forall (fun e => depthIs items (fst (fst e)) (snd (fst e))) entries.
Proof.
  induction rest as [|item rest IH]; intros cache entries Hincl Hc H;
    cbn [Hierarchy.depthLoop] in H.
  - injection H as <-. constructor.
  - destruct (Hierarchy.getDepth (S (length items)) items (id item) [] cache)
      as [[[d cache'] links]|] eqn:E; [|discriminate].
    destruct (Hierarchy.depthLoop items rest cache') as [entries'|] eqn:E';
      [|discriminate].
    injection H as <-.
    destruct (@getDepth_forest (S (length items)) (id item) [] cache d cache' links)
      as (Hd & Hc'); auto.
    + apply in_map. apply Hincl. now left.
    + intros s [].
    + constructor; [exact Hd|].
      eapply IH; eauto. intros x Hx. apply Hincl. now right.
Qed.

Lemma walkUp_forest : forall fuel c seen acc w,
  In c items ->
  (forall s, In s seen -> rank (id c) <= rank s) ->
  Outline.walkUp fuel items (Some c) seen acc = Some w ->
  exists d, w = acc + d /\ depthIs items (id c) d.
Proof.
  induction fuel as [|fuel IH]; intros c seen acc w Hin Hseen H; [discriminate|].
  simpl in H.
  destruct (parent_id c) as [pid|] eqn:Epar.
  2:{ injection H as <-. exists 0. split; [lia|now constructor]. }
  assert (Ht : truthy (Some pid) = true).
  { destruct (truthy (Some pid)) eqn:T; [reflexivity|].
    apply truthy_false_empty in T. subst pid. exfalso. exact (Hne c Hin Epar). }
  assert (Hh : byId_has items pid = true)
    by (apply byId_has_In; eapply Hpp; eauto).
  rewrite Ht, Hh in H. cbn [andb] in H.
  assert (Hlt : rank pid < rank (id c)) by (eapply Hr; eauto).
  destruct (includes seen pid) eqn:Es.
  { exfalso. apply includes_In in Es. specialize (Hseen pid Es). lia. }
  destruct (byId_get items pid) as [parent|] eqn:Eparent.
  2:{ exfalso. apply byId_get_None in Eparent. apply Eparent.
      eapply Hpp; eauto. }
  apply byId_get_Some in Eparent. destruct Eparent as [Hinp Hidp].
  destruct (IH parent (pid :: seen) (S acc) w Hinp) as (d & Ew & Hd); auto.
  - intros s [<-|Hs]; [rewrite Hidp; lia|].
    specialize (Hseen s Hs). rewrite Hidp. lia.
  - exists (S d). split; [lia|]. eapply depth_child; eauto. now rewrite <- Hidp.
Qed.

Lemma depthIs_zero_root : forall t,
  In t items -> depthIs items (id t) 0 -> parent_id t = None.
Proof.
  intros t Hin H. inversion H as [t' Hin' Hp' Eid | ]; subst.
  assert (t' = t) by (apply (@NoDup_ids_inj items t' t Hnd); auto).
  now subst.
Qed.

Lemma depthFor_forest : forall memo t d walked memo',
  In t items ->
  (forall k' d', In (k', d') memo ->
     exists d0, depthIs items k' d0 /\ d' = Nat.min d0 8) ->
  Outline.depthFor items memo (id t) = Some (d, walked, memo') ->
  (exists d0, depthIs items (id t) d0 /\ d = Nat.min d0 8) /\
  (forall k' d', In (k', d') memo' ->
     exists d0, depthIs items k' d0 /\ d' = Nat.min d0 8).
Proof.
  intros memo t d walked memo' Hin Hm H. unfold Outline.depthFor in H.
  destruct (find (fun e => fst e =? id t) memo) as [[k d1]|] eqn:E.
  - injection H as <- <- <-. split; [|exact Hm].
    apply find_some in E. destruct E as [Hin' E]. simpl in E.
    apply String.eqb_eq in E. subst k. simpl. eauto.
  - rewrite (byId_get_unique items t Hnd Hin) in H.
    destruct (Outline.walkUp (S (length items)) items (Some t) [] 0) as [w|] eqn:Ew;
      [|discriminate].
    injection H as <- <- <-.
    destruct (@walkUp_forest (S (length items)) t [] 0 w Hin) as (d0 & E0 & Hd0); auto.
    { intros s []. }
    simpl in E0. subst d0.
    assert (Ed : (if (w =? 0)%nat && truthy (parent_id t) then 1 else w) = w).
    { destruct (w =? 0)%nat eqn:Z; [|reflexivity].
      apply Nat.eqb_eq in Z. subst w.
      rewrite (@depthIs_zero_root t Hin Hd0). reflexivity. }
    rewrite Ed.
    assert (Hgood : exists d0, depthIs items (id t) d0 /\ Nat.min w 8 = Nat.min d0 8)
      by eauto.
    split; [exact Hgood|].
    intros k' d' [Eq|Hin']; [|auto]. now inversion Eq; subst.
Qed.

Lemma depthEntries_forest : forall rest memo entries,
  incl rest items ->
  (forall k' d', In (k', d') memo ->
     exists d0, depthIs items k' d0 /\ d' = Nat.min d0 8) ->
  Outline.depthEntries items rest memo = Some entries ->
  Forall (fun e => exists d0, depthIs items (fst (fst e)) d0 /\
                              snd (fst e) = Nat.min d0 8) entries.
Proof.
  induction rest as [|todo rest IH]; intros memo entries Hincl Hm H;
    cbn [Outline.depthEntries] in H.
  - injection H as <-. constructor.
  - destruct (Outline.depthFor items memo (id todo)) as [[[d walked] memo']|] eqn:E;
      [|discriminate].
    destruct (Outline.depthEntries items rest memo') as [entries'|] eqn:E';
      [|discriminate].
    injection H as <-.
    destruct (@depthFor_forest memo todo d walked memo') as (Hd & Hm'); auto.
    + apply Hincl. now left.
    + constructor; [exact Hd|].
      eapply IH; eauto. intros x Hx. apply Hincl. now right.
Qed.

End Forest.

Lemma cacheOk_nil : forall items, cacheOk items [].
Proof. intros items k d []. Qed.

Lemma memoOk_nil : forall all, memoOk all [].
Proof. intros all k d []. Qed.

Lemma entry_of_Forall : forall (P : string * nat * nat -> Prop) entries k,
  Forall P entries -> In k (map (fun e => fst (fst e)) entries) ->
  exists d links, entry_get entries k = Some d /\ P (k, d, links).
Proof.
  intros P entries k HP Hk.
  destruct (entry_get_In entries k Hk) as (d & links & E & Hin).
  exists d, links. split; [exact E|].
  rewrite Forall_forall in HP. now apply HP.
Qed.

(** X17.  In a forest (unique identifiers, every parent reference names a
    record of the list, none is the empty string and there is no cycle)
    both depth computations end, the depth that [buildDepthMap] gives a
    record with a parent is one more than the depth it gives the parent,
    and [depthByTodoId] gives every record the same depth cut at 8. *)
Theorem depth_is_one_more_than_parent :
  forall (items : list TodoRecord) (rank : string -> nat),
    NoDup (ids_of items) -> noEmptyParent items -> parentsPresent items ->
    ranked rank items ->
    exists entriesH entriesO,
      Hierarchy.buildDepthMap items = Some entriesH /\
      Outline.depthByTodoId items = Some entriesO /\
      (forall t, In t items ->
         exists d, entry_get entriesH (id t) = Some d /\
                   entry_get entriesO (id t) = Some (Nat.min d 8)) /\
      (forall t p, In t items -> parent_id t = Some p ->
         exists dp, entry_get entriesH p = Some dp /\
                    entry_get entriesH (id t) = Some (S dp)).
Proof.
  intros items rank Hnd Hne Hpp Hr.
  destruct (@depthLoop_total items items [] (cacheOk_nil items))
    as (eH & EH & HkH & _ & _).
  destruct (@depthEntries_total items items [] (memoOk_nil items))
    as (eO & EO & HkO & _ & _).
  assert (FH : Forall (fun e => depthIs items (fst (fst e)) (snd (fst e))) eH).
  { apply depthLoop_forest with (rank := rank) (rest := items) (cache := []); auto.
    - apply incl_refl.
    - intros k d []. }
  assert (FO : Forall (fun e => exists d0, depthIs items (fst (fst e)) d0 /\
                                           snd (fst e) = Nat.min d0 8) eO).
  { apply depthEntries_forest with (rank := rank) (rest := items) (memo := []); auto.
    - apply incl_refl.
    - intros k d []. }
  assert (HH : forall k, In k (ids_of items) ->
             exists d, entry_get eH k = Some d /\ depthIs items k d).
  { intros k Hk. rewrite <- HkH in Hk.
    destruct (entry_of_Forall _ FH Hk) as (d & links & E & Hd). eauto. }
  assert (HO : forall k, In k (ids_of items) ->
             exists d d0, entry_get eO k = Some d /\ depthIs items k d0 /\
                          d = Nat.min d0 8).
  { intros k Hk. rewrite <- HkO in Hk.
    destruct (entry_of_Forall _ FO Hk) as (d & links & E & d0 & Hd & Emin). eauto. }
  exists eH, eO. split; [exact EH|]. split; [exact EO|]. split.
  - intros t Hin.
    assert (Hk : In (id t) (ids_of items)) by now apply in_map.
    destruct (HH _ Hk) as (d & E & Hd).
    destruct (HO _ Hk) as (d' & d0 & E' & Hd0 & ->).
    exists d. split; [exact E|].
    rewrite E'. now rewrite (depthIs_unique Hnd Hd Hd0).
  - intros t p Hin Hp.
    assert (Hk : In (id t) (ids_of items)) by now apply in_map.
    assert (Hkp : In p (ids_of items)) by (eapply Hpp; eauto).
    destruct (HH _ Hkp) as (dp & Ep & Hdp).
    destruct (HH _ Hk) as (d & E & Hd).
    exists dp. split; [exact Ep|].
    assert (Hd' : depthIs items (id t) (S dp)) by (eapply depth_child; eauto).
    rewrite E. f_equal. exact (depthIs_unique Hnd Hd Hd').
Qed.

Lemma chain_forest :
  NoDup (ids_of Examples.chain) /\ noEmptyParent Examples.chain /\
  parentsPresent Examples.chain /\
  ranked (fun k => if k =? "P" then 2 else if k =? "Q" then 1 else 0) Examples.chain.
Proof.
  split; [distinct_ids|]. split; [|split].
  - intros t Hin. simpl in Hin.
    destruct Hin as [<-|[<-|[<-|[<-|[]]]]]; simpl; discriminate.
  - intros t pid Hin Hp. simpl in Hin.
    destruct Hin as [<-|[<-|[<-|[<-|[]]]]]; simpl in Hp; try discriminate;
      injection Hp as <-; simpl; auto.
  - intros t pid Hin Hp. simpl in Hin.
    destruct Hin as [<-|[<-|[<-|[<-|[]]]]]; simpl in Hp; try discriminate;
      injection Hp as <-; simpl; lia.
Qed.

Lemma depth_is_one_more_than_parent_witness :
  exists entriesH entriesO,
    Hierarchy.buildDepthMap Examples.chain = Some entriesH /\
    Outline.depthByTodoId Examples.chain = Some entriesO /\
    (forall t, In t Examples.chain ->
       exists d, entry_get entriesH (id t) = Some d /\
                 entry_get entriesO (id t) = Some (Nat.min d 8)) /\
    (forall t p, In t Examples.chain -> parent_id t = Some p ->
       exists dp, entry_get entriesH p = Some dp /\
                  entry_get entriesH (id t) = Some (S dp)).
Proof.
  exact (@depth_is_one_more_than_parent Examples.chain
           (fun k => if k =? "P" then 2 else if k =? "Q" then 1 else 0)
           (proj1 chain_forest) (proj1 (proj2 chain_forest))
           (proj1 (proj2 (proj2 chain_forest))) (proj2 (proj2 (proj2 chain_forest)))).
Defined.

Lemma getDepth_dangling : forall fuel items k seen cache d cache' links,
  (forall k' d', In (k', d') cache -> dangling items k' -> d' = 0) ->
  Hierarchy.getDepth fuel items k seen cache = Some (d, cache', links) ->
  (dangling items k -> d = 0) /\
  (forall k' d', In (k', d') cache' -> dangling items k' -> d' = 0).
Proof.
  induction fuel as [|fuel IH]; intros items k seen cache d cache' links Hc H;
    [discriminate|].
  simpl in H.
  assert (Hzero : forall c0, (forall k' d', In (k', d') c0 -> dangling items k' -> d' = 0) ->
            forall k' d', In (k', d') ((k, 0) :: c0) -> dangling items k' -> d' = 0).
  { intros c0 H0 k' d' [E|Hin] Hd; [now inversion E|eauto]. }
  destruct (Hierarchy.cache_get cache k) as [d0|] eqn:Ecache.
  { injection H as <- <- <-. split; [|exact Hc].
    intros Hd. apply cache_get_In in Ecache. eauto. }
  destruct (byId_get items k) as [item|] eqn:Eitem.
  2:{ injection H as <- <- <-. split; [reflexivity|now apply Hzero]. }
  destruct (parent_id item) as [pid|] eqn:Epar.
  2:{ injection H as <- <- <-. split; [reflexivity|now apply Hzero]. }
  destruct (negb (truthy (Some pid))); [injection H as <- <- <-; split; [reflexivity|now apply Hzero]|].
  destruct (includes seen k || negb (byId_has items pid)) eqn:Estop;
    [injection H as <- <- <-; split; [reflexivity|now apply Hzero]|].
  apply orb_false_iff in Estop. destruct Estop as [_ Hhas].
  apply negb_false_iff in Hhas.
  assert (Hnot : ~ dangling items k).
  { intros (t & p & Et & Ep & _ & Eh). rewrite Eitem in Et. injection Et as <-.
    rewrite Epar in Ep. injection Ep as <-. congruence. }
  destruct (Hierarchy.getDepth fuel items pid (k :: seen) cache)
    as [[[d1 cache1] links1]|] eqn:Erec; [|discriminate].
  injection H as <- <- <-.
  destruct (IH items pid (k :: seen) cache d1 cache1 links1 Hc Erec) as (_ & Hc1).
  split; [intros Hd; contradiction|].
  intros k' d' [E|Hin] Hd; [|eauto]. inversion E; subst. contradiction.
Qed.

Lemma depthLoop_dangling : forall items rest cache entries,
  (forall k' d', In (k', d') cache -> dangling items k' -> d' = 0) ->
  Hierarchy.depthLoop items rest cache = Some entries ->
  Forall (fun e => dangling items (fst (fst e)) -> snd (fst e) = 0) entries.
Proof.
  induction rest as [|item rest IH]; intros cache entries Hc H;
    cbn [Hierarchy.depthLoop] in H.
  - injection H as <-. constructor.
  - destruct (Hierarchy.getDepth (S (length items)) items (id item) [] cache)
      as [[[d cache'] links]|] eqn:E; [|discriminate].
    destruct (Hierarchy.depthLoop items rest cache') as [entries'|] eqn:E';
      [|discriminate].
    injection H as <-.
    destruct (@getDepth_dangling (S (length items)) items (id item) [] cache d cache'
                links Hc E) as (Hd & Hc').
    constructor; [exact Hd|]. eapply IH; eauto.
Qed.

Lemma depthFor_dangling : forall all memo todoId d walked memo',
  (forall k' d', In (k', d') memo -> dangling all k' -> d' = 1) ->
  Outline.depthFor all memo todoId = Some (d, walked, memo') ->
  (dangling all todoId -> d = 1) /\
  (forall k' d', In (k', d') memo' -> dangling all k' -> d' = 1).
Proof.
  intros all memo todoId d walked memo' Hm H. unfold Outline.depthFor in H.
  destruct (find (fun e => fst e =? todoId) memo) as [[k d1]|] eqn:E.
  - injection H as <- <- <-. split; [|exact Hm].
    apply find_some in E. destruct E as [Hin E]. simpl in E.
    apply String.eqb_eq in E. subst k. simpl. eauto.
  - destruct (Outline.walkUp (S (length all)) all (byId_get all todoId) [] 0)
      as [w|] eqn:Ew; [|discriminate].
    injection H as <- <- <-.
    assert (Hd : dangling all todoId ->
              Nat.min (if (w =? 0)%nat &&
                          truthy match byId_get all todoId with
                                 | Some t => parent_id t
                                 | None => None
                                 end
                       then 1 else w) 8 = 1).
    { intros (t & p & Et & Ep & Tp & Eh). rewrite Et in *. rewrite Ep.
      simpl in Ew. rewrite Ep, Tp, Eh in Ew. simpl in Ew.
      injection Ew as <-. rewrite Tp. reflexivity. }
    split; [exact Hd|].
    intros k' d' [Eq|Hin] Hdk; [|eauto]. inversion Eq; subst. auto.
Qed.

Lemma depthEntries_dangling : forall all rest memo entries,
  (forall k' d', In (k', d') memo -> dangling all k' -> d' = 1) ->
  Outline.depthEntries all rest memo = Some entries ->
  Forall (fun e => dangling all (fst (fst e)) -> snd (fst e) = 1) entries.
Proof.
  induction rest as [|todo rest IH]; intros memo entries Hm H;
    cbn [Outline.depthEntries] in H.
  - injection H as <-. constructor.
  - destruct (Outline.depthFor all memo (id todo)) as [[[d walked] memo']|] eqn:E;
      [|discriminate].
    destruct (Outline.depthEntries all rest memo') as [entries'|] eqn:E';
      [|discriminate].
    injection H as <-.
    destruct (@depthFor_dangling all memo (id todo) d walked memo' Hm E) as (Hd & Hm').
    constructor; [exact Hd|]. eapply IH; eauto.
Qed.

(** X18.  The two variants disagree on a record whose parent is not in the
    list: [buildDepthMap] shows it at depth 0, as a top-level record, and
    [depthByTodoId] at depth 1, so that the nesting stays visible. *)
Theorem dangling_parent_depth :
  forall (items : list TodoRecord) (k : string) (t : TodoRecord) (p : string),
    byId_get items k = Some t -> parent_id t = Some p -> p <> "" ->
    ~ In p (ids_of items) ->
    exists entriesH entriesO,
      Hierarchy.buildDepthMap items = Some entriesH /\
      Outline.depthByTodoId items = Some entriesO /\
      entry_get entriesH k = Some 0 /\
      entry_get entriesO k = Some 1.
Proof.
  intros items k t p Et Ep Hne Hnot.
  assert (Hd : dangling items k).
  { exists t, p. repeat split; auto.
    - unfold truthy. apply String.eqb_neq in Hne. now rewrite Hne.
    - destruct (byId_has items p) eqn:B; [|reflexivity].
      apply byId_has_In in B. contradiction. }
  assert (Hk : In k (ids_of items)).
  { apply byId_get_Some in Et. destruct Et as [Hin <-]. now apply in_map. }
  destruct (@depthLoop_total items items [] (cacheOk_nil items))
    as (eH & EH & HkH & _ & _).
  destruct (@depthEntries_total items items [] (memoOk_nil items))
    as (eO & EO & HkO & _ & _).
  exists eH, eO. split; [exact EH|]. split; [exact EO|]. split.
  - assert (F : Forall (fun e => dangling items (fst (fst e)) -> snd (fst e) = 0) eH).
    { eapply depthLoop_dangling; [|exact EH]. intros k' d' []. }
    rewrite <- HkH in Hk.
    destruct (entry_of_Forall _ F Hk) as (d & links & E & Hz).
    simpl in Hz. now rewrite E, (Hz Hd).
  - assert (F : Forall (fun e => dangling items (fst (fst e)) -> snd (fst e) = 1) eO).
    { eapply depthEntries_dangling; [|exact EO]. intros k' d' []. }
    rewrite <- HkO in Hk.
    destruct (entry_of_Forall _ F Hk) as (d & links & E & Hz).
    simpl in Hz. now rewrite E, (Hz Hd).
Qed.

Lemma dangling_parent_depth_witness :
  exists entriesH entriesO,
    Hierarchy.buildDepthMap [Examples.task "C" (Some "gone") 0] = Some entriesH /\
    Outline.depthByTodoId [Examples.task "C" (Some "gone") 0] = Some entriesO /\
    entry_get entriesH "C" = Some 0 /\
    entry_get entriesO "C" = Some 1.
Proof.
  apply (@dangling_parent_depth [Examples.task "C" (Some "gone") 0] "C"
           (Examples.task "C" (Some "gone") 0) "gone").
  - reflexivity.
  - reflexivity.
  - discriminate.
  - simpl. intuition discriminate.
Defined.

(** ** The visible list of the hierarchy variant *)

Lemma ancestorIn_key : forall l k a, ancestorIn l k a -> In k (ids_of l).
Proof.
  intros l k a H. induction H as [t pid Hin Hp | k p q H1 IH1 H2 IH2].
  - now apply in_map.
  - exact IH1.
Qed.

Lemma ancestorIn_first : forall l k a,
  NoDup (ids_of l) -> ancestorIn l k a ->
  forall c, In c l -> id c = k ->
    exists p, parent_id c = Some p /\ (a = p \/ ancestorIn l p a).
Proof.
  intros l k a Hnd H. induction H as [t pid Hin Hp | k p q H1 IH1 H2 IH2];
    intros c Hc Ec.
  - assert (c = t) by (apply (@NoDup_ids_inj l c t Hnd); auto). subst c.
    exists pid. auto.
  - destruct (IH1 c Hc Ec) as (p0 & Hp0 & [->|Hup]).
    + exists p0. auto.
    + exists p0. split; [exact Hp0|]. right. eapply anc_up; eauto.
Qed.

Section Visible.
Variable filtered : list TodoRecord.
Variable collapsed : list string.
Variable rank : string -> nat.
Hypothesis Hnd : NoDup (ids_of filtered).
Hypothesis Hne : noEmptyParent filtered.
Hypothesis Hr : ranked rank filtered.

Lemma shownUnder_spec : forall fuel c,
  In c filtered -> rank (id c) < fuel ->
  exists b,
    HierarchyView.shownUnder fuel filtered collapsed (parent_id c) = Some b /\
    (b = true <-> forall a, ancestorIn filtered (id c) a -> ~ In a collapsed).
Proof.
  induction fuel as [|fuel IH]; intros c Hc Hfuel; [lia|].
  simpl.
  destruct (parent_id c) as [p|] eqn:Ep.
  2:{ exists true. split; [reflexivity|]. split; [|reflexivity].
      intros _ a Ha.
      destruct (ancestorIn_first Hnd Ha c Hc eq_refl) as (p & Hp & _). congruence. }
  assert (Ht : truthy (Some p) = true).
  { destruct (truthy (Some p)) eqn:T; [reflexivity|].
    apply truthy_false_empty in T. subst p. exfalso. exact (Hne c Hc Ep). }
  rewrite Ht. cbn [negb].
  destruct (includes collapsed p) eqn:Ec.
  { exists false. split; [reflexivity|]. split; [discriminate|].
    intros H. exfalso. apply includes_In in Ec.
    apply (H p); [|exact Ec]. now constructor. }
  apply includes_not_In in Ec.
  destruct (byId_get filtered p) as [parent|] eqn:Eparent.
  2:{ exists true. split; [reflexivity|]. split; [|reflexivity].
      intros _ a Ha.
      destruct (ancestorIn_first Hnd Ha c Hc eq_refl) as (p' & Hp' & [->|Hup]).
      - congruence.
      - exfalso. apply ancestorIn_key in Hup.
        apply byId_get_None in Eparent. congruence. }
  apply byId_get_Some in Eparent. destruct Eparent as [Hinp Hidp].
  assert (Hlt : rank p < rank (id c)) by (eapply Hr; eauto).
  destruct (IH parent Hinp) as (b & Eb & Hb).
  { rewrite Hidp. lia. }
  exists b. split; [exact Eb|]. rewrite Hb. rewrite Hidp. split.
  - intros H a Ha.
    destruct (ancestorIn_first Hnd Ha c Hc eq_refl) as (p' & Hp' & [->|Hup]).
    + congruence.
    + apply H. congruence.
  - intros H a Ha. apply H. eapply anc_up; [|exact Ha]. now constructor.
Qed.

Lemma filterShown_spec : forall fuel rest,
  incl rest filtered ->
  (forall c, In c rest -> rank (id c) < fuel) ->
  exists visible,
    HierarchyView.filterShown fuel filtered collapsed rest = Some visible /\
    visible
    = filter (fun t => match HierarchyView.shownUnder fuel filtered collapsed
                               (parent_id t) with
                       | Some true => true
                       | _ => false
                       end) rest /\
    (forall t, In t visible <->
               In t rest /\ forall a, ancestorIn filtered (id t) a -> ~ In a collapsed).
Proof.
  intros fuel rest. induction rest as [|todo rest IH]; intros Hincl Hfuel.
  - exists []. split; [reflexivity|]. split; [reflexivity|].
    intros t. simpl. tauto.
  - cbn [HierarchyView.filterShown].
    destruct (@shownUnder_spec fuel todo) as (b & Eb & Hb).
    { apply Hincl. now left. }
    { apply Hfuel. now left. }
    destruct IH as (tail & Et & Ek & Htail).
    { intros x Hx. apply Hincl. now right. }
    { intros c Hc. apply Hfuel. now right. }
    rewrite Et. cbn [filter]. rewrite Eb, <- Ek.
    eexists. split; [reflexivity|]. split; [destruct b; reflexivity|].
    intros t. destruct b.
    + simpl. rewrite Htail. split.
      * intros [<-|[Hin Ha]]; [|tauto]. split; [now left|]. now apply Hb.
      * intros [[<-|Hin] Ha]; [now left|right; tauto].
    + rewrite Htail. split.
      * intros [Hin Ha]. split; [now right|exact Ha].
      * intros [[<-|Hin] Ha]; [|tauto].
        exfalso. assert (false = true) by (apply Hb; exact Ha). discriminate.
Qed.

End Visible.

Lemma shownUnder_mono : forall fuel fuel' filtered collapsed p b,
  fuel <= fuel' ->
  HierarchyView.shownUnder fuel filtered collapsed p = Some b ->
  HierarchyView.shownUnder fuel' filtered collapsed p = Some b.
Proof.
  induction fuel as [|fuel IH]; intros fuel' filtered collapsed p b Hle H;
    [discriminate|].
  destruct fuel' as [|fuel']; [lia|].
  simpl in *. destruct p as [p|]; [|exact H].
  destruct (negb (truthy (Some p))); [exact H|].
  destruct (includes collapsed p); [exact H|].
  destruct (byId_get filtered p) as [parent|]; [|exact H].
  apply IH; [lia|exact H].
Qed.

(** X19.  In a list with unique identifiers, no empty parent reference and
    no cycle, the loop of [visibleTodos] ends for every record, and the
    visible list is the filtered list, in its order, without the records
    that have a collapsed ancestor: a record is visible exactly when no
    identifier reached from it along parent references is collapsed.  A
    collapsed record itself stays visible, and with nothing collapsed
    everything is. *)
Theorem visible_iff_no_collapsed_ancestor :
  forall (filtered : list TodoRecord) (collapsed : list string)
         (rank : string -> nat),
    NoDup (ids_of filtered) -> noEmptyParent filtered -> ranked rank filtered ->
    exists fuel0 visible,
      (forall fuel, fuel0 <= fuel ->
         HierarchyView.visibleTodos fuel filtered collapsed = Some visible) /\
      (exists keep, visible = filter keep filtered) /\
      (forall t, In t visible <->
         In t filtered /\
         forall a, ancestorIn filtered (id t) a -> ~ In a collapsed) /\
      (collapsed = [] -> visible = filtered).
Proof.
  intros filtered collapsed rank Hnd Hne Hr.
  set (fuel0 := S (list_max (map rank (ids_of filtered)))).
  assert (Hfuel : forall fuel, fuel0 <= fuel ->
            forall c, In c filtered -> rank (id c) < fuel).
  { intros fuel Hle c Hc.
    assert (rank (id c) <= list_max (map rank (ids_of filtered))).
    { apply list_max_ge. apply in_map. now apply in_map. }
    unfold fuel0 in Hle. lia. }
  destruct (@filterShown_spec filtered collapsed rank Hnd Hne Hr fuel0 filtered)
    as (visible & E & Ek & Hiff).
  { apply incl_refl. }
  { apply Hfuel. lia. }
  exists fuel0, visible. split; [|split; [|split]].
  - intros fuel Hle.
    destruct (@filterShown_spec filtered collapsed rank Hnd Hne Hr fuel filtered)
      as (visible' & E' & Ek' & _).
    { apply incl_refl. }
    { now apply Hfuel. }
    unfold HierarchyView.visibleTodos. rewrite E'. f_equal.
    rewrite Ek, Ek'. apply filter_ext_in. intros t Ht.
    destruct (@shownUnder_spec filtered collapsed rank Hnd Hne Hr fuel0 t Ht)
      as (b & Eb & _).
    { apply Hfuel; [lia|exact Ht]. }
    rewrite Eb. now rewrite (shownUnder_mono _ _ _ Hle Eb).
  - eexists. exact Ek.
  - exact Hiff.
  - intros ->. rewrite Ek. apply filter_all. intros t Ht.
    assert (Hin : In t visible).
    { apply Hiff. split; [exact Ht|]. intros a _ []. }
    rewrite Ek in Hin. apply filter_In in Hin. tauto.
Qed.

Lemma family_forest :
  NoDup (ids_of Examples.family) /\ noEmptyParent Examples.family /\
  ranked Examples.familyRank Examples.family.
Proof.
  split; [distinct_ids|]. split.
  - intros t Hin. simpl in Hin. destruct Hin as [<-|[<-|[]]]; simpl; discriminate.
  - intros t pid Hin Hp. simpl in Hin.
    destruct Hin as [<-|[<-|[]]]; simpl in Hp; try discriminate.
    injection Hp as <-. unfold Examples.familyRank. simpl. lia.
Qed.

Lemma visible_iff_no_collapsed_ancestor_witness :
  exists fuel0 visible,
    (forall fuel, fuel0 <= fuel ->
       HierarchyView.visibleTodos fuel Examples.family ["P"] = Some visible) /\
    (exists keep, visible = filter keep Examples.family) /\
    (forall t, In t visible <->
       In t Examples.family /\
       forall a, ancestorIn Examples.family (id t) a -> ~ In a ["P"]) /\
    (["P"] = [] -> visible = Examples.family).
Proof.
  exact (@visible_iff_no_collapsed_ancestor Examples.family ["P"] Examples.familyRank
           (proj1 family_forest) (proj1 (proj2 family_forest))
           (proj2 (proj2 family_forest))).
Defined.

(** ** The selection keys of the hierarchy variant *)

Lemma indexOf_cases : forall (ids : list string) (k : string),
  (JsIndex.indexOf ids k = (-1)%Z /\ ~ In k ids) \/
  (exists i, JsIndex.indexOf ids k = Z.of_nat i /\ nth_error ids i = Some k).
Proof.
  intros ids k. unfold JsIndex.indexOf.
  destruct (findIndex_cases (fun x => x =? k) ids) as [E|(a & x & b & El & Hx & _ & E)].
  - left. split; [exact E|]. intros Hin.
    destruct (@findIndexFrom_found _ (fun x => x =? k) ids 0 k Hin (String.eqb_refl k))
      as (a & y & b & _ & _ & _ & E').
    unfold findIndex in E. rewrite E in E'. lia.
  - right. exists (length a). split; [exact E|].
    apply String.eqb_eq in Hx. subst x ids. apply nth_error_app_len.
Qed.

Lemma at_nat : forall (A : Type) (l : list A) (i : nat),
  JsIndex.at_ l (Z.of_nat i) = nth_error l i.
Proof.
  intros A l i. unfold JsIndex.at_.
  replace (Z.of_nat i <? 0)%Z with false by (symmetry; apply Z.ltb_ge; lia).
  now rewrite Nat2Z.id.
Qed.

Lemma slice_between : forall (A : Type) (l : list A) (s e : nat),
  s <= e -> e < length l ->
  JsIndex.slice l (Z.of_nat s) (Z.of_nat e + 1) = firstn (S (e - s)) (skipn s l).
Proof.
  intros A l s e Hse He. unfold JsIndex.slice.
  replace (Z.of_nat s <? 0)%Z with false by (symmetry; apply Z.ltb_ge; lia).
  replace (Z.of_nat e + 1 <? 0)%Z with false by (symmetry; apply Z.ltb_ge; lia).
  rewrite Z.min_l by lia. rewrite Z.min_l by lia.
  rewrite Nat2Z.id. f_equal. lia.
Qed.

Lemma segment_facts : forall (A : Type) (l : list A) (s e : nat),
  s <= e -> e < length l ->
  let seg := firstn (S (e - s)) (skipn s l) in
  l = firstn s l ++ seg ++ skipn (S e) l /\
  length seg = S (e - s) /\
  (forall i, s <= i -> i <= e -> nth_error seg (i - s) = nth_error l i).
Proof.
  intros A l s e Hse He seg.
  assert (Hlen : length seg = S (e - s)).
  { unfold seg. rewrite length_firstn, length_skipn. lia. }
  split; [|split; [exact Hlen|]].
  - unfold seg.
    replace (skipn (S e) l) with (skipn (S (e - s)) (skipn s l)).
    + rewrite firstn_skipn. now rewrite firstn_skipn.
    + rewrite skipn_skipn. f_equal. lia.
  - intros i Hsi Hie. unfold seg.
    rewrite nth_error_firstn.
    replace (i - s <? S (e - s))%nat with true by (symmetry; apply Nat.ltb_lt; lia).
    rewrite nth_error_skipn. f_equal. lia.
Qed.

(** X20.  Shift with an arrow key always selects one run of neighbouring
    visible tasks: when something is visible, the new active task and the
    anchor are visible, the selected range is a contiguous part of the
    visible list that has the anchor at one end and the active task at the
    other, and an anchor that is still visible is kept. *)
Theorem shift_arrow_selects_a_run :
  forall (visibleIds : list string) (active anchor : option string) (direction : Z),
    visibleIds <> [] ->
    exists next anch range before after,
      HierarchyView.extendSelection visibleIds active anchor direction
      = Some (Some next, Some anch, range) /\
      visibleIds = before ++ range ++ after /\
      ((nth_error range 0 = Some anch /\
        nth_error range (length range - 1) = Some next) \/
       (nth_error range 0 = Some next /\
        nth_error range (length range - 1) = Some anch)) /\
      (forall a, anchor = Some a -> a <> "" -> In a visibleIds -> anch = a).
Proof.
  intros visibleIds active anchor direction Hne.
  unfold HierarchyView.extendSelection.
  assert (Hlen : 0 < length visibleIds).
  { destruct visibleIds; [congruence|simpl; lia]. }
  replace (length visibleIds =? 0)%nat with false
    by (symmetry; apply Nat.eqb_neq; lia).
  set (len := Z.of_nat (length visibleIds)).
  set (initialIndex := JsIndex.indexOf visibleIds
                         match active with Some a => a | None => "" end).
  set (currentIndex := if (initialIndex =? -1)%Z
                       then (if (direction <? 0)%Z then len - 1 else 0)%Z
                       else initialIndex).
  assert (Hcur : exists c, currentIndex = Z.of_nat c /\ c < length visibleIds).
  { unfold currentIndex.
    destruct (indexOf_cases visibleIds match active with Some a => a | None => "" end)
      as [[E _]|(i & E & Hi)]; fold initialIndex in E; rewrite E.
    - rewrite Z.eqb_refl. destruct (direction <? 0)%Z.
      + exists (length visibleIds - 1). unfold len. split; lia.
      + exists 0. split; [reflexivity|lia].
    - replace (Z.of_nat i =? -1)%Z with false by (symmetry; apply Z.eqb_neq; lia).
      exists i. split; [reflexivity|]. apply nth_error_Some. congruence. }
  destruct Hcur as (c & Ec & Hc). rewrite Ec.
  set (nextIndex := Z.max 0 (Z.min (len - 1) (Z.of_nat c + direction))).
  assert (Hnext : exists n, nextIndex = Z.of_nat n /\ n < length visibleIds).
  { exists (Z.to_nat nextIndex).
    assert (0 <= nextIndex < len)%Z by (unfold nextIndex, len; lia).
    unfold len in *. split; [now rewrite Z2Nat.id by lia|].
    apply Nat2Z.inj_lt. rewrite Z2Nat.id by lia. lia. }
  destruct Hnext as (n & En & Hn). rewrite En.
  destruct (nth_error visibleIds n) as [next|] eqn:Enext.
  2:{ apply nth_error_None in Enext. lia. }
  destruct (nth_error visibleIds c) as [cur|] eqn:Ecur.
  2:{ apply nth_error_None in Ecur. lia. }
  set (anchorId := match anchor with
                   | Some a => if truthy (Some a) && includes visibleIds a
                               then Some a else JsIndex.at_ visibleIds (Z.of_nat c)
                   | None => JsIndex.at_ visibleIds (Z.of_nat c)
                   end).
  assert (Hanch : exists anch, anchorId = Some anch /\ In anch visibleIds /\
                    (forall a, anchor = Some a -> a <> "" -> In a visibleIds -> anch = a)).
  { unfold anchorId. rewrite at_nat, Ecur.
    assert (Hcin : In cur visibleIds) by (eapply nth_error_In; eauto).
    destruct anchor as [a|].
    - destruct (truthy (Some a) && includes visibleIds a) eqn:T.
      + apply andb_true_iff in T. destruct T as [_ T]. apply includes_In in T.
        exists a. repeat split; auto. intros a' E _ _. congruence.
      + exists cur. repeat split; auto. intros a' E Hne' Hin'.
        injection E as <-. exfalso.
        apply andb_false_iff in T. destruct T as [T|T].
        * apply truthy_false_empty in T. contradiction.
        * apply includes_not_In in T. contradiction.
    - exists cur. repeat split; auto. discriminate. }
  destruct Hanch as (anch & Ea & Hain & Hkeep). rewrite Ea, at_nat, Enext.
  destruct (indexOf_cases visibleIds anch) as [[_ Hnot]|(a & Eai & Hai)];
    [contradiction|].
  rewrite Eai.
  assert (Ha : a < length visibleIds) by (apply nth_error_Some; congruence).
  rewrite <- Nat2Z.inj_min, <- Nat2Z.inj_max.
  assert (Hmm : Nat.min a n <= Nat.max a n) by lia.
  assert (Hmx : Nat.max a n < length visibleIds) by lia.
  rewrite (slice_between visibleIds Hmm Hmx).
  destruct (segment_facts visibleIds Hmm Hmx) as (Esplit & Elen & Hnth).
  exists next, anch, (firstn (S (Nat.max a n - Nat.min a n)) (skipn (Nat.min a n) visibleIds)),
         (firstn (Nat.min a n) visibleIds), (skipn (S (Nat.max a n)) visibleIds).
  split; [reflexivity|]. split; [exact Esplit|]. split; [|exact Hkeep].
  rewrite Elen.
  replace (S (Nat.max a n - Nat.min a n) - 1) with (Nat.max a n - Nat.min a n) by lia.
  pose proof (Hnth (Nat.min a n)) as Hlo. rewrite Nat.sub_diag in Hlo.
  pose proof (Hnth (Nat.max a n)) as Hhi.
  destruct (Nat.le_gt_cases a n) as [Hle|Hgt].
  - left. rewrite Hlo, Hhi by lia.
    rewrite Nat.min_l, Nat.max_r by lia. auto.
  - right. rewrite Hlo, Hhi by lia.
    rewrite Nat.min_r, Nat.max_l by lia. auto.
Qed.

Lemma shift_arrow_selects_a_run_witness :
  ["a"; "b"; "c"; "d"] <> [] /\
  exists next anch range before after,
    HierarchyView.extendSelection ["a"; "b"; "c"; "d"] (Some "c") (Some "b") 1
    = Some (Some next, Some anch, range) /\
    ["a"; "b"; "c"; "d"] = before ++ range ++ after /\
    ((nth_error range 0 = Some anch /\
      nth_error range (length range - 1) = Some next) \/
     (nth_error range 0 = Some next /\
      nth_error range (length range - 1) = Some anch)) /\
    (forall a, Some "b" = Some a -> a <> "" -> In a ["a"; "b"; "c"; "d"] -> anch = a).
Proof.
  assert (Hne : ["a"; "b"; "c"; "d"] <> []) by discriminate.
  split; [exact Hne|].
  exact (@shift_arrow_selects_a_run ["a"; "b"; "c"; "d"] (Some "c") (Some "b") 1 Hne).
Defined.

Lemma at_in_range : forall (A : Type) (l : list A) (i : Z),
  (0 <= i < Z.of_nat (length l))%Z ->
  exists x, JsIndex.at_ l i = Some x /\ In x l.
Proof.
  intros A l i Hi. rewrite <- (Z2Nat.id i) by lia. rewrite at_nat.
  destruct (nth_error l (Z.to_nat i)) as [x|] eqn:E.
  - exists x. split; [reflexivity|]. eapply nth_error_In; eauto.
  - apply nth_error_None in E. lia.
Qed.

Lemma findIndex_range : forall (A : Type) (p : A -> bool) (l : list A),
  findIndex p l = (-1)%Z \/ (0 <= findIndex p l < Z.of_nat (length l))%Z.
Proof.
  intros A p l.
  destruct (findIndex_cases p l) as [E|(a & x & b & El & _ & _ & E)]; [now left|].
  right. rewrite E, El, length_app. simpl. lia.
Qed.

(** X21.  A plain arrow key drops the selection and lands on something
    that is on screen: after ArrowUp or ArrowDown nothing is selected, there
    is no anchor, the list is untouched, and the active identifier is the
    new-task row or the identifier of a visible task. *)
Theorem plain_arrow_lands_on_visible :
  forall (visible : list TodoRecord) (up : bool) (st : AppState),
    let st' := HierarchyView.moveActive visible up st in
    selectedTodoIds st' = [] /\ selectionAnchorId st' = None /\
    todos st' = todos st /\
    (activeTodoId st' = Some Hierarchy.NEW_TASK_ACTIVE_ID \/
     exists t, In t visible /\ activeTodoId st' = Some (id t)).
Proof.
  intros visible up st. cbv zeta. unfold HierarchyView.moveActive. cbv zeta.
  set (base := if (1 <? length (selectedTodoIds st))%nat
                  && truthy (selectionAnchorId st)
                  && negb (opt_eqb (selectionAnchorId st)
                                   (Some Hierarchy.NEW_TASK_ACTIVE_ID))
               then selectionAnchorId st else activeTodoId st).
  assert (Hbase : opt_eqb base (Some Hierarchy.NEW_TASK_ACTIVE_ID) = true ->
            activeTodoId st = Some Hierarchy.NEW_TASK_ACTIVE_ID).
  { unfold base. intros H.
    destruct ((1 <? length (selectedTodoIds st))%nat && truthy (selectionAnchorId st)
              && negb (opt_eqb (selectionAnchorId st)
                               (Some Hierarchy.NEW_TASK_ACTIVE_ID))) eqn:M.
    - apply andb_true_iff in M. destruct M as [_ M]. rewrite H in M. discriminate.
    - now apply opt_eqb_eq in H. }
  assert (Hat : forall i, (0 <= i < Z.of_nat (length visible))%Z ->
            exists t, In t visible /\
                      option_map id (JsIndex.at_ visible i) = Some (id t)).
  { intros i Hi. destruct (at_in_range visible Hi) as (t & E & Hin).
    exists t. rewrite E. auto. }
  destruct (length visible =? 0)%nat eqn:Elen.
  { cbn. auto. }
  apply Nat.eqb_neq in Elen.
  set (cur := findIndex (fun todo => opt_eqb (Some (id todo)) base) visible).
  pose proof (findIndex_range (fun todo => opt_eqb (Some (id todo)) base) visible)
    as Hcur. fold cur in Hcur.
  destruct up.
  - destruct (cur =? -1)%Z eqn:Ec.
    + destruct (negb (truthy base)); [cbn; auto|].
      destruct (opt_eqb base (Some Hierarchy.NEW_TASK_ACTIVE_ID)).
      * destruct (Hat (Z.of_nat (length visible) - 1)%Z) as (t & Hin & E); [lia|].
        rewrite E. cbn. repeat split; eauto.
      * destruct (Hat 0%Z) as (t & Hin & E); [lia|].
        rewrite E. cbn. repeat split; eauto.
    + apply Z.eqb_neq in Ec.
      destruct (Hat (Z.max 0 (cur - 1))) as (t & Hin & E); [lia|].
      rewrite E. cbn. repeat split; eauto.
  - destruct (cur =? -1)%Z eqn:Ec.
    + destruct (negb (truthy base)).
      * destruct (Hat 0%Z) as (t & Hin & E); [lia|].
        rewrite E. cbn. repeat split; eauto.
      * destruct (opt_eqb base (Some Hierarchy.NEW_TASK_ACTIVE_ID)) eqn:En.
        -- cbn. repeat split; auto.
        -- destruct (Hat (Z.of_nat (length visible) - 1)%Z) as (t & Hin & E); [lia|].
           rewrite E. cbn. repeat split; eauto.
    + apply Z.eqb_neq in Ec.
      destruct (cur =? Z.of_nat (length visible) - 1)%Z eqn:El; [cbn; auto|].
      apply Z.eqb_neq in El.
      destruct (Hat (cur + 1)%Z) as (t & Hin & E); [lia|].
      rewrite E. cbn. repeat split; eauto.
Qed.

Lemma markCompleted_twice : forall k v v' l,
  HierarchyView.markCompleted k v (HierarchyView.markCompleted k v' l)
  = HierarchyView.markCompleted k v l.
Proof.
  intros k v v' l. unfold HierarchyView.markCompleted. rewrite map_map.
  apply map_ext. intros item.
  destruct (id item =? k) eqn:E; cbn [id]; rewrite E; reflexivity.
Qed.

Lemma markCompleted_same : forall k v l,
  (forall item, In item l -> id item = k -> is_completed item = v) ->
  HierarchyView.markCompleted k v l = l.
Proof.
  intros k v l H. unfold HierarchyView.markCompleted.
  rewrite <- (map_id l) at 2. apply map_ext_in. intros item Hin.
  destruct (id item =? k) eqn:E; [|reflexivity].
  apply String.eqb_eq in E. rewrite <- (H item Hin E).
  destruct item; reflexivity.
Qed.

Lemma ids_markCompleted : forall k v l,
  ids_of (HierarchyView.markCompleted k v l) = ids_of l.
Proof.
  intros k v l. unfold HierarchyView.markCompleted. apply ids_map_pres.
  intros x. destruct (id x =? k); reflexivity.
Qed.

(** X22.  The toggle of the hierarchy variant shows the new state at once
    and takes it back when the store refuses: called on a record of the
    list, a rejected update leaves exactly the state there was, with the
    message set and no task busy; an accepted one leaves the identifiers of
    the list and their order as they were. *)
Theorem optimistic_toggle_reverts :
  forall (env : Env) (todo : TodoRecord) (st : AppState),
    hasSupabaseEnv env = true -> truthy (busyId st) = false ->
    (forall item, In item (todos st) -> id item = id todo ->
                  is_completed item = is_completed todo) ->
    match snd (Rest.updateTodo true (now env) (net env) (client env) (id todo)
                 (Rest.mkUpdates None (Some (negb (is_completed todo))) None None)) with
    | Rest.Rejected m =>
        fst (HierarchyView.handleToggle env todo st) = afterRejection m st
    | Rest.Resolved updated =>
        todos (fst (HierarchyView.handleToggle env todo st))
        = replaceById updated
            (HierarchyView.markCompleted (id todo) (negb (is_completed todo)) (todos st)) /\
        ids_of (todos (fst (HierarchyView.handleToggle env todo st))) = ids_of (todos st)
    end.
Proof.
  intros env todo st Henv Hbusy Hsame. unfold HierarchyView.handleToggle.
  rewrite Henv, Hbusy. cbn [negb orb].
  destruct (Rest.updateTodo true (now env) (net env) (client env) (id todo) _)
    as [reqs [updated|m]]; cbn [fst snd].
  - split; [reflexivity|]. cbn [todos setBusyId setTodos setError].
    now rewrite ids_replaceById, ids_markCompleted.
  - unfold afterRejection. cbn [todos setTodos setError].
    rewrite markCompleted_twice, (@markCompleted_same (id todo) (is_completed todo) (todos st) Hsame).
    destruct st; reflexivity.
Qed.

Lemma optimistic_toggle_reverts_witness :
  fst (HierarchyView.handleToggle (Examples.envOf refuseAll)
         (Examples.task "b" None 1) (Examples.idle Examples.abc))
  = afterRejection "503 Service Unavailable" (Examples.idle Examples.abc).
Proof.
  refine (@optimistic_toggle_reverts (Examples.envOf refuseAll)
            (Examples.task "b" None 1) (Examples.idle Examples.abc)
            eq_refl eq_refl _).
  intros item Hin E. simpl in Hin.
  destruct Hin as [<-|[<-|[<-|[]]]]; reflexivity.
Defined.

(** X23.  Collapsing is a toggle on one identifier: [toggleCollapsedTodo]
    changes whether the given identifier is collapsed and nothing else,
    toggling twice gives back the same set (and the same list, when the
    identifier was not collapsed), and the pruning effect keeps exactly the
    collapsed identifiers that some record still names as its parent. *)
Theorem collapse_toggles_one_identifier :
  forall (k : string) (previous : list string) (l : list TodoRecord),
    (In k (HierarchyView.toggleCollapsedTodo k previous) <-> ~ In k previous) /\
    (forall x, x <> k ->
       (In x (HierarchyView.toggleCollapsedTodo k previous) <-> In x previous)) /\
    (forall x,
       In x (HierarchyView.toggleCollapsedTodo k
               (HierarchyView.toggleCollapsedTodo k previous)) <-> In x previous) /\
    (~ In k previous ->
     HierarchyView.toggleCollapsedTodo k (HierarchyView.toggleCollapsedTodo k previous)
     = previous) /\
    (forall x, In x (HierarchyView.pruneCollapsed l previous) <->
               In x previous /\ x <> "" /\
               exists t, In t l /\ parent_id t = Some x).
Proof.
  intros k previous l.
  assert (H1 : forall prev,
            In k (HierarchyView.toggleCollapsedTodo k prev) <-> ~ In k prev).
  { intros prev. unfold HierarchyView.toggleCollapsedTodo.
    destruct (includes prev k) eqn:E.
    - apply includes_In in E. rewrite filter_In, String.eqb_refl. simpl.
      split; [intros [_ H]; discriminate|tauto].
    - apply includes_not_In in E. rewrite in_app_iff. simpl. tauto. }
  assert (H2 : forall prev x, x <> k ->
            (In x (HierarchyView.toggleCollapsedTodo k prev) <-> In x prev)).
  { intros prev x Hx. unfold HierarchyView.toggleCollapsedTodo.
    destruct (includes prev k).
    - rewrite filter_In. apply String.eqb_neq in Hx. rewrite Hx. simpl. tauto.
    - rewrite in_app_iff. simpl. split; [intros [H|[H|[]]]; congruence|tauto]. }
  split; [apply H1|]. split; [apply H2|]. split; [|split].
  - intros x. destruct (string_dec x k) as [->|Hx].
    + rewrite H1, H1. destruct (in_dec string_dec k previous); tauto.
    + now rewrite H2, H2.
  - intros Hnot. unfold HierarchyView.toggleCollapsedTodo.
    apply includes_not_In in Hnot as Hi. rewrite Hi.
    assert (Hi' : includes (previous ++ [k]) k = true).
    { apply includes_In, in_or_app. right. now left. }
    rewrite Hi', filter_app. simpl. rewrite String.eqb_refl. simpl.
    rewrite app_nil_r. apply filter_all. intros x Hx.
    apply negb_true_iff, String.eqb_neq. intros ->. contradiction.
  - intros x. unfold HierarchyView.pruneCollapsed. rewrite filter_In, includes_In.
    unfold HierarchyView.hasChildrenTodoIdSet. rewrite in_flat_map. split.
    + intros (Hin & t & Ht & Hp). split; [exact Hin|].
      destruct (parent_id t) as [p|] eqn:Ep; [|destruct Hp].
      destruct (truthy (Some p)) eqn:T; [|destruct Hp].
      destruct Hp as [<-|[]]. split.
      * intros ->. discriminate.
      * eauto.
    + intros (Hin & Hne & t & Ht & Hp). split; [exact Hin|].
      exists t. split; [exact Ht|]. rewrite Hp.
      replace (truthy (Some x)) with true; [now left|].
      unfold truthy. apply String.eqb_neq in Hne. now rewrite Hne.
Qed.

Lemma collapse_toggles_one_identifier_witness :
  ~ In "P" ["Q"] /\
  HierarchyView.toggleCollapsedTodo "P" (HierarchyView.toggleCollapsedTodo "P" ["Q"])
  = ["Q"].
Proof.
  assert (Hn : ~ In "P" ["Q"]) by (simpl; intuition discriminate).
  split; [exact Hn|].
  exact (proj1 (proj2 (proj2 (proj2
           (@collapse_toggles_one_identifier "P" ["Q"] Examples.family)))) Hn).
Defined.

(** X24.  The effect that follows a change of the visible list leaves a
    selection inside it: afterwards every selected identifier is visible,
    the anchor is visible when there is one, an active identifier is the
    new-task row or visible, nothing that was not selected is, and running
    the effect again changes nothing.  The effect of the outline variant
    cuts the selection down in the same way and keeps an anchor only when
    it is in the filtered list. *)
Theorem pruned_selection_is_visible :
  forall (visible : list TodoRecord) (st : AppState),
    let st' := HierarchyView.pruneSelection visible st in
    (forall k, In k (selectedTodoIds st') <->
               In k (selectedTodoIds st) /\ In k (ids_of visible)) /\
    (forall a, selectionAnchorId st' = Some a ->
               selectionAnchorId st = Some a /\ In a (ids_of visible)) /\
    (forall a, activeTodoId st' = Some a -> a <> "" ->
               activeTodoId st = Some a /\
               (a = Hierarchy.NEW_TASK_ACTIVE_ID \/ In a (ids_of visible))) /\
    todos st' = todos st /\
    HierarchyView.pruneSelection visible st' = st' /\
    (forall k, In k (selectedTodoIds (OutlineActions.pruneSelection visible st)) <->
               In k (selectedTodoIds st) /\ In k (ids_of visible)) /\
    (forall a, selectionAnchorId (OutlineActions.pruneSelection visible st) = Some a ->
               a <> "" ->
               selectionAnchorId st = Some a /\ In a (ids_of visible)).
Proof.
  intros visible st. cbv zeta.
  assert (Houtline :
    (forall k, In k (selectedTodoIds (OutlineActions.pruneSelection visible st)) <->
               In k (selectedTodoIds st) /\ In k (ids_of visible)) /\
    (forall a, selectionAnchorId (OutlineActions.pruneSelection visible st) = Some a ->
               a <> "" ->
               selectionAnchorId st = Some a /\ In a (ids_of visible))).
  { unfold OutlineActions.pruneSelection.
    destruct st as [td b e ei et sel anch act pa so f sc]. cbn.
    destruct anch as [x|]; cbn.
    - destruct (truthy (Some x) && negb (includes (ids_of visible) x)) eqn:T; cbn.
      + split; [intros k; rewrite filter_In, includes_In; tauto|discriminate].
      + split; [intros k; rewrite filter_In, includes_In; tauto|].
        intros a E Hne. injection E as <-. split; [reflexivity|].
        apply andb_false_iff in T. destruct T as [T|T].
        * apply truthy_false_empty in T. contradiction.
        * now apply negb_false_iff, includes_In in T.
    - change (truthy None) with false. cbn.
      split; [intros k; rewrite filter_In, includes_In; tauto|discriminate]. }
  destruct Houtline as (Ho1 & Ho2).
  cut ((forall k, In k (selectedTodoIds (HierarchyView.pruneSelection visible st)) <->
               In k (selectedTodoIds st) /\ In k (ids_of visible)) /\
    (forall a, selectionAnchorId (HierarchyView.pruneSelection visible st) = Some a ->
               selectionAnchorId st = Some a /\ In a (ids_of visible)) /\
    (forall a, activeTodoId (HierarchyView.pruneSelection visible st) = Some a ->
               a <> "" ->
               activeTodoId st = Some a /\
               (a = Hierarchy.NEW_TASK_ACTIVE_ID \/ In a (ids_of visible))) /\
    todos (HierarchyView.pruneSelection visible st) = todos st /\
    HierarchyView.pruneSelection visible (HierarchyView.pruneSelection visible st)
    = HierarchyView.pruneSelection visible st).
  { intros (H1 & H2 & H3 & H4 & H5).
    split; [exact H1|]. split; [exact H2|]. split; [exact H3|].
    split; [exact H4|]. split; [exact H5|]. split; [exact Ho1|exact Ho2]. }
  clear Ho1 Ho2.
  assert (Hidem : forall (q : string -> bool) (l : list string),
            filter q (filter q l) = filter q l).
  { intros q l. apply filter_all. intros x Hx. apply filter_In in Hx. tauto. }
  unfold HierarchyView.pruneSelection.
  destruct st as [td b e ei et sel anch act pa so f sc]. cbn.
  split; [|split; [|split; [|split]]].
  - intros k.
    destruct act as [a|];
      [destruct (truthy (Some a) && negb (a =? Hierarchy.NEW_TASK_ACTIVE_ID)
                 && negb (includes (ids_of visible) a))|];
      cbn; rewrite filter_In, includes_In; tauto.
  - intros a0.
    destruct act as [a|];
      [destruct (truthy (Some a) && negb (a =? Hierarchy.NEW_TASK_ACTIVE_ID)
                 && negb (includes (ids_of visible) a))|];
      cbn; (destruct anch as [x|]; [|discriminate]);
      (destruct (truthy (Some x) && includes (ids_of visible) x) eqn:T;
       [|discriminate]);
      intros E; injection E as <-;
      apply andb_true_iff in T; destruct T as [_ T]; apply includes_In in T; auto.
  - intros a0.
    destruct act as [a|]; [|cbn; discriminate].
    destruct (truthy (Some a) && negb (a =? Hierarchy.NEW_TASK_ACTIVE_ID)
              && negb (includes (ids_of visible) a)) eqn:T; cbn; [discriminate|].
    intros E Hne. injection E as <-. split; [reflexivity|].
    apply andb_false_iff in T. destruct T as [T|T].
    + apply andb_false_iff in T. destruct T as [T|T].
      * apply truthy_false_empty in T. contradiction.
      * apply negb_false_iff, String.eqb_eq in T. now left.
    + apply negb_false_iff, includes_In in T. now right.
  - destruct act as [a|];
      [destruct (truthy (Some a) && negb (a =? Hierarchy.NEW_TASK_ACTIVE_ID)
                 && negb (includes (ids_of visible) a))|]; reflexivity.
  - destruct act as [a|].
    + destruct (truthy (Some a) && negb (a =? Hierarchy.NEW_TASK_ACTIVE_ID)
                && negb (includes (ids_of visible) a)) eqn:T; cbn.
      * rewrite Hidem.
        destruct anch as [x|]; [|reflexivity].
        destruct (truthy (Some x) && includes (ids_of visible) x) eqn:Tx;
          [rewrite Tx|]; reflexivity.
      * rewrite T. cbn. rewrite Hidem.
        destruct anch as [x|]; [|reflexivity].
        destruct (truthy (Some x) && includes (ids_of visible) x) eqn:Tx;
          [rewrite Tx|]; reflexivity.
    + cbn. rewrite Hidem.
      destruct anch as [x|]; [|reflexivity].
      destruct (truthy (Some x) && includes (ids_of visible) x) eqn:Tx;
        [rewrite Tx|]; reflexivity.
Qed.

(** ** A drag from the keyboard *)

Lemma moveTodoByOffset_rearranges : forall previous activeId offset,
  Permutation (map strip (fst (Flat.moveTodoByOffset previous activeId offset)))
              (map strip previous) /\
  (snd (Flat.moveTodoByOffset previous activeId offset) = false ->
   fst (Flat.moveTodoByOffset previous activeId offset) = previous).
Proof.
  intros previous activeId offset. unfold Flat.moveTodoByOffset.
  destruct (_ =? -1)%Z; [split; [apply Permutation_refl|reflexivity]|].
  destruct (_ || _)%bool; [split; [apply Permutation_refl|reflexivity]|].
  cbn [fst snd]. split; [|discriminate].
  rewrite strip_normalizePositions. apply Permutation_map, arrayMove_perm.
Qed.

Lemma todos_persistCurrentOrder : forall env st,
  todos (fst (persistCurrentOrder env st)) = todos st.
Proof.
  intros env st. unfold persistCurrentOrder.
  destruct (negb (positioningAvailable st)); [reflexivity|].
  destruct (Rest.updateTodoPositions _ _ _ _ _) as [reqs [u|m]]; reflexivity.
Qed.

Lemma arrow_step : forall env todoId key ran st,
  KeyboardDrag.keyboardDragId st = Some todoId ->
  key = KeyboardDrag.ArrowUp \/ key = KeyboardDrag.ArrowDown ->
  KeyboardDrag.handleDragHandleKeyDown env ran key todoId st
  = (KeyboardDrag.moveFromKeyboard ran todoId (KeyboardDrag.offsetOf key) st, []).
Proof.
  intros env todoId key ran st Hid Hk.
  unfold KeyboardDrag.handleDragHandleKeyDown. rewrite Hid. cbn [opt_eqb].
  rewrite String.eqb_refl. cbn [negb].
  destruct Hk as [->| ->]; reflexivity.
Qed.

Lemma moveFromKeyboard_facts : forall ran todoId offset st,
  let st1 := KeyboardDrag.moveFromKeyboard ran todoId offset st in
  KeyboardDrag.keyboardDragId st1 = KeyboardDrag.keyboardDragId st /\
  todos (KeyboardDrag.app st1)
  = fst (Flat.moveTodoByOffset (todos (KeyboardDrag.app st)) todoId offset) /\
  KeyboardDrag.keyboardMovedRef st1
  = (ran && snd (Flat.moveTodoByOffset (todos (KeyboardDrag.app st)) todoId offset))
    || KeyboardDrag.keyboardMovedRef st.
Proof.
  intros ran todoId offset st. cbv zeta. unfold KeyboardDrag.moveFromKeyboard.
  destruct (Flat.moveTodoByOffset (todos (KeyboardDrag.app st)) todoId offset)
    as [next moved].
  cbn [fst snd KeyboardDrag.keyboardDragId KeyboardDrag.app KeyboardDrag.keyboardMovedRef
       todos setTodos].
  repeat split.
Qed.

Lemma arrows_keep_session : forall env todoId arrows st,
  KeyboardDrag.keyboardDragId st = Some todoId ->
  (forall k, In k arrows ->
     fst k = KeyboardDrag.ArrowUp \/ fst k = KeyboardDrag.ArrowDown) ->
  snd (KeyboardDrag.pressAll env arrows todoId st) = [] /\
  KeyboardDrag.keyboardDragId (fst (KeyboardDrag.pressAll env arrows todoId st))
  = Some todoId /\
  Permutation
    (map strip (todos (KeyboardDrag.app (fst (KeyboardDrag.pressAll env arrows todoId st)))))
    (map strip (todos (KeyboardDrag.app st))) /\
  (KeyboardDrag.keyboardMovedRef (fst (KeyboardDrag.pressAll env arrows todoId st)) = true <->
   KeyboardDrag.keyboardMovedRef st = true \/
   exists before key after,
     arrows = before ++ (key, true) :: after /\
     snd (Flat.moveTodoByOffset
            (todos (KeyboardDrag.app (fst (KeyboardDrag.pressAll env before todoId st))))
            todoId (KeyboardDrag.offsetOf key)) = true) /\
  ((forall k, In k arrows -> snd k = true) ->
   KeyboardDrag.keyboardMovedRef (fst (KeyboardDrag.pressAll env arrows todoId st)) = false ->
   todos (KeyboardDrag.app (fst (KeyboardDrag.pressAll env arrows todoId st)))
   = todos (KeyboardDrag.app st)).
Proof.
  intros env todoId arrows. induction arrows as [|[key ran] arrows IH]; intros st Hid Hk.
  - simpl. split; [reflexivity|]. split; [exact Hid|]. split; [apply Permutation_refl|].
    split; [|reflexivity].
    split; [now left|]. intros [H|(before & key & after & E & _)]; [exact H|].
    destruct before; discriminate E.
  - assert (Hkey : key = KeyboardDrag.ArrowUp \/ key = KeyboardDrag.ArrowDown)
      by exact (Hk (key, ran) (or_introl eq_refl)).
    cbn [KeyboardDrag.pressAll]. rewrite (arrow_step env ran st Hid Hkey).
    set (off := KeyboardDrag.offsetOf key).
    destruct (moveFromKeyboard_facts ran todoId off st) as (Hid1 & Htodos1 & Hflag1).
    set (st1 := KeyboardDrag.moveFromKeyboard ran todoId off st) in *.
    rewrite Hid in Hid1.
    destruct (moveTodoByOffset_rearranges (todos (KeyboardDrag.app st)) todoId off)
      as (Hperm & Hsame).
    destruct (IH st1 Hid1) as (Hreqs & Hid2 & Hperm2 & Hflag2 & Heager2).
    { intros k' Hk'. apply Hk. now right. }
    assert (Epress : forall before,
              fst (KeyboardDrag.pressAll env ((key, ran) :: before) todoId st)
              = fst (KeyboardDrag.pressAll env before todoId st1)).
    { intros before. cbn [KeyboardDrag.pressAll].
      rewrite (arrow_step env ran st Hid Hkey). fold off. fold st1.
      destruct (KeyboardDrag.pressAll env before todoId st1). reflexivity. }
    destruct (KeyboardDrag.pressAll env arrows todoId st1) as [st2 reqs'].
    cbn [fst snd] in *. subst reqs'.
    split; [reflexivity|]. split; [exact Hid2|].
    split; [eapply Permutation_trans; [exact Hperm2|]; now rewrite Htodos1|].
    split.
    + rewrite Hflag2, Hflag1. split.
      * intros [H|(before & key' & after & E & Hm)].
        -- apply orb_true_iff in H. destruct H as [H|H]; [|now left].
           apply andb_true_iff in H. destruct H as [-> Hm]. right.
           exists [], key, arrows. split; [reflexivity|exact Hm].
        -- right. exists ((key, ran) :: before), key', after.
           split; [now rewrite E|]. now rewrite Epress.
      * intros [H|(before & key' & after & E & Hm)].
        -- left. rewrite H. apply orb_true_r.
        -- destruct before as [|b before].
           ++ injection E as -> -> ->. left. cbn [KeyboardDrag.pressAll fst] in Hm.
              fold off in Hm. rewrite Hm. reflexivity.
           ++ injection E as <- ->. right. exists before, key', after.
              split; [reflexivity|]. now rewrite <- Epress.
    + intros Hall F2.
      assert (Hran : ran = true) by exact (Hall (key, ran) (or_introl eq_refl)).
      assert (F1 : KeyboardDrag.keyboardMovedRef st1 = false).
      { destruct (KeyboardDrag.keyboardMovedRef st1) eqn:F; [|reflexivity].
        assert (H : true = true) by reflexivity. rewrite <- F2.
        symmetry. apply Hflag2. now left. }
      rewrite Heager2; [|intros k' Hk'; apply Hall; now right|exact F2].
      rewrite Htodos1. apply Hsame.
      rewrite Hflag1, Hran in F1. apply orb_false_iff in F1. now destruct F1.
Qed.

(** X25.  A drag from the keyboard saves the order at most once, at its
    end, and only when the handler has seen a move.  From a state in which
    reordering is allowed, Enter on a handle starts the drag and sends
    nothing, and every ArrowUp and ArrowDown that follows moves the task on
    screen and sends nothing; the list stays a rearrangement of the one
    there was.  The handler records a move exactly when a press moved the
    task and React ran the updater of that press during the call: a move
    whose updater was queued for the next render is not recorded.  Tab then
    ends the drag, keeping the list, and runs [persistCurrentOrder] when a
    move was recorded and sends nothing when none was; with every updater
    run at its call, the list is in that case the one there was.  Escape
    ends the drag without sending anything and without putting the list
    back. *)
Theorem keyboard_drag_saves_once :
  forall (env : Env) (todoId : string) (arrows : list (KeyboardDrag.Key * bool))
         (st0 : KeyboardDrag.DragState),
    Flat.canReorder env (KeyboardDrag.app st0) = true ->
    KeyboardDrag.keyboardDragId st0 = None ->
    (forall k, In k arrows ->
       fst k = KeyboardDrag.ArrowUp \/ fst k = KeyboardDrag.ArrowDown) ->
    let press := fun keys =>
      KeyboardDrag.pressAll env ((KeyboardDrag.Enter, true) :: keys) todoId st0 in
    let moved := fst (press arrows) in
    snd (press arrows) = [] /\
    KeyboardDrag.keyboardDragId moved = Some todoId /\
    Permutation (map strip (todos (KeyboardDrag.app moved)))
                (map strip (todos (KeyboardDrag.app st0))) /\
    (KeyboardDrag.keyboardMovedRef moved = true <->
     exists before key after,
       arrows = before ++ (key, true) :: after /\
       snd (Flat.moveTodoByOffset (todos (KeyboardDrag.app (fst (press before))))
                                  todoId (KeyboardDrag.offsetOf key)) = true) /\
    ((forall k, In k arrows -> snd k = true) ->
     KeyboardDrag.keyboardMovedRef moved = false ->
     todos (KeyboardDrag.app moved) = todos (KeyboardDrag.app st0)) /\
    (forall ran,
       KeyboardDrag.keyboardDragId
         (fst (KeyboardDrag.handleDragHandleKeyDown env ran KeyboardDrag.Tab todoId moved))
       = None /\
       todos (KeyboardDrag.app
                (fst (KeyboardDrag.handleDragHandleKeyDown env ran KeyboardDrag.Tab
                        todoId moved)))
       = todos (KeyboardDrag.app moved) /\
       snd (KeyboardDrag.handleDragHandleKeyDown env ran KeyboardDrag.Tab todoId moved)
       = (if KeyboardDrag.keyboardMovedRef moved
          then snd (persistCurrentOrder env (KeyboardDrag.app moved)) else []) /\
       KeyboardDrag.handleDragHandleKeyDown env ran KeyboardDrag.Escape todoId moved
       = (KeyboardDrag.mkDrag (KeyboardDrag.app moved) None None false, [])).
Proof.
  intros env todoId arrows st0 Hcan Hnone Harrows. cbv beta zeta.
  assert (Estart : KeyboardDrag.handleDragHandleKeyDown env true KeyboardDrag.Enter
                     todoId st0
                   = (KeyboardDrag.mkDrag (setError None (KeyboardDrag.app st0))
                                          (Some todoId) (Some todoId) false, [])).
  { unfold KeyboardDrag.handleDragHandleKeyDown. rewrite Hcan, Hnone. reflexivity. }
  set (started := KeyboardDrag.mkDrag (setError None (KeyboardDrag.app st0))
                                      (Some todoId) (Some todoId) false) in *.
  assert (Epress : forall keys,
            KeyboardDrag.pressAll env ((KeyboardDrag.Enter, true) :: keys) todoId st0
            = KeyboardDrag.pressAll env keys todoId started).
  { intros keys. cbn [KeyboardDrag.pressAll]. rewrite Estart.
    destruct (KeyboardDrag.pressAll env keys todoId started). reflexivity. }
  rewrite Epress.
  destruct (@arrows_keep_session env todoId arrows started eq_refl Harrows)
    as (Hreqs & Hid & Hperm & Hflag & Heager).
  split; [exact Hreqs|]. split; [exact Hid|]. split; [exact Hperm|].
  split.
  { rewrite Hflag. split.
    - intros [H|(before & key & after & E & Hm)]; [discriminate H|].
      exists before, key, after. split; [exact E|]. now rewrite Epress.
    - intros (before & key & after & E & Hm). right.
      exists before, key, after. split; [exact E|]. now rewrite <- Epress. }
  split; [exact Heager|].
  intros ran.
  destruct (KeyboardDrag.pressAll env arrows todoId started) as [moved reqs].
  cbn [fst snd] in *.
  unfold KeyboardDrag.handleDragHandleKeyDown. rewrite Hid. cbn [opt_eqb].
  rewrite String.eqb_refl. cbn [negb].
  unfold KeyboardDrag.deactivateKeyboardDrag. cbn [andb].
  destruct (KeyboardDrag.keyboardMovedRef moved).
  - pose proof (todos_persistCurrentOrder env (KeyboardDrag.app moved)) as Ht.
    destruct (persistCurrentOrder env (KeyboardDrag.app moved)) as [saved reqs'].
    cbn [fst snd] in *. repeat split; auto.
  - repeat split; auto.
Qed.

Lemma keyboard_drag_saves_once_witness :
  snd (KeyboardDrag.handleDragHandleKeyDown (Examples.envOf Examples.acceptAll) true
         KeyboardDrag.Tab "b"
         (fst (KeyboardDrag.pressAll (Examples.envOf Examples.acceptAll)
                 [(KeyboardDrag.Enter, true); (KeyboardDrag.ArrowUp, true)] "b"
                 (KeyboardDrag.mkDrag (Examples.idle Examples.abc) None None false))))
  = [Rest.PatchPosition "b" 0; Rest.PatchPosition "a" 1; Rest.PatchPosition "c" 2].
Proof.
  assert (Hk : forall k, In k [(KeyboardDrag.ArrowUp, true)] ->
                 fst k = KeyboardDrag.ArrowUp \/ fst k = KeyboardDrag.ArrowDown)
    by (intros k [<-|[]]; now left).
  pose proof (@keyboard_drag_saves_once (Examples.envOf Examples.acceptAll) "b"
                [(KeyboardDrag.ArrowUp, true)]
                (KeyboardDrag.mkDrag (Examples.idle Examples.abc) None None false)
                eq_refl eq_refl Hk) as H.
  cbv beta zeta in H. destruct H as (_ & _ & _ & _ & _ & Hend).
  destruct (Hend true) as (_ & _ & Htab & _).
  rewrite Htab. reflexivity.
Defined.

(** A move whose updater React queued is on screen and is not saved: after
    Enter and one ArrowUp on [b] the list is [b, a, c], and Tab sends
    nothing. *)
Remark queued_move_is_not_saved :
  let env := Examples.envOf Examples.acceptAll in
  let moved :=
    fst (KeyboardDrag.pressAll env
           [(KeyboardDrag.Enter, true); (KeyboardDrag.ArrowUp, false)] "b"
           (KeyboardDrag.mkDrag (Examples.idle Examples.abc) None None false)) in
  ids_of (todos (KeyboardDrag.app moved)) = ["b"; "a"; "c"] /\
  snd (KeyboardDrag.handleDragHandleKeyDown env true KeyboardDrag.Tab "b" moved) = [].
Proof. split; reflexivity. Qed.

(** ** Range selection in the outline variant *)

Lemma findIndex_found_nth : forall (A : Type) (p : A -> bool) (l : list A) (i : Z),
  findIndex p l = i -> i <> (-1)%Z ->
  exists (n : nat) (x : A), i = Z.of_nat n /\ nth_error l n = Some x /\ p x = true.
Proof.
  intros A p l i E Hi.
  destruct (findIndex_cases p l) as [E'|(a & x & b & El & Hx & _ & E')].
  - congruence.
  - exists (length a), x. split; [congruence|]. split; [|exact Hx].
    rewrite El. apply nth_error_app_len.
Qed.

Lemma findIndex_id_absent : forall (l : list TodoRecord) (k : string),
  findIndex (fun todo => id todo =? k) l = (-1)%Z <-> ~ In k (ids_of l).
Proof.
  intros l k. split.
  - intros E Hin. apply in_map_iff in Hin. destruct Hin as (x & Hid & Hx).
    destruct (findIndex_cases (fun todo => id todo =? k) l)
      as [_|(a & y & b' & El & Hy & Ha & Ef)].
    + unfold findIndex in E.
      assert (Hnone : existsb (fun todo => id todo =? k) l = true).
      { apply existsb_exists. exists x. split; [exact Hx|].
        now apply String.eqb_eq. }
      apply existsb_exists in Hnone. destruct Hnone as (y & Hy & Hp).
      destruct (@findIndexFrom_found _ (fun todo => id todo =? k) l 0 y Hy Hp)
        as (a & z & b' & _ & _ & _ & Hf).
      unfold findIndex in *. lia.
    + lia.
  - intros Hn. apply findIndexFrom_none. intros y Hy.
    apply String.eqb_neq. intros E. apply Hn. rewrite <- E. now apply in_map.
Qed.

(** X26.  Shift with an arrow key in the outline variant leaves the state
    alone in three cases and selects one run of neighbouring tasks in every
    other.  It changes nothing and reports [false] when the focused task is
    not in the filtered list; it changes nothing and reports [true] when
    the move would leave the list; it changes nothing and reports [false]
    when the anchor (the one there was, the focused task when there was
    none) is not in the filtered list.  Otherwise it reports [true], keeps
    the list, sets the anchor to that anchor and the selection to the
    identifiers of a contiguous part of the filtered list that has the
    anchor at one end and the task moved to at the other. *)
Theorem outline_shift_selects_a_run :
  forall (filteredTodos : list TodoRecord) (focusedTodoId : string) (offset : Z)
         (st : AppState),
    let out := OutlineActions.moveShiftSelectionByOffset filteredTodos focusedTodoId
                 offset st in
    let focusedIndex :=
      findIndex (fun todo => id todo =? focusedTodoId) filteredTodos in
    let nextIndex := (focusedIndex + offset)%Z in
    let anchorId := match selectionAnchorId st with
                    | Some a => a
                    | None => focusedTodoId
                    end in
    let inList := fun k => In k (ids_of filteredTodos) in
    let leaves := (nextIndex < 0 \/ Z.of_nat (length filteredTodos) <= nextIndex)%Z in
    (focusedIndex = (-1)%Z <-> ~ inList focusedTodoId) /\
    (~ inList focusedTodoId -> out = (false, st)) /\
    (inList focusedTodoId -> leaves -> out = (true, st)) /\
    (inList focusedTodoId -> ~ leaves -> ~ inList anchorId -> out = (false, st)) /\
    (inList focusedTodoId -> ~ leaves -> inList anchorId ->
     fst out = true /\
     exists anchRec nextRec before range after,
       filteredTodos = before ++ range ++ after /\
       snd out = setSelectedTodoIds (ids_of range)
                   (setSelectionAnchorId (Some anchorId) st) /\
       id anchRec = anchorId /\
       nth_error filteredTodos (Z.to_nat nextIndex) = Some nextRec /\
       ((nth_error range 0 = Some anchRec /\
         nth_error range (length range - 1) = Some nextRec) \/
        (nth_error range 0 = Some nextRec /\
         nth_error range (length range - 1) = Some anchRec)) /\
       todos (snd out) = todos st).
Proof.
  intros filteredTodos focusedTodoId offset st. cbv zeta.
  pose proof (findIndex_id_absent filteredTodos focusedTodoId) as Hfocus.
  pose proof (findIndex_id_absent filteredTodos
                (match selectionAnchorId st with
                 | Some a => a
                 | None => focusedTodoId
                 end)) as Hanchor.
  unfold OutlineActions.moveShiftSelectionByOffset.
  set (focusedIndex := findIndex (fun todo => id todo =? focusedTodoId) filteredTodos)
    in *.
  set (anchorId := match selectionAnchorId st with
                   | Some a => a
                   | None => focusedTodoId
                   end) in *.
  set (anchorIndex := findIndex (fun todo => id todo =? anchorId) filteredTodos) in *.
  split; [exact Hfocus|].
  destruct (focusedIndex =? -1)%Z eqn:Ef.
  { apply Z.eqb_eq in Ef. apply Hfocus in Ef.
    split; [reflexivity|]. repeat split; intros; contradiction. }
  apply Z.eqb_neq in Ef.
  assert (Hfin : In focusedTodoId (ids_of filteredTodos)).
  { destruct (in_dec string_dec focusedTodoId (ids_of filteredTodos)) as [H|H];
      [exact H|]. apply Hfocus in H. contradiction. }
  split; [intros Hn; contradiction|].
  destruct ((focusedIndex + offset <? 0)
            || (focusedIndex + offset >=? Z.of_nat (length filteredTodos)))%Z eqn:En.
  { assert (Hleaves : (focusedIndex + offset < 0
                       \/ Z.of_nat (length filteredTodos) <= focusedIndex + offset)%Z).
    { apply orb_true_iff in En. destruct En as [En|En].
      - left. now apply Z.ltb_lt.
      - right. rewrite Z.geb_leb in En. now apply Z.leb_le. }
    split; [reflexivity|]. split; intros; contradiction. }
  apply orb_false_iff in En. destruct En as [En1 En2].
  apply Z.ltb_ge in En1. rewrite Z.geb_leb in En2. apply Z.leb_gt in En2.
  split; [intros _ Hl; exfalso; lia|].
  destruct (anchorIndex =? -1)%Z eqn:Ea.
  { apply Z.eqb_eq in Ea. apply Hanchor in Ea.
    split; [reflexivity|]. intros; contradiction. }
  apply Z.eqb_neq in Ea.
  split.
  { intros _ _ Hn. apply Hanchor in Hn. contradiction. }
  intros _ _ _. cbn [fst snd]. split; [reflexivity|].
  destruct (@findIndex_found_nth _ (fun todo => id todo =? anchorId) filteredTodos
              anchorIndex eq_refl Ea) as (a & anchRec & Eai & Hanth & Hap).
  apply String.eqb_eq in Hap.
  set (n := Z.to_nat (focusedIndex + offset)).
  assert (Eni : (focusedIndex + offset)%Z = Z.of_nat n) by (unfold n; lia).
  assert (Hn : n < length filteredTodos) by lia.
  assert (Ha : a < length filteredTodos) by (apply nth_error_Some; congruence).
  destruct (nth_error filteredTodos n) as [nextRec|] eqn:Enext.
  2:{ apply nth_error_None in Enext. lia. }
  rewrite Eni, Eai.
  assert (Hmm : Nat.min a n <= Nat.max a n) by lia.
  assert (Hmx : Nat.max a n < length filteredTodos) by lia.
  destruct (segment_facts filteredTodos Hmm Hmx) as (Esplit & Elen & Hnth).
  assert (Eslice :
            JsIndex.slice filteredTodos
              (if (Z.of_nat a <=? Z.of_nat n)%Z then Z.of_nat a else Z.of_nat n)
              ((if (Z.of_nat a <=? Z.of_nat n)%Z then Z.of_nat n else Z.of_nat a) + 1)
            = firstn (S (Nat.max a n - Nat.min a n)) (skipn (Nat.min a n) filteredTodos)).
  { rewrite <- (slice_between filteredTodos Hmm Hmx).
    destruct (Z.of_nat a <=? Z.of_nat n)%Z eqn:L.
    - apply Z.leb_le in L. f_equal; lia.
    - apply Z.leb_gt in L. f_equal; lia. }
  rewrite Eslice.
  exists anchRec, nextRec, (firstn (Nat.min a n) filteredTodos),
         (firstn (S (Nat.max a n - Nat.min a n)) (skipn (Nat.min a n) filteredTodos)),
         (skipn (S (Nat.max a n)) filteredTodos).
  split; [exact Esplit|]. split; [reflexivity|].
  split; [exact Hap|]. split; [reflexivity|].
  split; [|reflexivity].
  rewrite Elen.
  replace (S (Nat.max a n - Nat.min a n) - 1) with (Nat.max a n - Nat.min a n) by lia.
  pose proof (Hnth (Nat.min a n)) as Hlo. rewrite Nat.sub_diag in Hlo.
  pose proof (Hnth (Nat.max a n)) as Hhi.
  destruct (Nat.le_gt_cases a n) as [Hle|Hgt].
  - left. rewrite Hlo, Hhi by lia.
    rewrite Nat.min_l, Nat.max_r by lia. auto.
  - right. rewrite Hlo, Hhi by lia.
    rewrite Nat.min_r, Nat.max_l by lia. auto.
Qed.

(** ** Unnesting and nesting in the outline variant *)

Lemma unnestUpdates_In : forall snapshot selected activeId k p,
  In (k, p) (Outline.unnestUpdates snapshot selected activeId) ->
  In k (targetsOf selected activeId) /\
  exists todo, byId_get snapshot k = Some todo /\ truthy (parent_id todo) = true.
Proof.
  intros snapshot selected activeId k p H. unfold Outline.unnestUpdates in H.
  fold (targetsOf selected activeId) in H.
  apply in_flat_map in H. destruct H as (todoId & Hin & H).
  destruct (byId_get snapshot todoId) as [todo|] eqn:E; [|destruct H].
  destruct (negb (truthy (parent_id todo))) eqn:T; [destruct H|].
  destruct (opt_eqb _ (parent_id todo)); [destruct H|].
  destruct H as [H|[]]. injection H as <- <-.
  split; [exact Hin|]. exists todo. split; [exact E|].
  now apply negb_false_iff in T.
Qed.

Lemma afterUnnest_same : forall snapshot selected activeId,
  sameButParents (Outline.afterUnnest snapshot selected activeId) snapshot.
Proof.
  intros snapshot selected activeId. unfold Outline.afterUnnest, sameButParents.
  destruct (Outline.unnestUpdates snapshot selected activeId) as [|u us];
    [reflexivity|].
  rewrite map_map. apply map_ext. intros t.
  destruct (Outline.updateMap_get (u :: us) (id t)); reflexivity.
Qed.

Lemma afterUnnest_keeps : forall snapshot selected activeId t,
  In t snapshot ->
  ~ In (id t) (targetsOf selected activeId) \/ rootKey snapshot (id t) ->
  In t (Outline.afterUnnest snapshot selected activeId).
Proof.
  intros snapshot selected activeId t Hin Hkeep. unfold Outline.afterUnnest.
  destruct (Outline.unnestUpdates snapshot selected activeId) as [|u us] eqn:E;
    [exact Hin|].
  apply in_map_iff. exists t. split; [|exact Hin].
  destruct (Outline.updateMap_get (u :: us) (id t)) as [p|] eqn:G; [|reflexivity].
  exfalso. apply updateMap_get_In in G. rewrite <- E in G.
  apply unnestUpdates_In in G. destruct G as (Htarget & todo & Et & Tp).
  destruct Hkeep as [Hn|Hroot]; [contradiction|].
  unfold rootKey in Hroot. rewrite Et in Hroot. congruence.
Qed.

(** X27.  Unnesting changes parent references and nothing else.  Whatever
    the store answers, the list [unnestFocusedSelectionOneLevel] leaves has
    the same records in the same order with the same ranks, only parent
    references may differ; a record that is not a target, or that has no
    parent, is left exactly as it was; every request carries a new parent
    for one of the targets and no other field; and when one of the updates
    is refused the list there was is put back and the message shown. *)
Theorem unnest_changes_parents_only :
  forall (env : Env) (activeId : string) (st : AppState),
    hasSupabaseEnv env = true ->
    let out := OutlineActions.unnestFocusedSelectionOneLevel env activeId st in
    let targets := targetsOf (selectedTodoIds st) activeId in
    sameButParents (todos (fst out)) (todos st) /\
    (forall t, In t (todos st) ->
       ~ In (id t) targets \/ rootKey (todos st) (id t) ->
       In t (todos (fst out))) /\
    (forall r, In r (snd out) ->
       exists k, In k targets /\ reparents (client env) r k) /\
    (forall m,
       truthy (busyId st) = false -> truthy (editingId st) = false ->
       Outline.unnestUpdates (todos st) (selectedTodoIds st) activeId <> [] ->
       snd (OutlineActions.updateParents env
              (Outline.unnestUpdates (todos st) (selectedTodoIds st) activeId))
       = Some m ->
       fst out = setError (Some m) st).
Proof.
  intros env activeId st Henv. cbv zeta.
  unfold OutlineActions.unnestFocusedSelectionOneLevel. rewrite Henv. cbn [negb orb].
  assert (Hrefl : sameButParents (todos st) (todos st)) by reflexivity.
  destruct (truthy (busyId st)) eqn:B.
  { cbn [orb fst snd]. repeat split; auto; try contradiction; discriminate. }
  destruct (truthy (editingId st)) eqn:Ed.
  { cbn [orb fst snd]. repeat split; auto; try contradiction; discriminate. }
  cbn [orb].
  destruct (Outline.unnestUpdates (todos st) (selectedTodoIds st) activeId)
    as [|u us] eqn:Eu.
  { cbn [fst snd]. repeat split; auto; try contradiction; try congruence. }
  rewrite <- Eu.
  pose proof (updateParents_requests env
                (Outline.unnestUpdates (todos st) (selectedTodoIds st) activeId) Henv)
    as Hreqs.
  destruct (OutlineActions.updateParents env
              (Outline.unnestUpdates (todos st) (selectedTodoIds st) activeId))
    as [reqs failure]. cbn [fst snd] in *.
  assert (Hr : forall r, In r reqs ->
             exists k, In k (targetsOf (selectedTodoIds st) activeId) /\
                       reparents (client env) r k).
  { intros r Hin. rewrite Hreqs in Hin. apply in_map_iff in Hin.
    destruct Hin as ([k p] & <- & Hin). apply unnestUpdates_In in Hin.
    exists k. split; [tauto|]. exists p. reflexivity. }
  destruct failure as [m|]; cbn [fst snd todos setError setTodos].
  - repeat split; auto.
    intros m' _ _ _ E. injection E as <-. destruct st; reflexivity.
  - split; [apply afterUnnest_same|]. split; [|split; [exact Hr|discriminate]].
    intros t Hin Hkeep. now apply afterUnnest_keeps.
Qed.

Lemma unnest_changes_parents_only_witness :
  hasSupabaseEnv (Examples.envOf Examples.acceptAll) = true /\
  sameButParents
    (todos (fst (OutlineActions.unnestFocusedSelectionOneLevel
                   (Examples.envOf Examples.acceptAll) "P"
                   (Examples.idle Examples.chain))))
    (todos (Examples.idle Examples.chain)).
Proof.
  split; [reflexivity|].
  exact (proj1 (@unnest_changes_parents_only (Examples.envOf Examples.acceptAll) "P"
                  (Examples.idle Examples.chain) eq_refl)).
Defined.

(** X28.  Nesting puts the whole block under the record just above it:
    when [nestFocusedSelectionIntoPrevious] changes the list, the first
    selected record is not the first of the list, the record right above it
    is not selected, and afterwards every record of the block has one and
    the same parent, which is that record above or, when that record has a
    parent itself, possibly its parent; the block never becomes top-level.
    No record outside the block is altered, ranks apart, none is lost or
    added, and the ranks are the indices.  The handler sends one update
    per record of the block, carrying the parent that record has in the new
    list and nothing else; when all of them are accepted it leaves the new
    list on screen and goes on to save the order, and when one is refused
    it puts back the list there was, shows the message of the refusal and
    sends nothing more. *)
Theorem nest_puts_block_under_record_above :
  forall (snapshot : list TodoRecord) (selected : list string) (activeId : string)
         (next : list TodoRecord) (blockIds : list string),
    Outline.nestPlan snapshot selected activeId = Some (next, blockIds) ->
    (exists pre above first post p,
       snapshot = pre ++ above :: first :: post /\
       In (id first) blockIds /\
       (forall x, In x (pre ++ [above]) -> ~ In (id x) blockIds) /\
       (p = Some (id above) \/ (p = parent_id above /\ truthy p = true)) /\
       (forall t, In t next -> In (id t) blockIds -> parent_id t = p) /\
       (forall t, In t next -> ~ In (id t) blockIds ->
          exists t0, In t0 snapshot /\ strip t0 = strip t) /\
       Permutation (ids_of next) (ids_of snapshot) /\
       map position next = map Z.of_nat (seq 0 (length snapshot))) /\
    (forall env st,
       hasSupabaseEnv env = true -> truthy (busyId st) = false ->
       truthy (editingId st) = false ->
       todos st = snapshot -> selectedTodoIds st = selected ->
       let out := OutlineActions.nestFocusedSelectionIntoPrevious env activeId st in
       let updates :=
         map (fun todoId =>
                (todoId, match find (fun todo => id todo =? todoId) next with
                         | Some updatedTodo => parent_id updatedTodo
                         | None => None
                         end)) blockIds in
       let sent :=
         map (fun u => Rest.PatchTodo (fst u)
                         (Rest.mkUpdates None None None (Some (snd u)))
                         (Rest.currentSelectColumns (client env))) updates in
       (snd (OutlineActions.updateParents env updates) = None ->
        todos (fst out) = next /\
        snd out = sent ++ snd (persistCurrentOrder env (setError None (setTodos next st)))) /\
       (forall m,
          snd (OutlineActions.updateParents env updates) = Some m ->
          todos (fst out) = snapshot /\ error (fst out) = Some m /\ snd out = sent)).
Proof.
  intros snapshot selected activeId next blockIds H.
  split.
  2:{ intros env st Henv Hbusy Hedit <- <-. cbv zeta.
      unfold OutlineActions.nestFocusedSelectionIntoPrevious.
      rewrite Henv, Hbusy, Hedit, H. cbn [negb orb].
      rewrite <- (updateParents_requests env _ Henv).
      destruct (OutlineActions.updateParents env _) as [reqs [m|]]; cbn [fst snd].
      - split; [discriminate|]. intros m' E. injection E as <-.
        cbn [fst snd todos error setError setTodos]. auto.
      - split; [|discriminate]. intros _.
        pose proof (todos_persistCurrentOrder env (setError None (setTodos next st)))
          as Ht.
        destruct (persistCurrentOrder env (setError None (setTodos next st)))
          as [st2 reqs']. cbn [fst snd] in *. auto. }
  unfold Outline.nestPlan in H.
  destruct (Outline.compactSelectionAtAnchor snapshot
              (Outline.selectedForAction selected activeId) activeId)
    as [[[compacted block] anchorIndex]|] eqn:Ec; [|discriminate].
  destruct (compact_shape _ _ _ Ec)
    as (pre0 & first & post & rest & Ei & Ea & Eblock & Hfirst & Hpre & Ecomp & Hperm).
  destruct (anchorIndex =? 0)%Z eqn:E0; [discriminate|].
  apply Z.eqb_neq in E0.
  destruct (exists_last (l := pre0)) as (pre & above & Epre).
  { intros ->. simpl in Ea. lia. }
  subst pre0.
  assert (Eparent : nth_error compacted (Z.to_nat (anchorIndex - 1)) = Some above).
  { rewrite Ecomp, Ea, length_app. simpl.
    replace (Z.to_nat (Z.of_nat (length pre + 1) - 1)) with (length pre) by lia.
    rewrite <- app_assoc. simpl. apply nth_error_app_len. }
  rewrite Eparent in H. cbv zeta in H.
  set (p := if truthy (parent_id above)
            then if truthy (parent_id above)
                    && forallb (fun todo => opt_eqb (parent_id todo) (parent_id above))
                               block
                 then Some (id above) else parent_id above
            else Some (id above)) in H.
  set (reparent := fun todo : TodoRecord =>
                     if negb (includes (ids_of block) (id todo)) then todo
                     else with_parent todo p) in H.
  destruct (negb (Outline.differsFrom (normalizePositions (map reparent compacted))
                                      snapshot)); [discriminate|].
  injection H as <- <-.
  assert (Hid : forall x, id (reparent x) = id x).
  { intros x. unfold reparent. destruct (negb _); reflexivity. }
  exists pre, above, first, post, p.
  split; [rewrite Ei, <- app_assoc; reflexivity|].
  split; [now apply in_map|]. split; [exact Hpre|]. split.
  { unfold p. destruct (truthy (parent_id above)) eqn:T; [|now left].
    cbn [andb]. destruct (forallb _ block); [now left|right; auto]. }
  split; [|split; [|split]].
  - intros t Hin Hb. unfold normalizePositions, mapi in Hin.
    apply mapiFrom_In in Hin. destruct Hin as (x & i & Hx & ->).
    apply in_map_iff in Hx. destruct Hx as (x0 & <- & Hx0).
    cbn [parent_id with_position id] in *. rewrite Hid in Hb.
    unfold reparent. apply includes_In in Hb. rewrite Hb. reflexivity.
  - intros t Hin Hb. unfold normalizePositions, mapi in Hin.
    apply mapiFrom_In in Hin. destruct Hin as (x & i & Hx & ->).
    apply in_map_iff in Hx. destruct Hx as (x0 & <- & Hx0).
    cbn [id with_position] in Hb. rewrite Hid in Hb.
    apply includes_not_In in Hb.
    exists x0. split; [eapply Permutation_in; eauto|].
    unfold reparent. rewrite Hb. reflexivity.
  - rewrite ids_normalizePositions, (ids_map_pres reparent compacted Hid).
    unfold ids_of. now apply Permutation_map.
  - rewrite positions_normalizePositions, length_map.
    now rewrite (Permutation_length Hperm).
Qed.

Lemma nest_puts_block_under_record_above_witness :
  exists pre above first post p,
    Examples.abcd = pre ++ above :: first :: post /\
    In (id first) ["B"; "C"] /\
    (forall x, In x (pre ++ [above]) -> ~ In (id x) ["B"; "C"]) /\
    (p = Some (id above) \/ (p = parent_id above /\ truthy p = true)) /\
    (forall t, In t (fst (Outline.afterNest Examples.abcd ["B"; "C"] "B",
                          ["B"; "C"])) ->
               In (id t) ["B"; "C"] -> parent_id t = p) /\
    (forall t, In t (fst (Outline.afterNest Examples.abcd ["B"; "C"] "B",
                          ["B"; "C"])) ->
               ~ In (id t) ["B"; "C"] ->
               exists t0, In t0 Examples.abcd /\ strip t0 = strip t) /\
    Permutation (ids_of (fst (Outline.afterNest Examples.abcd ["B"; "C"] "B",
                              ["B"; "C"])))
                (ids_of Examples.abcd) /\
    map position (fst (Outline.afterNest Examples.abcd ["B"; "C"] "B", ["B"; "C"]))
    = map Z.of_nat (seq 0 (length Examples.abcd)).
Proof.
  apply (@nest_puts_block_under_record_above Examples.abcd ["B"; "C"] "B"
           (Outline.afterNest Examples.abcd ["B"; "C"] "B") ["B"; "C"] eq_refl).
Defined.

(** ** Bulk deletes that fail *)

Lemma deleteAll_requests : forall env targetIds,
  hasSupabaseEnv env = true ->
  fst (deleteAll env targetIds) = map Rest.DeleteTodo targetIds.
Proof.
  intros env targetIds Henv. unfold deleteAll. cbn [fst]. rewrite Henv.
  induction targetIds as [|k ks IH]; [reflexivity|].
  cbn [map concat]. rewrite IH. reflexivity.
Qed.

Lemma deleteAll_nil : forall env, snd (deleteAll env []) = None.
Proof.
  intros env. unfold deleteAll. cbn [snd map].
  apply promiseAll_none. intros r [].
Qed.

(** X29.  A bulk delete that the store refuses puts the list back.  In the
    outline variant the list, the editor and the rest of the state are as
    before, with the message set, but the selection and its anchor stay
    cleared; in the hierarchy variant the whole state is as before, with
    the message set.  The hierarchy variant also puts the list back when
    every delete was accepted and only the save of the new order was
    refused: the deleted tasks are then shown again although the store no
    longer has them. *)
Theorem failed_bulk_delete_restores_list :
  forall (env : Env) (st : AppState) (m : string),
    hasSupabaseEnv env = true -> truthy (busyId st) = false ->
    (forall activeId,
       truthy (editingId st) = false ->
       snd (deleteAll env (Outline.dedupe [] (targetsOf (selectedTodoIds st) activeId)))
       = Some m ->
       fst (Outline.deleteFocusedSelection env activeId st)
       = afterRejection m (setSelectionAnchorId None (setSelectedTodoIds [] st))) /\
    (snd (deleteAll env (Hierarchy.targetIdsOf st)) = Some m ->
     fst (Hierarchy.handleDeleteSelection env st) = afterRejection m st) /\
    (Hierarchy.targetIdsOf st <> [] ->
     snd (deleteAll env (Hierarchy.targetIdsOf st)) = None ->
     snd (Rest.updateTodoPositions true (net env) (arrival env) (client env)
            (ids_of (withoutSelected (Hierarchy.targetIdsOf st) (todos st))))
     = Rest.Rejected m ->
     fst (Hierarchy.handleDeleteSelection env st) = afterRejection m st /\
     forall k, In k (Hierarchy.targetIdsOf st) ->
               In (Rest.DeleteTodo k) (snd (Hierarchy.handleDeleteSelection env st))).
Proof.
  intros env st m Henv Hbusy. split; [|split].
  - intros activeId Hedit Hfail. unfold Outline.deleteFocusedSelection.
    rewrite Henv, Hbusy, Hedit. cbn [negb orb].
    fold (targetsOf (selectedTodoIds st) activeId).
    destruct (Outline.dedupe [] (targetsOf (selectedTodoIds st) activeId))
      as [|t ts] eqn:Et.
    { rewrite deleteAll_nil in Hfail. discriminate. }
    destruct (deleteAll env (t :: ts)) as [reqs failure]. cbn [snd] in Hfail.
    subst failure. cbn [fst]. unfold afterRejection. destruct st; reflexivity.
  - intros Hfail. unfold Hierarchy.handleDeleteSelection.
    rewrite Henv, Hbusy. cbn [negb orb].
    destruct (Hierarchy.targetIdsOf st) as [|t ts] eqn:Et.
    { rewrite deleteAll_nil in Hfail. discriminate. }
    cbn [length Nat.eqb orb].
    destruct (deleteAll env (t :: ts)) as [reqs failure]. cbn [snd] in Hfail.
    subst failure. cbn [fst]. unfold afterRejection. destruct st; reflexivity.
  - intros Hne Hok Hsave. unfold Hierarchy.handleDeleteSelection.
    rewrite Henv, Hbusy. cbn [negb orb].
    pose proof (deleteAll_requests env (Hierarchy.targetIdsOf st) Henv) as Hreqs.
    destruct (Hierarchy.targetIdsOf st) as [|t ts] eqn:Et; [congruence|].
    cbn [length Nat.eqb orb].
    destruct (deleteAll env (t :: ts)) as [reqs failure]. cbn [fst snd] in *.
    subst failure reqs.
    unfold withoutSelected in Hsave.
    destruct (Rest.updateTodoPositions true (net env) (arrival env) (client env) _)
      as [reqs' outcome]. cbn [snd] in Hsave. subst outcome. cbn [fst snd].
    split; [unfold afterRejection; destruct st; reflexivity|].
    intros k Hk. apply in_or_app. left. now apply in_map.
Qed.

Lemma failed_bulk_delete_restores_list_witness :
  hasSupabaseEnv (Examples.envOf refuseAll) = true /\
  truthy (busyId (Examples.selecting Examples.abc ["a"; "b"])) = false /\
  fst (Hierarchy.handleDeleteSelection (Examples.envOf refuseAll)
         (Examples.selecting Examples.abc ["a"; "b"]))
  = afterRejection "503 Service Unavailable" (Examples.selecting Examples.abc ["a"; "b"]).
Proof.
  split; [reflexivity|]. split; [reflexivity|].
  exact (proj1 (proj2 (@failed_bulk_delete_restores_list (Examples.envOf refuseAll)
                         (Examples.selecting Examples.abc ["a"; "b"])
                         "503 Service Unavailable" eq_refl eq_refl)) eq_refl).
Defined.

(** ** Nesting and unnesting in the hierarchy variant *)

Lemma insertByKey_In : forall key x sorted k,
  In k (HierarchyNest.insertByKey key x sorted) <-> k = x \/ In k sorted.
Proof.
  intros key x sorted k. induction sorted as [|y r IH]; simpl.
  - intuition.
  - destruct (key x <=? key y)%Z; simpl; [intuition|]. rewrite IH. intuition.
Qed.

Lemma sortByKey_In : forall key l k,
  In k (HierarchyNest.sortByKey key l) <-> In k l.
Proof.
  intros key l k. induction l as [|x l IH]; simpl; [tauto|].
  rewrite insertByKey_In, IH. intuition.
Qed.

Lemma setParent_same : forall k p l previous,
  sameButParents l previous -> sameButParents (HierarchyNest.setParent k p l) previous.
Proof.
  intros k p l previous H. unfold sameButParents, HierarchyNest.setParent in *.
  rewrite <- H. rewrite map_map. apply map_ext. intros item.
  destruct (id item =? k); reflexivity.
Qed.

Lemma buildDepthMap_total : forall items,
  exists entries, Hierarchy.buildDepthMap items = Some entries.
Proof.
  intros items.
  destruct (@depthLoop_total items items [] (cacheOk_nil items)) as (entries & E & _).
  exists entries. exact E.
Qed.

Lemma nestStep_ok : forall visibleOrder working updates k,
  exists acc',
    HierarchyNest.nestStep visibleOrder (working, updates) k = Some acc' /\
    (acc' = (working, updates) \/
     exists p, acc' = (HierarchyNest.setParent k p working, updates ++ [(k, p)])).
Proof.
  intros visibleOrder working updates k. unfold HierarchyNest.nestStep.
  set (visible := HierarchyNest.visibleIn visibleOrder working).
  set (index := findIndex (fun todo => id todo =? k) visible).
  destruct (index <=? 0)%Z eqn:Ei; [eauto|].
  apply Z.leb_gt in Ei.
  destruct (@findIndex_found_nth _ (fun todo => id todo =? k) visible index eq_refl)
    as (n & current & En & Hn & Hk); [lia|].
  apply String.eqb_eq in Hk.
  destruct (nth_error visible (Z.to_nat (index - 1))) as [parent|]; [|eauto].
  rewrite En, Nat2Z.id, Hn.
  destruct (buildDepthMap_total working) as (depthMap & ->).
  cbv zeta. rewrite Hk.
  destruct (opt_eqb (parent_id current) _); eauto.
Qed.

Lemma unnestStep_ok : forall visibleOrder working updates k,
  exists acc',
    HierarchyNest.unnestStep visibleOrder (working, updates) k = Some acc' /\
    (acc' = (working, updates) \/
     exists p, acc' = (HierarchyNest.setParent k p working, updates ++ [(k, p)])).
Proof.
  intros visibleOrder working updates k. unfold HierarchyNest.unnestStep.
  set (visible := HierarchyNest.visibleIn visibleOrder working).
  destruct (find (fun todo => id todo =? k) visible) as [current|] eqn:Ec; [|eauto].
  apply find_some in Ec. destruct Ec as [_ Hk]. apply String.eqb_eq in Hk.
  destruct (negb (truthy (parent_id current))); [eauto|].
  destruct (buildDepthMap_total working) as (depthMap & ->).
  cbv zeta. rewrite Hk.
  destruct (opt_eqb _ (parent_id current)); eauto.
Qed.

Lemma forEachTarget_ok :
  forall (step : list TodoRecord * list (string * option string) -> string ->
                 option (list TodoRecord * list (string * option string)))
         (previous : list TodoRecord) (allowed : list string),
    (forall working updates k,
       exists acc',
         step (working, updates) k = Some acc' /\
         (acc' = (working, updates) \/
          exists p, acc' = (HierarchyNest.setParent k p working, updates ++ [(k, p)]))) ->
    forall targetIds working updates,
      incl targetIds allowed ->
      sameButParents working previous ->
      exists added,
        HierarchyNest.forEachTarget step targetIds (working, updates)
        = Some (applyParents added working, updates ++ added) /\
        sameButParents (applyParents added working) previous /\
        (forall u, In u added -> In (fst u) allowed).
Proof.
  intros step previous allowed Hstep targetIds.
  induction targetIds as [|k rest IH]; intros working updates Hincl Hsame.
  - exists []. simpl. rewrite app_nil_r. repeat split; auto.
  - cbn [HierarchyNest.forEachTarget].
    destruct (Hstep working updates k) as (acc' & -> & [->|(p & ->)]).
    + apply IH; auto. intros x Hx. apply Hincl. now right.
    + destruct (IH (HierarchyNest.setParent k p working) (updates ++ [(k, p)]))
        as (added & E & Hs & Hu).
      * intros x Hx. apply Hincl. now right.
      * now apply setParent_same.
      * exists ((k, p) :: added). cbn [applyParents fold_left fst snd].
        fold (applyParents added (HierarchyNest.setParent k p working)).
        rewrite <- app_assoc in E. split; [exact E|]. split; [exact Hs|].
        intros u [<-|Hin]; [|now apply Hu]. simpl. apply Hincl. now left.
Qed.

Lemma setTodos_same : forall st, setTodos (todos st) st = st.
Proof. intros []. reflexivity. Qed.

Lemma reparentVisible_ok :
  forall (step : list string -> list TodoRecord * list (string * option string) ->
                 string -> option (list TodoRecord * list (string * option string)))
         (env : Env) (visible : list TodoRecord) (st : AppState),
    (forall visibleOrder working updates k,
       exists acc',
         step visibleOrder (working, updates) k = Some acc' /\
         (acc' = (working, updates) \/
          exists p, acc' = (HierarchyNest.setParent k p working, updates ++ [(k, p)]))) ->
    hasSupabaseEnv env = true ->
    reparentsOnly env st (HierarchyNest.reparentVisible step env visible st).
Proof.
  intros step env visible st Hstep Henv.
  unfold reparentsOnly, HierarchyNest.reparentVisible.
  assert (Hsame : sameButParents (todos st) (todos st)) by reflexivity.
  destruct (negb (hasSupabaseEnv env) || (length (Hierarchy.targetIdsOf st) =? 0)%nat
            || truthy (busyId st) || truthy (editingId st)).
  { exists (st, []), []. cbn [fst snd map].
    split; [reflexivity|]. split; [exact Hsame|]. split; [intros u0 H0; destruct H0|].
    split; [reflexivity|]. split; [reflexivity|].
    split; [intros H; now destruct H|intros m H; now destruct H]. }
  destruct (@forEachTarget_ok (step (ids_of visible)) (todos st)
              (Hierarchy.targetIdsOf st) (Hstep (ids_of visible))
              (HierarchyNest.sortByKey (JsIndex.indexOf (ids_of visible))
                                       (Hierarchy.targetIdsOf st))
              (todos st) [])
    as (updates & E & Hs & Hu); auto.
  { intros k Hk. now apply sortByKey_In in Hk. }
  rewrite E. cbn [app].
  destruct updates as [|u us].
  { exists (st, []), []. cbn [fst snd map].
    split; [reflexivity|]. split; [exact Hsame|]. split; [intros u0 H0; destruct H0|].
    split; [reflexivity|]. split; [reflexivity|].
    split; [intros H; now destruct H|intros m H; now destruct H]. }
  pose proof (updateParents_requests env (u :: us) Henv) as Hreqs.
  destruct (OutlineActions.updateParents env (u :: us)) as [reqs failure] eqn:Eup.
  cbn [fst] in Hreqs.
  destruct failure as [m|]; eexists; exists (u :: us); (split; [reflexivity|]);
    rewrite ?Eup; cbn [fst snd todos error setBusyId setTodos setError].
  - split; [exact Hsame|]. split; [exact Hu|]. split; [exact Hreqs|].
    split; [discriminate|]. split; [intros _ H; discriminate H|].
    intros m' _ H. injection H as <-. unfold afterRejection.
    now rewrite setTodos_same.
  - split; [exact Hs|]. split; [exact Hu|]. split; [exact Hreqs|].
    split; [discriminate|]. split; [reflexivity|].
    intros m' _ H. discriminate H.
Qed.

(** X30.  Nesting and unnesting in the hierarchy variant change parent
    references and nothing else.  [handleNestActiveTodo] and
    [handleUnnestActiveTodo] always settle; the list they leave has the
    same records in the same order with the same ranks as the list they
    found, only parent references may differ; they send one request per
    parent update, each for one of the targets and carrying the new parent
    and no other field.  When every update is accepted the list left is
    the list found with the updates applied and no error is shown; when
    one is refused the list found is put back and the message of the
    refusal is shown; and without an update the state is untouched. *)
Theorem hierarchy_nesting_changes_parents_only :
  forall (env : Env) (visible : list TodoRecord) (st : AppState),
    hasSupabaseEnv env = true ->
    reparentsOnly env st (HierarchyNest.handleNestActiveTodo env visible st) /\
    reparentsOnly env st (HierarchyNest.handleUnnestActiveTodo env visible st).
Proof.
  intros env visible st Henv. split.
  - apply reparentVisible_ok; [|exact Henv]. apply nestStep_ok.
  - apply reparentVisible_ok; [|exact Henv]. apply unnestStep_ok.
Qed.

Lemma hierarchy_nesting_changes_parents_only_witness :
  hasSupabaseEnv (Examples.envOf echoStore) = true /\
  reparentsOnly (Examples.envOf echoStore)
    (Examples.selecting Examples.abc ["b"])
    (HierarchyNest.handleNestActiveTodo (Examples.envOf echoStore)
       Examples.abc (Examples.selecting Examples.abc ["b"])).
Proof.
  split; [reflexivity|].
  exact (proj1 (@hierarchy_nesting_changes_parents_only
                  (Examples.envOf echoStore) Examples.abc
                  (Examples.selecting Examples.abc ["b"]) eq_refl)).
Defined.

(** What the handlers do on [a, b, c] with [b] selected: nesting puts [b]
    under [a] when the store accepts the update and leaves the list as it
    was, with the message, when the store refuses it. *)
Remark hierarchy_nest_accepted_and_refused :
  let st := Examples.selecting Examples.abc ["b"] in
  option_map (fun out => (map parent_id (todos (fst out)), error (fst out), snd out))
    (HierarchyNest.handleNestActiveTodo (Examples.envOf echoStore) Examples.abc st)
  = Some ([None; Some "a"; None], None,
          [Rest.PatchTodo "b" (Rest.mkUpdates None None None (Some (Some "a")))
                          Rest.positionedColumns]) /\
  option_map (fun out => (todos (fst out), error (fst out)))
    (HierarchyNest.handleNestActiveTodo (Examples.envOf refuseAll) Examples.abc st)
  = Some (Examples.abc, Some "503 Service Unavailable").
Proof. split; vm_compute; reflexivity. Qed.
